(* ===== verification/_CoqProject ===== *)
-Q . S2P
Prelude.v
Spinlock.v
Bio.v
Log.v
Console.v
CString.v
Kalloc.v
Vm.v
Fs.v
Pipe.v
File.v
Proc.v
Syscall.v
Exec.v
Sysfile.v
Trap.v
KernelInv.v
Lottery.v
Signals.v
FsSpec.v
FsData.v
Grep.v
Sh.v
ShPrint.v
ShProc.v
ShRun.v
Umalloc.v
Ide.v
Mkfs.v
MkfsSpec.v
MkfsRead.v
Boot.v
Mp.v
Entry.v
Irq.v
Utils.v
