(* ===== verification/Prelude.v ===== *)
(** * xv6 with lottery scheduling and signals: a verification library

    The program (src/) is the teaching kernel xv6 for the x86, changed in three
    ways: processes end with an exit status that [wait] returns, the scheduler
    holds a lottery among processes under one of three ticket policies and
    accounts the time of each process ([wait_stat]), and processes send each
    other signals.  Around the kernel stand the boot loader, the programs that run
    on it (a shell, utilities, a memory allocator) and mkfs, which builds the
    disk image.  The library translates this code into executable definitions and
    proves what its parts promise.

    ** The parts and the files that model them

    From the bottom up, each file building on the ones before it:

    - Prelude.v: machine integers, the monad of kernel routines, sleep
      channels, byte buffers, lists;
    - Spinlock.v (spinlock.c): [Cli] is the interrupt masking of one CPU,
      [Lock] the lock record, [SMP] the calls of any number of CPUs as
      interleaved atomic steps;
    - Bio.v (bio.c, memide.c): the buffer cache [io], its LRU list and the disk
      below it;
    - Log.v (log.c, readsb of fs.c): the write-ahead log [lst] over the cache,
      and crashes;
    - Console.v (console.c, kbd.c, uart.c): screen, keyboard, line editing;
    - CString.v (string.c, ulib.c): [KString] and [UString], the kernel's and
      the user library's string routines;
    - Kalloc.v (kalloc.c) and Vm.v (vm.c): physical pages and page tables, in a
      byte-addressed memory [kmem];
    - Fs.v (fs.c, the device part of console.c): blocks, inodes, directories and
      paths, state [fs];
    - Pipe.v (pipe.c) and File.v (file.c): pipes and open files, state [fst];
    - Proc.v (proc.c): the process table, scheduler and signals, state [kst];
    - Syscall.v (syscall.c, sysproc.c), Exec.v (exec.c), Sysfile.v (sysfile.c):
      the system calls;
    - Trap.v (trap.c): system call dispatch, interrupts, faults, and signal
      delivery on the way back to user mode;
    - KernelInv.v, Lottery.v, Signals.v, FsSpec.v, FsData.v: theorems about the
      whole kernel, the scheduler, signals and the file system.

    Around the kernel's core:

    - Ide.v (ide.c): the driver of a real disk, which stands where Bio.v has the
      in-memory disk;
    - Boot.v (bootmain.c), Mp.v (mp.c), Irq.v (picirq.c, ioapic.c, lapic.c,
      timer.c, uart.c): the boot loader, the BIOS tables, the interrupt
      controllers, clocks and the serial port;
    - Entry.v (mmu.h, vectors.pl, trapasm.S, swtch.S, usys.S, exit_ext.S,
      initcode.S, [seginit], [tvinit]): descriptor tables and the assembly of trap
      entry, context switch and system calls, on a small x86 machine;
    - Mkfs.v, MkfsSpec.v, MkfsRead.v (mkfs.c): the program that builds the image,
      the image, and the kernel of Fs.v reading it;
    - Sh.v, ShPrint.v, ShRun.v (sh.c): the shell's parser, its inverse, and what
      running a command starts; ShProc.v runs the shell's processes, with every
      interleaving of them;
    - Grep.v (grep.c), Umalloc.v (umalloc.c), Utils.v (printf.c and the small
      utilities): the other user programs.

    Definitions have the names of the C functions, structures and fields.  A
    pointer to an element of a table ([struct proc *], [struct file *],
    [struct inode *], [struct buf *]) is the element's index; a structure is a
    record; an [int] or [uint] is a [Z] wrapped where the code can overflow.

    ** Routines

    A routine is [M S A], a function from the state to an [outcome]: [Done]
    with the result and new state, [Panic] with the message, [Sleep] on a
    channel with the state at that moment, or [OutOfFuel].  The layers' states
    are nested and [lift] runs a routine of a lower layer in a higher one.
    Wakeups of the lower layers are collected in a list of channels that
    Proc.v delivers to the process table when the layer is left.  When a
    routine sleeps at the level of Proc.v the process is marked SLEEPING and the
    outcome is final; the loops around [sleep] are resumed by calling the
    routine again, with the locals that survive the sleep kept in the state
    where the code keeps any ([wst] and [rst] of Pipe.v, [cread] of Console.v).
    The scheduler and [trap] are cut at the points where the processor changes
    hands ([scheduler_step], [trap_resume]).

    Code that works on something outside the sources is a function of it: Ide.v
    and Boot.v of an interface of disk ports ([ata]), Irq.v of the values a device
    answers with, Utils.v and ShRun.v of the answers of system calls.  The
    documented behaviour of a disk is [ata_laws]: a device is idle, busy with a
    command or ready to transfer ([phase]); commands and data have the effect the
    standard gives them in the phases it allows, nothing is known of an access in
    another phase, and polling the status leads out of a busy one.  The theorems
    about ide.c suppose two things more, by name: the disk reports no error
    ([no_fault]), and it takes the data of a write right behind the command
    ([prompt]), which the standard does not promise and idestart relies on.

    Critical sections are atomic: the code between [acquire] and [release] of
    one lock is one step, which is what mutual exclusion in Spinlock.v licenses.
    Above the locks one processor runs processes.

    ** What is proved

    - Locks: mutual exclusion for any number of CPUs and any interleaving; every
      outcome of [acquire] and [release]; [pushcli] and [popcli] nest.
    - Buffer cache: an invariant (LRU ring, no block cached twice, clean buffers
      agree with the disk) that all clients preserve; every outcome of [bread];
      the victim [bget] recycles is the least recently used one.
    - Log: a transaction is atomic against a crash after any prefix of its disk
      writes and repeated crashes in recovery; the reservations of [begin_op]
      suffice for concurrent operations when the log has room for its header.
    - Console: output stays on the screen; [printint] reads back; the interrupt
      handler refines a line editor on lists; a read takes one line.
    - Strings: [memmove], [memset], [safestrcpy] against their specifications.
    - Memory: every page is free or held by one client; booting frees every page
      once; [mappages] maps exactly the range it is given.
    - File system: path elements; the on-disk inode round trip; the inode cache
      holds an inode once; [readi] returns and [writei] replaces exactly the
      bytes of the file, through direct and indirect blocks; [balloc] takes the
      first free block.
    - Pipes: reads and writes on every branch, and a pipe is a bounded FIFO under
      any interleaving, the wrap-around of its 32-bit counters included.
    - Processes: the invariant of the process table ([table_ok] of KernelInv.v)
      holds along every sequence of scheduler steps, traps, resumed sleeps and
      signal deliveries, as long as pids do not run out: no two processes have
      one pid, every process but init has a living parent, so that every zombie
      has somebody to reap it.
    - Scheduling: the draw finds the owner of the ticket and gives each runnable
      process as many of the numbers as it has tickets; [rand] stays in range; a
      tick is charged once; no wakeup is lost.
    - Signals: delivery takes the lowest pending signal and builds the handler's
      frame, and changes nothing else.
    - Disk: serving the queue of ide.c has the effect of the in-memory driver's
      [iderw] on the buffers in the order of the queue, and every request to
      either disk is served.
    - Entry: an interrupt taken through the table reaches [trap] with a
      [trapframe] of Proc.v that holds the interrupted registers, and the program
      resumes with those [trap] and [do_signal] leave in it; [swtch] resumes what
      was switched away from; the first switch to a process enters user mode.
    - Boot, tables and devices: [bootmain] loads the program segments and jumps to
      the entry; [mpinit] reads the processors of a table; the enabled interrupts
      are delivered to the processors and vectors asked for; [cmostime] returns a
      time the clock showed.
    - mkfs: when the files fit the program succeeds, no two files share a block,
      the root directory lists the files, and the kernel's [ilock] and [readi]
      find each file's bytes.
    - Shell: parsing terminates, builds well-formed commands and inverts printing;
      every interleaving of the processes of a line starts exactly the programs
      the command lists, with their arguments, pipes and redirections, those
      after a semicolon when those before it have ended, and comes to an end.
    - User programs: the matcher of grep decides the regular language of its
      pattern; blocks of [malloc] are disjoint under any use; freed memory is
      found again; wc counts lines, words and bytes.
    - Theorems that state what the code does where it does not do what it means
      to: the scheduler runs the slots after the winner without a draw, the
      wakeup bonus of policy 3 lands behind the table, [sigreturn] loses [eax],
      [kill(0)] marks a free slot, the log mkfs.c makes is one block short,
      [allocuvm] reports a page it could not map, [ideintr] ignores a failed read,
      [idestart] does not wait for the disk to ask for data,
      [mpinit] loops on an unknown entry and overruns its array, grep drops part
      of a line, [malloc] grants a request that wraps, and a program that returns
      from [main] exits with its argument count.

    ** Bounds and fuel

    Loops over tables are recursions over lists of indices.  The loops of
    [readi], [writei], [mappages], [allocuvm] and the like take as fuel the
    number of bytes or pages left, which each round decreases, so the fuel is
    never reached (the theorems show the result [Done]).  Path lookup takes the
    length of the path.  The scan of the LRU list takes [SCAN] steps, more than
    the ring has buffers.  String loops that only stop at a NUL take a bound and
    the theorems show that one above the string's length is enough.  The shell's
    parser has a bound of four calls for each character, which is never reached;
    [grep] and the shell's loop take the length of their input.  The utilities'
    read loops and the loops that wait for a device take a bound as an argument,
    and the theorems say which bound suffices.

    ** Parameters

    The machine code [exec] copies to the user stack comes out of the compiler
    and is a parameter of Exec.v and Trap.v, and so is the content of variables
    the code reads uninitialised.

    ** What is not modelled

    The assembly that enters protected mode and turns on paging (bootasm.S,
    entry.S, entryother.S), [kvmalloc], [switchkvm] and [idtinit], which load one
    register each, and main.c, which calls the initialisers in order and starts
    the other processors: they act on processor state no other part of the model
    has.  The empty drivers of memide.c but for [iderw].  grep's [main].  The test
    programs, which define no behaviour.  Console output of debugging [cprintf]
    calls is not threaded through the kernel state.  User memory is accessed
    through the page tables of Vm.v; user code itself is not run on them, and each
    trap brings in a trap frame that may hold anything.  The user programs above
    the system calls are modelled on their own, not on top of the kernel state. *)

From Stdlib Require Export ZArith Lia.
From stdpp Require Export base gmap strings functions relations.
From stdpp Require Export list.
#[global] Open Scope Z_scope.

(** ** Machine integers

    C's [uint], [int], [ushort], [short], [uchar] are kept as [Z]; each
    operation that can leave the range of its type is wrapped where the code
    stores or compares the result. *)

Definition u32 (x : Z) : Z := x mod 2 ^ 32.
Definition s32 (x : Z) : Z := (x + 2 ^ 31) mod 2 ^ 32 - 2 ^ 31.
Definition u16 (x : Z) : Z := x mod 2 ^ 16.
Definition s16 (x : Z) : Z := (x + 2 ^ 15) mod 2 ^ 16 - 2 ^ 15.
Definition u8 (x : Z) : Z := x mod 2 ^ 8.
Definition s8 (x : Z) : Z := (x + 2 ^ 7) mod 2 ^ 8 - 2 ^ 7.

Definition is_u32 (x : Z) : Prop := 0 <= x < 2 ^ 32.
Definition is_s32 (x : Z) : Prop := - 2 ^ 31 <= x < 2 ^ 31.
Definition is_u8 (x : Z) : Prop := 0 <= x < 256.

Create HintDb xv6.

Lemma u32_range x : is_u32 (u32 x).
Proof. unfold is_u32, u32. apply Z.mod_pos_bound. lia. Qed.

Lemma s32_range x : is_s32 (s32 x).
Proof.
  unfold is_s32, s32. pose proof (Z.mod_pos_bound (x + 2 ^ 31) (2 ^ 32) eq_refl). lia.
Qed.

Lemma u8_range x : is_u8 (u8 x).
Proof. unfold is_u8, u8. apply Z.mod_pos_bound. lia. Qed.

Lemma u32_id x : is_u32 x → u32 x = x.
Proof. unfold is_u32, u32. intros. by apply Z.mod_small. Qed.

Lemma s32_id x : is_s32 x → s32 x = x.
Proof. unfold is_s32, s32. intros. rewrite Z.mod_small; lia. Qed.

Lemma u8_id x : is_u8 x → u8 x = x.
Proof. unfold is_u8, u8. intros. by apply Z.mod_small. Qed.

Lemma u32_u32 x : u32 (u32 x) = u32 x.
Proof. apply u32_id, u32_range. Qed.

Lemma s32_u32 x : s32 (u32 x) = s32 x.
Proof.
  unfold s32, u32. rewrite Zplus_mod_idemp_l. reflexivity.
Qed.

Lemma u32_s32 x : u32 (s32 x) = u32 x.
Proof.
  unfold s32, u32. rewrite Zminus_mod_idemp_l. f_equal. lia.
Qed.

#[export] Hint Resolve u32_range s32_range u8_range : xv6.
#[export] Hint Rewrite u32_u32 s32_u32 u32_s32 : xv6.

(** ** The kernel monad

    A kernel routine is a function from the component's state to an outcome:
    it returns a value, it calls [panic] (which never returns), it goes to
    sleep on a channel (the caller is descheduled with the state as it then
    is), or the bound on one of its loops is exhausted.  Theorems that say a
    routine returns exclude the last three. *)

(** Wait channels: the addresses the kernel passes to [sleep] and [wakeup]. *)
Inductive chan :=
  | ChNone
  | ChBuf (i : nat)
  | ChLog
  | ChInode (i : nat)
  | ChPipeRead (p : Z)
  | ChPipeWrite (p : Z)
  | ChTicks
  | ChProc (i : nat)
  | ChInput.

#[export] Instance chan_eq_dec : EqDecision chan.
Proof. solve_decision. Defined.

Inductive outcome (S A : Type) : Type :=
  | Done (a : A) (s : S)
  | Panic (msg : string)
  | Sleep (c : chan) (s : S)
  | OutOfFuel.
Arguments Done {_ _} _ _.
Arguments Panic {_ _} _%_string_scope.
Arguments Sleep {_ _} _ _.
Arguments OutOfFuel {_ _}.

Definition M (S A : Type) : Type := S → outcome S A.

#[export] Instance M_ret {S} : MRet (M S) := λ A a s, Done a s.
#[export] Instance M_bind {S} : MBind (M S) := λ A B f m s,
  match m s with
  | Done a s' => f a s'
  | Panic msg => Panic msg
  | Sleep c s' => Sleep c s'
  | OutOfFuel => OutOfFuel
  end.

Definition panic {S A} (msg : string) : M S A := λ _, Panic msg.
Arguments panic {_ _} _%_string_scope.
Definition sleep_on {S A} (c : chan) : M S A := λ s, Sleep c s.
Definition out_of_fuel {S A} : M S A := λ _, OutOfFuel.
Definition get {S} : M S S := λ s, Done s s.
Definition gets {S A} (f : S → A) : M S A := λ s, Done (f s) s.
Definition put {S} (s : S) : M S unit := λ _, Done tt s.
Definition modify {S} (f : S → S) : M S unit := λ s, Done tt (f s).

(** The state a routine that returns leaves, for concrete runs. *)
Definition state_of {S A} (d : S) (o : outcome S A) : S :=
  match o with Done _ s => s | _ => d end.

(** The state a routine returns or sleeps with. *)
Definition left_in {S A} (o : outcome S A) : option S :=
  match o with Done _ s | Sleep _ s => Some s | _ => None end.

(** Run a routine of a component inside a larger state. *)
Definition lift {S T A} (g : S → T) (p : T → S → S) (m : M T A) : M S A := λ s,
  match m (g s) with
  | Done a t => Done a (p t s)
  | Panic msg => Panic msg
  | Sleep c t => Sleep c (p t s)
  | OutOfFuel => OutOfFuel
  end.

(** The same for a routine with locals of its own: [init] builds its state,
    [back] puts it back and [res] reads its result. *)
Definition lift_with {S T A B} (init : S → T) (back : T → S → S) (res : A → T → B) (m : M T A) : M S B := λ s,
  match m (init s) with
  | Done a t => Done (res a t) (back t s)
  | Panic msg => Panic msg
  | Sleep c t => Sleep c (back t s)
  | OutOfFuel => OutOfFuel
  end.

(** [for(x in l) body], where [body] may [return]. *)
Fixpoint for_each {S A R} (l : list A) (body : A → M S (option R)) : M S (option R) :=
  match l with
  | [] => mret None
  | x :: l' =>
      r ← body x;
      match r with
      | Some v => mret (Some v)
      | None => for_each l' body
      end
  end.

(** [for(x in l) body], where [body] never leaves the loop. *)
Fixpoint iter_each {S A} (l : list A) (body : A → M S unit) : M S unit :=
  match l with
  | [] => mret tt
  | x :: l' => body x;; iter_each l' body
  end.

Section Monad.
Context {S A B C : Type}.

Lemma bind_Done (m : M S A) (k : A → M S B) s a s' :
  m s = Done a s' → (m ≫= k) s = k a s'.
Proof. unfold mbind, M_bind. by intros ->. Qed.

Lemma bind_Panic (m : M S A) (k : A → M S B) s msg :
  m s = Panic msg → (m ≫= k) s = Panic msg.
Proof. unfold mbind, M_bind. by intros ->. Qed.

Lemma bind_Done_inv (m : M S A) (k : A → M S B) s b s' :
  (m ≫= k) s = Done b s' → ∃ a s1, m s = Done a s1 ∧ k a s1 = Done b s'.
Proof. unfold mbind, M_bind. destruct (m s); naive_solver. Qed.

Lemma bind_assoc (m : M S A) (f : A → M S B) (g : B → M S C) s :
  ((m ≫= f) ≫= g) s = (m ≫= (λ a, f a ≫= g)) s.
Proof. unfold mbind, M_bind. by destruct (m s). Qed.
End Monad.

(** [mgo] runs the next statement of a routine whose outcome is known;
    [minv] splits a hypothesis that a sequence of statements returned. *)
Ltac mgo := erewrite bind_Done; [| solve [reflexivity | eassumption | eauto]]; cbn beta iota.

(** Unfold the monad in the goal and compute. *)
Ltac munfold :=
  unfold mbind, M_bind, mret, M_ret, gets, get, put, modify, panic, sleep_on, out_of_fuel; cbn.

Ltac minv H :=
  let a := fresh "r" in
  let s := fresh "s" in
  let H1 := fresh H in
  apply bind_Done_inv in H; destruct H as (a & s & H1 & H).

(** ** Lists *)

Lemma filter_none {A} (P : A → Prop) `{∀ x, Decision (P x)} (l : list A) :
  (∀ x, x ∈ l → ¬ P x) → filter P l = [].
Proof.
  induction l as [|x l IH]; intros H0; [done|]. rewrite filter_cons, decide_False by (apply H0; set_solver).
  apply IH. intros y Hy. apply H0. set_solver.
Qed.

Lemma filter_id {A} (P : A → Prop) `{∀ x, Decision (P x)} (l : list A) :
  (∀ x, x ∈ l → P x) → filter P l = l.
Proof.
  induction l as [|x l IH]; intros H0; [done|]. rewrite filter_cons, decide_True by (apply H0; set_solver).
  f_equal. apply IH. intros y Hy. apply H0. set_solver.
Qed.

Lemma filter_remove (l1 l2 : list nat) (x : nat) :
  NoDup (l1 ++ x :: l2) → filter (λ y, y ≠ x) (l1 ++ x :: l2) = l1 ++ l2.
Proof.
  intros (_ & H1 & (H2 & _)%NoDup_cons)%NoDup_app.
  rewrite filter_app, filter_cons, decide_False by naive_solver.
  rewrite !filter_id; [done|set_solver|]. intros y Hy ->. apply (H1 x); set_solver.
Qed.

Lemma find_ext {A} (f g : A → bool) (l : list A) : (∀ x, f x = g x) → find f l = find g l.
Proof. intros H. induction l as [|x l IH]; cbn; [done|]. by rewrite H, IH. Qed.

Lemma head_elem {A} (l : list A) x : head l = Some x → x ∈ l.
Proof. destruct l; cbn; [done|]. intros [= ->]. set_solver. Qed.

Lemma head_filter_split {A} (P : A → Prop) `{∀ x, Decision (P x)} (l : list A) x :
  head (filter P l) = Some x → ∃ l1 l2, l = l1 ++ x :: l2 ∧ (∀ y, y ∈ l1 → ¬ P y) ∧ P x.
Proof.
  induction l as [|y l IH]; [done|]. rewrite filter_cons. case_decide as Hy.
  - intros [= ->]. exists [], l. split_and!; try done. by intros y ?%not_elem_of_nil.
  - intros (l1 & l2 & -> & H1 & Hx)%IH. exists (y :: l1), l2. split_and!; try done.
    intros z [->|Hz]%elem_of_cons; auto.
Qed.

Lemma head_none {A} (l : list A) : head l = None → l = [].
Proof. by destruct l. Qed.

(** ** Little-endian fields of a byte buffer

    The code casts [buf->data] to C structures; a field at byte offset [i] is
    read and written through these. *)

Definition get16 (d : list Z) (i : nat) : Z := d !!! i + 2 ^ 8 * d !!! (i + 1)%nat.

Definition get32 (d : list Z) (i : nat) : Z :=
  d !!! i + 2 ^ 8 * d !!! (i + 1)%nat + 2 ^ 16 * d !!! (i + 2)%nat + 2 ^ 24 * d !!! (i + 3)%nat.

Definition put16 (d : list Z) (i : nat) (v : Z) : list Z :=
  <[i := u8 v]> (<[(i + 1)%nat := u8 (v / 2 ^ 8)]> d).

Definition put32 (d : list Z) (i : nat) (v : Z) : list Z :=
  <[i := u8 v]> (<[(i + 1)%nat := u8 (v / 2 ^ 8)]>
  (<[(i + 2)%nat := u8 (v / 2 ^ 16)]> (<[(i + 3)%nat := u8 (v / 2 ^ 24)]> d))).

(** Overwrite the bytes from [i] on with [l] ([memmove] into a buffer). *)
Definition splice {A} (d : list A) (i : nat) (l : list A) : list A :=
  take i d ++ l ++ drop (i + length l) d.

(** The [n] bytes from [i] on ([memmove] out of a buffer). *)
Definition slice {A} (d : list A) (i n : nat) : list A := take n (drop i d).

Section Bytes.
Implicit Types (d : list Z) (i j : nat) (v : Z).

Lemma length_put32 d i v : length (put32 d i v) = length d.
Proof. unfold put32. by rewrite !length_insert. Qed.

Lemma length_put16 d i v : length (put16 d i v) = length d.
Proof. unfold put16. by rewrite !length_insert. Qed.

Lemma lt_insert_eq d i v : (i < length d)%nat → <[i := v]> d !!! i = v.
Proof. intros. rewrite list_lookup_total_insert_eq; done. Qed.

Lemma lt_insert_ne d i j v : i ≠ j → <[i := v]> d !!! j = d !!! j.
Proof. intros. by rewrite list_lookup_total_insert_ne. Qed.

Lemma bytes_of_u32 v :
  u8 v + 2 ^ 8 * u8 (v / 2 ^ 8) + 2 ^ 16 * u8 (v / 2 ^ 16) + 2 ^ 24 * u8 (v / 2 ^ 24) = u32 v.
Proof.
  unfold u8, u32. change (2 ^ 16) with (2 ^ 8 * 2 ^ 8). change (2 ^ 24) with (2 ^ 8 * 2 ^ 8 * 2 ^ 8).
  change (2 ^ 32) with (2 ^ 8 * 2 ^ 8 * 2 ^ 8 * 2 ^ 8). change (2 ^ 8) with 256.
  Z.div_mod_to_equations. nia.
Qed.

Lemma bytes_of_u16 v : u8 v + 2 ^ 8 * u8 (v / 2 ^ 8) = u16 v.
Proof.
  unfold u8, u16. change (2 ^ 16) with (256 * 256). change (2 ^ 8) with 256.
  Z.div_mod_to_equations. nia.
Qed.

Lemma get32_put32_eq d i v : (i + 4 <= length d)%nat → get32 (put32 d i v) i = u32 v.
Proof.
  intros. unfold get32, put32.
  rewrite lt_insert_eq by (rewrite !length_insert; lia).
  rewrite (lt_insert_ne _ i), lt_insert_eq by (rewrite ?length_insert; lia).
  rewrite (lt_insert_ne _ i), (lt_insert_ne _ (i + 1)), lt_insert_eq by (rewrite ?length_insert; lia).
  rewrite (lt_insert_ne _ i), (lt_insert_ne _ (i + 1)), (lt_insert_ne _ (i + 2)), lt_insert_eq
    by (rewrite ?length_insert; lia).
  apply bytes_of_u32.
Qed.

Lemma get32_put32_ne d i j v :
  (i + 4 <= j ∨ j + 4 <= i)%nat → get32 (put32 d i v) j = get32 d j.
Proof. intros. unfold get32, put32. rewrite !lt_insert_ne by lia. done. Qed.

Lemma get16_put16_eq d i v : (i + 2 <= length d)%nat → get16 (put16 d i v) i = u16 v.
Proof.
  intros. unfold get16, put16.
  rewrite lt_insert_eq by (rewrite !length_insert; lia).
  rewrite (lt_insert_ne _ i), lt_insert_eq by (rewrite ?length_insert; lia).
  apply bytes_of_u16.
Qed.

Lemma length_splice {A} (d : list A) i (l : list A) :
  (i + length l <= length d)%nat → length (splice d i l) = length d.
Proof. intros. unfold splice. rewrite !length_app, length_take, length_drop. lia. Qed.

Lemma splice_all {A} (d l : list A) : length l = length d → splice d 0 l = l.
Proof. intros H. unfold splice. rewrite take_0, drop_ge by (cbn; lia). by rewrite app_nil_r. Qed.

Lemma slice_splice {A} (d : list A) i (l : list A) :
  (i + length l <= length d)%nat → slice (splice d i l) i (length l) = l.
Proof.
  intros. unfold slice, splice.
  rewrite drop_app_length' by (rewrite length_take; lia). by rewrite take_app_length.
Qed.
End Bytes.

#[export] Hint Rewrite length_put32 length_put16 @length_insert : xv6.
