(* ===== verification/Spinlock.v ===== *)
(** * Spin locks and interrupt masking (spinlock.c)

    [Cli] models [pushcli]/[popcli] on one CPU; [Lock] models the lock record
    and [holding], [getcallerpcs]; [SMP] runs [acquire] and [release] on any
    number of CPUs as interleaved atomic steps (each [xchg] is one step) and
    proves mutual exclusion by induction on the reachable states. *)

From S2P Require Import Prelude.
#[local] Open Scope Z_scope.

Definition FL_IF : Z := 512.
Definition KERNBASE : Z := 2147483648.

Module Cli.

(** The interrupt-related part of [struct cpu], with the CPU's EFLAGS. *)
Record cpu := mkCpu {
  eflags : Z;
  ncli : Z;
  intena : Z;
}.

Definition cli (c : cpu) : cpu := mkCpu (Z.ldiff (eflags c) FL_IF) (ncli c) (intena c).
Definition sti (c : cpu) : cpu := mkCpu (Z.lor (eflags c) FL_IF) (ncli c) (intena c).

Definition pushcli : M cpu unit :=
  e ← gets eflags;
  modify cli;;
  n ← gets ncli;
  modify (λ c, mkCpu (eflags c) (n + 1) (intena c));;
  if bool_decide (n = 0)
  then modify (λ c, mkCpu (eflags c) (ncli c) (Z.land e FL_IF))
  else mret tt.

Definition popcli : M cpu unit :=
  e ← gets eflags;
  if negb (Z.land e FL_IF =? 0) then panic "popcli - interruptible" else
  modify (λ c, mkCpu (eflags c) (ncli c - 1) (intena c));;
  n ← gets ncli;
  if n <? 0 then panic "popcli" else
  i ← gets intena;
  if (n =? 0) && negb (i =? 0) then modify sti else mret tt.

(** Interrupts are masked on this CPU. *)
Definition masked (c : cpu) : Prop := Z.land (eflags c) FL_IF = 0.

Lemma masked_ldiff e n i : masked (mkCpu (Z.ldiff e FL_IF) n i).
Proof.
  unfold masked; cbn. apply Z.bits_inj'; intros k Hk.
  rewrite Z.land_spec, Z.ldiff_spec, Z.bits_0. by destruct (Z.testbit e k), (Z.testbit FL_IF k).
Qed.

Lemma pushcli_spec c :
  pushcli c = Done tt (mkCpu (Z.ldiff (eflags c) FL_IF) (ncli c + 1)
                        (if bool_decide (ncli c = 0) then Z.land (eflags c) FL_IF else intena c)).
Proof. unfold pushcli. munfold. by case_bool_decide. Qed.

Lemma popcli_spec c :
  masked c → 0 < ncli c →
  popcli c = Done tt (mkCpu (if (ncli c =? 1) && negb (intena c =? 0)
                             then Z.lor (eflags c) FL_IF else eflags c)
                        (ncli c - 1) (intena c)).
Proof.
  intros Hm Hn. unfold popcli. munfold.
  rewrite (proj2 (Z.eqb_eq _ _) Hm); cbn.
  destruct (Z.ltb_spec (ncli c - 1) 0); [lia|].
  replace (ncli c - 1 =? 0) with (ncli c =? 1) by lia.
  cbn [intena]. by destruct ((ncli c =? 1) && negb (intena c =? 0)).
Qed.

(** A sequence of matched calls: [true] is [pushcli], [false] is [popcli]. *)
Fixpoint run (ops : list bool) : M cpu unit :=
  match ops with
  | [] => mret tt
  | true :: ops' => pushcli;; run ops'
  | false :: ops' => popcli;; run ops'
  end.

(** From nesting depth [d] the calls never pop more than was pushed and end
    at depth zero. *)
Fixpoint matched (d : nat) (ops : list bool) : Prop :=
  match ops with
  | [] => d = 0%nat
  | true :: ops' => matched (S d) ops'
  | false :: ops' => match d with O => False | S d' => matched d' ops' end
  end.

Lemma land_IF_cases e : Z.land e FL_IF = 0 ∨ Z.land e FL_IF = FL_IF.
Proof.
  unfold FL_IF. change 512 with (2 ^ 9).
  destruct (Z.testbit e 9) eqn:E; [right|left]; apply Z.bits_inj'; intros k Hk;
    rewrite Z.land_spec, ?Z.bits_0, ?Z.pow2_bits_eqb by lia;
    destruct (Z.eqb_spec 9 k); subst; rewrite ?E; cbn; auto using andb_false_r.
Qed.

Lemma lor_ldiff_IF e : Z.land e FL_IF ≠ 0 → Z.lor (Z.ldiff e FL_IF) FL_IF = e.
Proof.
  intros H. destruct (land_IF_cases e) as [|E]; [done|].
  apply Z.bits_inj'; intros k Hk. rewrite Z.lor_spec, Z.ldiff_spec.
  assert (Hk' : Z.testbit (Z.land e FL_IF) k = Z.testbit FL_IF k) by (by rewrite E).
  rewrite Z.land_spec in Hk'.
  by destruct (Z.testbit e k), (Z.testbit FL_IF k).
Qed.

Lemma ldiff_IF_id e : Z.land e FL_IF = 0 → Z.ldiff e FL_IF = e.
Proof.
  intros H. apply Z.bits_inj'; intros k Hk. rewrite Z.ldiff_spec.
  assert (Hk' : Z.testbit (Z.land e FL_IF) k = false) by (rewrite H; apply Z.bits_0).
  rewrite Z.land_spec in Hk'. by destruct (Z.testbit e k), (Z.testbit FL_IF k).
Qed.

(** The state at nesting depth [d] of a CPU that started at depth zero with
    EFLAGS [e0]. *)
Definition nested (e0 : Z) (d : nat) (c : cpu) : Prop :=
  ncli c = Z.of_nat d ∧
  match d with
  | O => eflags c = e0
  | S _ => eflags c = Z.ldiff e0 FL_IF ∧ intena c = Z.land e0 FL_IF
  end.

Lemma nested_push e0 d c : nested e0 d c → ∃ c', pushcli c = Done tt c' ∧ nested e0 (S d) c'.
Proof.
  intros [Hn Hd]. rewrite pushcli_spec. eexists; split; [done|].
  unfold nested; cbn [ncli eflags intena]. split; [lia|].
  destruct d.
  - rewrite bool_decide_eq_true_2 by lia. by rewrite Hd.
  - rewrite bool_decide_eq_false_2 by lia. destruct Hd as [-> ->]. split; [|done].
    apply ldiff_IF_id, (masked_ldiff e0 0 0).
Qed.

Lemma nested_pop e0 d c : nested e0 (S d) c → ∃ c', popcli c = Done tt c' ∧ nested e0 d c'.
Proof.
  intros [Hn [He Hi]]. rewrite popcli_spec; [|unfold masked; rewrite He; apply (masked_ldiff e0 0 0)|lia].
  eexists; split; [done|]. unfold nested; cbn [ncli eflags intena]. split; [lia|].
  rewrite Hn, He, Hi. destruct d.
  - destruct (Z.eqb_spec (Z.land e0 FL_IF) 0) as [E|E]; cbn.
    + by apply ldiff_IF_id.
    + by apply lor_ldiff_IF.
  - destruct (Z.eqb_spec (Z.of_nat (S (S d))) 1); [lia|]. done.
Qed.

Lemma run_nested ops : ∀ e0 d c,
  matched d ops → nested e0 d c → ∃ c', run ops c = Done tt c' ∧ nested e0 0 c'.
Proof.
  induction ops as [|[] ops IH]; intros e0 d c Hm Hc; cbn in Hm |- *.
  - subst. eexists; split; [reflexivity|done].
  - destruct (nested_push _ _ _ Hc) as (c1 & E1 & H1).
    destruct (IH e0 (S d) c1 Hm H1) as (c2 & E2 & H2).
    exists c2. rewrite (bind_Done _ _ _ _ _ E1). auto.
  - destruct d as [|d]; [done|]. destruct (nested_pop _ _ _ Hc) as (c1 & E1 & H1).
    destruct (IH e0 d c1 Hm H1) as (c2 & E2 & H2).
    exists c2. rewrite (bind_Done _ _ _ _ _ E1). auto.
Qed.

(** pushcli/popcli nest: from depth zero, any matched sequence of calls
    completes without panicking and leaves EFLAGS (in particular the
    interrupt flag) and the depth exactly as they were. *)
Theorem pushcli_popcli_matched (c : cpu) (ops : list bool) :
  ncli c = 0 → matched 0 ops →
  ∃ c', run ops c = Done tt c' ∧ eflags c' = eflags c ∧ ncli c' = 0.
Proof.
  intros Hn Hm. destruct (run_nested ops (eflags c) 0 c Hm) as (c' & E & Hn' & He); [done|].
  exists c'. split; [done|]. split; [done|]. lia.
Qed.

Lemma pushcli_popcli_matched_witness :
  matched 0 [true; true; false; false; true; false] ∧
  ∃ c', run [true; true; false; false; true; false] (mkCpu 514 0 0) = Done tt c' ∧
        eflags c' = 514 ∧ ncli c' = 0.
Proof. split; [reflexivity|]. apply (pushcli_popcli_matched (mkCpu 514 0 0)); reflexivity. Defined.

End Cli.

Module Lock.

(** [struct spinlock]; [lcpu] is the [cpu] pointer as an index into [cpus]. *)
Record spinlock := mkLock {
  locked : Z;
  name : string;
  lcpu : option nat;
  pcs : list Z;
}.

(** The [pcs] array is not initialised by [initlock]. *)
Definition initlock (lk : spinlock) (n : string) : spinlock := mkLock 0 n None (pcs lk).

Definition holding (me : nat) (lk : spinlock) : bool :=
  negb (locked lk =? 0) && bool_decide (lcpu lk = Some me).

(** [getcallerpcs(v, pcs)]; [mem a] is the word of kernel memory at [a]. *)
Fixpoint getcallerpcs_loop (mem : Z → Z) (n : nat) (ebp : Z) : list Z :=
  match n with
  | O => []
  | S n' =>
      if (ebp =? 0) || (ebp <? KERNBASE) || (ebp =? 4294967295)
      then replicate n 0
      else mem (u32 (ebp + 4)) :: getcallerpcs_loop mem n' (mem ebp)
  end.

Definition getcallerpcs (mem : Z → Z) (v : Z) : list Z :=
  getcallerpcs_loop mem 10 (u32 (v - 8)).

Lemma length_getcallerpcs mem v : length (getcallerpcs mem v) = 10%nat.
Proof.
  unfold getcallerpcs. generalize 10%nat as n, (u32 (v - 8)) as ebp.
  induction n as [|n IH]; intros ebp; cbn; [done|].
  case_match; cbn; [by rewrite length_replicate|]. by rewrite IH.
Qed.

End Lock.

Module SMP.
Import Cli Lock.

(** Where a CPU is inside [acquire] or [release]. *)
Inductive pc :=
  | Running
  | Spinning (l : nat)   (** in [acquire], before a successful [xchg] *)
  | Acquired (l : nat)   (** in [acquire], before recording the owner *)
  | Releasing (l : nat). (** in [release], before the [xchg] *)

#[export] Instance pc_eq_dec : EqDecision pc.
Proof. solve_decision. Defined.

(** A CPU with its place in the code.  [crit] and [extra] are ghost: the locks
    its client code is between [acquire] and [release] of, and its
    outstanding direct [pushcli] calls. *)
Record core := mkCore {
  hw : cpu;
  at_ : pc;
  crit : list nat;
  extra : nat;
}.

Record sys := mkSys {
  cores : nat → core;
  locks : nat → spinlock;
}.

(** [acquire] up to the spin loop. *)
Definition acquire_enter (me l : nat) (s : sys) : outcome sys unit :=
  let p := cores s me in
  match pushcli (hw p) with
  | Done _ c' =>
      if holding me (locks s l) then Panic "acquire"
      else Done tt (mkSys (<[me := mkCore c' (Spinning l) (crit p) (extra p)]> (cores s)) (locks s))
  | Panic m => Panic m
  | _ => OutOfFuel
  end.

(** One turn of [while(xchg(&lk->locked, 1) != 0)]. *)
Definition acquire_xchg (me l : nat) (s : sys) : outcome sys unit :=
  let p := cores s me in
  let lk := locks s l in
  Done tt (mkSys (<[me := mkCore (hw p) (if locked lk =? 0 then Acquired l else Spinning l)
                            (crit p) (extra p)]> (cores s))
             (<[l := mkLock 1 (name lk) (lcpu lk) (pcs lk)]> (locks s))).

(** [acquire] after the spin loop: record the owner and its call stack. *)
Definition acquire_leave (mem : Z → Z) (v : Z) (me l : nat) (s : sys) : outcome sys unit :=
  let p := cores s me in
  let lk := locks s l in
  Done tt (mkSys (<[me := mkCore (hw p) Running (l :: crit p) (extra p)]> (cores s))
             (<[l := mkLock (locked lk) (name lk) (Some me) (getcallerpcs mem v)]> (locks s))).

(** [release] up to the [xchg]. *)
Definition release_enter (me l : nat) (s : sys) : outcome sys unit :=
  let p := cores s me in
  let lk := locks s l in
  if negb (holding me lk) then Panic "release"
  else Done tt (mkSys (<[me := mkCore (hw p) (Releasing l) (filter (λ k, k ≠ l) (crit p)) (extra p)]> (cores s))
                  (<[l := mkLock (locked lk) (name lk) None (<[0%nat := 0]> (pcs lk))]> (locks s))).

(** [xchg(&lk->locked, 0); popcli()]. *)
Definition release_leave (me l : nat) (s : sys) : outcome sys unit :=
  let p := cores s me in
  let lk := locks s l in
  match popcli (hw p) with
  | Done _ c' =>
      Done tt (mkSys (<[me := mkCore c' Running (crit p) (extra p)]> (cores s))
                 (<[l := mkLock 0 (name lk) (lcpu lk) (pcs lk)]> (locks s)))
  | Panic m => Panic m
  | _ => OutOfFuel
  end.

Section Steps.
Context (mem : Z → Z) (v : Z).

(** One step of one CPU: client code calls [acquire], [release],
    [pushcli] or a matching [popcli], or a call in progress advances. *)
Inductive step : sys → sys → Prop :=
  | step_acquire me l s s' :
      at_ (cores s me) = Running → acquire_enter me l s = Done tt s' → step s s'
  | step_xchg me l s s' :
      at_ (cores s me) = Spinning l → acquire_xchg me l s = Done tt s' → step s s'
  | step_acquired me l s s' :
      at_ (cores s me) = Acquired l → acquire_leave mem v me l s = Done tt s' → step s s'
  | step_release me l s s' :
      at_ (cores s me) = Running → release_enter me l s = Done tt s' → step s s'
  | step_released me l s s' :
      at_ (cores s me) = Releasing l → release_leave me l s = Done tt s' → step s s'
  | step_pushcli me c' s :
      at_ (cores s me) = Running → pushcli (hw (cores s me)) = Done tt c' →
      step s (mkSys (<[me := mkCore c' Running (crit (cores s me)) (S (extra (cores s me)))]> (cores s)) (locks s))
  | step_popcli me c' s n :
      at_ (cores s me) = Running → extra (cores s me) = S n → popcli (hw (cores s me)) = Done tt c' →
      step s (mkSys (<[me := mkCore c' Running (crit (cores s me)) n]> (cores s)) (locks s)).
End Steps.

(** Every lock initialised by [initlock], every CPU outside all locks. *)
Definition initial (s : sys) : Prop :=
  (∀ l, locked (locks s l) = 0 ∧ lcpu (locks s l) = None) ∧
  (∀ c, ncli (hw (cores s c)) = 0 ∧ at_ (cores s c) = Running ∧
        crit (cores s c) = [] ∧ extra (cores s c) = 0%nat).

(** A CPU owns a lock from the successful [xchg] of [acquire] to the [xchg]
    of [release]. *)
Definition owns (p : core) (l : nat) : Prop :=
  l ∈ crit p ∨ at_ p = Acquired l ∨ at_ p = Releasing l.

Definition in_call (p : pc) : nat := match p with Running => 0 | _ => 1 end.

(** What holds of each CPU on its own. *)
Record core_ok (p : core) : Prop := {
  ok_nodup : NoDup (crit p);
  ok_disjoint : ∀ l, at_ p = Acquired l ∨ at_ p = Releasing l → l ∉ crit p;
  ok_ncli : ncli (hw p) = Z.of_nat (extra p) + Z.of_nat (length (crit p)) + Z.of_nat (in_call (at_ p));
  ok_masked : 0 < ncli (hw p) → masked (hw p);
}.

Record sys_ok (s : sys) : Prop := {
  sys_core : ∀ c, core_ok (cores s c);
  sys_locked : ∀ l, locked (locks s l) = 0 ∨ locked (locks s l) = 1;
  sys_owner_locked : ∀ c l, owns (cores s c) l → locked (locks s l) = 1;
  sys_locked_owner : ∀ l, locked (locks s l) = 1 → ∃ c, owns (cores s c) l;
  sys_unique : ∀ c c' l, owns (cores s c) l → owns (cores s c') l → c = c';
  sys_recorded : ∀ c l, lcpu (locks s l) = Some c ↔ l ∈ crit (cores s c);
}.

(** Rewrite a function update at a point, splitting on equality. *)
Ltac upd := unfold insert, fn_insert; cbn; repeat case_decide; subst; cbn.

Lemma holding_true me lk : holding me lk = true ↔ locked lk ≠ 0 ∧ lcpu lk = Some me.
Proof. unfold holding. rewrite andb_true_iff, negb_true_iff, bool_decide_eq_true, Z.eqb_neq. done. Qed.

Lemma sys_ok_initial s : initial s → sys_ok s.
Proof.
  intros [Hl Hc]. split.
  - intros c. destruct (Hc c) as (Hn & Hp & Hk & He).
    split; rewrite ?Hn, ?Hp, ?Hk, ?He; cbn; try done; [constructor|naive_solver].
  - intros l. left. apply Hl.
  - intros c l. unfold owns. destruct (Hc c) as (_ & -> & -> & _). set_solver.
  - intros l E. destruct (Hl l). congruence.
  - intros c c' l. unfold owns. destruct (Hc c) as (_ & -> & -> & _). set_solver.
  - intros c l. destruct (Hl l) as [_ ->], (Hc c) as (_ & _ & -> & _). set_solver.
Qed.

(** A step changes one CPU and at most one lock; it preserves the invariant
    if the conditions at that lock hold. *)
Lemma sys_ok_update s me l p' lk' :
  sys_ok s → core_ok p' →
  (∀ k, k ≠ l → (owns p' k ↔ owns (cores s me) k) ∧ (k ∈ crit p' ↔ k ∈ crit (cores s me))) →
  (locked lk' = 0 ∨ locked lk' = 1) →
  (locked lk' = 1 ↔ owns p' l ∨ ∃ c, c ≠ me ∧ owns (cores s c) l) →
  (∀ c, c ≠ me → owns (cores s c) l → ¬ owns p' l) →
  (∀ c, lcpu lk' = Some c ↔ if decide (c = me) then l ∈ crit p' else lcpu (locks s l) = Some c) →
  sys_ok (mkSys (<[me := p']> (cores s)) (<[l := lk']> (locks s))).
Proof.
  intros [I1 I2 I3 I4 I5 I6] Hp Hk Hl Hown Hexcl Hrec. split; cbn.
  - intros c. upd; auto.
  - intros k. upd; auto.
  - intros c k. unfold insert, fn_insert. repeat case_decide; subst; intros Ho.
    + apply Hown. auto.
    + apply Hk in Ho; [eauto|done].
    + apply Hown. right. eauto.
    + eauto.
  - intros k. unfold insert, fn_insert. case_decide; subst; intros Ho.
    + apply Hown in Ho as [Ho|(c & Hc & Ho)]; [exists me|exists c]; by case_decide.
    + destruct (I4 k Ho) as [c Hc]. exists c. case_decide; subst; [|done]. by apply Hk.
  - intros c c' k. unfold insert, fn_insert. repeat case_decide; subst; intros H1 H2; try done.
    + destruct (decide (k = l)) as [->|]; [naive_solver|]. apply Hk in H1; eauto.
    + destruct (decide (k = l)) as [->|]; [naive_solver|]. apply Hk in H2; eauto.
    + eauto.
  - intros c k. unfold insert, fn_insert. destruct (decide (l = k)) as [->|].
    + rewrite Hrec. by repeat case_decide; subst.
    + rewrite I6. case_decide; subst; [|done]. by rewrite (proj2 (Hk k ltac:(done))).
Qed.

Lemma sys_ok_core s me p' :
  sys_ok s → core_ok p' → (∀ k, owns p' k ↔ owns (cores s me) k) → crit p' = crit (cores s me) →
  sys_ok (mkSys (<[me := p']> (cores s)) (locks s)).
Proof.
  intros [I1 I2 I3 I4 I5 I6] Hp Ho Hc. split; cbn; try done.
  - intros c. upd; auto.
  - intros c k. upd; [|apply I3]. rewrite Ho. apply I3.
  - intros k Hk. destruct (I4 k Hk) as [c Hown]. exists c. upd; [|done]. by apply Ho.
  - intros c c' k. upd; rewrite ?Ho; eauto.
  - intros c k. rewrite I6. upd; [by rewrite Hc|done].
Qed.

Lemma sys_ok_acquire me l s s' :
  sys_ok s → at_ (cores s me) = Running → acquire_enter me l s = Done tt s' → sys_ok s'.
Proof.
  intros I Hpc H. unfold acquire_enter in H. rewrite pushcli_spec in H.
  destruct (holding me (locks s l)); simplify_eq.
  pose proof (sys_core _ I me) as [O1 O2 O3 O4]. rewrite Hpc in O3.
  apply sys_ok_core; try done.
  - split; cbn; [done|naive_solver|cbn in O3; lia|]. intros _. apply masked_ldiff.
  - intros k. unfold owns. rewrite Hpc. cbn. naive_solver.
Qed.

Lemma sys_ok_xchg me l s s' :
  sys_ok s → at_ (cores s me) = Spinning l → acquire_xchg me l s = Done tt s' → sys_ok s'.
Proof.
  intros I Hpc H. unfold acquire_xchg in H. simplify_eq.
  pose proof (sys_core _ I me) as [O1 O2 O3 O4].
  destruct (Z.eqb_spec (locked (locks s l)) 0) as [E|E].
  - assert (Hfree : ∀ c, ¬ owns (cores s c) l) by (intros c Hc%(sys_owner_locked _ I); lia).
    assert (Hn : l ∉ crit (cores s me)) by (intros Hc; apply (Hfree me); by left).
    apply sys_ok_update; cbn; auto.
    + split; cbn; [done|naive_solver|rewrite Hpc in O3; done|done].
    + intros k Hk. unfold owns; cbn. rewrite Hpc. naive_solver.
    + split; [|done]. intros _. left. right. by left.
    + intros c Hc Ho. by destruct (Hfree c).
    + intros c. case_decide; subst; by rewrite (sys_recorded _ I).
  - destruct (sys_locked _ I l) as [?|El]; [done|]. destruct (sys_locked_owner _ I l El) as [c Hc].
    assert (Hme : c ≠ me → ¬ owns (cores s me) l) by (intros Hne Ho; by destruct (Hne (sys_unique _ I _ _ _ Hc Ho))).
    apply sys_ok_update; cbn; auto.
    + split; cbn; [done|naive_solver|rewrite Hpc in O3; done|done].
    + intros k Hk. unfold owns; cbn. rewrite Hpc. done.
    + split; [|done]. intros _. destruct (decide (c = me)) as [->|]; [left|right; eauto].
      revert Hc. unfold owns; cbn. by rewrite Hpc.
    + intros d Hd Ho Ho'. apply Hd. apply (sys_unique _ I _ _ l Ho). revert Ho'. unfold owns; cbn. by rewrite Hpc.
    + intros d. case_decide; subst; by rewrite (sys_recorded _ I).
Qed.

Lemma sys_ok_acquired mem v me l s s' :
  sys_ok s → at_ (cores s me) = Acquired l → acquire_leave mem v me l s = Done tt s' → sys_ok s'.
Proof.
  intros I Hpc H. unfold acquire_leave in H. simplify_eq.
  pose proof (sys_core _ I me) as [O1 O2 O3 O4].
  assert (Ho : owns (cores s me) l) by (right; by left).
  assert (Hn : l ∉ crit (cores s me)) by auto.
  apply sys_ok_update; cbn; auto.
  - split; cbn; [by constructor|naive_solver|rewrite Hpc in O3; cbn in O3; lia|done].
  - intros k Hk. unfold owns; cbn. rewrite Hpc, elem_of_cons. naive_solver.
  - apply (sys_locked _ I).
  - split; [|intros _; by apply (sys_owner_locked _ I me)]. intros _. left. left. cbn. set_solver.
  - intros c Hc Hc' _. apply Hc. eapply (sys_unique _ I); eauto.
  - intros c. case_decide; subst; cbn; [set_solver|]. split; [congruence|].
    intros Hc%(sys_recorded _ I). destruct H. eapply (sys_unique _ I); [left|]; eauto.
Qed.

Lemma sys_ok_release me l s s' :
  sys_ok s → at_ (cores s me) = Running → release_enter me l s = Done tt s' → sys_ok s'.
Proof.
  intros I Hpc H. unfold release_enter in H.
  destruct (holding me (locks s l)) eqn:Hh; simplify_eq/=. apply holding_true in Hh as [_ Hh].
  apply (sys_recorded _ I) in Hh.
  pose proof (sys_core _ I me) as [O1 O2 O3 O4].
  assert (Ho : owns (cores s me) l) by (by left).
  apply sys_ok_update; cbn; auto.
  - split; cbn; [by apply NoDup_filter| |rewrite Hpc in O3; cbn in O3|done].
    + intros k [?|?]; simplify_eq. rewrite list_elem_of_filter. naive_solver.
    + rewrite O3. assert (E : crit (cores s me) ≡ₚ l :: filter (λ k, k ≠ l) (crit (cores s me))).
      { apply NoDup_Permutation; [done|constructor; [|by apply NoDup_filter]|].
        - rewrite list_elem_of_filter. naive_solver.
        - intros k. rewrite elem_of_cons, list_elem_of_filter. destruct (decide (k = l)); naive_solver. }
      rewrite E at 1. cbn. lia.
  - intros k Hk. unfold owns; cbn. rewrite Hpc, !list_elem_of_filter. naive_solver.
  - apply (sys_locked _ I).
  - split; [|intros _; by apply (sys_owner_locked _ I me)]. intros _. left. right. by right.
  - intros c Hc Hc' _. apply Hc. eapply (sys_unique _ I); eauto.
  - intros c. case_decide; subst; [rewrite list_elem_of_filter; naive_solver|]. split; [done|].
    intros Hc%(sys_recorded _ I). destruct H. eapply (sys_unique _ I); [left|]; eauto.
Qed.

Lemma sys_ok_released me l s s' :
  sys_ok s → at_ (cores s me) = Releasing l → release_leave me l s = Done tt s' → sys_ok s'.
Proof.
  intros I Hpc H. unfold release_leave in H.
  pose proof (sys_core _ I me) as [O1 O2 O3 O4]. rewrite Hpc in O3. cbn in O3.
  rewrite popcli_spec in H by (try apply O4; lia). simplify_eq.
  assert (Ho : owns (cores s me) l) by (right; by right).
  assert (Hn : l ∉ crit (cores s me)) by auto.
  apply sys_ok_update; cbn; auto.
  - split; cbn; [done|naive_solver|lia|]. intros Hpos.
    replace (ncli (hw (cores s me)) =? 1) with false by lia. cbn. apply O4. lia.
  - intros k Hk. unfold owns; cbn. rewrite Hpc. naive_solver.
  - split; [done|]. intros [Hc|(c & Hc & Hc')].
    + unfold owns in Hc. cbn in Hc. naive_solver.
    + destruct Hc. eapply (sys_unique _ I); eauto.
  - intros c Hc Hc' _. apply Hc. eapply (sys_unique _ I); eauto.
  - intros c. case_decide; subst; by rewrite (sys_recorded _ I).
Qed.

Lemma sys_ok_step mem v s s' : sys_ok s → step mem v s s' → sys_ok s'.
Proof.
  intros I H. destruct H as [me l s s' P E|me l s s' P E|me l s s' P E|me l s s' P E|me l s s' P E|me c' s P E|me c' s n P X E];
    eauto using sys_ok_acquire, sys_ok_xchg, sys_ok_acquired, sys_ok_release, sys_ok_released;
    pose proof (sys_core _ I me) as [O1 O2 O3 O4]; rewrite P in O3; cbn in O3.
  - rewrite pushcli_spec in E. simplify_eq. apply sys_ok_core; try done.
    + split; cbn; [done|naive_solver|lia|]. intros _. apply masked_ldiff.
    + intros k. unfold owns; cbn. by rewrite P.
  - rewrite popcli_spec in E by (try apply O4; lia). simplify_eq. apply sys_ok_core; try done.
    + split; cbn; [done|naive_solver|lia|]. intros Hpos.
      replace (ncli (hw (cores s me)) =? 1) with false by lia. cbn. apply O4. lia.
    + intros k. unfold owns; cbn. by rewrite P.
Qed.

Lemma sys_ok_reachable mem v s s' : initial s → rtc (step mem v) s s' → sys_ok s'.
Proof.
  intros H0%sys_ok_initial H. induction H; eauto using sys_ok_step.
Qed.

(** C6 Mutual exclusion: however the CPUs' [acquire] and [release] calls
    interleave, no two CPUs are inside the critical section of one lock, and
    the unlocked read [holding] makes of the lock record is exact. *)
Theorem mutual_exclusion (mem : Z → Z) (v : Z) (s0 s : sys) :
  initial s0 → rtc (step mem v) s0 s →
  (∀ c c' l, l ∈ crit (cores s c) → l ∈ crit (cores s c') → c = c') ∧
  (∀ c l, holding c (locks s l) = true ↔ l ∈ crit (cores s c)).
Proof.
  intros H0 Hr. pose proof (sys_ok_reachable _ _ _ _ H0 Hr) as I. split.
  - intros c c' l H1 H2. eapply (sys_unique _ I); by left.
  - intros c l. rewrite holding_true, (sys_recorded _ I). split; [naive_solver|].
    intros Hc. split; [|done]. rewrite (sys_owner_locked _ I c l); [done|by left].
Qed.

(** A machine whose locks are free and whose CPUs run with interrupts on. *)
Definition booted : sys :=
  mkSys (λ _, mkCore (mkCpu 514 0 0) Running [] 0) (λ _, mkLock 0 "lk" None (replicate 10 0)).

(** The machine after CPU 0 has acquired lock 7. *)
Definition taken : sys :=
  let s1 := state_of booted (acquire_enter 0 7 booted) in
  let s2 := state_of booted (acquire_xchg 0 7 s1) in
  state_of booted (acquire_leave (λ _, 0) 0 0 7 s2).

Lemma taken_reachable : rtc (step (λ _, 0) 0) booted taken.
Proof.
  eapply rtc_l; [eapply (step_acquire _ _ 0%nat 7%nat); reflexivity|].
  eapply rtc_l; [eapply (step_xchg _ _ 0%nat 7%nat); reflexivity|].
  eapply rtc_l; [eapply (step_acquired _ _ 0%nat 7%nat); reflexivity|]. apply rtc_refl.
Qed.

Lemma booted_initial : initial booted.
Proof. split; intros; repeat split. Qed.

Lemma mutual_exclusion_witness :
  crit (cores taken 0%nat) = [7%nat] ∧
  (∀ c c' l, l ∈ crit (cores taken c) → l ∈ crit (cores taken c') → c = c') ∧
  (∀ c l, holding c (locks taken l) = true ↔ l ∈ crit (cores taken c)).
Proof.
  split; [reflexivity|].
  apply (mutual_exclusion (λ _, 0) 0 booted taken booted_initial taken_reachable).
Defined.

(** C36 The lock calls behave on every reachable state: [release] by the owner
    succeeds (its [popcli] never panics), [acquire] panics exactly when the
    calling CPU already holds the lock (self-deadlock), and a CPU that holds
    or is waiting for a lock runs with interrupts masked. *)
Theorem lock_calls_outcome (mem : Z → Z) (v : Z) (s0 s : sys) (c l : nat) :
  initial s0 → rtc (step mem v) s0 s →
  (l ∈ crit (cores s c) → ∃ s', release_enter c l s = Done tt s') ∧
  (at_ (cores s c) = Releasing l → ∃ s', release_leave c l s = Done tt s') ∧
  (acquire_enter c l s = Panic "acquire" ↔ l ∈ crit (cores s c)) ∧
  (owns (cores s c) l ∨ at_ (cores s c) = Spinning l → masked (hw (cores s c))).
Proof.
  intros H0 Hr. pose proof (sys_ok_reachable _ _ _ _ H0 Hr) as I.
  pose proof (sys_core _ I c) as [O1 O2 O3 O4].
  assert (Hh : holding c (locks s l) = true ↔ l ∈ crit (cores s c)).
  { rewrite holding_true, (sys_recorded _ I). split; [naive_solver|].
    intros Hc. split; [|done]. rewrite (sys_owner_locked _ I c l); [done|by left]. }
  split_and!.
  - intros Hc. unfold release_enter. rewrite (proj2 Hh Hc). eauto.
  - intros Hp. unfold release_leave. rewrite Hp in O3. cbn in O3.
    rewrite popcli_spec by (try apply O4; lia). eauto.
  - unfold acquire_enter. rewrite pushcli_spec, <-Hh. destruct (holding c (locks s l)); naive_solver.
  - intros Ho. apply O4. rewrite O3. destruct Ho as [[Hc|[Hc|Hc]]|Hc]; try (rewrite Hc; cbn; lia).
    apply list_elem_of_split in Hc as (l1 & l2 & ->). rewrite length_app. cbn. lia.
Qed.

Lemma lock_calls_outcome_witness :
  acquire_enter 0 7 taken = Panic "acquire" ∧ ∃ s', release_enter 0 7 taken = Done tt s'.
Proof.
  split; [reflexivity|].
  apply (lock_calls_outcome (λ _, 0) 0 booted taken 0 7 booted_initial taken_reachable).
  apply list_elem_of_In. left. reflexivity.
Defined.

End SMP.
