(* ===== verification/Bio.v ===== *)
(** * Buffer cache (bio.c, buf.h) over the in-memory disk driver (memide.c)

    [bcache.buf[i]] is [bufs s i] for [i < NBUF] and [bcache.head] is
    [bufs s HEAD]; the LRU list is the circular doubly linked list through the
    [prev] and [next] fields, as in the code.  [ring] is its abstraction (the
    list of buffers from most to least recently used), [cache_ok] the
    invariant of the cache, and [view] the block contents a client of the
    cache sees. *)

From S2P Require Import Prelude.
#[local] Open Scope Z_scope.

Definition BSIZE : nat := 512.
Definition MAXOPBLOCKS : nat := 10.
Definition NBUF : nat := MAXOPBLOCKS * 3.
Definition HEAD : nat := NBUF.
Arguments BSIZE : simpl never.
Arguments NBUF : simpl never.
Arguments HEAD : simpl never.

Definition B_BUSY : Z := 1.
Definition B_VALID : Z := 2.
Definition B_DIRTY : Z := 4.

(** [x & mask] as a C condition. *)
Definition has (x mask : Z) : bool := negb (Z.land x mask =? 0).

Record buf := mkBuf {
  flags : Z;
  dev : Z;
  blockno : Z;
  prev : nat;
  next : nat;
  data : list Z;
}.

Definition set_flags (x : Z) (b : buf) : buf := mkBuf x (dev b) (blockno b) (prev b) (next b) (data b).
Definition set_prev (x : nat) (b : buf) : buf := mkBuf (flags b) (dev b) (blockno b) x (next b) (data b).
Definition set_next (x : nat) (b : buf) : buf := mkBuf (flags b) (dev b) (blockno b) (prev b) x (data b).
Definition set_data (x : list Z) (b : buf) : buf := mkBuf (flags b) (dev b) (blockno b) (prev b) (next b) x.
Definition set_dev (x : Z) (b : buf) : buf := mkBuf (flags b) x (blockno b) (prev b) (next b) (data b).

(** The cache with the disk below it.  [written] and [woken] are ghost: the
    block writes that reached the disk, and the [wakeup] calls, in order. *)
Record io := mkIo {
  bufs : nat → buf;
  disk : Z → list Z;
  disksize : Z;
  written : list (Z * list Z);
  woken : list chan;
}.

Definition set_bufs (f : nat → buf) (s : io) : io :=
  mkIo f (disk s) (disksize s) (written s) (woken s).

(** [p->field = ...] through a buffer pointer. *)
Definition upd_buf (i : nat) (f : buf → buf) : M io unit :=
  modify (λ s, set_bufs (<[i := f (bufs s i)]> (bufs s)) s).

Definition buf_at (i : nat) : M io buf := gets (λ s, bufs s i).

Definition wakeup (c : chan) : M io unit :=
  modify (λ s, mkIo (bufs s) (disk s) (disksize s) (written s) (woken s ++ [c])).

(** memide.c: sync a buffer with the disk. *)
Definition iderw (i : nat) : M io unit :=
  b ← buf_at i;
  size ← gets disksize;
  if negb (has (flags b) B_BUSY) then panic "iderw: buf not busy" else
  if Z.land (flags b) (Z.lor B_VALID B_DIRTY) =? B_VALID then panic "iderw: nothing to do" else
  if negb (dev b =? 1) then panic "iderw: request not for disk 1" else
  if size <=? blockno b then panic "iderw: block out of range" else
  (if has (flags b) B_DIRTY
   then upd_buf i (λ b, set_flags (Z.ldiff (flags b) B_DIRTY) b);;
        modify (λ s, mkIo (bufs s) (<[blockno b := data b]> (disk s)) (disksize s)
                       (written s ++ [(blockno b, data b)]) (woken s))
   else d ← gets disk; upd_buf i (set_data (d (blockno b))));;
  upd_buf i (λ b, set_flags (Z.lor (flags b) B_VALID) b).

(** The body of [binit]'s loop: push [b] at the front of the list. *)
Definition binit_one (b : nat) : M io unit :=
  h ← buf_at HEAD;
  upd_buf b (set_next (next h));;
  upd_buf b (set_prev HEAD);;
  upd_buf b (set_dev (u32 (-1)));;
  upd_buf (next h) (set_prev b);;
  upd_buf HEAD (set_next b).

Definition binit : M io unit :=
  upd_buf HEAD (set_prev HEAD);;
  upd_buf HEAD (set_next HEAD);;
  iter_each (seq 0 NBUF) binit_one.

(** [for(b = i; b != &bcache.head; b = step b) if(p b) found]: [None] when the
    bound on the walk is exhausted. *)
Fixpoint scan (fuel : nat) (step : buf → nat) (p : buf → bool) (f : nat → buf) (i : nat)
    : option (option nat) :=
  match fuel with
  | O => None
  | S fuel' =>
      if bool_decide (i = HEAD) then Some None
      else if p (f i) then Some (Some i)
      else scan fuel' step p f (step (f i))
  end.

(** A walk visits each of the [NBUF] buffers once and then the head. *)
Definition SCAN : nat := NBUF + 1.

Definition bget (dv bno : Z) : M io nat :=
  s ← get;
  match scan SCAN next (λ b, (dev b =? dv) && (blockno b =? bno)) (bufs s) (next (bufs s HEAD)) with
  | None => out_of_fuel
  | Some (Some i) =>
      if negb (has (flags (bufs s i)) B_BUSY)
      then upd_buf i (λ b, set_flags (Z.lor (flags b) B_BUSY) b);; mret i
      else sleep_on (ChBuf i)
  | Some None =>
      match scan SCAN prev (λ b, negb (has (flags b) B_BUSY) && negb (has (flags b) B_DIRTY))
              (bufs s) (prev (bufs s HEAD)) with
      | None => out_of_fuel
      | Some (Some i) =>
          upd_buf i (λ b, mkBuf B_BUSY dv bno (prev b) (next b) (data b));; mret i
      | Some None => panic "bget: no buffers"
      end
  end.

Definition bread (dv bno : Z) : M io nat :=
  i ← bget dv bno;
  b ← buf_at i;
  (if negb (has (flags b) B_VALID) then iderw i else mret tt);;
  mret i.

Definition bwrite (i : nat) : M io unit :=
  b ← buf_at i;
  if negb (has (flags b) B_BUSY) then panic "bwrite" else
  upd_buf i (λ b, set_flags (Z.lor (flags b) B_DIRTY) b);;
  iderw i.

Definition brelse (i : nat) : M io unit :=
  b ← buf_at i;
  if negb (has (flags b) B_BUSY) then panic "brelse" else
  upd_buf (next b) (set_prev (prev b));;
  upd_buf (prev b) (set_next (next b));;
  h ← buf_at HEAD;
  upd_buf i (set_next (next h));;
  upd_buf i (set_prev HEAD);;
  upd_buf (next h) (set_prev i);;
  upd_buf HEAD (set_next i);;
  upd_buf i (λ b, set_flags (Z.ldiff (flags b) B_BUSY) b);;
  wakeup (ChBuf i).

(** ** Flag words *)

Lemma has_lor x y m : has (Z.lor x y) m = has x m || has y m.
Proof.
  unfold has. rewrite Z.land_lor_distr_l.
  destruct (Z.eqb_spec (Z.lor (Z.land x m) (Z.land y m)) 0) as [E|E],
    (Z.eqb_spec (Z.land x m) 0) as [E1|E1], (Z.eqb_spec (Z.land y m) 0) as [E2|E2]; cbn; try done;
    try (apply Z.lor_eq_0_iff in E; naive_solver).
  rewrite E1, E2 in E. done.
Qed.

Lemma has_ldiff_same x m : has (Z.ldiff x m) m = false.
Proof.
  unfold has. replace (Z.land (Z.ldiff x m) m) with 0; [done|].
  apply Z.bits_inj'; intros k Hk. rewrite Z.land_spec, Z.ldiff_spec, Z.bits_0.
  by destruct (Z.testbit x k), (Z.testbit m k).
Qed.

Lemma has_ldiff_other x y m : Z.land y m = 0 → has (Z.ldiff x y) m = has x m.
Proof.
  intros H. unfold has. do 2 f_equal. apply Z.bits_inj'; intros k Hk.
  rewrite !Z.land_spec, Z.ldiff_spec.
  assert (Hk' : Z.testbit (Z.land y m) k = false) by (rewrite H; apply Z.bits_0).
  rewrite Z.land_spec in Hk'. by destruct (Z.testbit x k), (Z.testbit y k), (Z.testbit m k).
Qed.

(** [(flags & (B_VALID|B_DIRTY)) == B_VALID]: valid and clean. *)
Lemma has_valid_clean x :
  (Z.land x (Z.lor B_VALID B_DIRTY) =? B_VALID) = has x B_VALID && negb (has x B_DIRTY).
Proof.
  unfold has. change (Z.lor B_VALID B_DIRTY) with 6. unfold B_VALID, B_DIRTY.
  assert (E2 : ∀ k, 0 ≤ k → Z.testbit 2 k = (1 =? k)) by (intros; by rewrite (Z.pow2_bits_eqb 1)).
  assert (E4 : ∀ k, 0 ≤ k → Z.testbit 4 k = (2 =? k)) by (intros; by rewrite (Z.pow2_bits_eqb 2)).
  assert (E : Z.land x 6 = Z.lor (Z.land x 2) (Z.land x 4)) by (rewrite <-Z.land_lor_distr_r; done).
  assert (H2 : Z.land x 2 = if Z.testbit x 1 then 2 else 0).
  { apply Z.bits_inj'; intros k Hk. rewrite Z.land_spec, E2 by done.
    destruct (Z.eqb_spec 1 k) as [<-|]; destruct (Z.testbit x 1) eqn:T; cbn;
      rewrite ?E2, ?Z.bits_0, ?andb_false_r by done; try done; lia. }
  assert (H4 : Z.land x 4 = if Z.testbit x 2 then 4 else 0).
  { apply Z.bits_inj'; intros k Hk. rewrite Z.land_spec, E4 by done.
    destruct (Z.eqb_spec 2 k) as [<-|]; destruct (Z.testbit x 2) eqn:T; cbn;
      rewrite ?E4, ?Z.bits_0, ?andb_false_r by done; try done; lia. }
  rewrite E, H2, H4. by destruct (Z.testbit x 1), (Z.testbit x 2).
Qed.

Lemma has_same m : m ≠ 0 → has m m = true.
Proof. intros. unfold has. rewrite Z.land_diag. by apply negb_true_iff, Z.eqb_neq. Qed.

#[export] Hint Rewrite has_lor has_ldiff_same : flags.
#[export] Hint Rewrite has_ldiff_other using reflexivity : flags.

(** Evaluate flag tests on updated flag words. *)
Ltac flags := autorewrite with flags; cbn; rewrite ?orb_false_r, ?orb_true_r; cbn.

(** ** The circular list

    [path nx a l b]: following [nx] from [a] visits [l] and then reaches [b]. *)

Fixpoint path (nx : nat → nat) (a : nat) (l : list nat) (b : nat) : Prop :=
  match l with
  | [] => nx a = b
  | x :: l' => nx a = x ∧ path nx x l' b
  end.

Section Path.
Implicit Types (nx : nat → nat) (l : list nat).

Lemma path_app nx a l1 x l2 b : path nx a (l1 ++ x :: l2) b ↔ path nx a l1 x ∧ path nx x l2 b.
Proof. revert a. induction l1 as [|y l1 IH]; intros a; cbn; [done|]. rewrite IH. tauto. Qed.

Lemma path_ext nx nx' a l b :
  (∀ z, z ∈ a :: l → nx' z = nx z) → path nx a l b → path nx' a l b.
Proof.
  revert a. induction l as [|x l IH]; intros a H; cbn.
  - intros <-. apply H. set_solver.
  - intros [<- Hp]. split; [apply H; set_solver|]. apply IH; [|done]. set_solver.
Qed.

(** Redirect the last node of the path. *)
Lemma path_redirect nx nx' a l b b' z :
  last (a :: l) = Some z → NoDup (a :: l) → nx' z = b' →
  (∀ y, y ∈ a :: l → y ≠ z → nx' y = nx y) → path nx a l b → path nx' a l b'.
Proof.
  revert a. induction l as [|x l IH]; intros a Hz Hnd Hb Hother; cbn.
  - cbn in Hz. simplify_eq. done.
  - intros [<- Hp]. inversion Hnd as [|? ? Hni Hnd']; subst. split.
    + apply Hother; [set_solver|]. change (last (nx a :: l) = Some z) in Hz.
      apply last_Some in Hz as [l' Hl]. intros Ea. apply Hni. rewrite Hl, Ea. set_solver.
    + apply IH; try done. intros y Hy. apply Hother. set_solver.
Qed.

(** The node after the first of a path, and before its end. *)
Lemma path_first nx a l b : path nx a l b → nx a = hd b l.
Proof. destruct l; cbn; tauto. Qed.

Lemma scan_path fuel step p f a l :
  path (λ i, step (f i)) a l HEAD → HEAD ∉ l → (length l < fuel)%nat →
  scan fuel step p f (step (f a)) = Some (head (filter (λ i, p (f i) = true) l)).
Proof.
  revert a fuel. induction l as [|x l IH]; intros a [|fuel] Hp Hn Hf;
    cbn [scan path length] in *; try lia.
  - rewrite Hp. by rewrite bool_decide_eq_true_2.
  - destruct Hp as [-> Hp]. rewrite bool_decide_eq_false_2 by set_solver.
    rewrite filter_cons. destruct (p (f x)) eqn:E; case_decide; try congruence; cbn; [done|].
    apply IH; [done|set_solver|lia].
Qed.
End Path.

(** The buffers from most to least recently used. *)
Record ring (f : nat → buf) (l : list nat) : Prop := {
  ring_next : path (λ i, next (f i)) HEAD l HEAD;
  ring_prev : path (λ i, prev (f i)) HEAD (reverse l) HEAD;
}.

Section Ring.
Implicit Types (f : nat → buf) (l : list nat).

Lemma path_start nx nx' a x l b :
  nx' x = nx a → (∀ z, z ∈ l → nx' z = nx z) → path nx a l b → path nx' x l b.
Proof.
  destruct l as [|y l]; cbn; [congruence|]. intros E H [<- Hp]. split; [done|].
  eapply path_ext; [|done]. done.
Qed.

Lemma path_join nx a l1 l2 b :
  path nx a l1 (hd b l2) → match l2 with [] => True | y :: l' => path nx y l' b end →
  path nx a (l1 ++ l2) b.
Proof.
  destruct l2 as [|y l2]; cbn; [by rewrite app_nil_r|]. intros. by apply path_app.
Qed.

(** Unlink [x]: its predecessor [p] takes over its successor. *)
Lemma path_remove nx nx' a l1 x l2 b p :
  path nx a (l1 ++ x :: l2) b → NoDup (a :: l1 ++ x :: l2) → last (a :: l1) = Some p →
  nx' p = nx x → (∀ y, y ≠ p → nx' y = nx y) → path nx' a (l1 ++ l2) b.
Proof.
  intros [H1 H2]%path_app Hnd Hl Hp Hother.
  assert (Hpin : p ∈ a :: l1) by (apply last_Some in Hl as [l' ->]; set_solver).
  assert (Hnd' : NoDup ((a :: l1) ++ x :: l2)) by done.
  apply NoDup_app in Hnd' as (Hnd1 & Hdisj & Hnd2).
  apply path_join.
  - apply (path_redirect nx nx' a l1 x (hd b l2) p); try done.
    + rewrite Hp. by apply path_first.
    + intros y _ Hy. by apply Hother.
  - destruct l2 as [|y l2]; [done|]. destruct H2 as [_ H2]. eapply path_ext; [|done].
    intros z Hz. apply Hother. intros ->. apply (Hdisj _ Hpin). set_solver.
Qed.

Lemma last_cons_reverse (a : nat) l : last (a :: reverse l) = Some (hd a l).
Proof.
  destruct l as [|x l]; [done|]. rewrite reverse_cons, app_comm_cons, last_snoc. done.
Qed.

Lemma hd_reverse_last (a : nat) l : last (a :: l) = Some (hd a (reverse l)).
Proof. by rewrite <-(reverse_involutive l) at 1; rewrite last_cons_reverse. Qed.

Lemma NoDup_reverse_cons (a : nat) l : NoDup (a :: l) → NoDup (a :: reverse l).
Proof. intros H. by rewrite reverse_Permutation. Qed.

Lemma ring_push f f' l x :
  ring f l → NoDup (HEAD :: l) → x ∉ HEAD :: l →
  (∀ i, next (f' i) = if decide (i = HEAD) then x else if decide (i = x) then next (f HEAD) else next (f i)) →
  (∀ i, prev (f' i) = if decide (i = next (f HEAD)) then x else if decide (i = x) then HEAD else prev (f i)) →
  ring f' (x :: l).
Proof.
  intros [Hn Hp] Hnd Hx En Ep.
  pose proof (path_first _ _ _ _ Hn) as Ec. cbn in Ec.
  assert (Hc : next (f HEAD) ∈ HEAD :: l) by (rewrite Ec; destruct l; set_solver).
  split.
  - split; [by rewrite En, decide_True|]. eapply path_start; [| |apply Hn]; cbn.
    + rewrite En, decide_False, decide_True by set_solver. done.
    + intros z Hz. inversion Hnd; subst. rewrite En, !decide_False by set_solver. done.
  - rewrite reverse_cons. apply path_app. split.
    + eapply path_redirect; [apply last_cons_reverse|by apply NoDup_reverse_cons| | |apply Hp].
      * rewrite <-Ec, Ep, decide_True; done.
      * intros y Hy Hne. rewrite Ep, !decide_False; [done| |by rewrite Ec].
        intros ->. apply Hx. rewrite elem_of_cons, elem_of_reverse in Hy. set_solver.
    + cbn. rewrite Ep, decide_False, decide_True by set_solver. done.
Qed.

Lemma ring_remove f f' l1 x l2 :
  ring f (l1 ++ x :: l2) → NoDup (HEAD :: l1 ++ x :: l2) →
  (∀ i, next (f' i) = if decide (i = prev (f x)) then next (f x) else next (f i)) →
  (∀ i, prev (f' i) = if decide (i = next (f x)) then prev (f x) else prev (f i)) →
  ring f' (l1 ++ l2).
Proof.
  intros [Hn Hp] Hnd En Ep.
  rewrite reverse_app, reverse_cons, <-app_assoc in Hp. cbn in Hp.
  assert (Enx : next (f x) = hd HEAD l2) by (apply path_app in Hn as [_ Hn]; by apply path_first in Hn).
  assert (Epx : prev (f x) = hd HEAD (reverse l1)) by (apply path_app in Hp as [_ Hp]; by apply path_first in Hp).
  split.
  - eapply path_remove; [apply Hn|done|apply hd_reverse_last| |].
    + cbn. by rewrite En, Epx, decide_True.
    + cbn. intros y Hy. rewrite En, decide_False; [done|]. by rewrite Epx.
  - rewrite reverse_app. eapply path_remove; [apply Hp| |apply last_cons_reverse| |].
    + apply NoDup_reverse_cons in Hnd. rewrite reverse_app, reverse_cons, <-app_assoc in Hnd. done.
    + cbn. by rewrite Ep, Enx, decide_True.
    + cbn. intros y Hy. rewrite Ep, decide_False; [done|]. by rewrite Enx.
Qed.
End Ring.

(** ** The cache invariant *)

Definition busy (b : buf) : bool := has (flags b) B_BUSY.
Definition valid (b : buf) : bool := has (flags b) B_VALID.
Definition dirty (b : buf) : bool := has (flags b) B_DIRTY.

Definition NODEV : Z := u32 (-1).

Lemma rootdev_bound : 1 ≠ NODEV.
Proof. done. Qed.

(** What a buffer holds, apart from its place in the list. *)
Definition payload (b : buf) : Z * Z * Z * list Z := (flags b, dev b, blockno b, data b).

(** The LRU list holds every buffer once. *)
Definition linked (f : nat → buf) : Prop := ∃ l, ring f l ∧ l ≡ₚ seq 0 NBUF.

Record cache_ok (s : io) : Prop := {
  ok_linked : linked (bufs s);
  (** a block is cached at most once *)
  ok_uniq : ∀ i j, (i < NBUF)%nat → (j < NBUF)%nat → dev (bufs s i) ≠ NODEV →
    dev (bufs s i) = dev (bufs s j) → blockno (bufs s i) = blockno (bufs s j) → i = j;
  ok_valid : ∀ i, (i < NBUF)%nat → valid (bufs s i) = true →
    dev (bufs s i) = 1 ∧ 0 <= blockno (bufs s i) < disksize s ∧ length (data (bufs s i)) = BSIZE;
  ok_dirty : ∀ i, (i < NBUF)%nat → dirty (bufs s i) = true → valid (bufs s i) = true;
  (** a valid buffer nobody is using agrees with the disk unless it is dirty *)
  ok_clean : ∀ i, (i < NBUF)%nat → valid (bufs s i) = true → dirty (bufs s i) = false →
    busy (bufs s i) = false → data (bufs s i) = disk s (blockno (bufs s i));
  ok_disk : ∀ b, 0 <= b < disksize s → length (disk s b) = BSIZE;
}.

Lemma seq_HEAD l : l ≡ₚ seq 0 NBUF → NoDup (HEAD :: l) ∧ ∀ i, i ∈ l ↔ (i < NBUF)%nat.
Proof.
  intros Hl. assert (Hi : ∀ i, i ∈ l ↔ (i < NBUF)%nat).
  { intros i. rewrite Hl, elem_of_seq. lia. }
  split; [|done]. constructor.
  - rewrite Hi. unfold HEAD. lia.
  - rewrite Hl. apply NoDup_seq.
Qed.

(** ** What clients of the cache see *)

Definition cached (s : io) (b : Z) (i : nat) : Prop :=
  (i < NBUF)%nat ∧ dev (bufs s i) = 1 ∧ blockno (bufs s i) = b ∧ valid (bufs s i) = true.

Definition lookup_block (s : io) (b : Z) : option nat :=
  head (filter (λ i, dev (bufs s i) = 1 ∧ blockno (bufs s i) = b ∧ valid (bufs s i) = true) (seq 0 NBUF)).

(** The contents of block [b]: the cached copy, or else the disk's. *)
Definition view (s : io) (b : Z) : list Z :=
  match lookup_block s b with
  | Some i => data (bufs s i)
  | None => disk s b
  end.

(** Block [b] is cached dirty, so it cannot be evicted. *)
Definition pinned (s : io) (b : Z) : Prop := ∃ i, cached s b i ∧ dirty (bufs s i) = true.

(** The caller holds buffer [i], locked, for block [b] with contents [d]. *)
Definition holds (s : io) (i : nat) (b : Z) (d : list Z) : Prop :=
  cached s b i ∧ busy (bufs s i) = true ∧ data (bufs s i) = d.

(** No buffer is locked. *)
Definition quiet (s : io) : Prop := ∀ i, (i < NBUF)%nat → busy (bufs s i) = false.

Definition available (s : io) : Prop :=
  ∃ i, (i < NBUF)%nat ∧ busy (bufs s i) = false ∧ dirty (bufs s i) = false.

Lemma lookup_block_Some s b i : lookup_block s b = Some i → cached s b i.
Proof.
  intros H%head_elem. rewrite list_elem_of_filter, elem_of_seq in H.
  unfold cached. naive_solver lia.
Qed.

Lemma lookup_block_None s b i : lookup_block s b = None → ¬ cached s b i.
Proof.
  intros H%head_none (Hi & Hd & Hb & Hv).
  assert (Hin : i ∈ (filter (λ i, dev (bufs s i) = 1 ∧ blockno (bufs s i) = b ∧ valid (bufs s i) = true) (seq 0 NBUF))).
  { rewrite list_elem_of_filter, elem_of_seq. auto with lia. }
  rewrite H in Hin. set_solver.
Qed.

Lemma cached_uniq s b i j : cache_ok s → cached s b i → cached s b j → i = j.
Proof.
  intros I (Hi & Hdi & Hbi & _) (Hj & Hdj & Hbj & _).
  apply (ok_uniq _ I); try done; [rewrite Hdi; done|congruence|congruence].
Qed.

Lemma view_cached s b i : cache_ok s → cached s b i → view s b = data (bufs s i).
Proof.
  intros I Hc. unfold view. destruct (lookup_block s b) as [j|] eqn:E.
  - apply lookup_block_Some in E. by rewrite (cached_uniq s b i j).
  - by destruct (lookup_block_None _ _ i E).
Qed.

Lemma view_uncached s b : (∀ i, ¬ cached s b i) → view s b = disk s b.
Proof.
  intros H. unfold view. destruct (lookup_block s b) as [j|] eqn:E; [|done].
  apply lookup_block_Some in E. naive_solver.
Qed.

Lemma length_view s b : cache_ok s → 0 <= b < disksize s → length (view s b) = BSIZE.
Proof.
  intros I Hb. unfold view. destruct (lookup_block s b) as [j|] eqn:E.
  - apply lookup_block_Some in E as (Hj & _ & _ & Hv). by apply (ok_valid _ I j).
  - by apply (ok_disk _ I).
Qed.

(** Two caches that agree on what block [b]'s buffers hold show the same
    contents for it. *)
Lemma view_ext s s' b :
  cache_ok s → cache_ok s' → disk s' b = disk s b →
  (∀ i, cached s b i → cached s' b i ∧ data (bufs s' i) = data (bufs s i)) →
  (∀ i, cached s' b i → cached s b i) → view s' b = view s b.
Proof.
  intros I I' Hd H H'. destruct (lookup_block s b) as [j|] eqn:E.
  - apply lookup_block_Some in E. destruct (H j E) as [E' Ed].
    by rewrite (view_cached s b j), (view_cached s' b j).
  - rewrite (view_uncached s), (view_uncached s'); [done| |].
    + intros i Hi%H'. by apply (lookup_block_None _ _ _ E) in Hi.
    + intros i. by apply lookup_block_None.
Qed.

(** Pointer updates and flag updates that keep the list linked. *)
Lemma linked_ext f f' :
  (∀ i, next (f' i) = next (f i) ∧ prev (f' i) = prev (f i)) → linked f → linked f'.
Proof.
  intros H (l & [Hn Hp] & Hl). exists l. split; [|done]. split.
  - eapply path_ext; [|apply Hn]. intros z _. apply H.
  - eapply path_ext; [|apply Hp]. intros z _. apply H.
Qed.

Lemma linked_insert f i b :
  next b = next (f i) → prev b = prev (f i) → linked f → linked (<[i := b]> f).
Proof.
  intros Hn Hp. apply linked_ext. intros j. unfold insert, fn_insert.
  destruct (decide (i = j)); subst; done.
Qed.

(** ** bget *)

Lemma bget_hit s dv b i :
  cache_ok s → (i < NBUF)%nat → dv ≠ NODEV → dev (bufs s i) = dv → blockno (bufs s i) = b →
  busy (bufs s i) = false →
  bget dv b s = Done i (set_bufs (<[i := set_flags (Z.lor (flags (bufs s i)) B_BUSY) (bufs s i)]> (bufs s)) s).
Proof.
  intros I Hi Hdv Hd Hb Hbusy. destruct (ok_linked _ I) as (l & [Hn _] & Hl).
  destruct (seq_HEAD l Hl) as [Hnd Hin].
  unfold bget, get, mbind, M_bind.
  rewrite (scan_path _ _ _ _ _ l Hn).
  2: { by inversion Hnd. }
  2: { rewrite Hl, length_seq. unfold SCAN. lia. }
  assert (E : head (filter (λ i, ((dev (bufs s i) =? dv) && (blockno (bufs s i) =? b)) = true) l) = Some i).
  { destruct (head _) as [j|] eqn:E.
    - apply head_elem in E. rewrite list_elem_of_filter, andb_true_iff, !Z.eqb_eq, Hin in E.
      destruct E as [[Ed Eb] Hj]. f_equal. apply (ok_uniq _ I); congruence.
    - apply head_none in E. apply Hin in Hi.
      assert (Hf : i ∈ filter (λ i, ((dev (bufs s i) =? dv) && (blockno (bufs s i) =? b)) = true) l).
      { rewrite list_elem_of_filter, andb_true_iff, !Z.eqb_eq. done. }
      rewrite E in Hf. set_solver. }
  rewrite E. unfold busy in Hbusy. rewrite Hbusy. done.
Qed.

(** The least recently used buffer that is neither locked nor dirty. *)
Definition victim (s : io) (l : list nat) : option nat :=
  head (filter (λ i, (negb (has (flags (bufs s i)) B_BUSY) && negb (has (flags (bufs s i)) B_DIRTY)) = true)
          (reverse l)).

Lemma bget_miss s dv b l :
  cache_ok s → ring (bufs s) l → l ≡ₚ seq 0 NBUF →
  (∀ i, (i < NBUF)%nat → dev (bufs s i) = dv → blockno (bufs s i) ≠ b) →
  bget dv b s =
    match victim s l with
    | Some i => Done i (set_bufs (<[i := mkBuf B_BUSY dv b (prev (bufs s i)) (next (bufs s i))
                                          (data (bufs s i))]> (bufs s)) s)
    | None => Panic "bget: no buffers"
    end.
Proof.
  intros I [Hn Hp] Hl Hmiss. destruct (seq_HEAD l Hl) as [Hnd Hin].
  assert (Hlen : (length l < SCAN)%nat) by (rewrite Hl, length_seq; unfold SCAN; lia).
  assert (Hni : HEAD ∉ l) by (by inversion Hnd).
  unfold bget, get, mbind, M_bind.
  rewrite (scan_path _ _ _ _ _ l Hn) by done.
  assert (E : filter (λ i, ((dev (bufs s i) =? dv) && (blockno (bufs s i) =? b)) = true) l = []).
  { apply filter_none. intros i Hi%Hin.
    rewrite andb_true_iff, !Z.eqb_eq. naive_solver. }
  rewrite E. cbn [head]. rewrite (scan_path _ _ _ _ _ (reverse l) Hp).
  - unfold victim. by destruct (head _).
  - by rewrite elem_of_reverse.
  - by rewrite length_reverse.
Qed.

Lemma victim_spec s l i :
  l ≡ₚ seq 0 NBUF → victim s l = Some i →
  (i < NBUF)%nat ∧ busy (bufs s i) = false ∧ dirty (bufs s i) = false.
Proof.
  intros Hl H%head_elem. rewrite list_elem_of_filter, elem_of_reverse, andb_true_iff, !negb_true_iff in H.
  destruct H as [[Hb Hd] Hi]. split; [|done]. by apply (seq_HEAD l Hl).
Qed.

Lemma victim_available s l : l ≡ₚ seq 0 NBUF → available s → ∃ i, victim s l = Some i.
Proof.
  intros Hl (i & Hi & Hb & Hd). unfold victim. destruct (head _) as [j|] eqn:E; [eauto|].
  apply head_none in E.
  assert (Hin : i ∈ filter (λ i, (negb (has (flags (bufs s i)) B_BUSY) &&
                               negb (has (flags (bufs s i)) B_DIRTY)) = true) (reverse l)).
  { rewrite list_elem_of_filter, elem_of_reverse, andb_true_iff, !negb_true_iff.
    split; [done|]. by apply (seq_HEAD l Hl). }
  rewrite E in Hin. set_solver.
Qed.

(** ** One buffer changes *)

(** [s'] is [s] with buffer [i] replaced by [b']. *)
Definition replaced (s s' : io) (i : nat) (b' : buf) : Prop :=
  (∀ j, bufs s' j = if decide (j = i) then b' else bufs s j) ∧ disksize s' = disksize s.

Lemma cache_ok_replaced s s' i b' :
  cache_ok s → (i < NBUF)%nat → replaced s s' i b' →
  next b' = next (bufs s i) → prev b' = prev (bufs s i) →
  (dev b' ≠ NODEV → ∀ j, (j < NBUF)%nat → j ≠ i → dev (bufs s j) = dev b' → blockno (bufs s j) ≠ blockno b') →
  (valid b' = true → dev b' = 1 ∧ 0 <= blockno b' < disksize s ∧ length (data b') = BSIZE) →
  (dirty b' = true → valid b' = true) →
  (valid b' = true → dirty b' = false → busy b' = false → data b' = disk s' (blockno b')) →
  (∀ j, (j < NBUF)%nat → j ≠ i → valid (bufs s j) = true →
        disk s' (blockno (bufs s j)) = disk s (blockno (bufs s j))) →
  (∀ b, 0 <= b < disksize s → length (disk s' b) = BSIZE) →
  cache_ok s'.
Proof.
  intros I Hi [Hb Hsz] Hn Hp Hu Hv Hd Hc Hdk Hlen. split.
  - apply (linked_ext (bufs s)); [|apply (ok_linked _ I)]. intros j. rewrite Hb. by case_decide; subst.
  - intros j k Hj Hk. rewrite !Hb. repeat case_decide; subst; try done.
    + intros Hdv Ed Eb. exfalso. apply (Hu Hdv k); congruence.
    + intros Hdv Ed Eb. exfalso. apply (Hu ltac:(congruence) j); congruence.
    + by apply (ok_uniq _ I).
  - intros j Hj. rewrite Hb, Hsz. case_decide; [done|by apply (ok_valid _ I)].
  - intros j Hj. rewrite Hb. case_decide; [done|by apply (ok_dirty _ I)].
  - intros j Hj. rewrite Hb. case_decide; [done|]. intros. rewrite Hdk by done. by apply (ok_clean _ I).
  - rewrite Hsz. done.
Qed.

(** If block [b] is the only one buffer [i] could stand for in either state,
    other blocks are seen unchanged. *)
Lemma view_replaced s s' i b' b :
  cache_ok s → cache_ok s' → replaced s s' i b' → disk s' b = disk s b →
  ¬ cached s' b i → (cached s b i → data (bufs s i) = disk s b) → view s' b = view s b.
Proof.
  intros I I' [Hb _] Hd H' H. destruct (decide (cached s b i)) as [Hc|Hc].
  - rewrite (view_cached s b i), H by done. rewrite (view_uncached s' b); [done|].
    intros j Hj. destruct (decide (j = i)) as [->|Hne]; [done|].
    apply Hne, (cached_uniq s b j i); [done| |done].
    unfold cached in *. rewrite Hb, decide_False in Hj by done. done.
  - apply view_ext; try done; intros j; destruct (decide (j = i)) as [->|]; try done;
      unfold cached; rewrite Hb, decide_False; done.
Qed.

(** ** bread *)

(** Nothing a client can observe about block contents has changed. *)
Record unchanged (s s' : io) : Prop := {
  un_disk : disk s' = disk s;
  un_size : disksize s' = disksize s;
  un_written : written s' = written s;
  un_view : ∀ b, view s' b = view s b;
  un_pinned : ∀ b, pinned s' b ↔ pinned s b;
}.

(** [pinned] only depends on the buffers that are dirty. *)
Lemma pinned_replaced s s' i b' b :
  replaced s s' i b' → (cached s b i ∧ dirty (bufs s i) = true ↔ cached s' b i ∧ dirty b' = true) →
  pinned s' b ↔ pinned s b.
Proof.
  intros [Hb _] H. unfold pinned. assert (Hi : bufs s' i = b') by (by rewrite Hb, decide_True).
  assert (Hj : ∀ j, j ≠ i → (cached s' b j ∧ dirty (bufs s' j) = true ↔ cached s b j ∧ dirty (bufs s j) = true)).
  { intros j Hne. unfold cached. by rewrite Hb, decide_False. }
  split; intros (j & Hc); (destruct (decide (j = i)) as [->|]; [exists i; rewrite ?Hi in *; tauto|exists j; by apply Hj]).
Qed.

Lemma iderw_read s i b :
  busy (bufs s i) = true → valid (bufs s i) = false → dirty (bufs s i) = false →
  dev (bufs s i) = 1 → blockno (bufs s i) = b → b < disksize s →
  ∃ s', iderw i s = Done tt s' ∧
    replaced s s' i (set_flags (Z.lor (flags (bufs s i)) B_VALID) (set_data (disk s b) (bufs s i))) ∧
    disk s' = disk s ∧ written s' = written s ∧ woken s' = woken s.
Proof.
  intros Hb Hv Hd Hdev Hbno Hlt. unfold busy, valid, dirty in *. unfold iderw. munfold.
  rewrite Hb, has_valid_clean, Hv, Hdev, Hbno. cbn.
  destruct (Z.leb_spec (disksize s) b); [lia|]. rewrite Hd. eexists. split; [reflexivity|].
  split; [|done]. split; [|done]. intros j. unfold insert, fn_insert; cbn.
  rewrite (decide_True (P := i = i)) by done. by destruct (decide (i = j)), (decide (j = i)); subst.
Qed.

(** Loading block [b] from disk into a clean, unlocked buffer [i]. *)
Lemma load_spec s s' i b B :
  cache_ok s → (i < NBUF)%nat → 0 <= b < disksize s →
  busy (bufs s i) = false → dirty (bufs s i) = false →
  (∀ j, (j < NBUF)%nat → dev (bufs s j) = 1 → blockno (bufs s j) = b → j = i ∧ valid (bufs s i) = false) →
  replaced s s' i B → disk s' = disk s → written s' = written s →
  next B = next (bufs s i) → prev B = prev (bufs s i) →
  dev B = 1 → blockno B = b → data B = disk s b →
  busy B = true → valid B = true → dirty B = false →
  cache_ok s' ∧ holds s' i b (view s b) ∧ unchanged s s'.
Proof.
  intros I Hi Hb Hbusy Hdirty Huniq R Hdk Hwr Hn Hp Hdev Hbno Hdata HB HV HD.
  assert (Hi' : bufs s' i = B) by (by rewrite (proj1 R), decide_True).
  assert (I' : cache_ok s').
  { apply (cache_ok_replaced s s' i B); try done; rewrite ?Hdk, ?Hdata, ?Hbno, ?Hdev; try done.
    - intros _ j Hj Hne Ed Eb. by destruct (Huniq j Hj Ed Eb).
    - intros _. repeat split; try lia. by apply (ok_disk _ I).
    - apply (ok_disk _ I). }
  assert (Hnc : ∀ j, ¬ cached s b j).
  { intros j (Hj & Ed & Eb & Ev). destruct (Huniq j Hj Ed Eb) as [-> ?]. congruence. }
  assert (Hc : cached s' b i) by (unfold cached; rewrite Hi'; done).
  split; [done|]. split.
  { repeat split; try apply Hc; rewrite Hi'; try done. by rewrite Hdata, view_uncached. }
  split; try done; [apply R| |].
  - intros b'. destruct (decide (b' = b)) as [->|Hne].
    + rewrite (view_cached s' b i), (view_uncached s b) by done. by rewrite Hi'.
    + apply (view_replaced s s' i B); try done; [by rewrite Hdk| |].
      * intros (_ & _ & E & _). rewrite Hi' in E. congruence.
      * intros (_ & _ & <- & Ev). by apply (ok_clean _ I).
  - intros b'. apply (pinned_replaced s s' i B); [done|]. rewrite Hdirty, HD. naive_solver.
Qed.

(** What a successful [bread] of block [b] promises its caller. *)
Definition bread_post (s : io) (b : Z) (i : nat) (s' : io) : Prop :=
  cache_ok s' ∧ holds s' i b (view s b) ∧ unchanged s s' ∧ woken s' = woken s ∧
  (∀ j, j ≠ i → bufs s' j = bufs s j) ∧ busy (bufs s i) = false ∧
  dirty (bufs s' i) = dirty (bufs s i) ∧ (cached s b i ∨ dirty (bufs s i) = false).

Lemma replaced_insert s i B : replaced s (set_bufs (<[i := B]> (bufs s)) s) i B.
Proof.
  split; [|done]. intros j. unfold insert, fn_insert; cbn.
  by destruct (decide (i = j)), (decide (j = i)); subst.
Qed.

Lemma replaced_trans s s1 s2 i B1 B2 : replaced s s1 i B1 → replaced s1 s2 i B2 → replaced s s2 i B2.
Proof.
  intros [H1 S1] [H2 S2]. split; [|congruence]. intros j. rewrite H2. case_decide; [done|].
  by rewrite H1, decide_False.
Qed.

Lemma replaced_same s s' i B : replaced s s' i B → bufs s' i = B.
Proof. intros [H _]. by rewrite H, decide_True. Qed.

Lemma replaced_other s s' i B j : replaced s s' i B → j ≠ i → bufs s' j = bufs s j.
Proof. intros [H _] Hj. by rewrite H, decide_False. Qed.

(** Changing only the flags of a cached buffer, keeping it valid. *)
Lemma view_reflag s s' b i B :
  cache_ok s → cache_ok s' → cached s b i → replaced s s' i B → disk s' = disk s →
  dev B = 1 → blockno B = b → data B = data (bufs s i) → valid B = true →
  ∀ b', view s' b' = view s b'.
Proof.
  intros I I' Hc R Hdk Hd Hb Hdata Hv b'. pose proof (replaced_same _ _ _ _ R) as Hi.
  apply view_ext; try done; [by rewrite Hdk| |];
    intros j; destruct (decide (j = i)) as [->|Hne];
    unfold cached in *; rewrite ?Hi, ?(replaced_other _ _ _ _ _ R Hne); naive_solver.
Qed.

Lemma bread_cached s b i :
  cache_ok s → cached s b i → busy (bufs s i) = false →
  ∃ s', bread 1 b s = Done i s' ∧ bread_post s b i s'.
Proof.
  intros I Hc Hnb. destruct (Hc) as (Hi & Hd & Hbn & Hv).
  pose proof (bget_hit s 1 b i I Hi ltac:(done) Hd Hbn Hnb) as Eg.
  set (B := set_flags (Z.lor (flags (bufs s i)) B_BUSY) (bufs s i)) in *.
  pose proof (replaced_insert s i B) as R.
  set (s1 := set_bufs (<[i := B]> (bufs s)) s) in *.
  pose proof (replaced_same _ _ _ _ R) as Hi1.
  assert (HB : busy B = true) by (unfold busy, B; cbn; by flags).
  assert (HV : valid B = true) by (unfold valid, B in *; cbn; flags; by rewrite Hv).
  assert (HD : dirty B = dirty (bufs s i)) by (unfold dirty, B; cbn; by flags).
  assert (I1 : cache_ok s1).
  { apply (cache_ok_replaced s s1 i B); try done.
    - intros _ j Hj Hne Ed Eb. apply Hne. pose proof rootdev_bound.
      apply (ok_uniq _ I); cbn in *; congruence.
    - intros _. by apply (ok_valid _ I).
    - intros _ _. by rewrite HB.
    - apply (ok_disk _ I). }
  exists s1. split.
  { unfold bread. rewrite (bind_Done _ _ _ _ _ Eg). unfold buf_at. mgo. rewrite Hi1.
    unfold valid in HV. by rewrite HV. }
  assert (Hc1 : cached s1 b i) by (unfold cached; by rewrite Hi1).
  split; [done|]. split.
  { split; [done|]. by rewrite Hi1, (view_cached s b i). }
  split.
  { split; try done; [by apply (view_reflag s s1 b i B)|].
    intros b'. apply (pinned_replaced s s1 i B); [done|]. unfold cached. rewrite Hi1, HD. naive_solver. }
  rewrite Hi1. split; [done|]. split; [intros j Hj; by apply (replaced_other _ _ _ _ _ R)|].
  split; [done|]. split; [done|]. by left.
Qed.

(** [bread] after [bget] has handed out a buffer that is not loaded. *)
Lemma bread_fill s s1 b i B :
  cache_ok s → (i < NBUF)%nat → 0 <= b < disksize s →
  busy (bufs s i) = false → dirty (bufs s i) = false →
  (∀ j, (j < NBUF)%nat → dev (bufs s j) = 1 → blockno (bufs s j) = b → j = i ∧ valid (bufs s i) = false) →
  bget 1 b s = Done i s1 → replaced s s1 i B →
  disk s1 = disk s → written s1 = written s → woken s1 = woken s →
  next B = next (bufs s i) → prev B = prev (bufs s i) → dev B = 1 → blockno B = b →
  busy B = true → valid B = false → dirty B = false →
  ∃ s', bread 1 b s = Done i s' ∧ bread_post s b i s'.
Proof.
  intros I Hi Hb Hnb Hnd Huniq Eg R Hdk Hwr Hwk Hn Hp Hd Hbn HB HV HD.
  pose proof (replaced_same _ _ _ _ R) as Hi1.
  destruct (iderw_read s1 i b) as (s2 & E2 & R2 & Hdk2 & Hwr2 & Hwk2);
    rewrite ?Hi1, ?(proj2 R); try done; [lia|].
  rewrite Hi1, Hdk in R2. pose proof (replaced_trans _ _ _ _ _ _ R R2) as R'.
  set (B2 := set_flags (Z.lor (flags B) B_VALID) (set_data (disk s b) B)) in *.
  unfold busy, valid, dirty in HB, HV, HD.
  assert (HD2 : dirty B2 = false) by (unfold dirty, B2; cbn; flags; by rewrite HD).
  destruct (load_spec s s2 i b B2) as (I2 & H2 & U2); try done; try congruence.
  { unfold busy, B2; cbn. flags. by rewrite HB. }
  { unfold valid, B2; cbn. by flags. }
  exists s2. split.
  { unfold bread. rewrite (bind_Done _ _ _ _ _ Eg). unfold buf_at. mgo. rewrite Hi1, HV. cbn [negb].
    by rewrite (bind_Done _ _ _ _ _ E2). }
  split; [done|]. split; [done|]. split; [done|]. rewrite (replaced_same _ _ _ _ R').
  split; [congruence|]. split; [intros j Hj; by apply (replaced_other _ _ _ _ _ R')|].
  split; [done|]. split; [congruence|]. by right.
Qed.

Lemma bread_spec s b :
  cache_ok s → 0 <= b < disksize s →
  (∀ i, (i < NBUF)%nat → dev (bufs s i) = 1 → blockno (bufs s i) = b → busy (bufs s i) = false) →
  (∃ i, cached s b i) ∨ available s →
  ∃ i s', bread 1 b s = Done i s' ∧ bread_post s b i s'.
Proof.
  intros I Hb Hfree Hav.
  destruct (decide (Exists (λ i, dev (bufs s i) = 1 ∧ blockno (bufs s i) = b) (seq 0 NBUF))) as [Hx|Hx].
  - apply Exists_exists in Hx as (i & Hi & Hd & Hbn). apply elem_of_seq in Hi as [_ Hi]. cbn in Hi.
    pose proof (Hfree i Hi Hd Hbn) as Hnb. exists i.
    destruct (valid (bufs s i)) eqn:Ev; [by apply bread_cached|].
    assert (Hdi : dirty (bufs s i) = false).
    { destruct (dirty (bufs s i)) eqn:E; [|done]. apply (ok_dirty _ I) in E; congruence. }
    eapply (bread_fill s _ b i (set_flags (Z.lor (flags (bufs s i)) B_BUSY) (bufs s i)));
      try apply replaced_insert; try done.
    + intros j Hj Ed Eb. split; [|done]. pose proof rootdev_bound. apply (ok_uniq _ I); done || congruence.
    + by apply bget_hit.
    + unfold busy; cbn. by flags.
    + unfold valid in *; cbn. flags. by rewrite Ev.
    + unfold dirty in *; cbn. flags. by rewrite Hdi.
  - rewrite <-Forall_Exists_neg, Forall_forall in Hx.
    assert (Hmiss : ∀ i, (i < NBUF)%nat → dev (bufs s i) = 1 → blockno (bufs s i) ≠ b).
    { intros i Hi Hd Hbn. apply (Hx i); [|done]. apply elem_of_seq. lia. }
    destruct Hav as [(i & Hi & Hd & Hbn & _)|Hav]; [by destruct (Hmiss i Hi Hd)|].
    destruct (ok_linked _ I) as (l & Hr & Hl).
    pose proof (bget_miss s 1 b l I Hr Hl Hmiss) as Eg.
    destruct (victim_available s l Hl Hav) as [i Ev]. rewrite Ev in Eg.
    destruct (victim_spec s l i Hl Ev) as (Hi & Hnb & Hnd). exists i.
    eapply (bread_fill s _ b i (mkBuf B_BUSY 1 b (prev (bufs s i)) (next (bufs s i)) (data (bufs s i))));
      try apply replaced_insert; try done.
    intros j Hj Ed Eb. by destruct (Hmiss j Hj Ed).
Qed.

(** ** Using a held buffer *)

Lemma holds_inv s i b d :
  cache_ok s → holds s i b d →
  (i < NBUF)%nat ∧ 0 <= b < disksize s ∧ length d = BSIZE ∧ view s b = d ∧
  (∀ j, (j < NBUF)%nat → j ≠ i → dev (bufs s j) = 1 → blockno (bufs s j) ≠ b).
Proof.
  intros I (Hc & Hb & Hd). pose proof (view_cached _ _ _ I Hc) as Hv. destruct Hc as (Hi & Hdev & Hbn & Hval).
  destruct (ok_valid _ I i Hi Hval) as (_ & Hr & Hlen). split_and!; try done; try lia; try congruence.
  intros j Hj Hne Ed Eb. apply Hne. pose proof rootdev_bound. apply (ok_uniq _ I); congruence.
Qed.

(** The caller stores new contents into its buffer. *)
Lemma store_spec s i b d d' :
  cache_ok s → holds s i b d → length d' = BSIZE →
  ∃ s', upd_buf i (set_data d') s = Done tt s' ∧ cache_ok s' ∧ holds s' i b d' ∧
    disk s' = disk s ∧ disksize s' = disksize s ∧ written s' = written s ∧ woken s' = woken s ∧
    (∀ b', view s' b' = if decide (b' = b) then d' else view s b') ∧
    (∀ b', pinned s' b' ↔ pinned s b') ∧
    dirty (bufs s' i) = dirty (bufs s i) ∧ (∀ j, j ≠ i → bufs s' j = bufs s j).
Proof.
  intros I Hh Hlen. destruct (holds_inv _ _ _ _ I Hh) as (Hi & Hr & _ & _ & Hu).
  destruct Hh as (Hc & Hb & _). destruct (Hc) as (_ & Hdev & Hbn & Hv).
  pose proof (replaced_insert s i (set_data d' (bufs s i))) as R.
  eexists. split; [reflexivity|].
  set (s' := set_bufs (<[i := set_data d' (bufs s i)]> (bufs s)) s) in *.
  pose proof (replaced_same _ _ _ _ R) as Hi'.
  assert (I' : cache_ok s').
  { apply (cache_ok_replaced s s' i (set_data d' (bufs s i))); try done.
    - intros _ j Hj Hne Ed Eb. cbn in Ed, Eb. apply (Hu j); congruence.
    - intros _. cbn. rewrite Hbn. split; [done|]. split; [lia|done].
    - unfold busy in *; cbn. by rewrite Hb.
    - apply (ok_disk _ I). }
  assert (Hc' : cached s' b i) by (unfold cached; by rewrite Hi').
  split; [done|]. split; [split; [done|]; by rewrite Hi'|].
  do 4 (split; [done|]). split; [|split; [|split]].
  - intros b'. case_decide as E; [subst b'; by rewrite (view_cached s' b i), Hi'|].
    apply (view_replaced s s' i (set_data d' (bufs s i))); try done;
      intros (_ & _ & E' & _); rewrite ?Hi' in E'; cbn in E'; congruence.
  - intros b'. apply (pinned_replaced s s' i (set_data d' (bufs s i))); [done|].
    unfold cached. by rewrite Hi'.
  - by rewrite Hi'.
  - intros j Hj. by apply (replaced_other _ _ _ _ _ R).
Qed.

Lemma iderw_write s i b d :
  busy (bufs s i) = true → dirty (bufs s i) = true →
  dev (bufs s i) = 1 → blockno (bufs s i) = b → data (bufs s i) = d → b < disksize s →
  ∃ s', iderw i s = Done tt s' ∧
    replaced s s' i (set_flags (Z.lor (Z.ldiff (flags (bufs s i)) B_DIRTY) B_VALID) (bufs s i)) ∧
    disk s' = <[b := d]> (disk s) ∧ written s' = written s ++ [(b, d)] ∧ woken s' = woken s.
Proof.
  intros Hb Hd Hdev Hbno Hdata Hlt. unfold busy, dirty in *. unfold iderw. munfold.
  rewrite Hb, has_valid_clean, Hd, Hdev, Hbno, andb_false_r, Hdata. cbn.
  destruct (Z.leb_spec (disksize s) b); [lia|]. eexists. split; [reflexivity|].
  split; [|done]. split; [|done]. intros j. unfold insert, fn_insert; cbn.
  rewrite (decide_True (P := i = i)) by done. by destruct (decide (i = j)), (decide (j = i)); subst.
Qed.

Lemma bwrite_spec s i b d :
  cache_ok s → holds s i b d →
  ∃ s', bwrite i s = Done tt s' ∧ cache_ok s' ∧ holds s' i b d ∧
    disk s' = <[b := d]> (disk s) ∧ disksize s' = disksize s ∧
    written s' = written s ++ [(b, d)] ∧ woken s' = woken s ∧
    (∀ b', view s' b' = view s b') ∧ (∀ b', pinned s' b' ↔ pinned s b' ∧ b' ≠ b) ∧
    dirty (bufs s' i) = false ∧ (∀ j, j ≠ i → bufs s' j = bufs s j).
Proof.
  intros I Hh. destruct (holds_inv _ _ _ _ I Hh) as (Hi & Hr & Hlen & Hvw & Hu).
  destruct Hh as (Hc & Hb & Hd). destruct (Hc) as (_ & Hdev & Hbn & Hv).
  pose proof (replaced_insert s i (set_flags (Z.lor (flags (bufs s i)) B_DIRTY) (bufs s i))) as R1.
  set (s1 := set_bufs _ s) in R1. pose proof (replaced_same _ _ _ _ R1) as Hi1.
  destruct (iderw_write s1 i b d) as (s' & E & R2 & Hdk & Hwr & Hwk); rewrite ?Hi1; try done; try lia.
  { unfold busy in *; cbn. flags. by rewrite Hb. }
  { unfold dirty; cbn. by flags. }
  { cbn. lia. }
  rewrite Hi1 in R2. pose proof (replaced_trans _ _ _ _ _ _ R1 R2) as R. cbn in R.
  set (B := set_flags _ _) in R. pose proof (replaced_same _ _ _ _ R) as Hi'.
  unfold busy, valid in Hb, Hv.
  assert (HB : busy B = true) by (unfold busy, B; cbn; flags; by rewrite Hb).
  assert (HV : valid B = true) by (unfold valid, B; cbn; by flags).
  assert (HD : dirty B = false) by (unfold dirty, B; cbn; by flags).
  assert (Edk : disk s' = <[b := d]> (disk s)) by done.
  assert (Hother : ∀ b', b' ≠ b → disk s' b' = disk s b').
  { intros b' Hne. rewrite Edk. by rewrite fn_lookup_insert_ne. }
  exists s'. split.
  { unfold bwrite, buf_at. mgo. rewrite Hb. cbn [negb]. rewrite (bind_Done _ _ _ tt s1); done. }
  assert (I' : cache_ok s').
  { apply (cache_ok_replaced s s' i B); try done.
    - intros _ j Hj Hne Ed Eb. cbn in Ed, Eb. apply (Hu j); congruence.
    - intros _. cbn. rewrite Hbn, Hd. split; [done|]. split; [lia|done].
    - intros _ _. by rewrite HB.
    - intros j Hj Hne Hvj. apply Hother. apply Hu; try done. by apply (ok_valid _ I).
    - intros b' Hb'. destruct (decide (b' = b)) as [->|]; [by rewrite Edk, fn_lookup_insert|].
      rewrite Hother by done. by apply (ok_disk _ I). }
  assert (Hc' : cached s' b i) by (unfold cached; by rewrite Hi').
  split; [done|]. split; [split; [done|]; by rewrite Hi'|].
  split; [done|]. split; [apply R|]. split; [done|]. split; [done|]. split; [|split; [|split]].
  - intros b'. destruct (decide (b' = b)) as [->|Hne].
    { rewrite (view_cached s' b i), (view_cached s b i), Hi' by done. done. }
    apply (view_replaced s s' i B); try done; [by apply Hother| |];
      intros (_ & _ & E' & _); rewrite ?Hi' in E'; cbn in E'; congruence.
  - intros b'. destruct (decide (b' = b)) as [->|Hne].
    + split; [|naive_solver]. intros (j & Hcj & Hdj). rewrite (cached_uniq s' b j i) in Hdj by done.
      rewrite Hi' in Hdj. congruence.
    + assert (E' : pinned s' b' ↔ pinned s b'); [|naive_solver].
      apply (pinned_replaced s s' i B); [done|]. unfold cached. rewrite Hi'. cbn. naive_solver.
  - by rewrite Hi'.
  - intros j Hj. by apply (replaced_other _ _ _ _ _ R).
Qed.

(** [b->flags |= B_DIRTY], as [log_write] does: the block is now pinned. *)
Lemma mark_dirty_spec s i b d :
  cache_ok s → holds s i b d →
  ∃ s', upd_buf i (λ b, set_flags (Z.lor (flags b) B_DIRTY) b) s = Done tt s' ∧ cache_ok s' ∧
    holds s' i b d ∧ disk s' = disk s ∧ disksize s' = disksize s ∧ written s' = written s ∧
    woken s' = woken s ∧ (∀ b', view s' b' = view s b') ∧
    (∀ b', pinned s' b' ↔ pinned s b' ∨ b' = b) ∧
    dirty (bufs s' i) = true ∧ (∀ j, j ≠ i → bufs s' j = bufs s j).
Proof.
  intros I Hh. destruct (holds_inv _ _ _ _ I Hh) as (Hi & Hr & Hlen & Hvw & Hu).
  destruct Hh as (Hc & Hb & Hd). destruct (Hc) as (_ & Hdev & Hbn & Hv).
  set (B := set_flags (Z.lor (flags (bufs s i)) B_DIRTY) (bufs s i)).
  pose proof (replaced_insert s i B) as R. eexists. split; [reflexivity|]. fold B.
  set (s' := set_bufs _ s) in *. pose proof (replaced_same _ _ _ _ R) as Hi'.
  unfold busy, valid in Hb, Hv.
  assert (HB : busy B = true) by (unfold busy, B; cbn; flags; by rewrite Hb).
  assert (HV : valid B = true) by (unfold valid, B; cbn; flags; by rewrite Hv).
  assert (HD : dirty B = true) by (unfold dirty, B; cbn; by flags).
  assert (I' : cache_ok s').
  { apply (cache_ok_replaced s s' i B); try done.
    - intros _ j Hj Hne Ed Eb. cbn in Ed, Eb. apply (Hu j); congruence.
    - intros _. cbn. rewrite Hbn, Hd. split; [done|]. split; [lia|done].
    - intros _ _. by rewrite HB.
    - apply (ok_disk _ I). }
  assert (Hc' : cached s' b i) by (unfold cached; by rewrite Hi').
  split; [done|]. split; [split; [done|]; by rewrite Hi'|].
  do 4 (split; [done|]). split; [|split; [|split]].
  - by apply (view_reflag s s' b i B).
  - intros b'. destruct (decide (b' = b)) as [->|Hne].
    + split; [naive_solver|]. intros _. exists i. by rewrite Hi'.
    + assert (E' : pinned s' b' ↔ pinned s b'); [|naive_solver].
      apply (pinned_replaced s s' i B); [done|]. unfold cached. rewrite Hi'. cbn. naive_solver.
  - by rewrite Hi'.
  - intros j Hj. by apply (replaced_other _ _ _ _ _ R).
Qed.

(** ** brelse *)

(** Unlink buffer [i] and push it at the front of the list: the pointer
    assignments of [brelse]. *)
Definition relink (i : nat) (f : nat → buf) : nat → buf :=
  let f1 := <[next (f i) := set_prev (prev (f i)) (f (next (f i)))]> f in
  let f2 := <[prev (f i) := set_next (next (f i)) (f1 (prev (f i)))]> f1 in
  let c := next (f2 HEAD) in
  let f3 := <[i := set_next c (f2 i)]> f2 in
  let f4 := <[i := set_prev HEAD (f3 i)]> f3 in
  let f5 := <[c := set_prev i (f4 c)]> f4 in
  <[HEAD := set_next i (f5 HEAD)]> f5.

Lemma payload_inv b b' :
  payload b = payload b' →
  flags b = flags b' ∧ dev b = dev b' ∧ blockno b = blockno b' ∧ data b = data b'.
Proof. unfold payload. naive_solver. Qed.

Lemma payload_insert_prev (f : nat → buf) (j x k : nat) : payload ((<[j := set_prev x (f j)]> f) k) = payload (f k).
Proof. unfold insert, fn_insert. by case_decide; subst. Qed.

Lemma payload_insert_next (f : nat → buf) (j x k : nat) : payload ((<[j := set_next x (f j)]> f) k) = payload (f k).
Proof. unfold insert, fn_insert. by case_decide; subst. Qed.

Lemma payload_relink i f k : payload (relink i f k) = payload (f k).
Proof. unfold relink. by rewrite payload_insert_next, !payload_insert_prev, !payload_insert_next, payload_insert_prev. Qed.

Lemma ring_relink f l i :
  ring f l → NoDup (HEAD :: l) → i ∈ l → ring (relink i f) (i :: filter (λ j, j ≠ i) l).
Proof.
  intros Hr Hnd Hi. apply list_elem_of_split in Hi as (l1 & l2 & ->).
  assert (Hni : i ∉ HEAD :: l1 ++ l2 ∧ NoDup (HEAD :: l1 ++ l2)).
  { assert (E : HEAD :: l1 ++ i :: l2 ≡ₚ i :: HEAD :: l1 ++ l2) by (rewrite <-Permutation_middle; constructor).
    rewrite E in Hnd. by apply NoDup_cons. }
  destruct Hni as [Hni Hnd2].
  rewrite filter_remove by (by inversion Hnd). unfold relink.
  set (f1 := <[next (f i) := set_prev (prev (f i)) (f (next (f i)))]> f).
  set (f2 := <[prev (f i) := set_next (next (f i)) (f1 (prev (f i)))]> f1).
  assert (Hr2 : ring f2 (l1 ++ l2)).
  { eapply ring_remove; [apply Hr|done| |]; intros j; unfold f2, f1, insert, fn_insert; cbn;
      repeat case_decide; subst; try done; congruence. }
  clearbody f2. clear f1. eapply ring_push; [apply Hr2|done|done| |]; intros j.
  - unfold insert, fn_insert; cbn. repeat case_decide; subst; try done; set_solver.
  - assert (Hc : next (f2 HEAD) ≠ i).
    { pose proof (path_first _ _ _ _ (ring_next _ _ Hr2)) as E. cbn in E. rewrite E.
      intros <-. apply Hni. destruct (l1 ++ l2); set_solver. }
    unfold insert, fn_insert; cbn. repeat case_decide; subst; try done; set_solver.
Qed.

Lemma linked_relink f i : linked f → (i < NBUF)%nat → linked (relink i f).
Proof.
  intros (l & Hr & Hl) Hi. destruct (seq_HEAD l Hl) as [Hnd Hin]. apply Hin in Hi.
  exists (i :: filter (λ j, j ≠ i) l). split; [by apply ring_relink|].
  rewrite <-Hl. apply list_elem_of_split in Hi as (l1 & l2 & ->).
  rewrite filter_remove by (by inversion Hnd). apply Permutation_middle.
Qed.

(** The cache with buffer [i] relinked: nothing but the list order changes. *)
Lemma relinked_ok s s' :
  cache_ok s → linked (bufs s') → (∀ j, payload (bufs s' j) = payload (bufs s j)) →
  disk s' = disk s → disksize s' = disksize s → written s' = written s →
  cache_ok s' ∧ unchanged s s'.
Proof.
  intros I Hl Hp Hdk Hsz Hwr.
  assert (E : ∀ j, flags (bufs s' j) = flags (bufs s j) ∧ dev (bufs s' j) = dev (bufs s j) ∧
                   blockno (bufs s' j) = blockno (bufs s j) ∧ data (bufs s' j) = data (bufs s j)).
  { intros j. apply payload_inv, Hp. }
  assert (Ec : ∀ b j, cached s' b j ↔ cached s b j).
  { intros b j. unfold cached, valid. by destruct (E j) as (-> & -> & -> & _). }
  assert (I' : cache_ok s').
  { split; [done| | | | |by rewrite Hsz, Hdk; apply (ok_disk _ I)]; unfold busy, valid, dirty; rewrite ?Hsz, ?Hdk.
    - intros j k. destruct (E j) as (_ & -> & -> & _), (E k) as (_ & -> & -> & _). apply (ok_uniq _ I).
    - intros j. destruct (E j) as (-> & -> & -> & ->). apply (ok_valid _ I).
    - intros j. destruct (E j) as (-> & _). apply (ok_dirty _ I).
    - intros j. destruct (E j) as (-> & _ & -> & ->). apply (ok_clean _ I). }
  split; [done|]. split; try done.
  - intros b. apply view_ext; try done; [by rewrite Hdk| |].
    + intros j Hj. split; [by apply Ec|]. apply E.
    + intros j. apply Ec.
  - intros b. unfold pinned, dirty. split; intros (j & Hj); exists j; rewrite Ec in *; by destruct (E j) as (<- & _) || destruct (E j) as (-> & _).
Qed.

Lemma unchanged_trans s1 s2 s3 : unchanged s1 s2 → unchanged s2 s3 → unchanged s1 s3.
Proof.
  intros [A1 A2 A3 A4 A5] [B1 B2 B3 B4 B5]. split; try congruence.
  intros b. by rewrite B5, A5.
Qed.

Lemma brelse_spec s i b d :
  cache_ok s → holds s i b d → dirty (bufs s i) = true ∨ d = disk s b →
  ∃ s', brelse i s = Done tt s' ∧ cache_ok s' ∧ unchanged s s' ∧
    woken s' = woken s ++ [ChBuf i] ∧ busy (bufs s' i) = false ∧
    dirty (bufs s' i) = dirty (bufs s i) ∧
    (∀ j, j ≠ i → payload (bufs s' j) = payload (bufs s j)) ∧
    (∀ l, ring (bufs s) l → l ≡ₚ seq 0 NBUF → ring (bufs s') (i :: filter (λ j, j ≠ i) l)).
Proof.
  intros I Hh Hdd. destruct (holds_inv _ _ _ _ I Hh) as (Hi & Hr & Hlen & Hvw & Hu).
  destruct Hh as (Hc & Hb & Hd). destruct (Hc) as (_ & Hdev & Hbn & Hv).
  set (s1 := set_bufs (relink i (bufs s)) s).
  destruct (relinked_ok s s1) as [I1 U1]; try done.
  { apply linked_relink; [apply (ok_linked _ I)|done]. }
  { intros j. apply payload_relink. }
  set (B := set_flags (Z.ldiff (flags (bufs s1 i)) B_BUSY) (bufs s1 i)).
  set (s2 := mkIo (<[i := B]> (bufs s1)) (disk s) (disksize s) (written s) (woken s ++ [ChBuf i])).
  assert (Erun : brelse i s = Done tt s2).
  { unfold brelse, buf_at, busy in *. mgo. rewrite Hb. reflexivity. }
  assert (Ebufs : bufs s1 = relink i (bufs s)) by done. clearbody s1.
  assert (P1 : ∀ j, payload (bufs s1 j) = payload (bufs s j)) by (intros j; rewrite Ebufs; apply payload_relink).
  destruct (payload_inv _ _ (P1 i)) as (Ef & Edv & Eb & Ed). rewrite Hdev in Edv. rewrite Hbn in Eb. rewrite Hd in Ed.
  assert (R : replaced s1 s2 i B).
  { destruct (replaced_insert s1 i B) as [R _]. split; [apply R|]. symmetry. apply (un_size _ _ U1). }
  pose proof (replaced_same _ _ _ _ R) as Hi2. unfold busy, valid in Hb, Hv.
  assert (HB : busy B = false) by (unfold busy, B; cbn; by flags).
  assert (HV : valid B = true) by (unfold valid, B; cbn; flags; by rewrite Ef).
  assert (HD : dirty B = dirty (bufs s i)) by (unfold dirty, B; cbn; flags; by rewrite Ef).
  assert (Hc1 : cached s1 b i) by (unfold cached, valid; by rewrite Edv, Eb, Ef).
  assert (Edk : disk s2 = disk s1) by (symmetry; apply (un_disk _ _ U1)).
  assert (I2 : cache_ok s2).
  { apply (cache_ok_replaced s1 s2 i B); try done.
    - intros _ j Hj Hne Edj Ebj. cbn in Edj, Ebj. apply Hne. pose proof rootdev_bound.
      apply (ok_uniq _ I1); congruence.
    - intros _. cbn. rewrite Edv, Eb, Ed, (un_size _ _ U1). split; [done|]. split; [lia|done].
    - intros _ Hnd _. cbn [B set_flags blockno data]. rewrite Eb, Ed. destruct Hdd as [?| ->]; [congruence|done].
    - intros j Hj _ _. by rewrite Edk.
    - rewrite Edk. apply (ok_disk _ I1). }
  exists s2. split; [done|]. split; [done|]. split.
  { apply (unchanged_trans _ s1); [done|]. split; try done.
    - symmetry. apply (un_size _ _ U1).
    - symmetry. apply (un_written _ _ U1).
    - by apply (view_reflag s1 s2 b i B).
    - intros b'. apply (pinned_replaced s1 s2 i B); [done|]. rewrite HD. unfold cached, dirty. rewrite Hi2, Ef, HV.
      unfold valid at 1. rewrite Ef. cbn. naive_solver. }
  split; [done|]. rewrite Hi2. split; [done|]. split; [done|]. split.
  - intros j Hj. by rewrite (replaced_other _ _ _ _ _ R).
  - intros l Hl Hp. destruct (seq_HEAD l Hp) as [Hnd Hin].
    destruct (ring_relink (bufs s) l i) as [Hn Hpv]; try done; [by apply Hin|]. rewrite <-Ebufs in Hn, Hpv.
    assert (Hlink : ∀ z, next (bufs s2 z) = next (bufs s1 z) ∧ prev (bufs s2 z) = prev (bufs s1 z)).
    { intros z. destruct (decide (z = i)) as [->|]; [by rewrite Hi2|]. by rewrite (replaced_other _ _ _ _ _ R). }
    split; (eapply path_ext; [|eassumption]); intros z _; apply Hlink.
Qed.

(** ** binit *)

Lemma binit_one_spec s b l :
  ring (bufs s) l → NoDup (HEAD :: l) → b ∉ HEAD :: l →
  ∃ f', binit_one b s = Done tt (set_bufs f' s) ∧ ring f' (b :: l) ∧
    ∀ j, flags (f' j) = flags (bufs s j) ∧
         dev (f' j) = if decide (j = b) then NODEV else dev (bufs s j).
Proof.
  intros Hr Hnd Hb. eexists. split; [reflexivity|].
  assert (Hc : next (bufs s HEAD) ∈ HEAD :: l).
  { pose proof (path_first _ _ _ _ (ring_next _ _ Hr)) as E. cbn in E. rewrite E. destruct l; set_solver. }
  split.
  - eapply ring_push; [apply Hr|done|done| |]; intros j; cbn; unfold insert, fn_insert;
      repeat case_decide; subst; cbn in *; try done; exfalso; set_solver.
  - intros j. cbn. unfold insert, fn_insert. repeat case_decide; subst; cbn; try done; try (exfalso; set_solver).
    match goal with E : next _ = HEAD |- _ => by rewrite E end.
Qed.

Lemma binit_loop n k s :
  ring (bufs s) (reverse (seq 0 k)) → (k + n <= NBUF)%nat →
  (∀ j, (j < k)%nat → dev (bufs s j) = NODEV) →
  ∃ f', iter_each (seq k n) binit_one s = Done tt (set_bufs f' s) ∧
    ring f' (reverse (seq 0 (k + n))) ∧ (∀ j, flags (f' j) = flags (bufs s j)) ∧
    (∀ j, (j < k + n)%nat → dev (f' j) = NODEV).
Proof.
  revert k s. induction n as [|n IH]; intros k s Hr Hk Hdev.
  - exists (bufs s). rewrite Nat.add_0_r. split_and!; try done. by destruct s.
  - cbn [seq iter_each].
    assert (Hin : ∀ x, x ∈ reverse (seq 0 k) ↔ (x < k)%nat) by (intros; rewrite elem_of_reverse, elem_of_seq; lia).
    destruct (binit_one_spec s k (reverse (seq 0 k))) as (f1 & E1 & R1 & P1); [done| | |].
    { constructor; [rewrite Hin; unfold HEAD; lia|]. rewrite reverse_Permutation. apply NoDup_seq. }
    { rewrite elem_of_cons, Hin. unfold HEAD. lia. }
    destruct (IH (S k) (set_bufs f1 s)) as (f2 & E2 & R2 & F2 & D2); cbn [bufs set_bufs]; [|lia| |].
    { by rewrite seq_S, reverse_snoc. }
    { intros j Hj. rewrite (proj2 (P1 j)). case_decide; [done|]. apply Hdev. lia. }
    exists f2. rewrite (bind_Done _ _ _ _ _ E1), E2. split; [done|].
    rewrite Nat.add_succ_r. split_and!; try done. intros j. rewrite F2. apply P1.
Qed.

Lemma binit_spec s :
  (∀ i, (i < NBUF)%nat → flags (bufs s i) = 0) →
  (∀ b, 0 <= b < disksize s → length (disk s b) = BSIZE) →
  ∃ f', binit s = Done tt (set_bufs f' s) ∧ cache_ok (set_bufs f' s) ∧ quiet (set_bufs f' s) ∧
    ring f' (reverse (seq 0 NBUF)) ∧ (∀ b, ¬ pinned (set_bufs f' s) b) ∧
    (∀ b, view (set_bufs f' s) b = disk s b).
Proof.
  intros Hf Hd.
  set (s1 := set_bufs (<[HEAD := set_next HEAD (set_prev HEAD (bufs s HEAD))]>
                         (<[HEAD := set_prev HEAD (bufs s HEAD)]> (bufs s))) s).
  destruct (binit_loop NBUF 0 s1) as (f & E & R & F & D); [|done|lia|].
  { by split. }
  assert (Hflags : ∀ i, (i < NBUF)%nat → flags (f i) = 0).
  { intros i Hi. rewrite F. cbn. unfold insert, fn_insert. repeat case_decide; subst; cbn; auto. }
  assert (Hnc : ∀ b i, ¬ cached (set_bufs f s) b i).
  { intros b i (Hi & _ & _ & Hv). unfold valid in Hv. cbn in Hv. rewrite Hflags in Hv; done. }
  exists f. split.
  { unfold binit. rewrite (bind_Done _ _ _ tt (set_bufs (<[HEAD := set_prev HEAD (bufs s HEAD)]> (bufs s)) s)) by done.
    rewrite (bind_Done _ _ _ tt s1) by done. rewrite E. by destruct s. }
  split; [|split; [|split; [exact R|split]]].
  - split; unfold busy, valid, dirty; cbn [bufs set_bufs].
    + exists (reverse (seq 0 NBUF)). split; [exact R|]. apply reverse_Permutation.
    + intros i j Hi Hj Hn. destruct Hn. apply D. lia.
    + intros i Hi. rewrite Hflags by done. done.
    + intros i Hi. rewrite Hflags by done. done.
    + intros i Hi. rewrite Hflags by done. done.
    + done.
  - intros i Hi. unfold busy. cbn. by rewrite Hflags.
  - intros b (i & Hc & _). by apply Hnc in Hc.
  - intros b. by rewrite view_uncached.
Qed.

(** ** The cache as its clients see it *)

Lemma bget_busy s dv b i :
  cache_ok s → (i < NBUF)%nat → dv ≠ NODEV → dev (bufs s i) = dv → blockno (bufs s i) = b →
  busy (bufs s i) = true → bget dv b s = Sleep (ChBuf i) s.
Proof.
  intros I Hi Hdv Hd Hb Hbusy. destruct (ok_linked _ I) as (l & [Hn _] & Hl).
  destruct (seq_HEAD l Hl) as [Hnd Hin].
  unfold bget, get, mbind, M_bind.
  rewrite (scan_path _ _ _ _ _ l Hn); [|by inversion Hnd|rewrite Hl, length_seq; unfold SCAN; lia].
  destruct (head _) as [j|] eqn:E.
  - apply head_elem in E. rewrite list_elem_of_filter, andb_true_iff, !Z.eqb_eq in E. destruct E as [[Ej1 Ej2] Ej].
    assert (j = i) as -> by (apply (ok_uniq _ I); [by apply Hin|done|congruence..]).
    unfold busy in Hbusy. by rewrite Hbusy.
  - apply head_none in E. exfalso. eapply (not_elem_of_nil i). rewrite <-E. apply list_elem_of_filter.
    rewrite andb_true_iff, !Z.eqb_eq. split; [done|]. by apply Hin.
Qed.

(** Some buffer is assigned to block [b]. *)
Definition assigned (s : io) (b : Z) (i : nat) : Prop :=
  (i < NBUF)%nat ∧ dev (bufs s i) = 1 ∧ blockno (bufs s i) = b.

Lemma assigned_dec s b : (∃ i, assigned s b i) ∨ (∀ i, ¬ assigned s b i).
Proof.
  destruct (decide (Exists (λ i, dev (bufs s i) = 1 ∧ blockno (bufs s i) = b) (seq 0 NBUF))) as [Hx|Hx].
  - left. apply Exists_exists in Hx as (i & [_ Hi]%elem_of_seq & Hd & Hb). by exists i.
  - right. intros i (Hi & Hd & Hb). apply Hx, Exists_exists. exists i. split; [apply elem_of_seq; lia|done].
Qed.

Lemma bread_cases s b :
  cache_ok s → 0 <= b < disksize s →
  (∃ i s', bread 1 b s = Done i s' ∧ bread_post s b i s') ∨
  (∃ i, assigned s b i ∧ busy (bufs s i) = true ∧ bread 1 b s = Sleep (ChBuf i) s) ∨
  (¬ available s ∧ (∀ i, ¬ assigned s b i) ∧ bread 1 b s = Panic "bget: no buffers").
Proof.
  intros I Hb. destruct (assigned_dec s b) as [(i & Hi & Hd & Hbn)|Hno].
  - pose proof rootdev_bound as Hdev. destruct (busy (bufs s i)) eqn:Eb.
    + right; left. exists i. split_and!; try done. unfold bread, mbind, M_bind.
      by rewrite (bget_busy s 1 b i) by done.
    + left. apply bread_spec; try done.
      * intros j Hj Ed Ej. assert (j = i) as -> by (apply (ok_uniq _ I); congruence). done.
      * destruct (valid (bufs s i)) eqn:Ev; [by left; exists i|right]. exists i. split_and!; try done.
        destruct (dirty (bufs s i)) eqn:E; [|done]. apply (ok_dirty _ I) in E; congruence.
  - assert (Hmiss : ∀ i, (i < NBUF)%nat → dev (bufs s i) = 1 → blockno (bufs s i) ≠ b).
    { intros i Hi Hd Hbn. by apply (Hno i). }
    destruct (ok_linked _ I) as (l & Hr & Hl). pose proof (bget_miss s 1 b l I Hr Hl Hmiss) as Eg.
    destruct (victim s l) as [i|] eqn:Ev.
    + left. apply bread_spec; try done.
      * intros j Hj Hd Hbn. by destruct (Hmiss j Hj Hd).
      * right. exists i. by apply (victim_spec s l).
    + right; right. split_and!; [|done|].
      * intros Hav. destruct (victim_available s l Hl Hav). congruence.
      * unfold bread, mbind, M_bind. by rewrite Eg.
Qed.

(** Reading a block, on every branch.  In a well-formed cache [bread] of a
    block of the disk either returns a locked buffer with the block's current
    contents, leaving the disk, every block's contents and the set of pinned
    blocks as they were; or, exactly when another process holds the block's
    buffer, sleeps on that buffer; or, exactly when the block is not cached and
    every buffer is locked or dirty, panics. *)
Theorem bread_outcomes s b :
  cache_ok s → 0 <= b < disksize s →
  match bread 1 b s with
  | Done i s' => cache_ok s' ∧ holds s' i b (view s b) ∧ unchanged s s' ∧
                 (∀ j, j ≠ i → bufs s' j = bufs s j) ∧ busy (bufs s i) = false
  | Sleep c s' => s' = s ∧ ∃ i, c = ChBuf i ∧ assigned s b i ∧ busy (bufs s i) = true
  | Panic msg => msg = "bget: no buffers"%string ∧ ¬ available s ∧ ∀ i, ¬ assigned s b i
  | OutOfFuel => False
  end.
Proof.
  intros I Hb. destruct (bread_cases s b I Hb) as [(i & s' & -> & H)|[(i & H1 & H2 & ->)|(H1 & H2 & ->)]].
  - destruct H as (? & ? & ? & ? & ? & ? & _). done.
  - eauto.
  - done.
Qed.

(** Replacement.  When block [b] is not cached, [bget] takes the least
    recently used buffer that is neither locked nor dirty: every buffer behind
    it in the list is locked or dirty. *)
Theorem bget_recycles_lru s b l :
  cache_ok s → ring (bufs s) l → l ≡ₚ seq 0 NBUF → (∀ i, ¬ assigned s b i) → available s →
  ∃ l1 i l2 s', bget 1 b s = Done i s' ∧ l = l1 ++ i :: l2 ∧
    (∀ j, j ∈ l2 → busy (bufs s j) = true ∨ dirty (bufs s j) = true) ∧
    busy (bufs s i) = false ∧ dirty (bufs s i) = false ∧
    assigned s' b i ∧ busy (bufs s' i) = true ∧ valid (bufs s' i) = false ∧
    (∀ j, j ≠ i → bufs s' j = bufs s j).
Proof.
  intros I Hr Hl Hno Hav. destruct (victim_available s l Hl Hav) as [i Ev].
  destruct (victim_spec s l i Hl Ev) as (Hi & Hb & Hd).
  pose proof (bget_miss s 1 b l I Hr Hl) as Eg. rewrite Ev in Eg.
  unfold victim in Ev. apply head_filter_split in Ev as (l2 & l1 & El & Hl2 & _).
  exists (reverse l1), i, (reverse l2). eexists. split_and!; [apply Eg| |..]; try done.
  - intros j Hj Ed Eb. by apply (Hno j).
  - rewrite <-(reverse_involutive l), El, reverse_app, reverse_cons, <-app_assoc. done.
  - intros j Hj%elem_of_reverse%Hl2. unfold busy, dirty. destruct (has (flags (bufs s j)) B_BUSY); [by left|].
    destruct (has (flags (bufs s j)) B_DIRTY); [by right|]. by destruct Hj.
  - unfold assigned. cbn. by rewrite fn_lookup_insert.
  - cbn. by rewrite fn_lookup_insert.
  - cbn. by rewrite fn_lookup_insert.
  - intros j Hj. cbn. by rewrite fn_lookup_insert_ne.
Qed.

(** What the rest of the kernel does with the cache: it reads blocks, changes
    the contents of buffers it holds, writes or pins them, and releases a
    buffer once it is written, pinned or unmodified. *)
Inductive client_step (s : io) : io → Prop :=
  | client_bread b i s' :
      0 <= b < disksize s → bread 1 b s = Done i s' → client_step s s'
  | client_store i b d d' s' :
      holds s i b d → length d' = BSIZE → upd_buf i (set_data d') s = Done tt s' → client_step s s'
  | client_bwrite i b d s' :
      holds s i b d → bwrite i s = Done tt s' → client_step s s'
  | client_pin i b d s' :
      holds s i b d → upd_buf i (λ b, set_flags (Z.lor (flags b) B_DIRTY) b) s = Done tt s' → client_step s s'
  | client_brelse i b d s' :
      holds s i b d → dirty (bufs s i) = true ∨ d = disk s b → brelse i s = Done tt s' → client_step s s'.

Lemma client_step_ok s s' : client_step s s' → cache_ok s → cache_ok s'.
Proof.
  intros Hs I. destruct Hs as [b i s' Hb E|i b d d' s' Hh Hl E|i b d s' Hh E|i b d s' Hh E|i b d s' Hh Hc E].
  - destruct (bread_cases s b I Hb) as [(? & ? & E' & H)|[(? & _ & _ & E')|(_ & _ & E')]];
      rewrite E in E'; simplify_eq. apply H.
  - destruct (store_spec s i b d d' I Hh Hl) as (s1 & E1 & I1 & _). congruence.
  - destruct (bwrite_spec s i b d I Hh) as (s1 & E1 & I1 & _). congruence.
  - destruct (mark_dirty_spec s i b d I Hh) as (s1 & E1 & I1 & _). congruence.
  - destruct (brelse_spec s i b d I Hh Hc) as (s1 & E1 & I1 & _). congruence.
Qed.

Lemma clients_ok s s' : rtc client_step s s' → cache_ok s → cache_ok s'.
Proof. induction 1; eauto using client_step_ok. Qed.

(** C7: The cache invariant.  [binit] on zeroed memory returns, and in every
    state the clients of the cache can reach from there the LRU list links
    every buffer exactly once, no block is cached in two buffers, every valid
    buffer is for a block of the disk, dirty buffers are valid, and a valid
    clean buffer nobody holds agrees with the disk. *)
Theorem cache_invariant s0 :
  (∀ i, (i < NBUF)%nat → flags (bufs s0 i) = 0) →
  (∀ b, 0 <= b < disksize s0 → length (disk s0 b) = BSIZE) →
  ∃ s1, binit s0 = Done tt s1 ∧ (∀ b, view s1 b = disk s0 b) ∧ ∀ s, rtc client_step s1 s → cache_ok s.
Proof.
  intros Hf Hd. destruct (binit_spec s0 Hf Hd) as (f & E & I & _ & _ & _ & V).
  exists (set_bufs f s0). split; [exact E|]. split; [exact V|]. intros s Hr. by apply (clients_ok _ _ Hr).
Qed.

(** A zeroed cache over a disk of four blocks. *)
Definition wit_io : io := mkIo (λ _, mkBuf 0 0 0 0 0 []) (λ b, replicate BSIZE b) 4 [] [].

Lemma cache_invariant_witness :
  ∃ s1, binit wit_io = Done tt s1 ∧ view s1 3 = replicate BSIZE 3.
Proof.
  destruct (cache_invariant wit_io) as (s1 & E & V & _).
  - reflexivity.
  - intros. apply length_replicate.
  - exists s1. split; [exact E|]. by rewrite V.
Defined.

(** The cache just after [binit]. *)
Definition wit_cache : io := state_of wit_io (binit wit_io).

Lemma wit_cache_ok : cache_ok wit_cache ∧ ring (bufs wit_cache) (reverse (seq 0 NBUF)) ∧ available wit_cache.
Proof.
  split_and!.
  - destruct (binit_spec wit_io) as (f & E & I & _); [done|intros; apply length_replicate|].
    unfold wit_cache. rewrite E. exact I.
  - destruct (binit_spec wit_io) as (f & E & _ & _ & R & _); [done|intros; apply length_replicate|].
    unfold wit_cache. rewrite E. exact R.
  - exists 0%nat. split; [unfold NBUF, MAXOPBLOCKS; lia|]. split; vm_compute; reflexivity.
Qed.

Lemma bread_outcomes_witness : ∃ i s', bread 1 3 wit_cache = Done i s' ∧ holds s' i 3 (replicate BSIZE 3).
Proof.
  pose proof (bread_outcomes wit_cache 3 (proj1 wit_cache_ok) ltac:(vm_compute; split; discriminate || reflexivity)) as H.
  assert (V : view wit_cache 3 = replicate BSIZE 3) by (vm_compute; reflexivity). rewrite V in H.
  assert (E : match bread 1 3 wit_cache with Done _ _ => True | _ => False end) by (vm_compute; exact Logic.I).
  destruct (bread 1 3 wit_cache) as [i s'|msg|c s'|]; [|destruct E..].
  exists i, s'. split; [reflexivity|]. exact (proj1 (proj2 H)).
Defined.

Lemma bget_recycles_lru_witness :
  ∃ s', bget 1 3 wit_cache = Done 0%nat s' ∧ assigned s' 3 0.
Proof.
  destruct wit_cache_ok as (I & R & A).
  destruct (bget_recycles_lru wit_cache 3 (reverse (seq 0 NBUF)) I R) as (l1 & i & l2 & s' & E & El & H2 & Hb & Hd & Ha & _).
  - by rewrite reverse_Permutation.
  - intros i (Hi & Hd & _). revert Hd.
    assert (F : Forall (λ i, dev (bufs wit_cache i) ≠ 1) (seq 0 NBUF)).
    { apply (bool_decide_unpack _). vm_compute. exact Logic.I. }
    rewrite Forall_forall in F. apply F, elem_of_seq. lia.
  - exact A.
  - assert (i = 0%nat) as ->.
    { assert (E' : (match bget 1 3 wit_cache with Done i _ => i | _ => 99%nat end) = 0%nat) by (vm_compute; reflexivity).
      rewrite E in E'. exact E'. }
    exists s'. split; [exact E|exact Ha].
Defined.
