(* ===== verification/Log.v ===== *)
(** * The file-system log (log.c) and the superblock (readsb in fs.c)

    Layered on the buffer cache of [Bio].  The state is the cache and disk
    with the in-memory [struct log].  A crash is modelled at the level of disk
    writes: block writes are atomic and happen in the order the code issues
    them ([written]), so the disk a crash leaves is the disk before the
    operation with some prefix of its writes applied; on reboot the cache is
    empty and [initlog] recovers. *)

From S2P Require Import Prelude Bio.
#[local] Open Scope Z_scope.

Definition LOGSIZE : nat := MAXOPBLOCKS * 3.
Arguments LOGSIZE : simpl never.

(** On-disk and in-memory header: the block numbers of the transaction. *)
Record logheader := mkHdr {
  n : Z;
  block : list Z;
}.

Record log := mkLog {
  start : Z;
  size : Z;
  outstanding : Z;
  committing : Z;
  ldev : Z;
  lh : logheader;
}.

Record superblock := mkSb {
  sb_size : Z;
  nblocks : Z;
  ninodes : Z;
  nlog : Z;
  logstart : Z;
  inodestart : Z;
  bmapstart : Z;
}.

Record lst := mkLst {
  dio : io;
  lg : log;
}.

Definition set_dio (x : io) (s : lst) : lst := mkLst x (lg s).
Definition set_lg (x : log) (s : lst) : lst := mkLst (dio s) x.
Definition io_ {A} (m : M io A) : M lst A := lift dio set_dio m.
Definition upd_log (f : log → log) : M lst unit := modify (λ s, set_lg (f (lg s)) s).
Definition set_lh (x : logheader) (l : log) : log :=
  mkLog (start l) (size l) (outstanding l) (committing l) (ldev l) x.
Definition set_n (x : Z) (l : log) : log := set_lh (mkHdr x (block (lh l))) l.
Definition set_outstanding (x : Z) (l : log) : log :=
  mkLog (start l) (size l) x (committing l) (ldev l) (lh l).
Definition set_committing (x : Z) (l : log) : log :=
  mkLog (start l) (size l) (outstanding l) x (ldev l) (lh l).

(** [memmove(sb, bp->data, sizeof *sb)]. *)
Definition decode_sb (d : list Z) : superblock :=
  mkSb (get32 d 0) (get32 d 4) (get32 d 8) (get32 d 12) (get32 d 16) (get32 d 20) (get32 d 24).

Definition readsb (dv : Z) : M lst superblock :=
  i ← io_ (bread dv 1);
  b ← io_ (buf_at i);
  io_ (brelse i);;
  mret (decode_sb (data b)).

(** [memmove(dst->data, src->data, BSIZE)] between two buffers. *)
Definition copy_data (dst src : nat) : M io unit :=
  b ← buf_at src;
  upd_buf dst (set_data (data b)).

Definition install_one (tail : nat) : M lst unit :=
  l ← gets lg;
  lbuf ← io_ (bread (ldev l) (start l + Z.of_nat tail + 1));
  dbuf ← io_ (bread (ldev l) (block (lh l) !!! tail));
  io_ (copy_data dbuf lbuf);;
  io_ (bwrite dbuf);;
  io_ (brelse lbuf);;
  io_ (brelse dbuf).

Definition install_trans : M lst unit :=
  l ← gets lg;
  iter_each (seq 0 (Z.to_nat (n (lh l)))) install_one.

(** The header's fields in a block: [int n] and then [int block[LOGSIZE]]. *)
Definition hdr_n (d : list Z) : Z := s32 (get32 d 0).
Definition hdr_block (d : list Z) (i : nat) : Z := s32 (get32 d (4 + 4 * i)).

(** [for (i = 0; i < log.lh.n; i++) log.lh.block[i] = lh->block[i]] *)
Fixpoint read_blocks (d : list Z) (ks : list nat) (bs : list Z) : list Z :=
  match ks with
  | [] => bs
  | i :: ks' => read_blocks d ks' (<[i := hdr_block d i]> bs)
  end.

Definition read_head : M lst unit :=
  l ← gets lg;
  i ← io_ (bread (ldev l) (start l));
  b ← io_ (buf_at i);
  upd_log (set_n (hdr_n (data b)));;
  upd_log (λ l, set_lh (mkHdr (n (lh l))
    (read_blocks (data b) (seq 0 (Z.to_nat (n (lh l)))) (block (lh l)))) l);;
  io_ (brelse i).

(** [for (i = 0; i < log.lh.n; i++) hb->block[i] = log.lh.block[i]] *)
Fixpoint write_blocks (bs : list Z) (ks : list nat) (d : list Z) : list Z :=
  match ks with
  | [] => d
  | i :: ks' => write_blocks bs ks' (put32 d (4 + 4 * i) (bs !!! i))
  end.

Definition encode_head (h : logheader) (d : list Z) : list Z :=
  write_blocks (block h) (seq 0 (Z.to_nat (n h))) (put32 d 0 (n h)).

Definition write_head : M lst unit :=
  l ← gets lg;
  i ← io_ (bread (ldev l) (start l));
  io_ (b ← buf_at i; upd_buf i (set_data (encode_head (lh l) (data b))));;
  io_ (bwrite i);;
  io_ (brelse i).

Definition recover_from_log : M lst unit :=
  read_head;;
  install_trans;;
  upd_log (set_n 0);;
  write_head.

Definition initlog (dv : Z) : M lst unit :=
  if (BSIZE <=? 4 * (1 + LOGSIZE))%nat then panic "initlog: too big logheader" else
  sb ← readsb dv;
  upd_log (λ l, mkLog (logstart sb) (nlog sb) (outstanding l) (committing l) dv (lh l));;
  recover_from_log.

Definition write_log_one (tail : nat) : M lst unit :=
  l ← gets lg;
  to ← io_ (bread (ldev l) (start l + Z.of_nat tail + 1));
  from ← io_ (bread (ldev l) (block (lh l) !!! tail));
  io_ (copy_data to from);;
  io_ (bwrite to);;
  io_ (brelse from);;
  io_ (brelse to).

Definition write_log : M lst unit :=
  l ← gets lg;
  iter_each (seq 0 (Z.to_nat (n (lh l)))) write_log_one.

Definition commit : M lst unit :=
  l ← gets lg;
  if 0 <? n (lh l) then
    write_log;;
    write_head;;
    install_trans;;
    upd_log (set_n 0);;
    write_head
  else mret tt.

(** One turn of the loop in [begin_op]; a sleeping caller retries. *)
Definition begin_op : M lst unit :=
  l ← gets lg;
  if negb (committing l =? 0) then sleep_on ChLog else
  if Z.of_nat LOGSIZE <? n (lh l) + (outstanding l + 1) * Z.of_nat MAXOPBLOCKS then sleep_on ChLog else
  upd_log (λ l, set_outstanding (outstanding l + 1) l).

(** [end_op] up to the release of the lock: returns [do_commit]. *)
Definition end_op_enter : M lst bool :=
  upd_log (λ l, set_outstanding (outstanding l - 1) l);;
  l ← gets lg;
  if negb (committing l =? 0) then panic "log.committing" else
  if outstanding l =? 0
  then upd_log (set_committing 1);; mret true
  else io_ (wakeup ChLog);; mret false.

(** [end_op] after [commit]. *)
Definition end_op_leave : M lst unit :=
  upd_log (set_committing 0);;
  io_ (wakeup ChLog).

Definition end_op : M lst unit :=
  do_commit ← end_op_enter;
  if (do_commit : bool) then commit;; end_op_leave else mret tt.

(** The position of [b] among the first [k] recorded blocks, or [k]. *)
Fixpoint find_block (bs : list Z) (b : Z) (k : nat) : nat :=
  match k, bs with
  | O, _ | _, [] => 0
  | S k', x :: bs' => if x =? b then 0 else S (find_block bs' b k')
  end.

(** Record a block number in the header, absorbing a repeated one. *)
Definition record_block (b : Z) (h : logheader) : logheader :=
  let i := find_block (block h) b (Z.to_nat (n h)) in
  mkHdr (if Z.of_nat i =? n h then n h + 1 else n h) (<[i := b]> (block h)).

Definition log_write (i : nat) : M lst unit :=
  l ← gets lg;
  if (Z.of_nat LOGSIZE <=? n (lh l)) || (size l - 1 <=? n (lh l)) then panic "too big a transaction" else
  if outstanding l <? 1 then panic "log_write outside of trans" else
  b ← io_ (buf_at i);
  upd_log (λ l, set_lh (record_block (blockno b) (lh l)) l);;
  io_ (upd_buf i (λ b, set_flags (Z.lor (flags b) B_DIRTY) b)).
(** ** Idle caches

    Between operations no buffer is locked; what matters of the cache is then
    its [view], the blocks it pins, and the disk. *)

Definition idle (s : io) : Prop := cache_ok s ∧ quiet s.

Lemma clean_view s b :
  cache_ok s → (∀ i, cached s b i → busy (bufs s i) = false) → ¬ pinned s b → view s b = disk s b.
Proof.
  intros I Q Hp. destruct (lookup_block s b) as [i|] eqn:E.
  - apply lookup_block_Some in E as Hc. rewrite (view_cached s b i) by done.
    destruct (Hc) as (Hi & _ & <- & Hv). apply (ok_clean _ I); auto.
    destruct (dirty (bufs s i)) eqn:Ed; [|done]. destruct Hp. by exists i.
  - apply view_uncached. intros i. by apply lookup_block_None.
Qed.

Lemma idle_view s b : idle s → ¬ pinned s b → view s b = disk s b.
Proof. intros [I Q] Hp. apply clean_view; [done| |done]. intros i (Hi & _). by apply Q. Qed.

(** The buffers that cannot be recycled. *)
Definition in_use (s : io) : list nat :=
  filter (λ i, busy (bufs s i) = true ∨ dirty (bufs s i) = true) (seq 0 NBUF).

Lemma in_use_available s : (length (in_use s) < NBUF)%nat → available s.
Proof.
  intros H. destruct (decide (Exists (λ i, busy (bufs s i) = false ∧ dirty (bufs s i) = false) (seq 0 NBUF))) as [E|E].
  - apply Exists_exists in E as (i & Hi%elem_of_seq & ?). exists i. naive_solver lia.
  - exfalso. unfold in_use in H. rewrite filter_id, length_seq in H; [lia|].
    intros i Hi. rewrite <-Forall_Exists_neg, Forall_forall in E. specialize (E i Hi).
    destruct (busy (bufs s i)), (dirty (bufs s i)); naive_solver.
Qed.

Lemma in_use_pinned s (L : list Z) :
  idle s → (∀ b, pinned s b → b ∈ L) → (length (in_use s) <= length L)%nat.
Proof.
  intros [I Q] HL.
  assert (Hin : ∀ i, i ∈ in_use s → (i < NBUF)%nat ∧ dirty (bufs s i) = true ∧ dev (bufs s i) = 1 ∧ valid (bufs s i) = true).
  { intros i (Hor & Hi%elem_of_seq)%list_elem_of_filter. destruct Hi as [_ Hi]. cbn in Hi.
    destruct Hor as [Hb|Hd]; [rewrite (Q i Hi) in Hb; done|].
    pose proof (ok_dirty _ I i Hi Hd) as Hv. destruct (ok_valid _ I i Hi Hv). done. }
  rewrite <-(length_map (λ i, blockno (bufs s i)) (in_use s)). apply submseteq_length, NoDup_submseteq.
  - apply NoDup_fmap_2_strong; [|apply NoDup_filter, NoDup_seq].
    intros i j Hi Hj E. destruct (Hin i Hi) as (? & _ & Edi & _), (Hin j Hj) as (? & _ & Edj & _).
    apply (ok_uniq _ I); try done; [rewrite Edi; done|congruence].
  - intros b (i & -> & Hi)%list_elem_of_fmap. destruct (Hin i Hi) as (? & ? & ? & ?).
    apply HL. exists i. by split.
Qed.

Lemma in_use_bread s b i s' :
  bread_post s b i s' → (length (in_use s') <= S (length (in_use s)))%nat.
Proof.
  intros (_ & _ & _ & _ & Hj & _). change (S (length (in_use s))) with (length (i :: in_use s)).
  apply submseteq_length, NoDup_submseteq; [apply NoDup_filter, NoDup_seq|].
  intros j (Hor & Hs)%list_elem_of_filter. apply elem_of_cons.
  destruct (decide (j = i)) as [|Hne]; [by left|right]. rewrite Hj in Hor by done.
  by apply list_elem_of_filter.
Qed.

(** A block just read has the disk's contents unless its buffer is dirty. *)
Lemma bread_clean s b i s' :
  cache_ok s → (∀ i, cached s b i → busy (bufs s i) = false) → bread_post s b i s' →
  dirty (bufs s' i) = true ∨ view s b = disk s b.
Proof.
  intros I Q (I' & (Hc' & _) & _ & _ & Hj & _ & Hd & _). destruct (dirty (bufs s' i)) eqn:E; [by left|right].
  apply clean_view; [done..|]. intros (j & Hcj & Hdj).
  destruct (decide (j = i)) as [->|Hne]; [congruence|].
  apply Hne, (cached_uniq s' b); [done| |done]. unfold cached. by rewrite Hj.
Qed.

(** Two different blocks read and held together. *)
Definition both_held (s : io) (x y : Z) (i j : nat) (s' : io) : Prop :=
  cache_ok s' ∧ i ≠ j ∧ holds s' i x (view s x) ∧ holds s' j y (view s y) ∧ unchanged s s' ∧
  (dirty (bufs s' i) = true ∨ view s x = disk s x) ∧
  (dirty (bufs s' j) = true ∨ view s y = disk s y) ∧
  (∀ k, k ≠ i → k ≠ j → bufs s' k = bufs s k) ∧ woken s' = woken s.

Lemma bread_two s x y (L : list Z) :
  idle s → x ≠ y → 0 <= x < disksize s → 0 <= y < disksize s →
  (∀ b, pinned s b → b ∈ L) → (length L < NBUF)%nat → pinned s y ∨ (S (length L) < NBUF)%nat →
  ∃ i j s1 s2, bread 1 x s = Done i s1 ∧ bread 1 y s1 = Done j s2 ∧ both_held s x y i j s2.
Proof.
  intros [I Q] Hxy Hx Hy HL Hn Hp.
  pose proof (in_use_pinned s L (conj I Q) HL) as Hu.
  destruct (bread_spec s x) as (i & s1 & E1 & P1); [done..|auto|right; apply in_use_available; lia|].
  pose proof (in_use_bread _ _ _ _ P1) as Hu1. pose proof (bread_clean _ _ _ _ I ltac:(intros k (Hk & _); auto) P1) as C1.
  destruct P1 as (I1 & H1 & U1 & W1 & J1 & B1 & D1 & _). destruct (H1) as ((Hi & Hdi & Hbi & Hvi) & Hbusy & Hdat).
  assert (Q1 : ∀ k, (k < NBUF)%nat → k ≠ i → busy (bufs s1 k) = false) by (intros; rewrite J1; auto).
  assert (Hyi : ∀ k, blockno (bufs s1 k) = y → k ≠ i) by congruence.
  destruct (bread_spec s1 y) as (j & s2 & E2 & P2); [done|by rewrite (un_size _ _ U1)|auto| |].
  { destruct Hp as [Hp|Hp]; [left|right; apply in_use_available; lia].
    apply (un_pinned _ _ U1) in Hp as (k & Hk & _). eauto. }
  pose proof (bread_clean _ _ _ _ I1 ltac:(intros k (Hk & _ & Hb & _); exact (Q1 k Hk (Hyi k Hb))) P2) as C2.
  destruct P2 as (I2 & H2 & U2 & W2 & J2 & B2 & D2 & _).
  assert (Hij : i ≠ j) by (intros ->; congruence).
  exists i, j, s1, s2. split_and!; try done.
  rewrite (un_view _ _ U1), ?(un_disk _ _ U1) in *.
  split_and!; try done.
  - unfold holds, cached in *. by rewrite J2.
  - by apply (unchanged_trans s s1 s2).
  - by rewrite J2.
  - intros k Hki Hkj. by rewrite J2, J1.
  - congruence.
Qed.

(** From [s] to [s'] exactly block [b] was written, with [x]. *)
Record wrote (s s' : io) (b : Z) (x : list Z) : Prop := {
  wr_disk : disk s' = <[b := x]> (disk s);
  wr_size : disksize s' = disksize s;
  wr_written : written s' = written s ++ [(b, x)];
  wr_view : ∀ b', view s' b' = if decide (b' = b) then x else view s b';
  wr_pinned : ∀ b', pinned s' b' ↔ pinned s b' ∧ b' ≠ b;
}.

Lemma wrote_unchanged s s1 s2 b x : unchanged s s1 → wrote s1 s2 b x → wrote s s2 b x.
Proof.
  intros [A1 A2 A3 A4 A5] [B1 B2 B3 B4 B5]. split; try congruence.
  - intros b'. by rewrite B4, A4.
  - intros b'. by rewrite B5, A5.
Qed.

Lemma unchanged_wrote s s1 s2 b x : wrote s s1 b x → unchanged s1 s2 → wrote s s2 b x.
Proof.
  intros [B1 B2 B3 B4 B5] [A1 A2 A3 A4 A5]. split; try congruence.
  - intros b'. by rewrite A4, B4.
  - intros b'. by rewrite A5, B5.
Qed.

(** Store into a held buffer and write it through. *)
Lemma store_write s i b d d' :
  cache_ok s → holds s i b d → length d' = BSIZE →
  ∃ s1 s2, upd_buf i (set_data d') s = Done tt s1 ∧ bwrite i s1 = Done tt s2 ∧
    cache_ok s2 ∧ holds s2 i b d' ∧ wrote s s2 b d' ∧ dirty (bufs s2 i) = false ∧
    (∀ j, j ≠ i → bufs s2 j = bufs s j).
Proof.
  intros I Hh Hlen.
  destruct (store_spec s i b d d' I Hh Hlen) as (s1 & E1 & I1 & H1 & Ek & Es & Ew & _ & V1 & P1 & _ & J1).
  destruct (bwrite_spec s1 i b d' I1 H1) as (s2 & E2 & I2 & H2 & Ek2 & Es2 & Ew2 & _ & V2 & P2 & D2 & J2).
  exists s1, s2. split_and!; try done; [|intros j Hj; by rewrite J2, J1].
  split; try congruence.
  - intros b'. by rewrite V2, V1.
  - intros b'. by rewrite P2, P1.
Qed.

Lemma payload_fields b b' :
  payload b = payload b' → flags b = flags b' ∧ dev b = dev b' ∧ blockno b = blockno b' ∧ data b = data b'.
Proof. unfold payload. by intros [= -> -> -> ->]. Qed.

Lemma holds_payload s s' i b d :
  payload (bufs s' i) = payload (bufs s i) → holds s i b d → holds s' i b d.
Proof.
  intros (E1 & E2 & E3 & E4)%payload_fields. unfold holds, cached, valid, busy. by rewrite E1, E2, E3, E4.
Qed.

(** The common tail of [write_log] and [install_trans]: copy one held buffer
    over another, write it, release both. *)
Lemma copy_release s d r db rb dd rd :
  cache_ok s → holds s d db dd → holds s r rb rd → d ≠ r → db ≠ rb →
  dirty (bufs s r) = true ∨ rd = disk s rb →
  (∀ k, (k < NBUF)%nat → k ≠ d → k ≠ r → busy (bufs s k) = false) →
  ∃ s1 s2 s3 s4, copy_data d r s = Done tt s1 ∧ bwrite d s1 = Done tt s2 ∧ brelse r s2 = Done tt s3 ∧
    brelse d s3 = Done tt s4 ∧ idle s4 ∧ wrote s s4 db rd.
Proof.
  intros I Hd Hr Hdr Hb Hcl Q. destruct (holds_inv _ _ _ _ I Hr) as (_ & _ & Hlen & _).
  destruct (store_write s d db dd rd I Hd Hlen) as (s1 & s2 & E1 & E2 & I2 & H2 & W2 & D2 & J2).
  assert (Hr2 : holds s2 r rb rd) by (eapply holds_payload; [|apply Hr]; by rewrite J2).
  destruct (brelse_spec s2 r rb rd I2 Hr2) as (s3 & E3 & I3 & U3 & _ & B3 & D3 & P3 & _).
  { rewrite J2 by done. rewrite (wr_disk _ _ _ _ W2), fn_lookup_insert_ne by done. done. }
  assert (H3 : holds s3 d db rd) by (eapply holds_payload; [|apply H2]; auto).
  destruct (brelse_spec s3 d db rd I3 H3) as (s4 & E4 & I4 & U4 & _ & B4 & _ & P4 & _).
  { right. by rewrite (un_disk _ _ U3), (wr_disk _ _ _ _ W2), fn_lookup_insert. }
  exists s1, s2, s3, s4. split_and!; try done.
  - unfold copy_data. rewrite (bind_Done _ _ _ (bufs s r) s) by done. destruct Hr as (_ & _ & ->). done.
  - split; [done|]. intros k Hk. destruct (decide (k = d)) as [->|Hkd]; [done|].
    unfold busy in *. rewrite (proj1 (payload_fields _ _ (P4 k Hkd))).
    destruct (decide (k = r)) as [->|Hkr]; [done|].
    rewrite (proj1 (payload_fields _ _ (P3 k Hkr))), J2 by done. by apply Q.
  - eapply unchanged_wrote; [|done]. by eapply unchanged_wrote.
Qed.

(** Read a block, replace its contents, write it, release it. *)
Lemma rewrite_block s b (f : list Z → list Z) (L : list Z) :
  idle s → 0 <= b < disksize s → (∀ x, length x = BSIZE → length (f x) = BSIZE) →
  (∀ b, pinned s b → b ∈ L) → (length L < NBUF)%nat →
  ∃ i s1 s2 s3 s4, bread 1 b s = Done i s1 ∧
    (x ← buf_at i; upd_buf i (set_data (f (data x)))) s1 = Done tt s2 ∧ bwrite i s2 = Done tt s3 ∧
    brelse i s3 = Done tt s4 ∧ idle s4 ∧ wrote s s4 b (f (view s b)).
Proof.
  intros [I Q] Hb Hf HL Hn. pose proof (in_use_pinned s L (conj I Q) HL) as Hu.
  destruct (bread_spec s b) as (i & s1 & E1 & I1 & H1 & U1 & _ & J1 & _);
    [done..|auto|right; apply in_use_available; lia|].
  destruct (store_write s1 i b (view s b) (f (view s b))) as (s2 & s3 & E2 & E3 & I3 & H3 & W3 & _ & J3);
    [done..|by apply Hf, length_view|].
  destruct (brelse_spec s3 i b _ I3 H3) as (s4 & E4 & I4 & U4 & _ & B4 & _ & P4 & _).
  { right. by rewrite (wr_disk _ _ _ _ W3), fn_lookup_insert. }
  exists i, s1, s2, s3, s4. split_and!; try done.
  - rewrite (bind_Done _ _ _ (bufs s1 i) s1) by done. destruct H1 as (_ & _ & ->). done.
  - split; [done|]. intros k Hk. destruct (decide (k = i)) as [->|Hki]; [done|].
    unfold busy in *. rewrite (proj1 (payload_fields _ _ (P4 k Hki))), J3, J1 by done. by apply Q.
  - eapply unchanged_wrote; [|done]. by eapply wrote_unchanged.
Qed.

(** Read a block and release it: the contents are the block's view. *)
Lemma read_block s b (L : list Z) :
  idle s → 0 <= b < disksize s → (∀ b, pinned s b → b ∈ L) → (length L < NBUF)%nat →
  ∃ i s1 s2, bread 1 b s = Done i s1 ∧ data (bufs s1 i) = view s b ∧
    brelse i s1 = Done tt s2 ∧ idle s2 ∧ unchanged s s2.
Proof.
  intros [I Q] Hb HL Hn. pose proof (in_use_pinned s L (conj I Q) HL) as Hu.
  destruct (bread_spec s b) as (i & s1 & E1 & P1); [done..|auto|right; apply in_use_available; lia|].
  pose proof (bread_clean _ _ _ _ I ltac:(intros k (Hk & _); auto) P1) as C1.
  destruct P1 as (I1 & H1 & U1 & _ & J1 & _).
  destruct (brelse_spec s1 i b _ I1 H1) as (s2 & E2 & I2 & U2 & _ & B2 & _ & P2 & _).
  { by rewrite (un_disk _ _ U1). }
  exists i, s1, s2. split_and!; try done; [by destruct H1 as (_ & _ & ->)| |by eapply unchanged_trans].
  split; [done|]. intros k Hk. destruct (decide (k = i)) as [->|Hki]; [done|].
  unfold busy in *. rewrite (proj1 (payload_fields _ _ (P2 k Hki))), J1 by done. by apply Q.
Qed.

(** ** Sequences of block writes *)

Definition apply_writes (d : Z → list Z) (ws : list (Z * list Z)) : Z → list Z :=
  foldl (λ d '(b, x), <[b := x]> d) d ws.

Lemma apply_writes_app d ws1 ws2 : apply_writes d (ws1 ++ ws2) = apply_writes (apply_writes d ws1) ws2.
Proof. unfold apply_writes. by rewrite foldl_app. Qed.

Lemma apply_writes_other d ws b : b ∉ ws.*1 → apply_writes d ws b = d b.
Proof.
  revert d. induction ws as [|[b' x] ws IH]; intros d Hb; [done|]. cbn in *.
  rewrite not_elem_of_cons in Hb. rewrite IH by naive_solver. by rewrite fn_lookup_insert_ne by naive_solver.
Qed.

Lemma apply_writes_ext d d' ws b : d b = d' b → apply_writes d ws b = apply_writes d' ws b.
Proof.
  revert d d'. induction ws as [|[b' x] ws IH]; intros d d' H; [done|]. cbn. apply IH.
  unfold insert, fn_insert. by case_decide.
Qed.

(** A block written at most once, with [x], holds [x] afterwards. *)
Lemma apply_writes_in d ws b x : NoDup ws.*1 → (b, x) ∈ ws → apply_writes d ws b = x.
Proof.
  revert d. induction ws as [|[b' x'] ws IH]; intros d; cbn; [by intros _ ?%not_elem_of_nil|].
  intros [Hn Hnd]%NoDup_cons [E|Hin]%elem_of_cons; [|by apply IH].
  simplify_eq. rewrite apply_writes_other by done. by rewrite fn_lookup_insert.
Qed.

Lemma apply_writes_length d ws b :
  length (d b) = BSIZE → Forall (λ w, length w.2 = BSIZE) ws → length (apply_writes d ws b) = BSIZE.
Proof.
  revert d. induction ws as [|[b' x'] ws IH]; intros d H; [done|]. intros [Hx Hw]%Forall_cons. cbn in *.
  apply IH; [|done]. unfold insert, fn_insert. by case_decide.
Qed.

Record wrote_all (s s' : io) (ws : list (Z * list Z)) : Prop := {
  wa_disk : disk s' = apply_writes (disk s) ws;
  wa_size : disksize s' = disksize s;
  wa_written : written s' = written s ++ ws;
  wa_view : ∀ b, view s' b = apply_writes (view s) ws b;
  wa_pinned : ∀ b, pinned s' b ↔ pinned s b ∧ b ∉ ws.*1;
}.

Lemma wrote_all_nil s : wrote_all s s [].
Proof. split; try done; [by rewrite app_nil_r|]. set_solver. Qed.

Lemma wrote_all_one s s' b x : wrote s s' b x → wrote_all s s' [(b, x)].
Proof.
  intros [A1 A2 A3 A4 A5]. split; try done.
  - intros b'. rewrite A4. cbn. unfold insert, fn_insert. by destruct (decide (b' = b)), (decide (b = b')); subst.
  - intros b'. rewrite A5. set_solver.
Qed.

Lemma wrote_all_trans s s1 s2 ws1 ws2 :
  wrote_all s s1 ws1 → wrote_all s1 s2 ws2 → wrote_all s s2 (ws1 ++ ws2).
Proof.
  intros [A1 A2 A3 A4 A5] [B1 B2 B3 B4 B5]. split.
  - by rewrite B1, A1, apply_writes_app.
  - congruence.
  - by rewrite B3, A3, app_assoc.
  - intros b. rewrite B4, apply_writes_app. by apply apply_writes_ext.
  - intros b. rewrite B5, A5, fmap_app. set_solver.
Qed.

Lemma wrote_all_unchanged s s1 s2 ws : unchanged s s1 → wrote_all s1 s2 ws → wrote_all s s2 ws.
Proof.
  intros [A1 A2 A3 A4 A5] [B1 B2 B3 B4 B5]. split; try congruence.
  - intros b. rewrite B4. by apply apply_writes_ext.
  - intros b. by rewrite B5, A5.
Qed.

(** ** The header block *)

Lemma length_write_blocks bs ks d : length (write_blocks bs ks d) = length d.
Proof. revert d. induction ks as [|i ks IH]; intros d; cbn [write_blocks]; [done|]. by rewrite IH, length_put32. Qed.

Lemma length_encode_head h d : length (encode_head h d) = length d.
Proof. unfold encode_head. by rewrite length_write_blocks, length_put32. Qed.

Lemma write_blocks_n bs ks d : get32 (write_blocks bs ks d) 0 = get32 d 0.
Proof.
  revert d. induction ks as [|i ks IH]; intros d; cbn [write_blocks]; [done|]. rewrite IH. apply get32_put32_ne. lia.
Qed.

Lemma write_blocks_other bs ks d i :
  i ∉ ks → get32 (write_blocks bs ks d) (4 + 4 * i) = get32 d (4 + 4 * i).
Proof.
  revert d. induction ks as [|j ks IH]; intros d; cbn [write_blocks]; [done|]. rewrite not_elem_of_cons. intros [? ?].
  rewrite IH by done. apply get32_put32_ne. lia.
Qed.

Lemma write_blocks_in bs ks d i :
  i ∈ ks → (8 + 4 * i <= length d)%nat → get32 (write_blocks bs ks d) (4 + 4 * i) = u32 (bs !!! i).
Proof.
  revert d. induction ks as [|j ks IH]; intros d; cbn [write_blocks]; [by intros ?%not_elem_of_nil|].
  intros Hi Hlen. destruct (decide (i ∈ ks)) as [Hin|Hin]; [apply IH; [done|by rewrite length_put32]|].
  rewrite write_blocks_other by done. apply elem_of_cons in Hi as [<-|]; [|done].
  apply get32_put32_eq. lia.
Qed.

Lemma hdr_n_encode h d :
  length d = BSIZE → is_s32 (n h) → hdr_n (encode_head h d) = n h.
Proof.
  intros Hd Hn. unfold hdr_n, encode_head. rewrite write_blocks_n, get32_put32_eq by (rewrite Hd; unfold BSIZE; lia).
  by rewrite s32_u32, s32_id.
Qed.

Lemma hdr_block_encode h d i :
  length d = BSIZE → (i < Z.to_nat (n h))%nat → (Z.to_nat (n h) <= LOGSIZE)%nat → is_s32 (block h !!! i) →
  hdr_block (encode_head h d) i = block h !!! i.
Proof.
  intros Hd Hi Hn Hb. unfold hdr_block, encode_head. rewrite write_blocks_in.
  - by rewrite s32_u32, s32_id.
  - apply elem_of_seq. lia.
  - rewrite length_put32, Hd. unfold BSIZE, LOGSIZE, MAXOPBLOCKS in *. lia.
Qed.

Lemma length_read_blocks d ks bs : length (read_blocks d ks bs) = length bs.
Proof. revert bs. induction ks as [|i ks IH]; intros bs; cbn [read_blocks]; [done|]. by rewrite IH, length_insert. Qed.

Lemma read_blocks_other d ks bs i : i ∉ ks → read_blocks d ks bs !!! i = bs !!! i.
Proof.
  revert bs. induction ks as [|j ks IH]; intros bs; cbn [read_blocks]; [done|]. rewrite not_elem_of_cons. intros [? ?].
  rewrite IH by done. by apply lt_insert_ne.
Qed.

Lemma read_blocks_in d ks bs i :
  i ∈ ks → (i < length bs)%nat → read_blocks d ks bs !!! i = hdr_block d i.
Proof.
  revert bs. induction ks as [|j ks IH]; intros bs; cbn [read_blocks]; [by intros ?%not_elem_of_nil|]. intros Hi Hlen.
  destruct (decide (i ∈ ks)) as [Hin|Hin]; [apply IH; [done|by rewrite length_insert]|].
  rewrite read_blocks_other by done. apply elem_of_cons in Hi as [<-|]; [|done]. by apply lt_insert_eq.
Qed.

(** ** Copying between the log and the home blocks *)

Lemma io_Done {A} (m : M io A) s a d : m (dio s) = Done a d → io_ m s = Done a (set_dio d s).
Proof. unfold io_, lift. by intros ->. Qed.

(** Run the next statement, a routine of the cache whose outcome is known. *)
Ltac iostep := erewrite bind_Done; [|eapply io_Done; cbn; first [eassumption | reflexivity]]; cbn beta.

(** Both loops read two blocks [x] and [y] in this order. *)
Record copy_pre (s : io) (x y : Z) (L : list Z) : Prop := {
  cp_idle : idle s;
  cp_ne : x ≠ y;
  cp_x : 0 <= x < disksize s;
  cp_y : 0 <= y < disksize s;
  cp_pins : ∀ b, pinned s b → b ∈ L;
  cp_cap : (length L < NBUF)%nat;
  cp_room : pinned s y ∨ (S (length L) < NBUF)%nat;
}.

Lemma copy_two s x y L :
  copy_pre s x y L →
  ∃ i j s1 s2, bread 1 x s = Done i s1 ∧ bread 1 y s1 = Done j s2 ∧
    (∃ s3 s4 s5 s6, copy_data i j s2 = Done tt s3 ∧ bwrite i s3 = Done tt s4 ∧ brelse j s4 = Done tt s5 ∧
      brelse i s5 = Done tt s6 ∧ idle s6 ∧ wrote s s6 x (view s y)) ∧
    (∃ s3 s4 s5 s6, copy_data j i s2 = Done tt s3 ∧ bwrite j s3 = Done tt s4 ∧ brelse i s4 = Done tt s5 ∧
      brelse j s5 = Done tt s6 ∧ idle s6 ∧ wrote s s6 y (view s x)).
Proof.
  intros [H1 H2 H3 H4 H5 H6 H7].
  destruct (bread_two s x y L) as (i & j & s1 & s2 & E1 & E2 & I & Hij & Hi & Hj & U & Ci & Cj & J & _); try done.
  assert (Q : ∀ k, (k < NBUF)%nat → k ≠ i → k ≠ j → busy (bufs s2 k) = false).
  { intros k Hk Hki Hkj. rewrite J by done. by apply H1. }
  exists i, j, s1, s2. split_and!; try done.
  - destruct (copy_release s2 i j x y (view s x) (view s y)) as (s3 & s4 & s5 & s6 & ? & ? & ? & ? & ? & W); try done.
    { by rewrite (un_disk _ _ U). }
    exists s3, s4, s5, s6. split_and!; try done. by eapply wrote_unchanged.
  - destruct (copy_release s2 j i y x (view s y) (view s x)) as (s3 & s4 & s5 & s6 & ? & ? & ? & ? & ? & W); try done.
    { by rewrite (un_disk _ _ U). }
    { auto. }
    exists s3, s4, s5, s6. split_and!; try done. by eapply wrote_unchanged.
Qed.

Lemma write_log_one_spec s t L :
  ldev (lg s) = 1 → copy_pre (dio s) (start (lg s) + Z.of_nat t + 1) (block (lh (lg s)) !!! t) L →
  ∃ d, write_log_one t s = Done tt (set_dio d s) ∧ idle d ∧
    wrote (dio s) d (start (lg s) + Z.of_nat t + 1) (view (dio s) (block (lh (lg s)) !!! t)).
Proof.
  intros Hd (i & j & s1 & s2 & E1 & E2 & (s3 & s4 & s5 & s6 & E3 & E4 & E5 & E6 & I & W) & _)%copy_two.
  exists s6. split; [|done]. unfold write_log_one. mgo. rewrite Hd. do 5 iostep. by erewrite io_Done.
Qed.

Lemma install_one_spec s t L :
  ldev (lg s) = 1 → copy_pre (dio s) (start (lg s) + Z.of_nat t + 1) (block (lh (lg s)) !!! t) L →
  ∃ d, install_one t s = Done tt (set_dio d s) ∧ idle d ∧
    wrote (dio s) d (block (lh (lg s)) !!! t) (view (dio s) (start (lg s) + Z.of_nat t + 1)).
Proof.
  intros Hd (i & j & s1 & s2 & E1 & E2 & _ & (s3 & s4 & s5 & s6 & E3 & E4 & E5 & E6 & I & W))%copy_two.
  exists s6. split; [|done]. unfold install_one. mgo. rewrite Hd. do 5 iostep. by erewrite io_Done.
Qed.

(** A loop of copies from [src t] to [dst t], reading [x t] and then [y t]. *)
Section CopyLoop.
Context (body : nat → M lst unit) (l : log) (x y src dst : nat → Z) (L : list Z).
Hypothesis body_spec : ∀ t s, lg s = l → copy_pre (dio s) (x t) (y t) L →
  ∃ d, body t s = Done tt (set_dio d s) ∧ idle d ∧ wrote (dio s) d (dst t) (view (dio s) (src t)).

Lemma copy_loop k : ∀ t s,
  lg s = l → idle (dio s) → (∀ b, pinned (dio s) b → b ∈ L) → (length L < NBUF)%nat →
  (∀ t', (t <= t' < t + k)%nat → x t' ≠ y t' ∧ 0 <= x t' < disksize (dio s) ∧ 0 <= y t' < disksize (dio s) ∧
     (pinned (dio s) (y t') ∨ (S (length L) < NBUF)%nat)) →
  (∀ t1 t2, (t <= t1)%nat → (t1 < t2)%nat → (t2 < t + k)%nat → dst t1 ≠ src t2 ∧ dst t1 ≠ y t2) →
  ∃ d, iter_each (seq t k) body s = Done tt (set_dio d s) ∧ idle d ∧
    wrote_all (dio s) d ((λ t, (dst t, view (dio s) (src t))) <$> seq t k).
Proof.
  induction k as [|k IH]; intros t s Hl I HL Hcap Hr Hne.
  - exists (dio s). split; [by destruct s|]. split; [done|]. apply wrote_all_nil.
  - destruct (body_spec t s Hl) as (d1 & E1 & I1 & W1).
    { destruct (Hr t) as (? & ? & ? & ?); [lia|]. by split. }
    destruct (IH (S t) (set_dio d1 s)) as (d2 & E2 & I2 & W2); try done; cbn [dio set_dio] in *.
    + intros b [? _]%(wr_pinned _ _ _ _ W1). auto.
    + intros t' Ht'. destruct (Hr t') as (? & ? & ? & Hp); [lia|]. rewrite (wr_size _ _ _ _ W1).
      split_and!; try lia. destruct Hp as [Hp|Hp]; [left|by right].
      apply (wr_pinned _ _ _ _ W1). split; [done|]. destruct (Hne t t'); lia.
    + intros t1 t2 ? ? ?. apply Hne; lia.
    + exists d2. cbn [seq iter_each]. rewrite (bind_Done _ _ _ _ _ E1), E2. split_and!; try done.
      cbn [fmap list_fmap]. apply (wrote_all_trans _ d1 _ [_]); [by apply wrote_all_one|].
      erewrite list_fmap_ext; [exact W2|]. cbn. intros j t' Ht'. apply lookup_seq in Ht' as [-> Hj].
      f_equal. rewrite (wr_view _ _ _ _ W1), decide_False; [done|].
      destruct (Hne t (S t + j)%nat); lia.
Qed.
End CopyLoop.

(** ** Transactions *)

Definition in_log (l : log) (b : Z) : Prop := start l <= b < start l + size l.

(** The log's place on the disk. *)
Record geometry (l : log) (dsz : Z) : Prop := {
  g_dev : ldev l = 1;
  g_start : 0 <= start l;
  g_size : 0 < size l;
  g_end : start l + size l <= dsz;
  g_disk : dsz <= 2 ^ 31;
  g_len : length (block (lh l)) = LOGSIZE;
}.

(** A list of blocks a transaction may hold. *)
Record tx_blocks (l : log) (dsz : Z) (bs : list Z) : Prop := {
  tb_nodup : NoDup bs;
  tb_home : ∀ b, b ∈ bs → 0 <= b < dsz ∧ ¬ in_log l b;
  tb_fit : Z.of_nat (length bs) < size l;
  tb_logsize : (length bs <= LOGSIZE)%nat;
}.

(** The in-memory header lists the blocks [bs]. *)
Record lists (h : logheader) (bs : list Z) : Prop := {
  li_n : n h = Z.of_nat (length bs);
  li_block : ∀ i, (i < length bs)%nat → block h !!! i = bs !!! i;
}.

Definition log_copies (st : Z) (v : Z → list Z) (bs : list Z) : list (Z * list Z) :=
  (λ t, (st + Z.of_nat t + 1, v (bs !!! t))) <$> seq 0 (length bs).

Definition installs (st : Z) (v : Z → list Z) (bs : list Z) : list (Z * list Z) :=
  (λ t, (bs !!! t, v (st + Z.of_nat t + 1))) <$> seq 0 (length bs).

Lemma bs_elem (bs : list Z) t : (t < length bs)%nat → bs !!! t ∈ bs.
Proof. intros (b & E)%lookup_lt_is_Some_2. rewrite (list_lookup_total_correct _ _ _ E). by eapply list_elem_of_lookup_2. Qed.

Lemma installs_fst st v bs : (installs st v bs).*1 = bs.
Proof.
  unfold installs. rewrite <-list_fmap_compose. apply list_eq. intros i.
  rewrite list_lookup_fmap. destruct (decide (i < length bs)%nat) as [Hi|Hi].
  - rewrite (lookup_seq_lt 0) by done. cbn. by rewrite list_lookup_lookup_total_lt.
  - rewrite !lookup_ge_None_2; [done|lia|by rewrite length_seq; lia].
Qed.

Lemma log_copies_fst st v bs b :
  b ∈ (log_copies st v bs).*1 → st < b <= st + Z.of_nat (length bs).
Proof.
  intros (w & -> & (t & -> & Ht%elem_of_seq)%list_elem_of_fmap)%list_elem_of_fmap. cbn. lia.
Qed.

Lemma lists_fmap {A} h bs (f : nat → Z → A) :
  lists h bs → (λ t, f t (block h !!! t)) <$> seq 0 (length bs) = (λ t, f t (bs !!! t)) <$> seq 0 (length bs).
Proof.
  intros H. apply list_fmap_ext. intros i t [-> Ht]%lookup_seq. by rewrite (li_block _ _ H).
Qed.

Section Specs.
Context (s : lst) (bs L : list Z).
Hypothesis (I : idle (dio s)) (G : geometry (lg s) (disksize (dio s))).
Hypothesis (pins : ∀ b, pinned (dio s) b → b ∈ L) (cap : (length L < NBUF)%nat).

Section Loops.
Hypothesis (T : tx_blocks (lg s) (disksize (dio s)) bs) (H : lists (lh (lg s)) bs).
Hypothesis room : (∀ b, b ∈ bs → pinned (dio s) b) ∨ (S (length L) < NBUF)%nat.

Lemma loop_pre t :
  (0 <= t < 0 + length bs)%nat →
  start (lg s) + Z.of_nat t + 1 ≠ block (lh (lg s)) !!! t ∧
  0 <= start (lg s) + Z.of_nat t + 1 < disksize (dio s) ∧ 0 <= block (lh (lg s)) !!! t < disksize (dio s) ∧
  (pinned (dio s) (block (lh (lg s)) !!! t) ∨ (S (length L) < NBUF)%nat).
Proof.
  intros Ht. rewrite (li_block _ _ H) by lia.
  pose proof (bs_elem bs t ltac:(lia)) as Hin. destruct (tb_home _ _ _ T _ Hin) as [Hr Hl].
  pose proof (tb_fit _ _ _ T). destruct G. unfold in_log in *. split_and!; try lia. naive_solver.
Qed.

Lemma loop_log_home t1 t2 :
  (t1 < length bs)%nat → (t2 < length bs)%nat → start (lg s) + Z.of_nat t1 + 1 ≠ block (lh (lg s)) !!! t2.
Proof.
  intros H1 H2. rewrite (li_block _ _ H) by done. destruct (tb_home _ _ _ T _ (bs_elem bs t2 H2)) as [_ Hl].
  pose proof (tb_fit _ _ _ T). unfold in_log in Hl. lia.
Qed.

Lemma loop_home_home t1 t2 :
  (t1 < t2)%nat → (t2 < length bs)%nat → block (lh (lg s)) !!! t1 ≠ block (lh (lg s)) !!! t2.
Proof.
  intros H1 H2. rewrite !(li_block _ _ H) by lia. intros E.
  assert (t1 = t2); [|lia]. apply (NoDup_lookup bs t1 t2 (bs !!! t1)); [apply T| |rewrite E];
    apply list_lookup_lookup_total_lt; lia.
Qed.

Lemma write_log_spec :
  ∃ d, write_log s = Done tt (set_dio d s) ∧ idle d ∧
    wrote_all (dio s) d (log_copies (start (lg s)) (view (dio s)) bs).
Proof.
  unfold write_log, log_copies. mgo. rewrite (li_n _ _ H), Nat2Z.id.
  rewrite <-(lists_fmap (lh (lg s)) bs (λ t b, (start (lg s) + Z.of_nat t + 1, view (dio s) b)) H).
  apply (copy_loop write_log_one (lg s) (λ t, start (lg s) + Z.of_nat t + 1) (λ t, block (lh (lg s)) !!! t)
    (λ t, block (lh (lg s)) !!! t) (λ t, start (lg s) + Z.of_nat t + 1) L); try done.
  - intros t s' E P. rewrite <-E in *. apply (write_log_one_spec s' t L); [apply G|done].
  - apply loop_pre.
  - intros t1 t2 ? ? ?. split; apply loop_log_home; lia.
Qed.

Lemma install_trans_spec :
  ∃ d, install_trans s = Done tt (set_dio d s) ∧ idle d ∧
    wrote_all (dio s) d (installs (start (lg s)) (view (dio s)) bs).
Proof.
  unfold install_trans, installs. mgo. rewrite (li_n _ _ H), Nat2Z.id.
  rewrite <-(lists_fmap (lh (lg s)) bs (λ t b, (b, view (dio s) (start (lg s) + Z.of_nat t + 1))) H).
  apply (copy_loop install_one (lg s) (λ t, start (lg s) + Z.of_nat t + 1) (λ t, block (lh (lg s)) !!! t)
    (λ t, start (lg s) + Z.of_nat t + 1) (λ t, block (lh (lg s)) !!! t) L); try done.
  - intros t s' E P. rewrite <-E in *. apply (install_one_spec s' t L); [apply G|done].
  - apply loop_pre.
  - intros t1 t2 ? ? ?. split; [apply not_eq_sym, loop_log_home|apply loop_home_home]; lia.
Qed.
End Loops.

Lemma write_head_spec :
  ∃ d, write_head s = Done tt (set_dio d s) ∧ idle d ∧
    wrote (dio s) d (start (lg s)) (encode_head (lh (lg s)) (view (dio s) (start (lg s)))).
Proof.
  destruct G. destruct (rewrite_block (dio s) (start (lg s)) (encode_head (lh (lg s))) L)
    as (i & s1 & s2 & s3 & s4 & E1 & E2 & E3 & E4 & I' & W); try done; [lia| |].
  { intros x Hx. by rewrite length_encode_head. }
  exists s4. split; [|done]. unfold write_head. mgo. rewrite g_dev0. do 3 iostep. by erewrite io_Done.
Qed.

Lemma read_head_spec :
  let hd := view (dio s) (start (lg s)) in
  ∃ d, read_head s = Done tt (mkLst d (set_lh (mkHdr (hdr_n hd)
         (read_blocks hd (seq 0 (Z.to_nat (hdr_n hd))) (block (lh (lg s))))) (lg s))) ∧
    idle d ∧ unchanged (dio s) d.
Proof.
  intros hd. destruct G. destruct (read_block (dio s) (start (lg s)) L)
    as (i & s1 & s2 & E1 & Ed & E2 & I' & U); try done; [lia|].
  exists s2. split; [|done]. unfold read_head. mgo. rewrite g_dev0. do 2 iostep.
  do 2 mgo. erewrite io_Done by (cbn; eassumption). cbn. by rewrite Ed.
Qed.
End Specs.

(** ** Commit *)

(** The disk writes of a commit of the blocks [bs] with contents [v]. *)
Definition commit_writes (l : log) (v : Z → list Z) (bs : list Z) : list (Z * list Z) :=
  let hd := encode_head (lh l) (v (start l)) in
  log_copies (start l) v bs ++ (start l, hd) :: ((λ b, (b, v b)) <$> bs) ++ [(start l, put32 hd 0 0)].

Lemma encode_head_0 h x : n h = 0 → encode_head h x = put32 x 0 0.
Proof. unfold encode_head. by intros ->. Qed.

Lemma log_copies_lookup l dsz v w bs t :
  tx_blocks l dsz bs → (t < length bs)%nat →
  apply_writes w (log_copies (start l) v bs) (start l + Z.of_nat t + 1) = v (bs !!! t).
Proof.
  intros T Ht. apply apply_writes_in.
  - unfold log_copies. rewrite <-list_fmap_compose. apply NoDup_fmap_2_strong; [|apply NoDup_seq].
    cbn. intros. lia.
  - apply list_elem_of_fmap. exists t. split; [done|]. apply elem_of_seq. lia.
Qed.

Lemma installs_copies l dsz v w bs :
  tx_blocks l dsz bs → (∀ t, (t < length bs)%nat → w (start l + Z.of_nat t + 1) = v (bs !!! t)) →
  installs (start l) w bs = (λ b, (b, v b)) <$> bs.
Proof.
  intros T Hw. rewrite <-(installs_fst (start l) w bs) at 2. rewrite <-list_fmap_compose.
  unfold installs. rewrite <-list_fmap_compose. apply list_fmap_ext. intros i t [-> Ht]%lookup_seq. cbn.
  by rewrite Hw.
Qed.

Lemma home_not_copied l dsz v bs b :
  tx_blocks l dsz bs → b = start l ∨ ¬ in_log l b → b ∉ (log_copies (start l) v bs).*1.
Proof.
  intros T Hb Hin%log_copies_fst. pose proof (tb_fit _ _ _ T). unfold in_log in *. lia.
Qed.

(** The state in which [commit] is called: the header lists exactly the
    pinned blocks, and nothing else is cached dirty. *)
Record committable (s : lst) (bs : list Z) : Prop := {
  cm_idle : idle (dio s);
  cm_geom : geometry (lg s) (disksize (dio s));
  cm_tx : tx_blocks (lg s) (disksize (dio s)) bs;
  cm_lists : lists (lh (lg s)) bs;
  cm_pins : ∀ b, pinned (dio s) b ↔ b ∈ bs;
  cm_cap : (length bs < NBUF)%nat;
}.

(** Installing and erasing, the last steps of [commit] and of recovery. *)
Lemma install_phase s bs L :
  idle (dio s) → geometry (lg s) (disksize (dio s)) → tx_blocks (lg s) (disksize (dio s)) bs →
  lists (lh (lg s)) bs → (∀ b, pinned (dio s) b → b ∈ L) → (length L < NBUF)%nat →
  (∀ b, b ∈ bs → pinned (dio s) b) ∨ (S (length L) < NBUF)%nat →
  ∃ d, (install_trans;; upd_log (set_n 0);; write_head) s = Done tt (mkLst d (set_n 0 (lg s))) ∧ idle d ∧
    wrote_all (dio s) d (installs (start (lg s)) (view (dio s)) bs ++
                         [(start (lg s), put32 (view (dio s) (start (lg s))) 0 0)]).
Proof.
  intros I G T H P C R. destruct (install_trans_spec s bs L) as (d1 & E1 & I1 & W1); try done.
  destruct (write_head_spec (set_lg (set_n 0 (lg s)) (set_dio d1 s)) L) as (d2 & E2 & I2 & W2%wrote_all_one); try done; cbn in *.
  { rewrite (wa_size _ _ _ W1). by destruct G. }
  { intros b [Hb _]%(wa_pinned _ _ _ W1). auto. }
  exists d2. split; [|split; [done|]].
  - rewrite (bind_Done _ _ _ _ _ E1). mgo. etrans; [exact E2|done].
  - rewrite encode_head_0, (wa_view _ _ _ W1), apply_writes_other in W2; [|rewrite installs_fst|done].
    + by eapply wrote_all_trans.
    + intros [_ Hl]%(tb_home _ _ _ T). unfold in_log in Hl. destruct G. lia.
Qed.

(** Writing the log and then the header, the first steps of [commit]. *)
Lemma log_phase s bs :
  committable s bs →
  ∃ d1 d2, write_log s = Done tt (set_dio d1 s) ∧ write_head (set_dio d1 s) = Done tt (set_dio d2 s) ∧
    idle d2 ∧ wrote_all (dio s) d2 (log_copies (start (lg s)) (view (dio s)) bs ++
                          [(start (lg s), encode_head (lh (lg s)) (view (dio s) (start (lg s))))]).
Proof.
  intros [I G T H P C].
  destruct (write_log_spec s bs bs) as (d1 & E1 & I1 & W1); try done; [set_solver|left; set_solver|].
  destruct (write_head_spec (set_dio d1 s) bs) as (d2 & E2 & I2 & W2%wrote_all_one); try done; cbn in *.
  { by rewrite (wa_size _ _ _ W1). }
  { intros b [? _]%(wa_pinned _ _ _ W1). set_solver. }
  exists d1, d2. split_and!; try done.
  rewrite (wa_view _ _ _ W1), apply_writes_other in W2 by (by apply (home_not_copied _ _ _ _ _ T); left).
  by eapply wrote_all_trans.
Qed.

Lemma commit_spec s bs :
  committable s bs → bs ≠ [] →
  ∃ d, commit s = Done tt (mkLst d (set_n 0 (lg s))) ∧ idle d ∧
    wrote_all (dio s) d (commit_writes (lg s) (view (dio s)) bs).
Proof.
  intros Hc Hbs. destruct (log_phase s bs Hc) as (d1 & d2 & E1 & E2 & I2 & W).
  destruct Hc as [I G T H P C].
  assert (Hw : ∀ b, b ∈ bs → b ≠ start (lg s) ∧ ¬ in_log (lg s) b).
  { intros b Hb. destruct (tb_home _ _ _ T _ Hb) as [_ Hl]. split; [|done]. unfold in_log in Hl. destruct G. lia. }
  destruct (install_phase (set_dio d2 s) bs bs) as (d3 & E3 & I3 & W3); try done; cbn [lg set_dio dio] in *.
  { by rewrite (wa_size _ _ _ W). }
  { by rewrite (wa_size _ _ _ W). }
  { intros b [? _]%(wa_pinned _ _ _ W). set_solver. }
  { left. intros b Hb. apply (wa_pinned _ _ _ W). split; [by apply P|]. rewrite fmap_app, not_elem_of_app. split.
    - apply (home_not_copied _ _ _ _ _ T). right. by apply Hw.
    - cbn. apply not_elem_of_cons. split; [by apply Hw|set_solver]. }
  exists d3. split; [|split; [done|]].
  - unfold commit. mgo. rewrite (li_n _ _ H). destruct (Z.ltb_spec 0 (Z.of_nat (length bs))).
    + by rewrite (bind_Done _ _ _ _ _ E1), (bind_Done _ _ _ _ _ E2).
    + destruct bs; [done|cbn in *; lia].
  - pose proof (wrote_all_trans _ _ _ _ _ W W3) as W'. unfold commit_writes. rewrite <-app_assoc in W'. cbn [app] in W'.
    rewrite (wa_view _ _ _ W), apply_writes_app in W'. cbn in W'. rewrite fn_lookup_insert in W'.
    by rewrite (installs_copies _ _ (view (dio s)) _ _ T) in W'
      by (intros t Ht; rewrite (wa_view _ _ _ W), apply_writes_app, apply_writes_other;
          [by apply (log_copies_lookup _ _ _ _ _ _ T)|cbn; rewrite list_elem_of_singleton; lia]).
Qed.

(** ** Recovery *)

(** The kernel's state after a reboot with disk [d]: zeroed memory, [binit]. *)
Definition zero_io (d : Z → list Z) (dsz : Z) : io :=
  mkIo (λ _, mkBuf 0 0 0 0 0 (replicate BSIZE 0)) d dsz [] [].
Definition zero_log : log := mkLog 0 0 0 0 0 (mkHdr 0 (replicate LOGSIZE 0)).
Definition boot (d : Z → list Z) (dsz : Z) : lst :=
  mkLst (state_of (zero_io d dsz) (binit (zero_io d dsz))) zero_log.

(** The header block [x] lists the blocks [bs]. *)
Record disk_lists (x : list Z) (bs : list Z) : Prop := {
  dl_n : hdr_n x = Z.of_nat (length bs);
  dl_block : ∀ i, (i < length bs)%nat → hdr_block x i = bs !!! i;
}.

Lemma boot_spec d dsz :
  (∀ b, 0 <= b < dsz → length (d b) = BSIZE) →
  idle (dio (boot d dsz)) ∧ (∀ b, ¬ pinned (dio (boot d dsz)) b) ∧
  (∀ b, view (dio (boot d dsz)) b = d b) ∧ disk (dio (boot d dsz)) = d ∧
  disksize (dio (boot d dsz)) = dsz ∧ written (dio (boot d dsz)) = [].
Proof.
  intros Hd. unfold boot. cbn [dio].
  destruct (binit_spec (zero_io d dsz)) as (f & E & I & Q & _ & P & V); [done..|].
  rewrite E. cbn [state_of].
  split; [exact (conj I Q)|]. split; [exact P|]. split; [exact V|]. split_and!; reflexivity.
Qed.

Lemma readsb_spec s L :
  idle (dio s) → 1 < disksize (dio s) → (∀ b, pinned (dio s) b → b ∈ L) → (length L < NBUF)%nat →
  ∃ d, readsb 1 s = Done (decode_sb (view (dio s) 1)) (set_dio d s) ∧ idle d ∧ unchanged (dio s) d.
Proof.
  intros I Hd P C. destruct (read_block (dio s) 1 L) as (i & s1 & s2 & E1 & Ed & E2 & I' & U); try done.
  exists s2. split; [|done]. unfold readsb. do 3 iostep. by rewrite <-Ed.
Qed.

Lemma recover_spec s bs :
  idle (dio s) → geometry (lg s) (disksize (dio s)) → (∀ b, ¬ pinned (dio s) b) →
  disk_lists (view (dio s) (start (lg s))) bs → tx_blocks (lg s) (disksize (dio s)) bs →
  ∃ d l, recover_from_log s = Done tt (mkLst d l) ∧ n (lh l) = 0 ∧ geometry l (disksize (dio s)) ∧
    start l = start (lg s) ∧ size l = size (lg s) ∧ outstanding l = outstanding (lg s) ∧
    committing l = committing (lg s) ∧ idle d ∧
    wrote_all (dio s) d (installs (start (lg s)) (view (dio s)) bs ++
                         [(start (lg s), put32 (view (dio s) (start (lg s))) 0 0)]).
Proof.
  intros I G P H T. set (hd := view (dio s) (start (lg s))) in *.
  destruct (read_head_spec s []) as (d1 & E1 & I1 & U1); try done; [set_solver|unfold NBUF; cbn; lia|].
  fold hd in E1. set (l1 := set_lh _ (lg s)) in E1.
  assert (Hl1 : lists (lh l1) bs).
  { split; cbn; [apply H|]. intros i Hi. rewrite (dl_n _ _ H), Nat2Z.id, read_blocks_in; [by apply H| |].
    - apply elem_of_seq. lia.
    - rewrite (g_len _ _ G). pose proof (tb_logsize _ _ _ T). lia. }
  assert (G1 : geometry l1 (disksize (dio s))).
  { destruct G. split; try done. cbn. by rewrite length_read_blocks. }
  destruct (install_phase (mkLst d1 l1) bs []) as (d2 & E2 & I2 & W2); try done; cbn [lg dio] in *.
  { by rewrite (un_size _ _ U1). }
  { rewrite (un_size _ _ U1). by destruct T. }
  { intros b Hb%(un_pinned _ _ U1). by destruct (P b). }
  { unfold NBUF; cbn; lia. }
  { right. unfold NBUF; cbn; lia. }
  exists d2, (set_n 0 l1). split_and!; try done.
  - unfold recover_from_log. by rewrite (bind_Done _ _ _ _ _ E1).
  - by destruct G1.
  - rewrite (un_view _ _ U1) in W2. fold hd in W2. change (start l1) with (start (lg s)) in W2.
    assert (Ei : installs (start (lg s)) (view d1) bs = installs (start (lg s)) (view (dio s)) bs).
    { unfold installs. apply list_fmap_ext. intros. f_equal. apply (un_view _ _ U1). }
    rewrite Ei in W2. by eapply wrote_all_unchanged.
Qed.

(** A disk whose log is at [l]'s place and whose superblock says so. *)
Record formatted (d : Z → list Z) (l : log) (dsz : Z) : Prop := {
  fm_geom : geometry l dsz;
  fm_sb : logstart (decode_sb (d 1)) = start l ∧ nlog (decode_sb (d 1)) = size l;
  fm_sb_out : 1 < dsz ∧ ¬ in_log l 1;
  fm_len : ∀ b, 0 <= b < dsz → length (d b) = BSIZE;
}.

(** Recovering from disk [d] leads to the contents [new] outside the log: the
    header lists blocks whose logged copies are the [new] ones, and the
    others are already there. *)
Record recoverable (d : Z → list Z) (l : log) (dsz : Z) (new : Z → list Z) (bs : list Z) : Prop := {
  rc_formatted : formatted d l dsz;
  rc_lists : disk_lists (d (start l)) bs;
  rc_tx : tx_blocks l dsz bs;
  rc_sb : 1 ∉ bs;
  rc_logged : ∀ t, (t < length bs)%nat → d (start l + Z.of_nat t + 1) = new (bs !!! t);
  rc_home : ∀ b, ¬ in_log l b → b ∉ bs → d b = new b;
}.

Definition recovery_writes (d : Z → list Z) (l : log) (bs : list Z) : list (Z * list Z) :=
  installs (start l) d bs ++ [(start l, put32 (d (start l)) 0 0)].

Lemma initlog_spec d l dsz new bs :
  recoverable d l dsz new bs →
  ∃ r, initlog 1 (boot d dsz) = Done tt r ∧ n (lh (lg r)) = 0 ∧ idle (dio r) ∧
    geometry (lg r) dsz ∧ start (lg r) = start l ∧ size (lg r) = size l ∧
    outstanding (lg r) = 0 ∧ committing (lg r) = 0 ∧
    disksize (dio r) = dsz ∧ (∀ b, ¬ pinned (dio r) b) ∧
    written (dio r) = recovery_writes d l bs ∧ disk (dio r) = apply_writes d (recovery_writes d l bs) ∧
    (∀ b, view (dio r) b = disk (dio r) b).
Proof.
  intros [[G [Hsb1 Hsb2] [H1 _] Hlen] H T _ _ _]. destruct (boot_spec d dsz Hlen) as (I & P & V & Ed & Es & Ew).
  assert (El : lg (boot d dsz) = zero_log) by reflexivity. revert I P V Ed Es Ew El.
  generalize (boot d dsz). intros s I P V Ed Es Ew El.
  destruct (readsb_spec s []) as (d1 & E1 & I1 & U1); try done; [by rewrite Es|set_solver|unfold NBUF; cbn; lia|].
  rewrite V in E1. set (l1 := mkLog (start l) (size l) 0 0 1 (lh zero_log)).
  assert (V1 : ∀ b, view d1 b = d b) by (intros b; by rewrite (un_view _ _ U1), V).
  destruct (recover_spec (mkLst d1 l1) bs) as (d2 & l2 & E2 & Hn & G2 & Hst & Hsz & Hout & Hcom & I2 & W2); cbn [dio lg] in *.
  { done. }
  { rewrite (un_size _ _ U1), Es. by destruct G. }
  { intros b Hb%(un_pinned _ _ U1). by destruct (P b). }
  { by rewrite V1. }
  { rewrite (un_size _ _ U1), Es. by destruct T. }
  assert (Ei : installs (start l1) (view d1) bs ++ [(start l1, put32 (view d1 (start l1)) 0 0)] = recovery_writes d l bs).
  { unfold recovery_writes, installs. rewrite V1. f_equal. apply list_fmap_ext. intros. by rewrite V1. }
  rewrite Ei in W2. exists (mkLst d2 l2). split_and!; try done; cbn.
  - unfold initlog. destruct (Nat.leb_spec BSIZE (4 * (1 + LOGSIZE))) as [Hbad|_].
    { unfold BSIZE, LOGSIZE, MAXOPBLOCKS in Hbad. lia. }
    rewrite (bind_Done _ _ _ _ _ E1). mgo. rewrite Hsb1, Hsb2. unfold set_lg. cbn [lg dio set_dio]. rewrite El. exact E2.
  - by rewrite (un_size _ _ U1), Es in G2.
  - by rewrite (wa_size _ _ _ W2), (un_size _ _ U1).
  - intros b [Hb%(un_pinned _ _ U1) _]%(wa_pinned _ _ _ W2). by destruct (P b).
  - by rewrite (wa_written _ _ _ W2), (un_written _ _ U1), Ew.
  - by rewrite (wa_disk _ _ _ W2), (un_disk _ _ U1), Ed.
  - intros b. apply idle_view; [done|]. intros [Hb%(un_pinned _ _ U1) _]%(wa_pinned _ _ _ W2). by destruct (P b).
Qed.

(** ** Crashes *)

Lemma prefix_of_app {A} (w a b : list A) :
  w `prefix_of` a ++ b → w `prefix_of` a ∨ ∃ w', w = a ++ w' ∧ w' `prefix_of` b.
Proof.
  revert w. induction a as [|x a IH]; intros w H; [by right; exists w|].
  destruct w as [|y w]; [left; apply prefix_nil|].
  pose proof (prefix_cons_inv_1 _ _ _ _ H) as ->. apply prefix_cons_inv_2 in H.
  destruct (IH w H) as [Hp|(w' & -> & Hp)]; [left; by apply prefix_cons|right; by exists w'].
Qed.

Lemma prefix_of_snoc {A} (w a : list A) x : w `prefix_of` a ++ [x] → w `prefix_of` a ∨ w = a ++ [x].
Proof.
  intros [H|([|y w'] & -> & [k Hk])]%prefix_of_app; [by left|left; by rewrite app_nil_r|right].
  destruct w'; [|done]. cbn in Hk. by simplify_eq.
Qed.

Lemma prefix_fst (w a : list (Z * list Z)) b : w `prefix_of` a → b ∉ a.*1 → b ∉ w.*1.
Proof. intros [k ->]. rewrite fmap_app. by intros [? _]%not_elem_of_app. Qed.

Lemma prefix_Forall {A} (P : A → Prop) (w a : list A) : w `prefix_of` a → Forall P a → Forall P w.
Proof. intros [k ->]. by intros [? _]%Forall_app. Qed.

Lemma hdr_n_cleared x : length x = BSIZE → hdr_n (put32 x 0 0) = 0.
Proof. intros H. unfold hdr_n. rewrite get32_put32_eq by (rewrite H; unfold BSIZE; lia). done. Qed.

Lemma disk_lists_nil x : hdr_n x = 0 → disk_lists x [].
Proof. split; [done|]. cbn. lia. Qed.

Lemma tx_nil l dsz : 0 < size l → tx_blocks l dsz [].
Proof. split; cbn; [constructor|set_solver|done|lia]. Qed.

Lemma formatted_writes d l dsz ws :
  formatted d l dsz → Forall (λ w, length w.2 = BSIZE) ws → 1 ∉ ws.*1 → formatted (apply_writes d ws) l dsz.
Proof.
  intros [A1 A2 A3 A4] Hw H1. split; try done.
  - by rewrite apply_writes_other.
  - intros b Hb. apply apply_writes_length; auto.
Qed.

Section Recoverable.
Context (d : Z → list Z) (l : log) (dsz : Z) (new : Z → list Z) (bs : list Z).
Hypothesis R : recoverable d l dsz new bs.

Lemma recoverable_range t : (t < length bs)%nat → 0 <= start l + Z.of_nat t + 1 < dsz ∧ in_log l (start l + Z.of_nat t + 1).
Proof.
  intros Ht. pose proof (tb_fit _ _ _ (rc_tx _ _ _ _ _ R)). destruct (fm_geom _ _ _ (rc_formatted _ _ _ _ _ R)).
  unfold in_log. lia.
Qed.

Lemma start_in_log : in_log l (start l).
Proof. destruct (fm_geom _ _ _ (rc_formatted _ _ _ _ _ R)). unfold in_log. lia. Qed.

Lemma installs_length : Forall (λ w, length w.2 = BSIZE) (installs (start l) d bs).
Proof.
  apply Forall_forall. intros w (t & -> & Ht%elem_of_seq)%list_elem_of_fmap. cbn.
  apply (fm_len _ _ _ (rc_formatted _ _ _ _ _ R)). apply recoverable_range. lia.
Qed.

Lemma installs_out b : in_log l b ∨ b ∉ bs → b ∉ (installs (start l) d bs).*1.
Proof.
  rewrite installs_fst. intros [Hl|Hb]; [|done]. intros Hin. by apply (tb_home _ _ _ (rc_tx _ _ _ _ _ R)) in Hin as [_ ?].
Qed.

Lemma apply_recovery b : ¬ in_log l b → apply_writes d (recovery_writes d l bs) b = new b.
Proof.
  intros Hb. unfold recovery_writes. rewrite apply_writes_app, apply_writes_other.
  - destruct (decide (b ∈ bs)) as [Hin|Hin].
    + apply list_elem_of_lookup in Hin as [t Ht]. apply apply_writes_in; [by rewrite installs_fst; apply (rc_tx _ _ _ _ _ R)|].
      apply list_elem_of_fmap. exists t. pose proof (lookup_lt_Some _ _ _ Ht).
      rewrite (rc_logged _ _ _ _ _ R), (list_lookup_total_correct _ _ _ Ht) by done. split; [done|].
      apply elem_of_seq. lia.
    + rewrite apply_writes_other by (by apply installs_out; right). by apply (rc_home _ _ _ _ _ R).
  - cbn. rewrite list_elem_of_singleton. intros ->. apply Hb, start_in_log.
Qed.

Lemma apply_recovery_header : hdr_n (apply_writes d (recovery_writes d l bs) (start l)) = 0.
Proof.
  unfold recovery_writes. rewrite apply_writes_app. cbn. rewrite fn_lookup_insert. apply hdr_n_cleared.
  apply (fm_len _ _ _ (rc_formatted _ _ _ _ _ R)). destruct (fm_geom _ _ _ (rc_formatted _ _ _ _ _ R)). lia.
Qed.

Lemma recovery_writes_sb : 1 ∉ (recovery_writes d l bs).*1.
Proof.
  unfold recovery_writes. rewrite fmap_app, not_elem_of_app. split.
  - apply installs_out. right. apply (rc_sb _ _ _ _ _ R).
  - cbn. rewrite list_elem_of_singleton. intros E. destruct (fm_sb_out _ _ _ (rc_formatted _ _ _ _ _ R)) as [_ H1].
    apply H1. rewrite E. apply start_in_log.
Qed.

Lemma recovery_writes_length : Forall (λ w, length w.2 = BSIZE) (recovery_writes d l bs).
Proof.
  apply Forall_app. split; [apply installs_length|]. apply Forall_singleton. cbn. rewrite length_put32.
  apply (fm_len _ _ _ (rc_formatted _ _ _ _ _ R)). destruct (fm_geom _ _ _ (rc_formatted _ _ _ _ _ R)). lia.
Qed.

(** A crash during recovery leaves a disk that still recovers to [new]. *)
Lemma recovery_crash ws :
  ws `prefix_of` recovery_writes d l bs → ∃ bs', recoverable (apply_writes d ws) l dsz new bs'.
Proof.
  intros Hw.
  assert (F : formatted (apply_writes d ws) l dsz).
  { apply formatted_writes; [apply R| |].
    - by eapply prefix_Forall, recovery_writes_length.
    - by eapply prefix_fst, recovery_writes_sb. }
  destruct (prefix_of_snoc _ _ _ Hw) as [Hp|E].
  - exists bs. assert (Ho : ∀ b, in_log l b ∨ b ∉ bs → apply_writes d ws b = d b).
    { intros b Hb. apply apply_writes_other. by eapply prefix_fst, installs_out. }
    split; try done; try apply R.
    + rewrite Ho by (left; apply start_in_log). apply R.
    + intros t Ht. rewrite Ho by (left; by apply recoverable_range). by apply R.
    + intros b Hb Hn. rewrite Ho by auto. by apply R.
  - fold (recovery_writes d l bs) in E. rewrite E in *. exists []. split; try done.
    + by apply disk_lists_nil, apply_recovery_header.
    + apply tx_nil. apply (fm_geom _ _ _ F).
    + set_solver.
    + cbn. lia.
    + intros b Hb _. by apply apply_recovery.
Qed.
End Recoverable.

Section CommitCrash.
Context (s : lst) (bs : list Z).
Hypothesis (C : committable s bs) (F : formatted (disk (dio s)) (lg s) (disksize (dio s))).
Hypothesis (sb_out : 1 ∉ bs).

Notation st := (start (lg s)).
Notation v := (view (dio s)).
Notation dsz := (disksize (dio s)).

(** The header block [commit] writes first. *)
Definition commit_header : list Z := encode_head (lh (lg s)) (v st).

Lemma start_range : 0 <= st < dsz ∧ in_log (lg s) st.
Proof. destruct C as [_ [] _ _ _ _]. unfold in_log. lia. Qed.

Lemma start_not_bs : st ∉ bs.
Proof. intros Hin. destruct (tb_home _ _ _ (cm_tx _ _ C) _ Hin) as [_ Hl]. apply Hl, start_range. Qed.

Lemma length_v b : 0 <= b < dsz → length (v b) = BSIZE.
Proof. apply length_view, C. Qed.

Lemma commit_header_lists : disk_lists commit_header bs.
Proof.
  destruct (cm_lists _ _ C) as [Hn Hb]. pose proof (cm_cap _ _ C). unfold NBUF, MAXOPBLOCKS in *.
  assert (Hlen : length (v st) = BSIZE) by (apply length_v, start_range).
  split; unfold commit_header.
  - rewrite hdr_n_encode; [done|done|]. rewrite Hn. unfold is_s32. lia.
  - intros i Hi. rewrite hdr_block_encode; rewrite ?Hn, ?Nat2Z.id; auto.
    + unfold LOGSIZE, MAXOPBLOCKS. lia.
    + rewrite Hb by done. destruct (tb_home _ _ _ (cm_tx _ _ C) _ (bs_elem _ _ Hi)) as [? _].
      pose proof (g_disk _ _ (cm_geom _ _ C)). unfold is_s32. lia.
Qed.

Lemma commit_writes_length : Forall (λ w, length w.2 = BSIZE) (commit_writes (lg s) v bs).
Proof.
  assert (Hbs : ∀ b, b ∈ bs → length (v b) = BSIZE).
  { intros b Hb. apply length_v. by apply (tb_home _ _ _ (cm_tx _ _ C)). }
  assert (Hst : length (v st) = BSIZE) by (apply length_v, start_range).
  unfold commit_writes. rewrite Forall_app, Forall_cons, Forall_app, Forall_singleton. cbn.
  rewrite length_put32, length_encode_head. split_and!; try done; apply Forall_forall.
  - intros w (t & -> & Ht%elem_of_seq)%list_elem_of_fmap. apply Hbs, bs_elem. lia.
  - intros w (b & -> & Hb)%list_elem_of_fmap. by apply Hbs.
Qed.

Lemma commit_writes_sb : 1 ∉ (commit_writes (lg s) v bs).*1.
Proof.
  destruct (fm_sb_out _ _ _ F) as [_ H1].
  assert (1 ≠ st) by (intros E; apply H1; rewrite E; apply start_range).
  unfold commit_writes. rewrite fmap_app, fmap_cons, fmap_app, <-list_fmap_compose.
  rewrite not_elem_of_app, not_elem_of_cons, not_elem_of_app. split_and!; try done.
  - apply (home_not_copied _ _ _ _ _ (cm_tx _ _ C)). by right.
  - intros (b & E & Hb)%list_elem_of_fmap. cbn in E. by subst.
  - cbn. by rewrite list_elem_of_singleton.
Qed.

(** Before the header is written the old contents are recoverable; from then
    on the new ones are. *)
Lemma crash_old ws :
  hdr_n (disk (dio s) st) = 0 → ws `prefix_of` log_copies st v bs →
  recoverable (apply_writes (disk (dio s)) ws) (lg s) dsz (disk (dio s)) [].
Proof.
  intros Hh Hp.
  assert (Ho : ∀ b, b = st ∨ ¬ in_log (lg s) b → apply_writes (disk (dio s)) ws b = disk (dio s) b).
  { intros b Hb. apply apply_writes_other. by eapply prefix_fst, (home_not_copied _ _ _ _ _ (cm_tx _ _ C)). }
  assert (Hpre : ws `prefix_of` commit_writes (lg s) v bs) by (by apply prefix_app_r).
  split.
  - apply formatted_writes; [done| |].
    + by eapply prefix_Forall, commit_writes_length.
    + by eapply prefix_fst, commit_writes_sb.
  - apply disk_lists_nil. by rewrite Ho by auto.
  - apply tx_nil, C.
  - set_solver.
  - cbn. lia.
  - intros b Hb _. by rewrite Ho by auto.
Qed.

Lemma crash_new ws :
  ws `prefix_of` (λ b, (b, v b)) <$> bs →
  recoverable (apply_writes (disk (dio s)) (log_copies st v bs ++ (st, commit_header) :: ws)) (lg s) dsz v bs.
Proof.
  intros Hp. set (d := apply_writes _ _).
  assert (Hws : ∀ b, b ∉ bs → b ∉ ws.*1).
  { intros b Hb. eapply prefix_fst; [done|]. rewrite <-list_fmap_compose. by rewrite list_fmap_id. }
  assert (Hd : ∀ b, b ∉ bs → d b = if decide (b = st) then commit_header
                             else apply_writes (disk (dio s)) (log_copies st v bs) b).
  { intros b Hb. unfold d. rewrite apply_writes_app. cbn. rewrite apply_writes_other by auto.
    unfold insert, fn_insert. by destruct (decide (st = b)), (decide (b = st)). }
  assert (Hpre : log_copies st v bs ++ (st, commit_header) :: ws `prefix_of` commit_writes (lg s) v bs).
  { apply prefix_app, prefix_cons. by apply prefix_app_r. }
  split.
  - apply formatted_writes; [done| |].
    + by eapply prefix_Forall, commit_writes_length.
    + by eapply prefix_fst, commit_writes_sb.
  - rewrite Hd, decide_True by auto using start_not_bs. apply commit_header_lists.
  - apply C.
  - done.
  - intros t Ht. rewrite Hd, decide_False; [by apply (log_copies_lookup _ _ _ _ _ _ (cm_tx _ _ C))|lia|].
    intros Hin. destruct (tb_home _ _ _ (cm_tx _ _ C) _ Hin) as [_ Hl]. apply Hl.
    pose proof (tb_fit _ _ _ (cm_tx _ _ C)). unfold in_log. lia.
  - intros b Hb Hn. rewrite Hd, decide_False by (done || intros ->; apply Hb, start_range).
    rewrite apply_writes_other by (apply (home_not_copied _ _ _ _ _ (cm_tx _ _ C)); auto).
    symmetry. apply idle_view; [apply C|]. by rewrite (cm_pins _ _ C).
Qed.
Lemma crash_done : recoverable (apply_writes (disk (dio s)) (commit_writes (lg s) v bs)) (lg s) dsz v [].
Proof.
  pose proof (crash_new _ (reflexivity ((λ b, (b, v b)) <$> bs))) as R.
  assert (Hfst : ((λ b, (b, v b)) <$> bs).*1 = bs) by (rewrite <-list_fmap_compose; apply list_fmap_id).
  assert (E : commit_writes (lg s) v bs =
    (log_copies st v bs ++ (st, commit_header) :: ((λ b, (b, v b)) <$> bs)) ++ [(st, put32 commit_header 0 0)]).
  { unfold commit_writes. by rewrite <-app_assoc. }
  split.
  - apply formatted_writes; [done|apply commit_writes_length|apply commit_writes_sb].
  - apply disk_lists_nil. rewrite E, apply_writes_app. cbn. rewrite fn_lookup_insert. apply hdr_n_cleared.
    unfold commit_header. rewrite length_encode_head. apply length_v, start_range.
  - apply tx_nil, C.
  - set_solver.
  - cbn. lia.
  - intros b Hb _. rewrite E, apply_writes_app. cbn. rewrite fn_lookup_insert_ne by (intros <-; apply Hb, start_range).
    destruct (decide (b ∈ bs)) as [Hin|Hin]; [|by apply (rc_home _ _ _ _ _ R)].
    rewrite apply_writes_app. cbn. apply apply_writes_in; [rewrite Hfst; apply (cm_tx _ _ C)|].
    apply list_elem_of_fmap. eauto.
Qed.

Lemma commit_crash ws :
  hdr_n (disk (dio s) st) = 0 → ws `prefix_of` commit_writes (lg s) v bs →
  ∃ new bs', recoverable (apply_writes (disk (dio s)) ws) (lg s) dsz new bs' ∧
    (ws ≠ commit_writes (lg s) v bs ∧ new = disk (dio s) ∨ new = v).
Proof.
  assert (Hshort : ∀ w, w `prefix_of` log_copies st v bs → w ≠ commit_writes (lg s) v bs).
  { intros w Hw%prefix_length E. rewrite E in Hw. unfold commit_writes in Hw.
    rewrite length_app in Hw. cbn in Hw. lia. }
  intros Hh [Hp|(w & -> & Hp)]%prefix_of_app; [eexists _, []; split; [by apply crash_old|left; auto]|].
  destruct w as [|x w].
  { rewrite app_nil_r. eexists _, []. split; [by apply crash_old|left; by auto]. }
  pose proof (prefix_cons_inv_1 _ _ _ _ Hp) as ->. apply prefix_cons_inv_2 in Hp.
  destruct (prefix_of_snoc _ _ _ Hp) as [Hp'| ->].
  - exists v, bs. split; [by apply crash_new|by right].
  - exists v, []. split; [apply crash_done|by right].
Qed.
End CommitCrash.

(** A reboot that crashes again after some of its recovery writes. *)
Definition crash_reboot (dsz : Z) (d d' : Z → list Z) : Prop :=
  ∃ r ws, initlog 1 (boot d dsz) = Done tt r ∧ ws `prefix_of` written (dio r) ∧ d' = apply_writes d ws.

Lemma reboots_recoverable l dsz d d' new bs :
  recoverable d l dsz new bs → rtc (crash_reboot dsz) d d' → ∃ bs', recoverable d' l dsz new bs'.
Proof.
  intros R H. revert bs R. induction H as [d|d d1 d' (r & ws & E & Hp & ->) _ IH]; intros bs R; [eauto|].
  destruct (initlog_spec _ _ _ _ _ R) as (r' & E' & _ & _ & _ & _ & _ & _ & _ & _ & _ & Ew & _).
  rewrite E in E'. injection E' as <-. rewrite Ew in Hp. clear E. destruct (recovery_crash _ _ _ _ _ R _ Hp) as (bs' & R'). eauto.
Qed.

(** No operation is in progress and the log is empty. *)
Record quiescent (s : lst) : Prop := {
  qs_idle : idle (dio s);
  qs_geom : geometry (lg s) (disksize (dio s));
  qs_n : n (lh (lg s)) = 0;
  qs_pins : ∀ b, ¬ pinned (dio s) b;
  qs_outstanding : outstanding (lg s) = 0;
  qs_committing : committing (lg s) = 0;
}.

Lemma recovered d l dsz new bs :
  recoverable d l dsz new bs →
  ∃ r, initlog 1 (boot d dsz) = Done tt r ∧ quiescent r ∧ hdr_n (disk (dio r) (start l)) = 0 ∧
    ∀ b, ¬ in_log l b → view (dio r) b = new b.
Proof.
  intros R. destruct (initlog_spec _ _ _ _ _ R) as (r & E & Hn & I & G & _ & _ & Ho & Hc & Es & P & _ & Ed & V).
  exists r. rewrite Ed. split; [exact E|]. clear E.
  split_and!; [split; try done; by rewrite Es|by apply (apply_recovery_header _ _ dsz new)|].
  intros b Hb. rewrite V, Ed. by apply (apply_recovery _ _ dsz).
Qed.

(** [commit], called with the logged blocks pinned in the cache, is atomic
    with respect to crashes. *)
Lemma commit_recovers s bs :
  committable s bs → formatted (disk (dio s)) (lg s) (disksize (dio s)) →
  hdr_n (disk (dio s) (start (lg s))) = 0 → 1 ∉ bs →
  ∃ s' W, commit s = Done tt s' ∧ written (dio s') = written (dio s) ++ W ∧
    ∀ ws d, ws `prefix_of` W →
      rtc (crash_reboot (disksize (dio s))) (apply_writes (disk (dio s)) ws) d →
      ∃ r, initlog 1 (boot d (disksize (dio s))) = Done tt r ∧ quiescent r ∧
        ((ws ≠ W ∧ ∀ b, ¬ in_log (lg s) b → view (dio r) b = disk (dio s) b) ∨
         (∀ b, ¬ in_log (lg s) b → view (dio r) b = view (dio s) b)).
Proof.
  intros C F Hh H1. destruct (decide (bs = [])) as [->|Hbs].
  - destruct C as [I G T [Hn _] P _]. exists s, []. rewrite app_nil_r. split_and!; [|done|].
    { unfold commit. mgo. by rewrite Hn. }
    intros ws d ->%prefix_nil_inv Hr. cbn in Hr.
    assert (R : recoverable (disk (dio s)) (lg s) (disksize (dio s)) (disk (dio s)) []).
    { split; try done; [by apply disk_lists_nil|cbn; lia]. }
    destruct (reboots_recoverable _ _ _ _ _ _ R Hr) as (bs' & R').
    destruct (recovered _ _ _ _ _ R') as (r & E & ? & ? & V). exists r.
    split; [exact E|]. clear E. split_and!; [done..|right].
    intros b Hb. rewrite V by done. symmetry. apply idle_view; [done|]. rewrite P. apply not_elem_of_nil.
  - destruct (commit_spec s bs C Hbs) as (d' & E & _ & W). eexists _, _. split_and!; [done|apply W|].
    intros ws d Hp Hr. destruct (commit_crash s bs C F H1 ws Hh Hp) as (new & bs1 & R & Hnew).
    destruct (reboots_recoverable _ _ _ _ _ _ R Hr) as (bs2 & R').
    destruct (recovered _ _ _ _ _ R') as (r & E' & ? & ? & V). exists r.
    split; [exact E'|]. clear E'. split_and!; [done..|].
    destruct Hnew as [[? ->]| ->]; auto.
Qed.

(** ** Recording blocks *)

Lemma find_block_spec bs b k :
  (k <= length bs)%nat →
  let i := find_block bs b k in
  (i <= k)%nat ∧ (∀ j, (j < i)%nat → bs !!! j ≠ b) ∧ ((i < k)%nat → bs !!! i = b).
Proof.
  revert bs. induction k as [|k IH]; intros [|x bs] Hk; cbn -[lookup_total] in *; try lia; try by split_and!; lia.
  destruct (Z.eqb_spec x b) as [->|Hx]; [split_and!; [lia|intros; lia|done]|].
  destruct (IH bs ltac:(lia)) as (H1 & H2 & H3). split_and!; [lia| |].
  - intros [|j] Hj; [done|]. cbn. apply H2. lia.
  - intros Hj. cbn. apply H3. lia.
Qed.

(** The transaction after [log_write] of block [b]. *)
Definition record (b : Z) (bs : list Z) : list Z := if decide (b ∈ bs) then bs else bs ++ [b].

Lemma record_block_lists h bs b :
  lists h bs → (length bs < length (block h))%nat → lists (record_block b h) (record b bs).
Proof.
  intros [Hn Hb] Hlen. unfold record_block, record. rewrite Hn, Nat2Z.id.
  destruct (find_block_spec (block h) b (length bs) ltac:(lia)) as (H1 & H2 & H3).
  set (i := find_block (block h) b (length bs)) in *.
  destruct (decide (b ∈ bs)) as [Hin|Hin].
  - assert (Hi : (i < length bs)%nat).
    { apply list_elem_of_lookup in Hin as [j Hj]. pose proof (lookup_lt_Some _ _ _ Hj).
      destruct (decide (i < length bs)%nat); [done|]. exfalso. apply (H2 j); [lia|].
      rewrite Hb by done. by apply list_lookup_total_correct. }
    destruct (Z.eqb_spec (Z.of_nat i) (Z.of_nat (length bs))); [lia|]. split; cbn; [done|].
    intros j Hj. destruct (decide (i = j)) as [<-|Hne].
    + rewrite lt_insert_eq by lia. rewrite <-Hb, H3; done.
    + rewrite lt_insert_ne by done. by apply Hb.
  - assert (Hi : i = length bs).
    { destruct (decide (i < length bs)%nat); [|lia]. destruct Hin. rewrite <-(H3 ltac:(done)), Hb by done.
      by apply bs_elem. }
    rewrite Hi, Z.eqb_refl. split; cbn; [rewrite length_app; cbn; lia|].
    rewrite length_app. cbn. intros j Hj. destruct (decide (j = length bs)) as [->|Hne].
    + rewrite lt_insert_eq by lia. by rewrite lookup_total_app_r, Nat.sub_diag by lia.
    + rewrite lt_insert_ne by done. rewrite lookup_total_app_l by lia. apply Hb. lia.
Qed.

Lemma record_elem b b' bs : b' ∈ record b bs ↔ b' ∈ bs ∨ b' = b.
Proof.
  unfold record. destruct (decide (b ∈ bs)); [naive_solver|]. rewrite elem_of_app, list_elem_of_singleton. done.
Qed.

Lemma record_tx l dsz bs b :
  tx_blocks l dsz bs → 0 <= b < dsz → ¬ in_log l b → Z.of_nat (length bs) < size l - 1 →
  (length bs < LOGSIZE)%nat → tx_blocks l dsz (record b bs).
Proof.
  intros [H1 H2 H3 H4] Hb Hl Hf Hs. unfold record. destruct (decide (b ∈ bs)); [by split|].
  split; try (rewrite length_app; cbn; lia).
  - apply NoDup_app. split_and!; [done|set_solver|]. apply NoDup_singleton.
  - intros b' [?| ->%list_elem_of_singleton]%elem_of_app; auto.
Qed.

(** Only the header differs. *)
Definition same_log (l l' : log) : Prop := l' = set_lh (lh l') l.

Lemma same_log_trans l1 l2 l3 : same_log l1 l2 → same_log l2 l3 → same_log l1 l3.
Proof. unfold same_log. intros -> ->. done. Qed.

(** The log between the operations of a transaction: the header lists the
    pinned blocks.  Buffers may be locked. *)
Record log_ok (s : lst) (bs : list Z) : Prop := {
  lo_cache : cache_ok (dio s);
  lo_geom : geometry (lg s) (disksize (dio s));
  lo_tx : tx_blocks (lg s) (disksize (dio s)) bs;
  lo_lists : lists (lh (lg s)) bs;
  lo_pins : ∀ b, pinned (dio s) b ↔ b ∈ bs;
}.

Lemma log_write_spec s bs i b d :
  log_ok s bs → holds (dio s) i b d → 1 <= outstanding (lg s) → ¬ in_log (lg s) b →
  (length bs < LOGSIZE)%nat → Z.of_nat (length bs) < size (lg s) - 1 →
  ∃ s', log_write i s = Done tt s' ∧ log_ok s' (record b bs) ∧ holds (dio s') i b d ∧
    same_log (lg s) (lg s') ∧
    disk (dio s') = disk (dio s) ∧ disksize (dio s') = disksize (dio s) ∧
    written (dio s') = written (dio s) ∧ (∀ b', view (dio s') b' = view (dio s) b') ∧
    dirty (bufs (dio s') i) = true ∧ (∀ j, j ≠ i → bufs (dio s') j = bufs (dio s) j).
Proof.
  intros [I G T H P] Hh Ho Hl Hn Hs. destruct (holds_inv _ _ _ _ I Hh) as (_ & Hr & _).
  destruct (mark_dirty_spec _ _ _ _ I Hh) as (d' & E & I' & H' & Ek & Es & Ew & _ & V & P' & D & J).
  assert (Hbn : blockno (bufs (dio s) i) = b) by apply Hh.
  exists (mkLst d' (set_lh (record_block b (lh (lg s))) (lg s))). split_and!; try done; cbn [dio lg].
  - unfold log_write. mgo. rewrite (li_n _ _ H). destruct (Z.leb_spec (Z.of_nat LOGSIZE) (Z.of_nat (length bs))); [lia|].
    destruct (Z.leb_spec (size (lg s) - 1) (Z.of_nat (length bs))); [lia|]. cbn [orb].
    destruct (Z.ltb_spec (outstanding (lg s)) 1); [lia|]. iostep. mgo. cbn [dio set_dio set_lg].
    erewrite io_Done by (cbn; eassumption). by rewrite Hbn.
  - split; cbn [dio lg]; rewrite ?Es; try done.
    + destruct G. split; try done. cbn. by rewrite length_insert.
    + destruct (record_tx _ _ _ b T); try done; lia.
    + apply record_block_lists; [done|]. rewrite (g_len _ _ G). done.
    + intros b'. by rewrite P', P, record_elem.
Qed.

(** The use of [log_write] its comment describes: read the block, modify it,
    log it, release it. *)
Definition logged_update (b : Z) (f : list Z → list Z) : M lst unit :=
  i ← io_ (bread 1 b);
  io_ (x ← buf_at i; upd_buf i (set_data (f (data x))));;
  log_write i;;
  io_ (brelse i).

Lemma logged_update_spec s bs b f :
  idle (dio s) → log_ok s bs → 1 <= outstanding (lg s) → 0 <= b < disksize (dio s) → ¬ in_log (lg s) b →
  (length bs < LOGSIZE)%nat → Z.of_nat (length bs) < size (lg s) - 1 →
  (∀ x, length x = BSIZE → length (f x) = BSIZE) →
  ∃ s', logged_update b f s = Done tt s' ∧ idle (dio s') ∧ log_ok s' (record b bs) ∧
    same_log (lg s) (lg s') ∧
    disk (dio s') = disk (dio s) ∧ disksize (dio s') = disksize (dio s) ∧ written (dio s') = written (dio s) ∧
    (∀ b', view (dio s') b' = if decide (b' = b) then f (view (dio s) b) else view (dio s) b').
Proof.
  intros [I Q] [_ G T H P] Ho Hb Hl Hn Hs Hf.
  pose proof (in_use_pinned (dio s) bs (conj I Q) (λ b, proj1 (P b))) as Hu.
  assert (Hav : available (dio s)) by (apply in_use_available; unfold NBUF, LOGSIZE in *; lia).
  destruct (bread_spec (dio s) b) as (i & d1 & E1 & I1 & H1 & U1 & _ & J1 & _); [done..|auto|by right|].
  destruct (store_spec d1 i b (view (dio s) b) (f (view (dio s) b)))
    as (d2 & E2 & I2 & H2 & Ek2 & Es2 & Ew2 & _ & V2 & P2 & _ & J2); [done..|by apply Hf, length_view|].
  rewrite (un_size _ _ U1) in Es2.
  destruct (log_write_spec (set_dio d2 s) bs i b (f (view (dio s) b)))
    as (s3 & E3 & L3 & H3 & SL3 & Ek3 & Es3 & Ew3 & V3 & D3 & J3); try done; cbn [dio lg set_dio] in *.
  { split; cbn [dio lg set_dio]; rewrite ?Es2; try done. intros b'. by rewrite P2, (un_pinned _ _ U1). }
  destruct (brelse_spec (dio s3) i b _ (lo_cache _ _ L3) H3 (or_introl D3)) as (d4 & E4 & I4 & U4 & _ & B4 & _ & P4 & _).
  exists (set_dio d4 s3). split_and!; try done; cbn [dio lg set_dio].
  - unfold logged_update. iostep. erewrite bind_Done; [|eapply io_Done; cbn; erewrite bind_Done by reflexivity;
      destruct H1 as (_ & _ & ->); exact E2]. rewrite (bind_Done _ _ _ _ _ E3). by erewrite io_Done.
  - split; [done|]. intros k Hk. destruct (decide (k = i)) as [->|Hki]; [done|].
    unfold busy in *. rewrite (proj1 (payload_fields _ _ (P4 k Hki))), J3, J2, J1 by done. by apply Q.
  - destruct L3 as [? G3 T3 ? P3]. split; cbn [dio lg set_dio]; rewrite ?(un_size _ _ U4); try done.
    intros b'. by rewrite (un_pinned _ _ U4).
  - by rewrite (un_disk _ _ U4), Ek3, Ek2, (un_disk _ _ U1).
  - by rewrite (un_size _ _ U4), Es3, Es2.
  - by rewrite (un_written _ _ U4), Ew3, Ew2, (un_written _ _ U1).
  - intros b'. rewrite (un_view _ _ U4), V3, V2. destruct (decide (b' = b)); [done|]. apply (un_view _ _ U1).
Qed.

(** ** Whole transactions *)

Definition updates (ups : list (Z * (list Z → list Z))) : M lst unit :=
  iter_each ups (λ '(b, f), logged_update b f).

(** A file-system operation that updates some blocks under the log. *)
Definition transaction (ups : list (Z * (list Z → list Z))) : M lst unit :=
  begin_op;; updates ups;; end_op.

Definition apply_updates (v : Z → list Z) (ups : list (Z * (list Z → list Z))) : Z → list Z :=
  foldl (λ v '(b, f), <[b := f (v b)]> v) v ups.

(** Updates a transaction may make. *)
Definition updates_ok (l : log) (dsz : Z) (ups : list (Z * (list Z → list Z))) : Prop :=
  ∀ b f, (b, f) ∈ ups → 0 <= b < dsz ∧ ¬ in_log l b ∧ (∀ x, length x = BSIZE → length (f x) = BSIZE).

Lemma apply_updates_ext v v' ups : (∀ b, v b = v' b) → ∀ b, apply_updates v ups b = apply_updates v' ups b.
Proof.
  revert v v'. induction ups as [|[b0 f] ups IH]; intros v v' H b; [apply H|]. cbn. apply IH. intros b'.
  unfold insert, fn_insert. case_decide; by rewrite H.
Qed.

Lemma apply_updates_other v ups b : b ∉ ups.*1 → apply_updates v ups b = v b.
Proof.
  revert v. induction ups as [|[b0 f] ups IH]; intros v H; [done|]. cbn in *.
  apply not_elem_of_cons in H as [? ?]. rewrite IH by done. by rewrite fn_lookup_insert_ne.
Qed.

Lemma length_record b bs : (length (record b bs) <= S (length bs))%nat.
Proof. unfold record. case_decide; [lia|]. rewrite length_app. cbn. lia. Qed.

Lemma updates_spec ups : ∀ s bs,
  idle (dio s) → log_ok s bs → 1 <= outstanding (lg s) → updates_ok (lg s) (disksize (dio s)) ups →
  (length bs + length ups <= LOGSIZE)%nat → Z.of_nat (length bs) + Z.of_nat (length ups) <= size (lg s) - 1 →
  ∃ s' bs', updates ups s = Done tt s' ∧ idle (dio s') ∧ log_ok s' bs' ∧
    (length bs' <= length bs + length ups)%nat ∧ (∀ b, b ∈ bs' ↔ b ∈ bs ∨ b ∈ ups.*1) ∧
    same_log (lg s) (lg s') ∧
    disk (dio s') = disk (dio s) ∧ disksize (dio s') = disksize (dio s) ∧ written (dio s') = written (dio s) ∧
    (∀ b, view (dio s') b = apply_updates (view (dio s)) ups b).
Proof.
  induction ups as [|[b f] ups IH]; intros s bs I L Ho Hu Hlen Hsz; cbn [length] in *.
  - exists s, bs. split_and!; try done; [lia|set_solver|by destruct (lg s)].
  - destruct (Hu b f) as (Hb & Hl & Hf); [set_solver|].
    destruct (logged_update_spec s bs b f)
      as (s1 & E1 & I1 & L1 & SL1 & Ek1 & Ed1 & Ew1 & V1); try done; [lia..|].
    pose proof (length_record b bs).
    assert (Ho1 : 1 <= outstanding (lg s1)) by (by rewrite SL1).
    assert (Hs1 : size (lg s1) = size (lg s)) by (by rewrite SL1).
    destruct (IH s1 (record b bs)) as (s2 & bs' & E2 & I2 & L2 & Hl2 & Hin & SL2 & Ek & Ed & Ew & V); try done; try lia.
    { intros b' f' Hin. rewrite SL1, Ed1. apply Hu. set_solver. }
    exists s2, bs'. split_and!; try congruence; try done; try lia.
    + cbn [updates iter_each]. by rewrite (bind_Done _ _ _ _ _ E1).
    + intros b'. rewrite Hin, record_elem. set_solver.
    + by eapply same_log_trans.
    + intros b'. rewrite V. cbn. apply apply_updates_ext. intros b''. rewrite V1.
      unfold insert, fn_insert. destruct (decide (b'' = b)), (decide (b = b'')); by subst.
Qed.

(** Writes that store what a block already holds change nothing. *)
Lemma apply_writes_same d ws b : (∀ x, (b, x) ∈ ws → x = d b) → apply_writes d ws b = d b.
Proof.
  revert d. induction ws as [|[b' x] ws IH]; intros d H; [done|]. cbn.
  assert (E : (<[b' := x]> d : Z → list Z) b = d b).
  { unfold insert, fn_insert. case_decide; [subst|done]. apply H. set_solver. }
  rewrite IH, E; [done|]. intros y Hy. rewrite E. apply H. set_solver.
Qed.

Lemma commit_effect s bs :
  committable s bs →
  ∃ d, commit s = Done tt (mkLst d (set_n 0 (lg s))) ∧ idle d ∧ disksize d = disksize (dio s) ∧
    (∀ b, ¬ pinned d b) ∧ (∀ b, ¬ in_log (lg s) b → view d b = view (dio s) b).
Proof.
  intros C. pose proof C as [I G T H P _]. destruct (decide (bs = [])) as [->|Hbs].
  - exists (dio s). split_and!; try done; [|intros b Hb%P; set_solver].
    unfold commit. mgo. rewrite (li_n _ _ H). cbn. destruct H as [Hn _], s as [? [? ? ? ? ? [? ?]]]. cbn in *. by subst.
  - destruct (commit_spec _ bs C Hbs) as (d & E & I' & W).
    exists d. split_and!; try done; [by apply W| |].
    + intros b [Hb%P Hn]%(wa_pinned _ _ _ W). destruct Hn. unfold commit_writes.
      rewrite fmap_app, fmap_cons, fmap_app, <-list_fmap_compose.
      rewrite elem_of_app, elem_of_cons, elem_of_app. right; right; left. apply list_elem_of_fmap. by exists b.
    + intros b Hb. rewrite (wa_view _ _ _ W). apply apply_writes_same. intros x.
      assert (Hst : b ≠ start (lg s)) by (intros ->; apply Hb; destruct G; unfold in_log; lia).
      unfold commit_writes. rewrite elem_of_app, elem_of_cons, elem_of_app, list_elem_of_singleton.
      intros [Hin|[?|[Hin|?]]]; simplify_eq.
      * destruct (home_not_copied _ _ (view (dio s)) _ b T); [by right|]. by apply (list_elem_of_fmap_2 fst) in Hin.
      * apply list_elem_of_fmap in Hin as (b' & ? & _). by simplify_eq.
Qed.

(** The state in which the last [end_op] calls [commit]. *)
Definition committing_state (s : lst) : lst :=
  mkLst (dio s) (set_committing 1 (set_outstanding 0 (lg s))).

Lemma end_op_last s :
  outstanding (lg s) = 1 → committing (lg s) = 0 → end_op s = (commit;; end_op_leave) (committing_state s).
Proof.
  intros Ho Hm. unfold end_op, end_op_enter. erewrite bind_Done; [|mgo; mgo; cbn; rewrite Hm, Ho; reflexivity].
  done.
Qed.

Lemma committable_intro s bs :
  idle (dio s) → log_ok s bs → (length bs < NBUF)%nat → committable (committing_state s) bs.
Proof. intros I [_ G T H P] C. split; try done; [by destruct G|by destruct T]. Qed.

Lemma end_op_spec s bs :
  idle (dio s) → log_ok s bs → (length bs < NBUF)%nat → outstanding (lg s) = 1 → committing (lg s) = 0 →
  ∃ d s', commit (committing_state s) = Done tt d ∧ end_op s = Done tt s' ∧ quiescent s' ∧
    start (lg s') = start (lg s) ∧ size (lg s') = size (lg s) ∧ written (dio s') = written (dio d) ∧
    disksize (dio s') = disksize (dio s) ∧
    (∀ b, ¬ in_log (lg s) b → view (dio s') b = view (dio s) b ∧ disk (dio s') b = view (dio s) b).
Proof.
  intros I L Hc Ho Hm. destruct (commit_effect _ _ (committable_intro s bs I L Hc)) as (d & E & I' & Es & P' & V).
  cbn [dio lg committing_state] in *. destruct L as [J G T H P].
  eexists _, _. split; [exact E|]. split.
  { rewrite end_op_last, (bind_Done _ _ _ _ _ E) by done. reflexivity. }
  cbn. split_and!; try done.
  - split; try done; cbn.
    + destruct I' as [[] ?]. by split; [split|].
    + rewrite Es. by destruct G.
  - intros b Hb. cbn. pose proof (V b Hb) as Hv. split; [exact Hv|]. rewrite <-Hv. symmetry. by apply idle_view.
Qed.

Lemma begin_op_spec s :
  quiescent s → ∃ s', begin_op s = Done tt s' ∧ dio s' = dio s ∧ lg s' = set_outstanding 1 (lg s) ∧ log_ok s' [].
Proof.
  intros [[I Q] G Hn P Ho Hc]. exists (set_lg (set_outstanding 1 (lg s)) s). split_and!; try done.
  - unfold begin_op. mgo. rewrite Hc, Hn, Ho. change (Z.of_nat LOGSIZE <? 0 + (0 + 1) * Z.of_nat MAXOPBLOCKS) with false.
    unfold upd_log, modify. cbn. by rewrite Ho.
  - split; cbn; try done; [by destruct G|apply tx_nil; apply G|split; cbn; [done|lia]|].
    intros b. split; [intros Hb; by destruct (P b)|set_solver].
Qed.

(** C1: Atomicity of file-system transactions.  Between operations, an
    operation that updates at most [MAXOPBLOCKS] blocks outside the log through
    [begin_op], [log_write] and [end_op] returns, and the disk then holds the
    updated contents.  If the machine stops after any number of the disk
    writes, and again after any number of the writes of any number of
    recoveries, the next boot's [initlog] returns with the log empty and the
    blocks outside the log all as before the operation or all as after it; an
    operation that issued all its writes is never lost. *)
Theorem transaction_atomic s ups :
  quiescent s → formatted (disk (dio s)) (lg s) (disksize (dio s)) →
  hdr_n (disk (dio s) (start (lg s))) = 0 → updates_ok (lg s) (disksize (dio s)) ups →
  (length ups <= MAXOPBLOCKS)%nat → Z.of_nat (length ups) < size (lg s) → 1 ∉ ups.*1 →
  let new := apply_updates (disk (dio s)) ups in
  ∃ s' W, transaction ups s = Done tt s' ∧ quiescent s' ∧ written (dio s') = written (dio s) ++ W ∧
    (∀ b, ¬ in_log (lg s) b → disk (dio s') b = new b) ∧
    ∀ ws d, ws `prefix_of` W →
      rtc (crash_reboot (disksize (dio s))) (apply_writes (disk (dio s)) ws) d →
      ∃ r, initlog 1 (boot d (disksize (dio s))) = Done tt r ∧ quiescent r ∧
        ((ws ≠ W ∧ ∀ b, ¬ in_log (lg s) b → view (dio r) b = disk (dio s) b) ∨
         (∀ b, ¬ in_log (lg s) b → view (dio r) b = new b)).
Proof.
  intros Q F Hh Hu Hlen Hsz H1 new. destruct (begin_op_spec s Q) as (s1 & E1 & Ed1 & El1 & L1).
  assert (Hcap : (MAXOPBLOCKS < NBUF)%nat ∧ (MAXOPBLOCKS <= LOGSIZE)%nat) by (unfold NBUF, LOGSIZE, MAXOPBLOCKS; lia).
  destruct (updates_spec ups s1 []) as (s2 & bs & E2 & I2 & L2 & Hbs & Hin & SL2 & Ek & Es & Ew & V);
    rewrite ?Ed1, ?El1 in *; try done; cbn [length size set_outstanding] in *; try lia; [apply Q|].
  assert (Hc2 : committing (lg s2) = 0).
  { by rewrite SL2; apply Q. }
  assert (V' : ∀ b, view (dio s2) b = new b).
  { intros b. rewrite V. apply apply_updates_ext. intros b'. apply idle_view; apply Q. }
  destruct (end_op_spec s2 bs) as (d3 & s3 & E3 & E4 & Q3 & _ & _ & Ew3 & Es3 & V3); try done; [lia|by rewrite SL2|].
  assert (El : start (lg s2) = start (lg s) ∧ ∀ b, in_log (lg s2) b ↔ in_log (lg s) b) by (by rewrite SL2).
  destruct El as [Est Hlog].
  destruct (commit_recovers (committing_state s2) bs) as (d3' & W & E3' & EW & HW);
    cbn [dio lg committing_state] in *; rewrite ?Ek, ?Es in *.
  { apply committable_intro; try done. lia. }
  { destruct F as [_ F1 F2 F3]. split; try done; cbn; [|by rewrite SL2..].
    pose proof (lo_geom _ _ L2) as []. rewrite <-Es. by split. }
  { cbn. by rewrite Est. }
  { rewrite Hin. set_solver. }
  rewrite E3 in E3'. injection E3' as <-.
  exists s3, W. split_and!; try done.
  - unfold transaction. by rewrite (bind_Done _ _ _ _ _ E1), (bind_Done _ _ _ _ _ E2).
  - by rewrite Ew3, EW, Ew.
  - intros b Hb. rewrite <-V'. apply V3. by rewrite Hlog.
  - intros ws d Hp Hr. destruct (HW ws d Hp Hr) as (r & Er & Qr & Hor). exists r. split; [exact Er|].
    split; [done|]. clear Er. destruct Hor as [[Hne Hv]|Hv]; [left; split; [done|]|right]; intros b Hb; rewrite Hv; auto.
    + intros Hx. by apply Hb, Hlog.
    + intros Hx. by apply Hb, Hlog.
Qed.

(** A formatted disk of 40 blocks whose log is blocks 2 to 13. *)
Definition wit_disk : Z → list Z := λ b,
  if b =? 1 then put32 (put32 (replicate BSIZE 0) 12 12) 16 2 else replicate BSIZE 0.
Definition wit_log : log := mkLog 2 12 0 0 1 (lh zero_log).

Lemma wit_formatted : formatted wit_disk wit_log 40.
Proof.
  split; [by split|done|by split; [lia|unfold in_log; cbn; lia]|].
  intros b _. unfold wit_disk. by destruct (b =? 1).
Qed.

Lemma wit_quiescent : quiescent (mkLst (dio (boot wit_disk 40)) wit_log).
Proof.
  destruct (boot_spec wit_disk 40) as (I & P & _ & _ & Es & _); [apply wit_formatted|].
  split; cbn [dio lg]; [exact I|rewrite Es; apply wit_formatted|reflexivity|exact P|reflexivity|reflexivity].
Qed.

Lemma transaction_atomic_witness :
  let s := mkLst (dio (boot wit_disk 40)) wit_log in
  ∃ s', transaction [(20, <[0%nat := 7]>); (30, <[1%nat := 8]>); (20, <[2%nat := 9]>)] s = Done tt s' ∧
    disk (dio s') 20 = <[2%nat := 9]> (<[0%nat := 7]> (replicate BSIZE 0)).
Proof.
  destruct (boot_spec wit_disk 40) as (I & P & V & Ed & Es & Ew); [apply wit_formatted|].
  destruct (transaction_atomic (mkLst (dio (boot wit_disk 40)) wit_log)
    [(20, <[0%nat := 7]>); (30, <[1%nat := 8]>); (20, <[2%nat := 9]>)]) as (s' & W & E & _ & _ & Hd & _).
  - exact wit_quiescent.
  - cbn [dio lg]. rewrite Es, Ed. exact wit_formatted.
  - cbn [dio lg]. rewrite Ed. reflexivity.
  - cbn [dio lg]. rewrite Es. clear. intros b f Hin.
    repeat (apply elem_of_cons in Hin as [Hin|Hin]; [injection Hin as -> ->|]); [..|by apply not_elem_of_nil in Hin];
      (split; [lia|split; [unfold in_log; cbn; lia|]]); intros x Hx; by rewrite length_insert.
  - cbn. unfold MAXOPBLOCKS. lia.
  - cbn. lia.
  - cbn. clear. rewrite !not_elem_of_cons. split_and!; [lia..|apply not_elem_of_nil].
  - exists s'. split; [exact E|]. rewrite Hd by (unfold in_log; cbn; lia). cbn [dio]. rewrite Ed. reflexivity.
Defined.

(** ** Reservations

    Any number of operations run concurrently, each making at most
    [MAXOPBLOCKS] calls to [log_write]; [begin_op] admits them, the last
    [end_op] commits.  The steps are the lock-protected parts of the routines,
    interleaved in any order; between them the cache may change in any way. *)
Inductive phase := Running | MustCommit | MustLeave.

(** The log, the number of blocks each operation has logged, and what the
    process that saw the last [end_op] has left to do. *)
Record ops := mkOps {
  ost : lst;
  used : list nat;
  ph : phase;
}.

Inductive op_step : ops → ops → Prop :=
  | op_begin s s' us :
      begin_op s = Done tt s' → ∀ p, op_step (mkOps s us p) (mkOps s' (0%nat :: us) p)
  | op_write s s' us1 us2 u i p :
      (u < MAXOPBLOCKS)%nat → log_write i s = Done tt s' →
      op_step (mkOps s (us1 ++ u :: us2) p) (mkOps s' (us1 ++ S u :: us2) p)
  | op_end s s' us1 us2 u c p :
      end_op_enter s = Done c s' →
      op_step (mkOps s (us1 ++ u :: us2) p) (mkOps s' (us1 ++ us2) (if c : bool then MustCommit else p))
  | op_commit s s' us :
      commit s = Done tt s' → op_step (mkOps s us MustCommit) (mkOps s' us MustLeave)
  | op_leave s s' us :
      end_op_leave s = Done tt s' → op_step (mkOps s us MustLeave) (mkOps s' us Running)
  | op_cache s d us p : op_step (mkOps s us p) (mkOps (set_dio d s) us p).

Definition reserved (us : list nat) : Z := foldr (λ u z, Z.of_nat MAXOPBLOCKS - Z.of_nat u + z) 0 us.

Record ops_ok (o : ops) : Prop := {
  oo_n : 0 <= n (lh (lg (ost o)));
  oo_reserved : n (lh (lg (ost o))) + reserved (used o) <= Z.of_nat LOGSIZE;
  oo_used : Forall (λ u, (u <= MAXOPBLOCKS)%nat) (used o);
  oo_outstanding : outstanding (lg (ost o)) = Z.of_nat (length (used o));
  oo_phase : match ph o with
             | Running => committing (lg (ost o)) = 0
             | MustCommit => committing (lg (ost o)) = 1 ∧ used o = []
             | MustLeave => committing (lg (ost o)) = 1 ∧ used o = [] ∧ n (lh (lg (ost o))) = 0
             end;
}.

Lemma reserved_cons u us : reserved (u :: us) = Z.of_nat MAXOPBLOCKS - Z.of_nat u + reserved us.
Proof. done. Qed.

Lemma reserved_app us1 us2 : reserved (us1 ++ us2) = reserved us1 + reserved us2.
Proof. induction us1 as [|u us1 IH]; [done|]. cbn [app]. rewrite !reserved_cons, IH. lia. Qed.

Lemma reserved_nonneg us : Forall (λ u, (u <= MAXOPBLOCKS)%nat) us → 0 <= reserved us.
Proof. induction 1; [done|]. rewrite reserved_cons. lia. Qed.

(** A routine that leaves the in-memory log alone. *)
Definition keeps {A} (m : M lst A) : Prop := ∀ s a s', m s = Done a s' → lg s' = lg s.

Lemma keeps_io {A} (m : M io A) : keeps (io_ m).
Proof. intros s a s'. unfold io_, lift. destruct (m (dio s)); intros [= _ <-]; done. Qed.

Lemma keeps_gets {A} (f : lst → A) : keeps (gets f).
Proof. by intros s a s' [= _ <-]. Qed.

Lemma keeps_ret {A} (x : A) : keeps (mret x).
Proof. by intros s a s' [= _ <-]. Qed.

Lemma keeps_bind {A B} (m : M lst A) (k : A → M lst B) : keeps m → (∀ a, keeps (k a)) → keeps (m ≫= k).
Proof. intros Hm Hk s b s' (a & s1 & E1 & E2)%bind_Done_inv. rewrite (Hk _ _ _ _ E2). by apply (Hm _ _ _ E1). Qed.

Lemma keeps_iter {A} (l : list A) (body : A → M lst unit) : (∀ x, keeps (body x)) → keeps (iter_each l body).
Proof. intros H. induction l as [|x l IH]; [apply keeps_ret|]. by apply keeps_bind. Qed.

Create HintDb keeps.
#[local] Hint Resolve keeps_io keeps_gets keeps_ret keeps_bind keeps_iter : keeps.

Lemma keeps_write_log : keeps write_log.
Proof. unfold write_log, write_log_one. eauto 20 with keeps. Qed.
Lemma keeps_install : keeps install_trans.
Proof. unfold install_trans, install_one. eauto 20 with keeps. Qed.
Lemma keeps_write_head : keeps write_head.
Proof. unfold write_head. eauto 20 with keeps. Qed.

Lemma commit_log s s' : commit s = Done tt s' → lg s' = if 0 <? n (lh (lg s)) then set_n 0 (lg s) else lg s.
Proof.
  unfold commit. mgo. destruct (0 <? n (lh (lg s))); [|by intros [= <-]].
  intros (? & s1 & E1%keeps_write_log & (? & s2 & E2%keeps_write_head & (? & s3 & E3%keeps_install &
    (? & s4 & E4 & E5%keeps_write_head)%bind_Done_inv)%bind_Done_inv)%bind_Done_inv)%bind_Done_inv.
  injection E4 as _ <-. rewrite E5. cbn. by rewrite E3, E2, E1.
Qed.

Lemma begin_op_log s s' :
  begin_op s = Done tt s' →
  committing (lg s) = 0 ∧ n (lh (lg s)) + (outstanding (lg s) + 1) * Z.of_nat MAXOPBLOCKS <= Z.of_nat LOGSIZE ∧
  lg s' = set_outstanding (outstanding (lg s) + 1) (lg s).
Proof.
  unfold begin_op. mgo. destruct (Z.eqb_spec (committing (lg s)) 0); [|done]. cbn [negb].
  destruct (Z.ltb_spec (Z.of_nat LOGSIZE) (n (lh (lg s)) + (outstanding (lg s) + 1) * Z.of_nat MAXOPBLOCKS)); [done|].
  intros [= <-]. done.
Qed.

Lemma log_write_log i s s' :
  log_write i s = Done tt s' → ∃ b, lg s' = set_lh (record_block b (lh (lg s))) (lg s).
Proof.
  unfold log_write. mgo. destruct (_ || _); [done|]. destruct (_ <? _); [done|].
  intros (b & s1 & E1%keeps_io & (? & s2 & [= _ <-] & E3%keeps_io)%bind_Done_inv)%bind_Done_inv.
  exists (blockno b). rewrite E3. cbn. by rewrite E1.
Qed.

Lemma end_op_enter_log s c s' :
  end_op_enter s = Done c s' →
  committing (lg s) = 0 ∧ c = (outstanding (lg s) =? 1) ∧
  lg s' = (if c then set_committing 1 else id) (set_outstanding (outstanding (lg s) - 1) (lg s)).
Proof.
  unfold end_op_enter. mgo. mgo. cbn [lg set_lg committing outstanding set_outstanding].
  destruct (Z.eqb_spec (committing (lg s)) 0); [|done]. cbn [negb].
  replace (outstanding (lg s) - 1 =? 0) with (outstanding (lg s) =? 1) by lia.
  destruct (outstanding (lg s) =? 1).
  - by intros [= <- <-].
  - intros (? & s1 & E1%keeps_io & [= <- <-])%bind_Done_inv. by rewrite E1.
Qed.

Lemma record_block_n b h : n h <= n (record_block b h) <= n h + 1.
Proof. unfold record_block. cbn. destruct (_ =? _); lia. Qed.

Lemma reserved_bound us : reserved us <= Z.of_nat (length us) * Z.of_nat MAXOPBLOCKS.
Proof. induction us as [|u us IH]; [done|]. rewrite reserved_cons. cbn [length]. lia. Qed.

(** The fields of the log after one of its routines. *)
Ltac logcbn := cbn [ost used ph lg lh n block size outstanding committing set_lh set_n set_outstanding set_committing] in *.

Lemma begin_ok s s' us p :
  begin_op s = Done tt s' → ops_ok (mkOps s us p) → ops_ok (mkOps s' (0%nat :: us) p).
Proof.
  intros (Hc & Hroom & El)%begin_op_log [Hn Hr Hu Ho Hp]. logcbn.
  assert (p = Running) as -> by (destruct p; naive_solver lia).
  pose proof (reserved_bound us).
  split; logcbn; rewrite ?El; logcbn; try done; [rewrite reserved_cons; lia|constructor; [lia|done]|].
  rewrite Ho. cbn. lia.
Qed.

Lemma write_ok s s' us1 us2 u i p :
  (u < MAXOPBLOCKS)%nat → log_write i s = Done tt s' →
  ops_ok (mkOps s (us1 ++ u :: us2) p) → ops_ok (mkOps s' (us1 ++ S u :: us2) p).
Proof.
  intros Hlt (b & El)%log_write_log [Hn Hr Hu Ho Hp]. logcbn.
  pose proof (record_block_n b (lh (lg s))) as Hb. apply Forall_app in Hu as [Hu1 [Hu0 Hu2]%Forall_cons].
  rewrite reserved_app, reserved_cons, length_app in *. cbn [length] in *.
  split; logcbn; rewrite ?El; logcbn; try lia.
  - rewrite reserved_app, reserved_cons. lia.
  - apply Forall_app. split; [done|]. constructor; [lia|done].
  - rewrite length_app. cbn. lia.
  - destruct p; [done|..]; destruct us1; naive_solver.
Qed.

Lemma end_ok s s' us1 us2 u c p :
  end_op_enter s = Done c s' →
  ops_ok (mkOps s (us1 ++ u :: us2) p) → ops_ok (mkOps s' (us1 ++ us2) (if c then MustCommit else p)).
Proof.
  intros (Hc & -> & El)%end_op_enter_log [Hn Hr Hu Ho Hp]. logcbn.
  assert (p = Running) as -> by (destruct p; naive_solver lia).
  apply Forall_app in Hu as [Hu1 [Hu0 Hu2]%Forall_cons].
  pose proof (reserved_nonneg _ Hu1). pose proof (reserved_nonneg _ Hu2).
  rewrite reserved_app, reserved_cons, length_app in *. cbn [length] in *.
  assert (HF : Forall (λ u, (u <= MAXOPBLOCKS)%nat) (us1 ++ us2)) by (by apply Forall_app).
  split; logcbn; rewrite ?El, ?reserved_app, ?length_app; try done;
    destruct (Z.eqb_spec (outstanding (lg s)) 1) as [E1|E1]; cbn in *; try lia.
  split; [done|]. apply length_zero_iff_nil. rewrite length_app. lia.
Qed.

Lemma commit_ok s s' us :
  commit s = Done tt s' → ops_ok (mkOps s us MustCommit) → ops_ok (mkOps s' us MustLeave).
Proof.
  intros El%commit_log [Hn Hr Hu Ho [Hc Hus]]. logcbn. subst us.
  destruct (Z.ltb_spec 0 (n (lh (lg s)))); split; logcbn; rewrite ?El; logcbn; try done; try lia;
    split_and!; done || lia.
Qed.

Lemma leave_ok s s' us :
  end_op_leave s = Done tt s' → ops_ok (mkOps s us MustLeave) → ops_ok (mkOps s' us Running).
Proof.
  intros H [Hn Hr Hu Ho (Hc & Hus & Hz)]. logcbn. unfold end_op_leave in H. minv H.
  apply keeps_io in H. injection H0 as _ <-. cbn in H.
  split; logcbn; rewrite ?H; logcbn; try done; lia.
Qed.

Lemma size_step o o' : op_step o o' → size (lg (ost o')) = size (lg (ost o)).
Proof.
  destruct 1; logcbn.
  - apply begin_op_log in H as (_ & _ & ->). done.
  - apply log_write_log in H0 as (b & ->). done.
  - apply end_op_enter_log in H as (_ & _ & ->). by destruct c.
  - apply commit_log in H as ->. by destruct (_ <? _).
  - unfold end_op_leave in H. minv H. apply keeps_io in H as ->. by injection H0 as _ <-.
  - done.
Qed.

Lemma ops_ok_step o o' : op_step o o' → ops_ok o → ops_ok o'.
Proof.
  destruct 1; eauto using begin_ok, write_ok, end_ok, commit_ok, leave_ok. by intros [].
Qed.

Lemma ops_ok_reachable o o' :
  rtc op_step o o' → ops_ok o → ops_ok o' ∧ size (lg (ost o')) = size (lg (ost o)).
Proof.
  induction 1 as [|o o1 o' Hs _ IH]; [done|]. intros Hk%(ops_ok_step _ _ Hs). rewrite <-(size_step _ _ Hs). auto.
Qed.

(** C5: Reservations suffice.  However concurrent operations interleave, as
    long as each makes at most [MAXOPBLOCKS] calls to [log_write], the number
    of logged blocks never exceeds [LOGSIZE]; an operation that still has calls
    left never panics in [log_write], provided the log on disk has room for
    [LOGSIZE] blocks and the header; and [end_op] never finds a commit in
    progress. *)
Theorem log_reservations s o :
  n (lh (lg s)) = 0 → outstanding (lg s) = 0 → committing (lg s) = 0 →
  rtc op_step (mkOps s [] Running) o →
  0 <= n (lh (lg (ost o))) <= Z.of_nat LOGSIZE ∧
  (∀ u i, u ∈ used o → (u < MAXOPBLOCKS)%nat → Z.of_nat LOGSIZE < size (lg s) →
     ∃ s', log_write i (ost o) = Done tt s') ∧
  (used o ≠ [] → ∃ c s', end_op_enter (ost o) = Done c s').
Proof.
  intros Hn Ho Hc Hr. destruct (ops_ok_reachable _ _ Hr) as [[Hn' Hres Hu Hout Hph] Hsz].
  { split; cbn; try done; lia. }
  cbn in Hsz. pose proof (reserved_nonneg _ Hu). split_and!; try lia.
  - intros u i Hin Hlt Hs. apply list_elem_of_split in Hin as (us1 & us2 & E). rewrite E in *.
    apply Forall_app in Hu as [Hu1%reserved_nonneg [_ Hu2%reserved_nonneg]%Forall_cons].
    rewrite reserved_app, reserved_cons, length_app in *. cbn [length] in *.
    unfold log_write. mgo. destruct (Z.leb_spec (Z.of_nat LOGSIZE) (n (lh (lg (ost o))))); [lia|].
    destruct (Z.leb_spec (size (lg (ost o)) - 1) (n (lh (lg (ost o))))); [lia|]. cbn [orb].
    destruct (Z.ltb_spec (outstanding (lg (ost o))) 1); [lia|]. eexists. reflexivity.
  - intros Hne. unfold end_op_enter. mgo. mgo. cbn [lg set_lg committing set_outstanding].
    destruct (ph o); [|naive_solver..]. rewrite Hph. cbn. destruct (_ =? _); eexists _, _; reflexivity.
Qed.

Lemma log_reservations_witness :
  let s := mkLst (zero_io (λ _, []) 0) (mkLog 2 31 0 0 1 (mkHdr 0 (replicate LOGSIZE 0))) in
  let s1 := state_of s (begin_op s) in
  let s2 := state_of s (begin_op s1) in
  ∃ s', log_write 0 s2 = Done tt s'.
Proof.
  intros s s1 s2. destruct (log_reservations s (mkOps s2 [0%nat; 0%nat] Running)) as (_ & H & _); try reflexivity.
  - apply (rtc_l _ _ (mkOps s1 [0%nat] Running)); [by apply op_begin|]. apply rtc_once. by apply op_begin.
  - apply (H 0%nat); [set_solver|unfold MAXOPBLOCKS; lia|unfold LOGSIZE, MAXOPBLOCKS; cbn; lia].
Defined.

(** The disk mkfs.c makes has a log of [LOGSIZE] blocks ([nlog = LOGSIZE]),
    one of them the header, while [begin_op] admits operations up to [LOGSIZE]
    data blocks: three operations that log their ten blocks each, as their
    reservations allow, make [log_write] panic at the thirtieth block. *)
Theorem mkfs_log_one_short :
  let bufs := λ i, mkBuf (Z.lor B_BUSY B_VALID) 1 (100 + Z.of_nat i) 0 0 (replicate BSIZE 0) in
  let s := mkLst (mkIo bufs (λ _, []) 1000 [] []) (mkLog 2 (Z.of_nat LOGSIZE) 0 0 1 (lh zero_log)) in
  (begin_op;; begin_op;; begin_op;; iter_each (seq 0 29) log_write) s ≠ Panic "too big a transaction" ∧
  (begin_op;; begin_op;; begin_op;; iter_each (seq 0 30) log_write) s = Panic "too big a transaction".
Proof. split; [by vm_compute|by vm_compute]. Qed.
