(* ===== verification/Console.v ===== *)
(** * Console and keyboard (console.c, kbd.c, kbd.h, uart.c)

    [cons] holds the screen (CGA memory and cursor register), the characters
    sent to the serial port, and the circular line buffer [input].  [printint]
    and [cprintf] are modelled with their arguments as a list.  The parts of
    [consoleread] and [consolewrite] that run under the console lock are here;
    the inode locking around them is in [Fs].  Local variables of
    [consoleread] that survive a sleep are part of its state. *)

From S2P Require Import Prelude Bio.
#[local] Open Scope Z_scope.

Definition BACKSPACE : Z := 256.
Definition INPUT_BUF : Z := 128.
Arguments INPUT_BUF : simpl never.

(** [C(x)]: Control-x. *)
Definition C (x : Z) : Z := x - 64.

Record cons := mkCons {
  locking : Z;
  panicked : Z;
  uart : Z;
  serial : list Z;
  crt : Z → Z;
  cursor : Z;
  ibuf : Z → Z;
  ir : Z;
  iw : Z;
  ie : Z;
  cwoken : list chan;
}.

Definition set_serial (x : list Z) (c : cons) : cons :=
  mkCons (locking c) (panicked c) (uart c) x (crt c) (cursor c) (ibuf c) (ir c) (iw c) (ie c) (cwoken c).
Definition set_crt (x : Z → Z) (c : cons) : cons :=
  mkCons (locking c) (panicked c) (uart c) (serial c) x (cursor c) (ibuf c) (ir c) (iw c) (ie c) (cwoken c).
Definition set_cursor (x : Z) (c : cons) : cons :=
  mkCons (locking c) (panicked c) (uart c) (serial c) (crt c) x (ibuf c) (ir c) (iw c) (ie c) (cwoken c).
Definition set_ibuf (x : Z → Z) (c : cons) : cons :=
  mkCons (locking c) (panicked c) (uart c) (serial c) (crt c) (cursor c) x (ir c) (iw c) (ie c) (cwoken c).
Definition set_ir (x : Z) (c : cons) : cons :=
  mkCons (locking c) (panicked c) (uart c) (serial c) (crt c) (cursor c) (ibuf c) x (iw c) (ie c) (cwoken c).
Definition set_iw (x : Z) (c : cons) : cons :=
  mkCons (locking c) (panicked c) (uart c) (serial c) (crt c) (cursor c) (ibuf c) (ir c) x (ie c) (cwoken c).
Definition set_ie (x : Z) (c : cons) : cons :=
  mkCons (locking c) (panicked c) (uart c) (serial c) (crt c) (cursor c) (ibuf c) (ir c) (iw c) x (cwoken c).
Definition cons_wakeup (x : chan) (c : cons) : cons :=
  mkCons (locking c) (panicked c) (uart c) (serial c) (crt c) (cursor c) (ibuf c) (ir c) (iw c) (ie c) (cwoken c ++ [x]).

Definition uartputc (ch : Z) : M cons unit :=
  c ← get;
  if uart c =? 0 then mret tt else modify (set_serial (serial c ++ [u8 ch])).

(** Cell [i] of the screen after [memmove(crt, crt+80, sizeof(crt[0])*23*80)]. *)
Definition scroll (f : Z → Z) : Z → Z := λ i, if (0 <=? i) && (i <? 23 * 80) then f (i + 80) else f i.
(** ... and after [memset(crt+pos, 0, sizeof(crt[0])*(24*80 - pos))]. *)
Definition blank (pos : Z) (f : Z → Z) : Z → Z := λ i, if (pos <=? i) && (i <? 24 * 80) then 0 else f i.

Definition cgaputc (ch : Z) : M cons unit :=
  c ← get;
  let pos := cursor c in
  pos ← (if ch =? 10 then mret (pos + (80 - pos mod 80))
         else if ch =? BACKSPACE then mret (if 0 <? pos then pos - 1 else pos)
         else modify (set_crt (<[pos := Z.lor (Z.land ch 255) 1792]> (crt c)));; mret (pos + 1));
  if (pos <? 0) || (25 * 80 <? pos) then panic "pos under/overflow" else
  pos ← (if 24 <=? pos / 80 then
           c ← get;
           modify (set_crt (blank (pos - 80) (scroll (crt c))));;
           mret (pos - 80)
         else mret pos);
  modify (set_cursor (u16 pos));;
  c ← get;
  modify (set_crt (<[pos := Z.lor 32 1792]> (crt c))).

Definition consputc (ch : Z) : M cons unit :=
  c ← get;
  if negb (panicked c =? 0) then out_of_fuel else
  (if ch =? BACKSPACE then uartputc 8;; uartputc 32;; uartputc 8 else uartputc ch);;
  cgaputc ch.

(** The digits of [x], least significant first: the [do ... while] loop. *)
Fixpoint digits_loop (fuel : nat) (x base : Z) : list Z :=
  match fuel with
  | O => []
  | S fuel' => x mod base :: (if x / base =? 0 then [] else digits_loop fuel' (x / base) base)
  end.

(** ["0123456789abcdef"[d]] *)
Definition digit (d : Z) : Z := if d <? 10 then 48 + d else 97 + (d - 10).

(** The characters of [buf], in the order they are printed. *)
Definition printint_chars (xx base : Z) (sign : bool) : list Z :=
  let neg := sign && (xx <? 0) in
  let x := u32 (if neg then - xx else xx) in
  (if neg then [45] else []) ++ reverse (digit <$> digits_loop 32 x base).

Definition printint (xx base : Z) (sign : bool) : M cons unit :=
  iter_each (printint_chars xx base sign) consputc.

(** An argument of [cprintf]: a word, or a string pointer, 0 for null. *)
Inductive carg :=
  | AInt (x : Z)
  | AStr (s : option (list Z)).

(** The next argument as an integer: the word itself. *)
Definition arg_int (args : list carg) : Z :=
  match args with AInt x :: _ => x | _ => 0 end.
Definition arg_str (args : list carg) : list Z :=
  match args with AStr (Some s) :: _ => s | _ => [40; 110; 117; 108; 108; 41] end.

Fixpoint cprintf (fmt : list Z) (args : list carg) : M cons unit :=
  match fmt with
  | [] => mret tt
  | c :: fmt' =>
      if negb (c =? 37) then consputc c;; cprintf fmt' args else
      match fmt' with
      | [] => mret tt
      | c :: fmt'' =>
          if c =? 100 then printint (s32 (arg_int args)) 10 true;; cprintf fmt'' (tail args)
          else if (c =? 120) || (c =? 112) then printint (s32 (arg_int args)) 16 false;; cprintf fmt'' (tail args)
          else if c =? 115 then iter_each (arg_str args) consputc;; cprintf fmt'' (tail args)
          else if c =? 37 then consputc 37;; cprintf fmt'' args
          else consputc 37;; consputc c;; cprintf fmt'' args
      end
  end.

(** The inner loop of Control-U; it stops after at most [INPUT_BUF] turns. *)
Fixpoint kill_line (fuel : nat) : M cons unit :=
  c ← get;
  if negb (ie c =? iw c) && negb (ibuf c (u32 (ie c - 1) mod INPUT_BUF) =? 10) then
    match fuel with
    | O => out_of_fuel
    | S fuel' =>
        modify (set_ie (u32 (ie c - 1)));;
        consputc BACKSPACE;;
        kill_line fuel'
    end
  else mret tt.

(** One character of [consoleintr]; returns whether it asks for [procdump].  The
    keyboard and the serial port give bytes, which [input.buf] keeps. *)
Definition consoleintr_one (ch : Z) : M cons bool :=
  if ch =? C 80 then mret true else
  if ch =? C 85 then kill_line (Z.to_nat INPUT_BUF);; mret false else
  if (ch =? C 72) || (ch =? 127) then
    c ← get;
    (if negb (ie c =? iw c) then modify (set_ie (u32 (ie c - 1)));; consputc BACKSPACE else mret tt);;
    mret false
  else
    c ← get;
    (if negb (ch =? 0) && (u32 (ie c - ir c) <? INPUT_BUF) then
       let ch := if ch =? 13 then 10 else ch in
       modify (set_ibuf (<[ie c mod INPUT_BUF := ch]> (ibuf c)));;
       modify (set_ie (u32 (ie c + 1)));;
       consputc ch;;
       c ← get;
       if (ch =? 10) || (ch =? C 68) || (ie c =? u32 (ir c + INPUT_BUF)) then
         modify (set_iw (ie c));;
         modify (cons_wakeup ChInput)
       else mret tt
     else mret tt);;
    mret false.

(** [getc] yields the characters [cs] and then -1. *)
Fixpoint consoleintr (cs : list Z) (doprocdump : bool) : M cons bool :=
  match cs with
  | [] => mret doprocdump
  | ch :: cs' => d ← consoleintr_one ch; consoleintr cs' (doprocdump || d)
  end.

(** [consoleread] between its [iunlock] and [ilock]: the state is the console
    with [n] and the characters stored so far; [target] is the requested
    count. *)
Record cread := mkCread {
  rcons : cons;
  rn : Z;
  rdst : list Z;
}.

Fixpoint consoleread_loop (fuel : nat) (killed : bool) (target : Z) : M cread Z :=
  s ← get;
  let c := rcons s in
  if rn s <=? 0 then mret (target - rn s) else
  if ir c =? iw c then if killed then mret (-1) else sleep_on ChInput else
  match fuel with
  | O => out_of_fuel
  | S fuel' =>
      let ch := ibuf c (ir c mod INPUT_BUF) in
      let c1 := set_ir (u32 (ir c + 1)) c in
      if ch =? C 68 then
        (if rn s <? target then put (mkCread (set_ir (u32 (ir c1 - 1)) c1) (rn s) (rdst s))
         else put (mkCread c1 (rn s) (rdst s)));;
        mret (target - rn s)
      else
        put (mkCread c1 (rn s - 1) (rdst s ++ [ch]));;
        if ch =? 10 then mret (target - (rn s - 1)) else
        consoleread_loop fuel' killed target
  end.

Definition consolewrite_chars (buf : list Z) : M cons unit := iter_each (map (λ c, Z.land c 255) buf) consputc.

(** ** The keyboard *)

Definition KEY_CTL : Z := 2.
Definition KEY_SHIFT : Z := 1.
Definition KEY_ALT : Z := 4.
Definition CAPSLOCK : Z := 8.
Definition NUMLOCK : Z := 16.
Definition SCROLLLOCK : Z := 32.
Definition E0ESC : Z := 64.

Definition shiftcode (d : Z) : Z :=
  if d =? 29 then KEY_CTL else if d =? 42 then KEY_SHIFT else if d =? 54 then KEY_SHIFT
  else if d =? 56 then KEY_ALT else if d =? 157 then KEY_CTL else if d =? 184 then KEY_ALT else 0.

Definition togglecode (d : Z) : Z :=
  if d =? 58 then CAPSLOCK else if d =? 69 then NUMLOCK else if d =? 70 then SCROLLLOCK else 0.

(** The keypad and cursor keys, the same in the three maps. *)
Definition special (enter div d : Z) : Z :=
  if d =? 156 then enter else if d =? 181 then div
  else if d =? 200 then 226 else if d =? 208 then 227
  else if d =? 201 then 230 else if d =? 209 then 231
  else if d =? 203 then 228 else if d =? 205 then 229
  else if d =? 151 then 224 else if d =? 207 then 225
  else if d =? 210 then 232 else if d =? 211 then 233 else 0.

Definition normal_keys : list Z :=
  [ 0; 27; 49; 50; 51; 52; 53; 54;  55; 56; 57; 48; 45; 61; 8; 9;
    113; 119; 101; 114; 116; 121; 117; 105;  111; 112; 91; 93; 10; 0; 97; 115;
    100; 102; 103; 104; 106; 107; 108; 59;  39; 96; 0; 92; 122; 120; 99; 118;
    98; 110; 109; 44; 46; 47; 0; 42;  0; 32; 0; 0; 0; 0; 0; 0;
    0; 0; 0; 0; 0; 0; 0; 55;  56; 57; 45; 52; 53; 54; 43; 49;
    50; 51; 48; 46; 0; 0; 0; 0 ].

Definition shift_keys : list Z :=
  [ 0; 27; 33; 64; 35; 36; 37; 94;  38; 42; 40; 41; 95; 43; 8; 9;
    81; 87; 69; 82; 84; 89; 85; 73;  79; 80; 123; 125; 10; 0; 65; 83;
    68; 70; 71; 72; 74; 75; 76; 58;  34; 126; 0; 124; 90; 88; 67; 86;
    66; 78; 77; 60; 62; 63; 0; 42;  0; 32; 0; 0; 0; 0; 0; 0;
    0; 0; 0; 0; 0; 0; 0; 55;  56; 57; 45; 52; 53; 54; 43; 49;
    50; 51; 48; 46; 0; 0; 0; 0 ].

Definition ctl_keys : list Z :=
  [ 0; 0; 0; 0; 0; 0; 0; 0;  0; 0; 0; 0; 0; 0; 0; 0;
    C 81; C 87; C 69; C 82; C 84; C 89; C 85; C 73;  C 79; C 80; 0; 0; 13; 0; C 65; C 83;
    C 68; C 70; C 71; C 72; C 74; C 75; C 76; 0;  0; 0; 0; C 92; C 90; C 88; C 67; C 86;
    C 66; C 78; C 77; 0; 0; u8 (C 47); 0; 0 ].

Definition keymap (keys : list Z) (enter div d : Z) : Z :=
  if d <? Z.of_nat (length keys) then keys !!! Z.to_nat d else special enter div d.

Definition normalmap : Z → Z := keymap normal_keys 10 47.
Definition shiftmap : Z → Z := keymap shift_keys 10 47.
Definition ctlmap : Z → Z := keymap ctl_keys 13 (u8 (C 47)).

(** [charcode[i]] *)
Definition charcode (i : Z) : Z → Z :=
  if i =? 0 then normalmap else if i =? 1 then shiftmap else ctlmap.

(** [kbdgetc] when the controller has [data]: the new [shift] and the result. *)
Definition kbdgetc (shift data : Z) : Z * Z :=
  if data =? 224 then (Z.lor shift E0ESC, 0) else
  if has data 128 then
    let data := if has shift E0ESC then data else Z.land data 127 in
    (Z.ldiff shift (Z.lor (shiftcode data) E0ESC), 0)
  else
    let '(shift, data) := if has shift E0ESC then (Z.ldiff shift E0ESC, Z.lor data 128) else (shift, data) in
    let shift := Z.lor shift (shiftcode data) in
    let shift := Z.lxor shift (togglecode data) in
    let c := charcode (Z.land shift (Z.lor KEY_CTL KEY_SHIFT)) data in
    let c := if has shift CAPSLOCK then
               if (97 <=? c) && (c <=? 122) then c + (65 - 97)
               else if (65 <=? c) && (c <=? 90) then c + (97 - 65)
               else c
             else c in
    (shift, c).

(** ** The screen *)

(** The cursor is above the bottom line, and nobody has panicked. *)
Definition screen_ok (c : cons) : Prop := 0 <= cursor c < 24 * 80 ∧ panicked c = 0.

(** Everything of the console but its output. *)
Definition same_input (c c' : cons) : Prop :=
  ibuf c' = ibuf c ∧ ir c' = ir c ∧ iw c' = iw c ∧ ie c' = ie c ∧ cwoken c' = cwoken c.

Lemma same_input_trans c1 c2 c3 : same_input c1 c2 → same_input c2 c3 → same_input c1 c3.
Proof. unfold same_input. naive_solver congruence. Qed.

Lemma uartputc_spec ch c :
  ∃ l, uartputc ch c = Done tt (set_serial l c) ∧ (l = serial c ∨ l = serial c ++ [u8 ch]).
Proof.
  unfold uartputc. mgo. destruct (uart c =? 0).
  - exists (serial c). split; [by destruct c|by left].
  - eexists. split; [done|by right].
Qed.

(** The cell a cursor movement writes, and where the cursor ends. *)
Definition advance (pos ch : Z) : Z :=
  if ch =? 10 then pos + (80 - pos mod 80) else if ch =? BACKSPACE then (if 0 <? pos then pos - 1 else pos) else pos + 1.

Lemma cgaputc_spec ch c :
  0 <= cursor c < 24 * 80 →
  ∃ f, cgaputc ch c = Done tt (set_crt f (set_cursor
         (if 24 * 80 <=? advance (cursor c) ch then advance (cursor c) ch - 80 else advance (cursor c) ch) c)) ∧
    (∀ i, i < 0 ∨ 25 * 80 <= i → f i = crt c i).
Proof.
  intros Hc. unfold cgaputc. mgo.
  assert (Ha : 0 <= advance (cursor c) ch <= 24 * 80).
  { unfold advance. destruct (ch =? 10); [|destruct (ch =? BACKSPACE); [destruct (0 <? cursor c) eqn:E; lia|lia]].
    Z.div_mod_to_equations. lia. }
  assert (E1 : ∃ g, (if ch =? 10 then mret (cursor c + (80 - cursor c mod 80))
         else if ch =? BACKSPACE then mret (if 0 <? cursor c then cursor c - 1 else cursor c)
         else modify (set_crt (<[cursor c := Z.lor (Z.land ch 255) 1792]> (crt c)));; mret (cursor c + 1)) c
         = Done (advance (cursor c) ch) (set_crt g c) ∧ (∀ i, i < 0 ∨ 25 * 80 <= i → g i = crt c i)).
  { unfold advance. destruct (ch =? 10); [exists (crt c); by destruct c|].
    destruct (ch =? BACKSPACE); [exists (crt c); by destruct c|]. eexists. split; [done|].
    intros i Hi. rewrite fn_lookup_insert_ne by lia. done. }
  destruct E1 as (g & E1 & Hg). rewrite (bind_Done _ _ _ _ _ E1). set (pos := advance (cursor c) ch) in *.
  destruct (Z.ltb_spec pos 0); [lia|]. destruct (Z.ltb_spec (25 * 80) pos); [lia|]. cbn [orb].
  destruct (Z.leb_spec (24 * 80) pos), (Z.leb_spec 24 (pos / 80)); try (Z.div_mod_to_equations; lia).
  - munfold. eexists. split; [unfold set_crt, set_cursor, u16; cbn; rewrite Z.mod_small by lia; reflexivity|].
    intros i Hi. cbn. rewrite fn_lookup_insert_ne by lia. unfold blank, scroll.
    destruct (Z.leb_spec (pos - 80) i), (Z.ltb_spec i (24 * 80)); cbn; try lia;
      destruct (Z.leb_spec 0 i), (Z.ltb_spec i (23 * 80)); cbn; try lia; by apply Hg.
  - munfold. eexists. split; [unfold set_crt, set_cursor, u16; cbn; rewrite Z.mod_small by lia; reflexivity|].
    intros i Hi. cbn. rewrite fn_lookup_insert_ne by lia. by apply Hg.
Qed.

Lemma consputc_spec ch c :
  screen_ok c → ∃ c', consputc ch c = Done tt c' ∧ screen_ok c' ∧ same_input c c' ∧
    (∀ i, i < 0 ∨ 25 * 80 <= i → crt c' i = crt c i).
Proof.
  intros [Hc Hp]. unfold consputc. mgo. rewrite Hp. cbn [Z.eqb negb].
  assert (E : ∃ l, (if ch =? BACKSPACE then uartputc 8;; uartputc 32;; uartputc 8 else uartputc ch) c
                   = Done tt (set_serial l c)).
  { destruct (ch =? BACKSPACE); [|destruct (uartputc_spec ch c) as (l & E & _); eauto].
    destruct (uartputc_spec 8 c) as (l1 & E1 & _). rewrite (bind_Done _ _ _ _ _ E1).
    destruct (uartputc_spec 32 (set_serial l1 c)) as (l2 & E2 & _). rewrite (bind_Done _ _ _ _ _ E2).
    destruct (uartputc_spec 8 (set_serial l2 (set_serial l1 c))) as (l3 & E3 & _). eexists. rewrite E3. reflexivity. }
  destruct E as (l & E). rewrite (bind_Done _ _ _ _ _ E).
  destruct (cgaputc_spec ch (set_serial l c) Hc) as (f & E' & Hf). eexists. split; [exact E'|].
  split_and!; try done. split; [|done]. cbn. unfold advance in *.
  destruct (ch =? 10), (ch =? BACKSPACE), (0 <? cursor c) eqn:E0;
    repeat match goal with |- context [24 * 80 <=? ?x] => destruct (Z.leb_spec (24 * 80) x) end;
    Z.div_mod_to_equations; lia.
Qed.

(** C39: Output stays on the screen.  With the cursor above the bottom line,
    writing any sequence of characters returns, never panics with
    "pos under/overflow", writes no cell outside the 25 lines of CGA memory and
    leaves the cursor above the bottom line again. *)
Theorem screen_bounds cs c :
  screen_ok c → ∃ c', iter_each cs consputc c = Done tt c' ∧ screen_ok c' ∧
    (∀ i, i < 0 ∨ 25 * 80 <= i → crt c' i = crt c i) ∧ same_input c c'.
Proof.
  revert c. induction cs as [|ch cs IH]; intros c Hc; cbn [iter_each].
  - exists c. done.
  - destruct (consputc_spec ch c Hc) as (c1 & E1 & Hc1 & S1 & F1). rewrite (bind_Done _ _ _ _ _ E1).
    destruct (IH c1 Hc1) as (c2 & E2 & Hc2 & F2 & S2). exists c2. split_and!; try done.
    + intros i Hi. by rewrite F2, F1.
    + by eapply same_input_trans.
Qed.

Definition wit_cons : cons := mkCons 1 0 1 [] (λ _, 0) 1919 (λ _, 0) 0 0 0 [].

Lemma screen_bounds_witness :
  ∃ c', iter_each [104; 105; 10; 256; 10] consputc wit_cons = Done tt c' ∧ screen_ok c'.
Proof.
  destruct (screen_bounds [104; 105; 10; 256; 10] wit_cons) as (c' & E & H & _).
  - split; [cbn; lia|reflexivity].
  - exists c'. split; [exact E|exact H].
Defined.

(** ** Numbers *)

(** The value of a list of digits, least significant first. *)
Definition digits_value (base : Z) (l : list Z) : Z := foldr (λ d v, d + base * v) 0 l.

Lemma digits_loop_value base fuel : 2 <= base → ∀ x, 0 <= x < base ^ Z.of_nat fuel →
  digits_value base (digits_loop fuel x base) = x ∧ Forall (λ d, 0 <= d < base) (digits_loop fuel x base).
Proof.
  intros Hb. induction fuel as [|fuel IH]; intros x Hx; cbn [digits_loop].
  - change (base ^ Z.of_nat 0) with 1 in Hx. split; [|constructor]. cbn. lia.
  - pose proof (Z.mod_pos_bound x base ltac:(lia)) as Hm. pose proof (Z.div_mod x base ltac:(lia)).
    destruct (Z.eqb_spec (x / base) 0) as [E|E].
    + split; [cbn; lia|by apply Forall_singleton].
    + destruct (IH (x / base)) as [Hv Hd].
      { split; [apply Z.div_pos; lia|]. apply Z.div_lt_upper_bound; [lia|].
        rewrite Nat2Z.inj_succ, Z.pow_succ_r in Hx by lia. lia. }
      split; [|by constructor]. cbn [digits_value foldr] in *. unfold digits_value in Hv. rewrite Hv. lia.
Qed.

(** Reading back what [printint] printed. *)
Definition undigit (c : Z) : Z := if c <? 97 then c - 48 else c - 97 + 10.
Definition parseint (base : Z) (s : list Z) : Z :=
  match s with
  | [] => 0
  | c :: s' => if c =? 45 then - digits_value base (undigit <$> reverse s')
               else digits_value base (undigit <$> reverse s)
  end.

Lemma undigit_digit d : 0 <= d < 16 → undigit (digit d) = d.
Proof.
  intros Hd. unfold undigit, digit. destruct (Z.ltb_spec d 10).
  - destruct (Z.ltb_spec (48 + d) 97); lia.
  - destruct (Z.ltb_spec (97 + (d - 10)) 97); lia.
Qed.

Lemma undigit_digits l : Forall (λ d, 0 <= d < 16) l → undigit <$> (digit <$> l) = l.
Proof. induction 1 as [|d l Hd _ IH]; [done|]. cbn. by rewrite undigit_digit, IH. Qed.

Lemma digit_not_minus d : 0 <= d → digit d ≠ 45.
Proof. unfold digit. destruct (Z.ltb_spec d 10); lia. Qed.

(** What [printint] prints reads back: for every 32-bit [xx] the characters
    of [printint(xx, base, sign)] in base 10 or 16 denote [xx] itself when
    [sign] is set, the least [int] included, and its unsigned value when not. *)
Theorem printint_roundtrip xx base sign :
  is_s32 xx → base = 10 ∨ base = 16 →
  parseint base (printint_chars xx base sign) = if sign then xx else u32 xx.
Proof.
  intros Hx Hb. unfold printint_chars. set (neg := sign && (xx <? 0)). set (x := u32 _).
  destruct (digits_loop_value base 32 ltac:(lia) x) as [Hv Hd].
  { pose proof (u32_range (if neg then - xx else xx)) as Hr. unfold is_u32, x in *.
    assert (2 ^ 32 <= base ^ Z.of_nat 32) by (destruct Hb as [->| ->]; vm_compute; discriminate). lia. }
  set (ds := digits_loop 32 x base) in *. clearbody ds.
  assert (Hr : undigit <$> reverse (reverse (digit <$> ds)) = ds).
  { rewrite reverse_involutive. apply undigit_digits. eapply Forall_impl; [done|]. cbn. lia. }
  assert (Ex : x = if neg then - xx else u32 xx).
  { unfold x, neg. destruct sign; [|done]. cbn [andb]. destruct (Z.ltb_spec xx 0); [|done].
    apply u32_id. unfold is_u32, is_s32 in *. lia. }
  destruct neg eqn:En; unfold neg in En.
  - cbn [app parseint Z.eqb Pos.eqb]. rewrite Hr, Hv, Ex. apply andb_true_iff in En as [-> _]. lia.
  - cbn [app]. replace (if sign then xx else u32 xx) with (u32 xx).
    2: { destruct sign; [|done]. cbn in En. apply u32_id. unfold is_u32, is_s32 in *. lia. }
    rewrite <-Ex. rewrite <-Hr in Hv. revert Hv.
    destruct (reverse (digit <$> ds)) as [|y l] eqn:E; [by intros <-|].
    assert (y ≠ 45).
    { assert (Hy : y ∈ reverse (digit <$> ds)) by (rewrite E; apply elem_of_cons; by left).
      apply elem_of_reverse, list_elem_of_fmap in Hy as (d & -> & Hin). rewrite Forall_forall in Hd.
      apply digit_not_minus. by apply Hd. }
    intros Hv. unfold parseint. by destruct (Z.eqb_spec y 45).
Qed.

Lemma printint_roundtrip_witness : parseint 10 (printint_chars (-2147483648) 10 true) = -2147483648.
Proof. apply (printint_roundtrip (-2147483648) 10 true); [unfold is_s32; lia|by left]. Defined.

(** ** The line discipline

    The input is a list of characters committed for reading and the line being
    edited; [edit] is what a character does to them. *)

Definition edit (ch : Z) (d cur : list Z) : list Z * list Z :=
  if ch =? C 80 then (d, cur) else
  if ch =? C 85 then (d, []) else
  if (ch =? C 72) || (ch =? 127) then (d, removelast cur) else
  if negb (ch =? 0) && (Z.of_nat (length d + length cur) <? INPUT_BUF) then
    let ch := if ch =? 13 then 10 else ch in
    let cur := cur ++ [ch] in
    if (ch =? 10) || (ch =? C 68) || (Z.of_nat (length d + length cur) =? INPUT_BUF) then (d ++ cur, []) else (d, cur)
  else (d, cur).

Record input_ok (c : cons) (d cur : list Z) : Prop := {
  in_r : is_u32 (ir c);
  in_w : iw c = u32 (ir c + Z.of_nat (length d));
  in_e : ie c = u32 (ir c + Z.of_nat (length d) + Z.of_nat (length cur));
  in_len : Z.of_nat (length d) + Z.of_nat (length cur) <= INPUT_BUF;
  in_buf : ∀ i x, (d ++ cur) !! i = Some x → ibuf c ((ir c + Z.of_nat i) mod INPUT_BUF) = x;
  in_nl : 10 ∉ cur;
}.

Lemma u32_mod_buf x : u32 x mod INPUT_BUF = x mod INPUT_BUF.
Proof.
  unfold u32, INPUT_BUF. change (2 ^ 32) with (128 * 33554432). Z.div_mod_to_equations. lia.
Qed.

Lemma u32_eq_iff a b : 0 <= b - a < 2 ^ 32 → u32 a = u32 b ↔ a = b.
Proof. intros H. split; [|by intros ->]. unfold u32. intros E. Z.div_mod_to_equations. lia. Qed.

Lemma input_same c c' d cur : same_input c c' → input_ok c d cur → input_ok c' d cur.
Proof.
  intros (E1 & E2 & E3 & E4 & _) [H1 H2 H3 H4 H5 H6]. split; rewrite ?E1, ?E2, ?E3, ?E4; done.
Qed.

Lemma input_empty c d cur : input_ok c d cur → (ie c =? iw c) = bool_decide (cur = []).
Proof.
  intros [H1 H2 H3 H4 _ _]. rewrite H2, H3. unfold INPUT_BUF in H4. case_bool_decide as E.
  - subst. cbn. rewrite Z.add_0_r. apply Z.eqb_refl.
  - apply Z.eqb_neq. intros E2. symmetry in E2. rewrite u32_eq_iff in E2 by lia.
    destruct cur; [done|]. cbn [length] in *. lia.
Qed.

Lemma input_pop c d cur x :
  input_ok c d (cur ++ [x]) →
  input_ok (set_ie (u32 (ie c - 1)) c) d cur ∧ ibuf c (u32 (ie c - 1) mod INPUT_BUF) = x ∧ x ≠ 10.
Proof.
  intros [H1 H2 H3 H4 H5 H6]. rewrite length_app in *. cbn [length] in *. rewrite Nat2Z.inj_add in *.
  assert (E : u32 (ie c - 1) = u32 (ir c + Z.of_nat (length d) + Z.of_nat (length cur))).
  { rewrite H3. unfold u32. rewrite Zminus_mod_idemp_l. f_equal. lia. }
  split_and!.
  - split; cbn; try done; [lia| |set_solver]. intros i y Hy. apply H5. rewrite app_assoc. by apply lookup_app_l_Some.
  - rewrite E, u32_mod_buf. rewrite <-Z.add_assoc, <-Nat2Z.inj_add. apply H5.
    rewrite app_assoc, lookup_app_r by (rewrite length_app; lia). by rewrite length_app, Nat.sub_diag.
  - intros ->. apply H6. set_solver.
Qed.

Lemma kill_line_spec d cur : ∀ fuel c,
  screen_ok c → input_ok c d cur → (length cur <= fuel)%nat →
  ∃ c', kill_line fuel c = Done tt c' ∧ screen_ok c' ∧ input_ok c' d [] ∧ cwoken c' = cwoken c.
Proof.
  induction cur as [|x cur IH] using rev_ind; intros fuel c Hs Hi Hf.
  - exists c. destruct fuel; cbn [kill_line]; mgo; rewrite (input_empty _ _ _ Hi); done.
  - rewrite length_app in Hf. cbn in Hf. destruct fuel as [|fuel]; [lia|]. cbn [kill_line]. mgo.
    rewrite (input_empty _ _ _ Hi), bool_decide_eq_false_2 by (by destruct cur). cbn [negb andb].
    destruct (input_pop _ _ _ _ Hi) as (Hi' & -> & Hx). destruct (Z.eqb_spec x 10); [done|]. cbn [negb]. mgo.
    destruct (consputc_spec BACKSPACE (set_ie (u32 (ie c - 1)) c) Hs) as (c1 & E1 & Hs1 & S1 & _).
    rewrite (bind_Done _ _ _ _ _ E1). destruct (IH fuel c1 Hs1) as (c2 & E2 & Hs2 & Hi2 & W2).
    + by eapply input_same.
    + lia.
    + exists c2. split_and!; try done. rewrite W2. apply S1.
Qed.

Lemma push_buf c d cur ch i y :
  input_ok c d cur → Z.of_nat (length d) + Z.of_nat (length cur) < INPUT_BUF →
  (d ++ (cur ++ [ch])) !! i = Some y →
  (<[ie c mod INPUT_BUF := ch]> (ibuf c) : Z → Z) ((ir c + Z.of_nat i) mod INPUT_BUF) = y.
Proof.
  intros [H1 H2 H3 H4 H5 H6] Hlt Hy. rewrite H3, u32_mod_buf.
  rewrite app_assoc in Hy. apply lookup_app_Some in Hy as [Hy|[Hi Hy]].
  - rewrite fn_lookup_insert_ne; [by apply H5|]. apply lookup_lt_Some in Hy. rewrite length_app in Hy.
    unfold INPUT_BUF in *. intros E. Z.div_mod_to_equations. lia.
  - rewrite length_app in Hi, Hy. destruct (i - (length d + length cur))%nat eqn:Ei; [|done]. cbn in Hy. simplify_eq.
    replace (ir c + Z.of_nat i) with (ir c + Z.of_nat (length d) + Z.of_nat (length cur)) by lia.
    by rewrite fn_lookup_insert.
Qed.

Lemma u32_succ x : u32 (u32 x + 1) = u32 (x + 1).
Proof. unfold u32. by rewrite Zplus_mod_idemp_l. Qed.

(** The console after storing [ch] at the end of the line. *)
Definition stored (ch : Z) (c : cons) : cons :=
  set_ie (u32 (ie c + 1)) (set_ibuf (<[ie c mod INPUT_BUF := ch]> (ibuf c)) c).

Lemma input_push c d cur ch :
  input_ok c d cur → Z.of_nat (length d) + Z.of_nat (length cur) < INPUT_BUF → ch ≠ 10 →
  input_ok (stored ch c) d (cur ++ [ch]).
Proof.
  intros Hi Hlt Hch. pose proof Hi as [H1 H2 H3 H4 H5 H6]. split; cbn; try done; rewrite ?length_app; cbn [length].
  - rewrite H3, u32_succ. f_equal. lia.
  - lia.
  - intros i y Hy. by eapply push_buf.
  - set_solver.
Qed.

Lemma input_commit c c' d cur ch :
  input_ok c d cur → Z.of_nat (length d) + Z.of_nat (length cur) < INPUT_BUF →
  same_input (stored ch c) c' →
  input_ok (cons_wakeup ChInput (set_iw (ie c') c')) (d ++ (cur ++ [ch])) [].
Proof.
  intros Hi Hlt (E1 & E2 & E3 & E4 & _). pose proof Hi as [H1 H2 H3 H4 H5 H6]. cbn in *.
  split; cbn; rewrite ?E1, ?E2, ?E4, ?app_nil_r, ?length_app; cbn [length]; try done.
  - rewrite H3, u32_succ. f_equal. lia.
  - rewrite H3, u32_succ. f_equal. lia.
  - lia.
  - intros i y Hy. by eapply push_buf.
  - set_solver.
Qed.

(** The last condition of the commit, in terms of lengths. *)
Lemma input_full c d cur ch :
  input_ok c d cur → Z.of_nat (length d) + Z.of_nat (length cur) < INPUT_BUF →
  (u32 (ie c + 1) =? u32 (ir c + INPUT_BUF)) = (Z.of_nat (length d + length (cur ++ [ch])) =? INPUT_BUF).
Proof.
  intros [H1 H2 H3 H4 _ _] Hlt. rewrite H3, u32_succ, length_app. cbn [length]. unfold INPUT_BUF in *.
  apply eq_true_iff_eq. rewrite !Z.eqb_eq, u32_eq_iff by lia. lia.
Qed.

(** C23: The console line discipline.  Each character the interrupt handler
    takes acts on the circular buffer as [edit] acts on the list of committed
    characters and the line being edited: Control-U erases the line, Control-H
    and DEL its last character, a carriage return becomes a newline, and a
    newline, Control-D or a full buffer commits the line and wakes the readers;
    characters that do not fit are dropped.  The handler always returns. *)
Theorem consoleintr_refines_edit ch c d cur :
  screen_ok c → input_ok c d cur →
  ∃ c' b, consoleintr_one ch c = Done b c' ∧ (b = true ↔ ch = C 80) ∧ screen_ok c' ∧
    input_ok c' (edit ch d cur).1 (edit ch d cur).2 ∧
    (cwoken c' = cwoken c ++ [ChInput] ∨ (cwoken c' = cwoken c ∧ (edit ch d cur).1 = d)).
Proof.
  intros Hs Hi. unfold consoleintr_one, edit.
  destruct (Z.eqb_spec ch (C 80)) as [->|HP].
  { exists c, true. split_and!; try done. by right. }
  destruct (Z.eqb_spec ch (C 85)) as [->|HU].
  { destruct (kill_line_spec d cur (Z.to_nat INPUT_BUF) c Hs Hi) as (c1 & E1 & Hs1 & Hi1 & W1).
    { pose proof (in_len _ _ _ Hi). lia. }
    exists c1, false. rewrite (bind_Done _ _ _ _ _ E1). split_and!; try done. by right. }
  destruct ((ch =? C 72) || (ch =? 127)) eqn:EH.
  { mgo. rewrite (input_empty _ _ _ Hi). destruct (decide (cur = [])) as [->|Hne].
    - rewrite bool_decide_eq_true_2 by done. exists c, false. split_and!; try done. by right.
    - rewrite bool_decide_eq_false_2 by done. cbn [negb].
      destruct cur as [|x cur _] using rev_ind; [done|]. rewrite removelast_last.
      destruct (input_pop _ _ _ _ Hi) as (Hi' & _).
      destruct (consputc_spec BACKSPACE (set_ie (u32 (ie c - 1)) c) Hs) as (c1 & E1 & Hs1 & S1 & _).
      exists c1, false. rewrite (bind_Done _ _ _ tt c1) by (by mgo). split_and!; try done.
      + by eapply input_same.
      + right. split; [apply S1|done]. }
  mgo. assert (Elen : u32 (ie c - ir c) = Z.of_nat (length d) + Z.of_nat (length cur)).
  { destruct Hi as [H1 H2 H3 H4 _ _]. rewrite H3. unfold u32. rewrite Zminus_mod_idemp_l. unfold INPUT_BUF in H4.
    replace (ir c + Z.of_nat (length d) + Z.of_nat (length cur) - ir c) with (Z.of_nat (length d) + Z.of_nat (length cur)) by lia.
    apply Z.mod_small. lia. }
  rewrite Elen, Nat2Z.inj_add. destruct (negb (ch =? 0) && _) eqn:Efit; [|exists c, false; split_and!; try done; by right].
  apply andb_true_iff in Efit as [_ Hfit%Z.ltb_lt]. set (ch' := if ch =? 13 then 10 else ch).
  do 2 (rewrite bind_assoc; mgo). rewrite bind_assoc. fold (stored ch' c).
  destruct (consputc_spec ch' (stored ch' c) Hs) as (c1 & E1 & Hs1 & S1 & _). rewrite (bind_Done _ _ _ _ _ E1).
  rewrite bind_assoc. mgo. assert (Hfull : ie c1 = u32 (ie c + 1) ∧ ir c1 = ir c) by (destruct S1 as (_ & ? & _ & ? & _); done).
  destruct Hfull as [Hie Hir]. rewrite Hie, Hir, (input_full c d cur ch' Hi Hfit).
  destruct (_ || _ || _) eqn:Ecommit.
  - eexists _, false. split; [reflexivity|]. split; [done|]. split; [done|]. cbn [fst snd].
    split; [rewrite <-Hie; by eapply input_commit|].
    left. cbn. by destruct S1 as (_ & _ & _ & _ & ->).
  - exists c1, false. split; [reflexivity|]. split; [done|]. split; [done|]. cbn [fst snd]. split.
    + eapply input_same; [done|]. apply input_push; [done..|]. intros E. rewrite E in Ecommit. done.
    + right. by destruct S1 as (_ & _ & _ & _ & ->).
Qed.

Lemma consoleintr_refines_edit_witness :
  ∃ c' b, consoleintr_one 13 (stored 97 wit_cons) = Done b c' ∧ input_ok c' [97; 10] [].
Proof.
  destruct (consoleintr_refines_edit 13 (stored 97 wit_cons) [] [97]) as (c' & b & E & _ & _ & Hi & _).
  - split; [cbn; lia|reflexivity].
  - apply (input_push wit_cons [] []); [split; try done|cbn; unfold INPUT_BUF; lia|done].
    all: cbn; unfold is_u32; try lia. set_solver.
  - exists c', b. split; [exact E|exact Hi].
Defined.

(** What a read of at most [k] characters takes from the committed characters
    [d]: the characters, what is left, and whether the read is complete; [none]
    says that nothing was read before. *)
Fixpoint take_line (k : nat) (none : bool) (d : list Z) : list Z * list Z * bool :=
  match k, d with
  | O, _ => ([], d, true)
  | _, [] => ([], [], false)
  | S k', ch :: d' =>
      if ch =? C 68 then ([], if none then d' else d, true)
      else if ch =? 10 then ([ch], d', true)
      else let '(bs, rest, fin) := take_line k' false d' in (ch :: bs, rest, fin)
  end.

Lemma input_get c ch d cur :
  input_ok c (ch :: d) cur →
  (ir c =? iw c) = false ∧ ibuf c (ir c mod INPUT_BUF) = ch ∧ input_ok (set_ir (u32 (ir c + 1)) c) d cur.
Proof.
  intros [H1 H2 H3 H4 H5 H6]. cbn [length] in *. split_and!.
  - apply Z.eqb_neq. rewrite H2. unfold INPUT_BUF, is_u32 in *. intros E.
    rewrite <-(u32_id (ir c)) in E at 1 by done. rewrite u32_eq_iff in E by lia. lia.
  - rewrite <-(Z.add_0_r (ir c)). apply (H5 0%nat). done.
  - split; cbn; try done.
    + apply u32_range.
    + rewrite H2. unfold u32. rewrite Zplus_mod_idemp_l. f_equal. lia.
    + rewrite H3, <-Z.add_assoc. unfold u32. rewrite <-(Z.add_assoc (_ mod _)), Zplus_mod_idemp_l. f_equal. lia.
    + lia.
    + intros i x Hx. rewrite <-(H5 (S i) x Hx). f_equal.
      unfold u32, INPUT_BUF. change (2 ^ 32) with (128 * 33554432). Z.div_mod_to_equations. lia.
Qed.

Lemma consoleread_loop_spec fuel : ∀ k d cur s target,
  input_ok (rcons s) d cur → rn s = Z.of_nat k → rn s <= target → (length d <= fuel)%nat →
  let '(bs, rest, fin) := take_line k (rn s =? target) d in
  ∃ s', input_ok (rcons s') rest cur ∧ rdst s' = rdst s ++ bs ∧ rn s' = rn s - Z.of_nat (length bs) ∧
    consoleread_loop fuel false target s = if fin then Done (target - rn s') s' else Sleep ChInput s'.
Proof.
  induction fuel as [|fuel IH]; intros k d cur s target Hi Hk Ht Hf; cbn [consoleread_loop]; mgo; rewrite Hk.
  - destruct d as [|ch d]; [|cbn in Hf; lia]. destruct k as [|k]; cbn [take_line].
    + exists s. rewrite app_nil_r. split_and!; try done; cbn; try lia; by rewrite Hk.
    + exists s. rewrite app_nil_r. split_and!; try done; try (cbn; lia).
      destruct (Z.leb_spec (Z.of_nat (S k)) 0); [lia|]. rewrite (in_w _ _ _ Hi). cbn [length].
      rewrite Z.add_0_r, u32_id, Z.eqb_refl by apply (in_r _ _ _ Hi). done.
  - destruct k as [|k]; cbn [take_line].
    { exists s. rewrite app_nil_r. split_and!; try done; cbn; try lia; by rewrite Hk. }
    destruct (Z.leb_spec (Z.of_nat (S k)) 0); [lia|]. destruct d as [|ch d].
    { exists s. rewrite app_nil_r. split_and!; try done; try (cbn; lia). rewrite (in_w _ _ _ Hi). cbn [length].
      rewrite Z.add_0_r, u32_id, Z.eqb_refl by apply (in_r _ _ _ Hi). done. }
    destruct (input_get _ _ _ _ Hi) as (-> & -> & Hi'). destruct (ch =? C 68).
    + destruct (Z.ltb_spec (Z.of_nat (S k)) target), (Z.eqb_spec (Z.of_nat (S k)) target); try lia.
      * eexists (mkCread (rcons s) (rn s) (rdst s)). rewrite app_nil_r. split_and!; try done; try (cbn; lia). cbn.
        assert (E : u32 (u32 (ir (rcons s) + 1) - 1) = ir (rcons s)).
        { unfold u32. rewrite Zminus_mod_idemp_l, Z.add_simpl_r. apply Z.mod_small, (in_r _ _ _ Hi). }
        rewrite Hk. unfold put, mbind, M_bind. cbn. unfold set_ir. cbn. rewrite E. by destruct (rcons s).
      * exists (mkCread (set_ir (u32 (ir (rcons s) + 1)) (rcons s)) (rn s) (rdst s)). rewrite app_nil_r.
        split_and!; try done; cbn; try lia; by rewrite Hk.
    + destruct (ch =? 10).
      * exists (mkCread (set_ir (u32 (ir (rcons s) + 1)) (rcons s)) (rn s - 1) (rdst s ++ [ch])).
        split_and!; try done; cbn; try lia; by rewrite Hk.
      * specialize (IH k d cur (mkCread (set_ir (u32 (ir (rcons s) + 1)) (rcons s)) (rn s - 1) (rdst s ++ [ch])) target Hi').
        cbn [rn rdst] in IH. assert (E : (rn s - 1 =? target) = false) by (apply Z.eqb_neq; lia). rewrite E in IH.
        destruct (take_line k false d) as [[bs rest] fin]. destruct IH as (s' & H1 & H2 & H3 & H4); [lia|lia|cbn in Hf; lia|].
        exists s'. rewrite H2, <-app_assoc. split_and!; try done; [cbn [length]; lia|].
        unfold put, mbind, M_bind. rewrite Hk in H4. cbn [app] in H4. by rewrite H4.
Qed.

(** Reading the console.  A read of [n] characters takes the committed
    characters in order up to and including the first newline, at most [n] of
    them; Control-D ends the read, and is left for the next read if characters
    were already returned; when the committed characters run out first, the
    reader sleeps on the input with what it has so far.  The line being edited
    is not touched. *)
Theorem consoleread_takes_line c d cur n fuel :
  input_ok c d cur → 0 <= n → (length d <= fuel)%nat →
  let '(bs, rest, fin) := take_line (Z.to_nat n) true d in
  ∃ c', input_ok c' rest cur ∧
    consoleread_loop fuel false n (mkCread c n []) =
      if fin then Done (Z.of_nat (length bs)) (mkCread c' (n - Z.of_nat (length bs)) bs)
      else Sleep ChInput (mkCread c' (n - Z.of_nat (length bs)) bs).
Proof.
  intros Hi Hn Hf. pose proof (consoleread_loop_spec fuel (Z.to_nat n) d cur (mkCread c n []) n Hi) as H.
  cbn [rn rdst app] in H. rewrite Z.eqb_refl in H. destruct (take_line (Z.to_nat n) true d) as [[bs rest] fin].
  destruct H as ([c' n' ds] & H1 & H2 & H3 & H4); [lia|lia|done|]. cbn in H2, H3. subst.
  exists c'. split; [done|]. rewrite H4. destruct fin; [|done]. f_equal. cbn. lia.
Qed.

Lemma consoleread_takes_line_witness :
  let c := mkCons 1 0 1 [] (λ _, 0) 0 (<[0 := 97]> (<[1 := 10]> (<[2 := 98]> (λ _, 0)))) 0 3 3 [] in
  ∃ c', consoleread_loop 3 false 80 (mkCread c 80 []) = Done 2 (mkCread c' 78 [97; 10]).
Proof.
  intros c. destruct (consoleread_takes_line c [97; 10; 98] [] 80 3) as (c' & _ & E).
  - split; cbn; unfold is_u32, INPUT_BUF; try lia; [reflexivity|reflexivity| |set_solver].
    intros i x Hx. do 3 (destruct i as [|i]; [by injection Hx as <-|]). done.
  - lia.
  - cbn. lia.
  - exists c'. exact E.
Defined.
