(* ===== verification/CString.v ===== *)
(** * Memory and strings (string.c, ulib.c, x86.h)

    Memory is a function from addresses to bytes.  [KString] models the
    kernel's string.c, [UString] the user library's string routines in ulib.c.
    A loop bounded by a count is structural on it; a loop that only stops at a
    NUL takes a bound on its iterations and returns [None] when it is reached,
    and the theorems show that a bound above the string's length suffices. *)

From S2P Require Import Prelude.
#[local] Open Scope Z_scope.

Definition mem : Type := Z → Z.

Implicit Types m : mem.

(** The [k] bytes at [a]. *)
Definition bytes_at m (a : Z) (k : nat) : list Z := (λ i, m (a + Z.of_nat i)) <$> seq 0 k.

(** A little-endian word in memory. *)
Definition ld32 m (a : Z) : Z := m a + 2 ^ 8 * m (a + 1) + 2 ^ 16 * m (a + 2) + 2 ^ 24 * m (a + 3).
Definition st32 m (a v : Z) : mem :=
  <[a := u8 v]> (<[a + 1 := u8 (v / 2 ^ 8)]> (<[a + 2 := u8 (v / 2 ^ 16)]> (<[a + 3 := u8 (v / 2 ^ 24)]> m))).

(** A little-endian half word. *)
Definition ld16 m (a : Z) : Z := m a + 2 ^ 8 * m (a + 1).

(** Store a list of bytes. *)
Fixpoint st_bytes m (a : Z) (l : list Z) : mem :=
  match l with
  | [] => m
  | x :: l' => st_bytes (<[a := x]> m) (a + 1) l'
  end.

(** [rep stosb] and [rep stosl]. *)
Fixpoint stosb (addr data : Z) (cnt : nat) m : mem :=
  match cnt with
  | O => m
  | S cnt' => stosb (addr + 1) data cnt' (<[addr := u8 data]> m)
  end.

Fixpoint stosl (addr data : Z) (cnt : nat) m : mem :=
  match cnt with
  | O => m
  | S cnt' => stosl (addr + 4) data cnt' (st32 m addr data)
  end.

(** [while(n-- > 0) *d++ = *s++] *)
Fixpoint copy_fwd (k : nat) (d s : Z) m : mem :=
  match k with
  | O => m
  | S k' => copy_fwd k' (d + 1) (s + 1) (<[d := m s]> m)
  end.

(** [while(n-- > 0) *--d = *--s] *)
Fixpoint copy_bwd (k : nat) (d s : Z) m : mem :=
  match k with
  | O => m
  | S k' => copy_bwd k' (d - 1) (s - 1) (<[d - 1 := m (s - 1)]> m)
  end.

(** [for(n = 0; s[n]; n++)] *)
Fixpoint strlen_loop (fuel : nat) m (s n : Z) : option Z :=
  match fuel with
  | O => None
  | S fuel' => if m (s + n) =? 0 then Some n else strlen_loop fuel' m s (n + 1)
  end.

Module KString.

Definition memset (dst c : Z) (n : nat) m : mem :=
  if (dst mod 4 =? 0) && (Z.of_nat n mod 4 =? 0) then
    let c := Z.land c 255 in
    stosl dst (Z.lor (Z.lor (Z.lor (Z.shiftl c 24) (Z.shiftl c 16)) (Z.shiftl c 8)) c) (n / 4) m
  else stosb dst c n m.

Fixpoint memcmp (v1 v2 : Z) (n : nat) m : Z :=
  match n with
  | O => 0
  | S n' => if negb (m v1 =? m v2) then m v1 - m v2 else memcmp (v1 + 1) (v2 + 1) n' m
  end.

Definition memmove (dst src : Z) (n : nat) m : mem :=
  if (src <? dst) && (dst <? src + Z.of_nat n)
  then copy_bwd n (dst + Z.of_nat n) (src + Z.of_nat n) m
  else copy_fwd n dst src m.

Definition memcpy (dst src : Z) (n : nat) m : mem := memmove dst src n m.

Fixpoint strncmp (p q : Z) (n : nat) m : Z :=
  match n with
  | O => 0
  | S n' =>
      if negb (m p =? 0) && (m p =? m q) then strncmp (p + 1) (q + 1) n' m
      else m p - m q
  end.

(** [while(n-- > 0) *s++ = 0] *)
Fixpoint zero_fill (s : Z) (n : nat) m : mem :=
  match n with
  | O => m
  | S n' => zero_fill (s + 1) n' (<[s := 0]> m)
  end.

Fixpoint strncpy (s t : Z) (n : nat) m : mem :=
  match n with
  | O => m
  | S n' =>
      let m' := <[s := m t]> m in
      if negb (m t =? 0) then strncpy (s + 1) (t + 1) n' m' else zero_fill (s + 1) n' m'
  end.

(** The loop of [safestrcpy] and the final store of NUL: [k] is [n - 1]. *)
Fixpoint safestrcpy_loop (s t : Z) (k : nat) m : mem :=
  match k with
  | O => <[s := 0]> m
  | S k' =>
      let m' := <[s := m t]> m in
      if negb (m t =? 0) then safestrcpy_loop (s + 1) (t + 1) k' m' else <[s + 1 := 0]> m'
  end.

Definition safestrcpy (s t n : Z) m : mem :=
  if n <=? 0 then m else safestrcpy_loop s t (Z.to_nat (n - 1)) m.

Definition strlen (fuel : nat) (s : Z) m : option Z := strlen_loop fuel m s 0.

End KString.

Module UString.

Fixpoint strcpy (fuel : nat) (s t : Z) m : option mem :=
  match fuel with
  | O => None
  | S fuel' =>
      let m' := <[s := m t]> m in
      if negb (m t =? 0) then strcpy fuel' (s + 1) (t + 1) m' else Some m'
  end.

Fixpoint strcmp (fuel : nat) (p q : Z) m : option Z :=
  match fuel with
  | O => None
  | S fuel' =>
      if negb (m p =? 0) && (m p =? m q) then strcmp fuel' (p + 1) (q + 1) m
      else Some (m p - m q)
  end.

Definition strlen (fuel : nat) (s : Z) m : option Z := strlen_loop fuel m s 0.

Definition memset (dst c : Z) (n : nat) m : mem := stosb dst c n m.

(** The address found, 0 for none. *)
Fixpoint strchr (fuel : nat) (s c : Z) m : option Z :=
  match fuel with
  | O => None
  | S fuel' =>
      if m s =? 0 then Some 0
      else if m s =? c then Some s
      else strchr fuel' (s + 1) c m
  end.

(** [read(0, &c, 1)] takes the next character of [input]; at its end it
    returns less than one.  The result is the memory, the number of characters
    stored, and the input left. *)
Fixpoint gets_loop (buf max i : Z) (input : list Z) m : mem * Z * list Z :=
  match input with
  | c :: input' =>
      if i + 1 <? max then
        let m' := <[buf + i := c]> m in
        if (c =? 10) || (c =? 13) then (m', i + 1, input')
        else gets_loop buf max (i + 1) input' m'
      else (m, i, input)
  | [] => (m, i, input)
  end.

Definition gets (buf max : Z) (input : list Z) m : mem * list Z :=
  let '(m', i, rest) := gets_loop buf max 0 input m in (<[buf + i := 0]> m', rest).

(** [n*10 + *s++ - '0'] in a 32-bit [int]. *)
Fixpoint atoi_loop (fuel : nat) (s n : Z) m : option Z :=
  match fuel with
  | O => None
  | S fuel' =>
      if (48 <=? m s) && (m s <=? 57) then atoi_loop fuel' (s + 1) (s32 (n * 10 + m s - 48)) m
      else Some n
  end.

Definition atoi (fuel : nat) (s : Z) m : option Z := atoi_loop fuel s 0 m.

Definition memmove (vdst vsrc n : Z) m : mem := copy_fwd (Z.to_nat n) vdst vsrc m.

End UString.

(** ** Words and ranges of memory *)

(** [a] is one of the [k] addresses from [d] on. *)
Definition within (d : Z) (k : nat) (a : Z) : bool := (d <=? a) && (a <? d + Z.of_nat k).

Lemma within_spec d k a : within d k a = true ↔ d <= a < d + Z.of_nat k.
Proof. unfold within. rewrite andb_true_iff, Z.leb_le, Z.ltb_lt. done. Qed.

Lemma insert_mem m a v a' : (<[a := v]> m : mem) a' = if a' =? a then v else m a'.
Proof. unfold insert, fn_insert. destruct (Z.eqb_spec a' a); case_decide; congruence. Qed.

(** Decide the address comparisons left by range lemmas. *)
Ltac addr := repeat first
  [ rewrite insert_mem
  | match goal with
    | |- context [?a =? ?b] => destruct (Z.eqb_spec a b)
    | |- context [within ?d ?k ?a] =>
        let E := fresh "E" in destruct (within d k a) eqn:E;
        [apply within_spec in E | apply not_true_iff_false in E; rewrite within_spec in E]
    end ]; try lia; try done.

Lemma ld32_st32_eq m a v : ld32 (st32 m a v) a = u32 v.
Proof.
  unfold ld32, st32. rewrite !insert_mem.
  repeat match goal with |- context [?x =? ?y] => destruct (Z.eqb_spec x y); try lia end.
  apply bytes_of_u32.
Qed.

Lemma st32_other m a v a' : a' < a ∨ a + 4 <= a' → st32 m a v a' = m a'.
Proof. intros. unfold st32. addr. Qed.

Lemma ld32_st32_ne m a v a' : a' + 4 <= a ∨ a + 4 <= a' → ld32 (st32 m a v) a' = ld32 m a'.
Proof. intros. unfold ld32. by rewrite !st32_other by lia. Qed.

Lemma ld32_ext m m' a : (∀ i, a <= i < a + 4 → m' i = m i) → ld32 m' a = ld32 m a.
Proof. intros H. unfold ld32. by rewrite !H by lia. Qed.

Lemma ld16_st32_lo m a v : ld16 (st32 m a v) a = u16 v.
Proof.
  unfold ld16, st32. rewrite !insert_mem.
  repeat match goal with |- context [?x =? ?y] => destruct (Z.eqb_spec x y); try lia end.
  apply bytes_of_u16.
Qed.

Lemma ld16_st32_ne m a v a' : a' + 2 <= a ∨ a + 4 <= a' → ld16 (st32 m a v) a' = ld16 m a'.
Proof. intros. unfold ld16. by rewrite !st32_other by lia. Qed.

Lemma stosb_spec data n : ∀ d m a,
  stosb d data n m a = if within d n a then u8 data else m a.
Proof.
  induction n as [|n IH]; intros d m a; cbn [stosb]; [by addr|]. rewrite IH. addr.
Qed.

(** The word [stosl] stores has the byte [c] four times. *)
Lemma byte_word c : 0 <= c < 256 →
  Z.lor (Z.lor (Z.lor (Z.shiftl c 24) (Z.shiftl c 16)) (Z.shiftl c 8)) c = c * 16843009.
Proof.
  intros Hc.
  assert (H : Forall (λ k, let c := Z.of_nat k in
    Z.lor (Z.lor (Z.lor (Z.shiftl c 24) (Z.shiftl c 16)) (Z.shiftl c 8)) c = c * 16843009) (seq 0 256)).
  { apply (bool_decide_unpack _). vm_compute. exact I. }
  rewrite Forall_forall in H. rewrite <-(Z2Nat.id c) by lia. apply H, elem_of_seq. lia.
Qed.

Lemma byte_word_bytes c : 0 <= c < 256 →
  u8 (c * 16843009) = c ∧ u8 (c * 16843009 / 2 ^ 8) = c ∧ u8 (c * 16843009 / 2 ^ 16) = c ∧
  u8 (c * 16843009 / 2 ^ 24) = c.
Proof.
  intros Hc. unfold u8. change (2 ^ 8) with 256. change (2 ^ 16) with 65536. change (2 ^ 24) with 16777216.
  split_and!; Z.div_mod_to_equations; lia.
Qed.

Lemma stosl_spec c n : 0 <= c < 256 → ∀ d m a,
  stosl d (c * 16843009) n m a = if within d (4 * n) a then c else m a.
Proof.
  intros Hc. destruct (byte_word_bytes c Hc) as (B0 & B1 & B2 & B3).
  induction n as [|n IH]; intros d m a; cbn [stosl]; [by addr|].
  rewrite IH. unfold st32. rewrite B0, B1, B2, B3. addr.
Qed.

Lemma copy_fwd_spec n : ∀ d s m a, d <= s ∨ s + Z.of_nat n <= d →
  copy_fwd n d s m a = if within d n a then m (s + (a - d)) else m a.
Proof.
  induction n as [|n IH]; intros d s m a H; cbn [copy_fwd]; [by addr|].
  rewrite IH by lia. addr; f_equal; lia.
Qed.

Lemma copy_bwd_spec n : ∀ d s m a, s <= d →
  copy_bwd n d s m a = if within (d - Z.of_nat n) n a then m (s + (a - d)) else m a.
Proof.
  induction n as [|n IH]; intros d s m a H; cbn [copy_bwd]; [by addr|].
  rewrite IH by lia. addr; f_equal; lia.
Qed.

Lemma zero_fill_spec n : ∀ s m a, KString.zero_fill s n m a = if within s n a then 0 else m a.
Proof. induction n as [|n IH]; intros s m a; cbn [KString.zero_fill]; [by addr|]. rewrite IH. addr. Qed.

Lemma memmove_spec dst src n m a :
  KString.memmove dst src n m a = if within dst n a then m (src + (a - dst)) else m a.
Proof.
  unfold KString.memmove. destruct (Z.ltb_spec src dst); cbn [andb].
  - destruct (Z.ltb_spec dst (src + Z.of_nat n)).
    + rewrite copy_bwd_spec by lia. addr; f_equal; lia.
    + apply copy_fwd_spec. lia.
  - apply copy_fwd_spec. lia.
Qed.

Lemma memset_spec dst c n m a :
  KString.memset dst c n m a = if within dst n a then u8 c else m a.
Proof.
  unfold KString.memset. destruct (_ && _) eqn:E; [|apply stosb_spec].
  apply andb_true_iff in E as [_ En%Z.eqb_eq].
  assert (Hc : Z.land c 255 = u8 c) by (apply (Z.land_ones c 8); lia).
  rewrite Hc, byte_word, stosl_spec by apply u8_range.
  assert (Hn : (4 * (n / 4))%nat = n); [|by rewrite Hn].
  assert (n mod 4 = 0)%nat by (apply Nat2Z.inj; rewrite Nat2Z.inj_mod; done).
  pose proof (Nat.div_mod_eq n 4). lia.
Qed.

Lemma st_bytes_spec l : ∀ a m x,
  st_bytes m a l x = if within a (length l) x then l !!! Z.to_nat (x - a) else m x.
Proof.
  induction l as [|y l IH]; intros a m x; cbn [st_bytes length]; [by addr|].
  rewrite IH. addr; try (subst; by rewrite Z.sub_diag).
  by replace (Z.to_nat (x - a)) with (S (Z.to_nat (x - (a + 1)))) by lia.
Qed.

Lemma length_bytes_at m a k : length (bytes_at m a k) = k.
Proof. unfold bytes_at. by rewrite length_fmap, length_seq. Qed.

Lemma bytes_at_lookup m a k i : (i < k)%nat → bytes_at m a k !!! i = m (a + Z.of_nat i).
Proof.
  intros Hi. apply list_lookup_total_correct. unfold bytes_at. rewrite list_lookup_fmap.
  by rewrite lookup_seq_lt.
Qed.

Lemma bytes_at_ext m m' a k : (∀ i, (i < k)%nat → m' (a + Z.of_nat i) = m (a + Z.of_nat i)) →
  bytes_at m' a k = bytes_at m a k.
Proof. intros H. apply list_fmap_ext. intros i x [-> Hx]%lookup_seq. cbn. by apply H. Qed.

Lemma bytes_at_S m a k : bytes_at m a (S k) = m a :: bytes_at m (a + 1) k.
Proof.
  unfold bytes_at. cbn [seq fmap list_fmap]. f_equal; [f_equal; lia|]. rewrite <-fmap_S_seq, <-list_fmap_compose.
  apply list_fmap_ext. intros i x _. cbn. f_equal. lia.
Qed.

Lemma bytes_at_st_bytes m a l : bytes_at (st_bytes m a l) a (length l) = l.
Proof.
  apply list_eq_same_length with (length l); [done|apply length_bytes_at|].
  intros i x y Hi Hx Hy. apply list_lookup_total_correct in Hx, Hy. subst.
  rewrite bytes_at_lookup by done. rewrite st_bytes_spec. addr.
  f_equal. lia.
Qed.

(** ** NUL-terminated strings *)

(** The string at [a] is [l]. *)
Definition cstr m (a : Z) (l : list Z) : Prop :=
  bytes_at m a (length l) = l ∧ m (a + Z.of_nat (length l)) = 0 ∧ 0 ∉ l.

Lemma cstr_nil m a : cstr m a [] ↔ m a = 0.
Proof.
  unfold cstr. cbn [length]. change (Z.of_nat 0) with 0. rewrite Z.add_0_r. split; [by intros (_ & ? & _)|].
  intros H. split; [done|]. split; [done|]. apply not_elem_of_nil.
Qed.

Lemma cstr_cons m a x l : cstr m a (x :: l) ↔ m a = x ∧ x ≠ 0 ∧ cstr m (a + 1) l.
Proof.
  unfold cstr. cbn [length]. rewrite bytes_at_S, not_elem_of_cons.
  replace (a + Z.of_nat (S (length l))) with (a + 1 + Z.of_nat (length l)) by lia.
  split; [intros (H1 & H2 & H3)|]; [injection H1 as -> H1; naive_solver|].
  intros (-> & Hx & H1 & H2 & H3). rewrite H1. naive_solver.
Qed.

Lemma cstr_ext m m' a l :
  (∀ x, a <= x <= a + Z.of_nat (length l) → m' x = m x) → cstr m a l → cstr m' a l.
Proof.
  intros H (H1 & H2 & H3). split_and!; [|rewrite H by lia; done|done].
  etrans; [|exact H1]. apply bytes_at_ext. intros i Hi. apply H. lia.
Qed.

Lemma strlen_loop_spec fuel : ∀ l s k m,
  cstr m (s + k) l → (length l < fuel)%nat → strlen_loop fuel m s k = Some (k + Z.of_nat (length l)).
Proof.
  induction fuel as [|fuel IH]; intros l s k m Hs Hl; [lia|]. cbn [strlen_loop]. destruct l as [|x l].
  - apply cstr_nil in Hs as ->. cbn. f_equal. lia.
  - apply cstr_cons in Hs as (-> & Hx & Hs). destruct (Z.eqb_spec x 0); [done|]. cbn in Hl.
    rewrite (IH l); [f_equal; cbn; lia| |lia]. by replace (s + (k + 1)) with (s + k + 1) by lia.
Qed.

Lemma strncmp_spec n : ∀ l1 l2 p q m,
  cstr m p l1 → cstr m q l2 → KString.strncmp p q n m = 0 ↔ take n l1 = take n l2.
Proof.
  induction n as [|n IH]; intros l1 l2 p q m H1 H2; cbn [KString.strncmp]; [done|].
  destruct l1 as [|x l1], l2 as [|y l2]; cbn [take];
    repeat match goal with
    | H : cstr _ _ [] |- _ => apply cstr_nil in H; rewrite H
    | H : cstr _ _ (_ :: _) |- _ => apply cstr_cons in H as (-> & ? & H)
    end; cbn [negb andb Z.eqb].
  - done.
  - split; [lia|done].
  - destruct (Z.eqb_spec x 0); [done|]. cbn. split; [lia|done].
  - destruct (Z.eqb_spec x 0), (Z.eqb_spec x y) as [->|Hne]; try done; cbn [negb andb].
    + rewrite (IH l1 l2) by done. split; [by intros ->|by intros [= ->]].
    + split; [lia|by intros [= ->]].
Qed.

(** The destination range does not meet the source string. *)
Definition apart (s : Z) (n : nat) (t : Z) (k : nat) : Prop :=
  s + Z.of_nat n <= t ∨ t + Z.of_nat k < s.

Lemma strncpy_spec n : ∀ l s t m a,
  cstr m t l → apart s n t (length l) →
  KString.strncpy s t n m a = if within s n a then default 0 (l !! Z.to_nat (a - s)) else m a.
Proof.
  unfold apart. induction n as [|n IH]; intros l s t m a Hs Hap; cbn [KString.strncpy]; [by addr|].
  destruct l as [|x l]; cbn [length] in *.
  - apply cstr_nil in Hs as E. rewrite E. cbn [negb Z.eqb]. rewrite zero_fill_spec. addr.
  - pose proof Hs as (E & Hx & Hs')%cstr_cons. rewrite E. destruct (Z.eqb_spec x 0); [done|]. cbn [negb].
    rewrite (IH l).
    + addr; try (subst; by rewrite Z.sub_diag).
      by replace (Z.to_nat (a - s)) with (S (Z.to_nat (a - (s + 1)))) by lia.
    + eapply cstr_ext; [|done]. intros y Hy. addr.
    + lia.
Qed.

Lemma safestrcpy_loop_spec k : ∀ l s t m,
  cstr m t l → apart s (S k) t (length l) →
  cstr (KString.safestrcpy_loop s t k m) s (take k l) ∧
  ∀ a, a < s ∨ s + Z.of_nat k < a → KString.safestrcpy_loop s t k m a = m a.
Proof.
  unfold apart. induction k as [|k IH]; intros l s t m Hs Hap; cbn [KString.safestrcpy_loop].
  - cbn [take]. rewrite cstr_nil. split; [addr|]. intros a Ha. addr.
  - destruct l as [|x l]; cbn [length take] in *.
    + apply cstr_nil in Hs as E. rewrite E. cbn [negb Z.eqb]. rewrite cstr_nil. split; [addr|]. intros a Ha. addr.
    + pose proof Hs as (E & Hx & Hs')%cstr_cons. rewrite E. destruct (Z.eqb_spec x 0); [done|]. cbn [negb].
      destruct (IH l (s + 1) (t + 1) (<[s := x]> m)) as [H1 H2].
      * eapply cstr_ext; [|done]. intros y Hy. addr.
      * lia.
      * rewrite cstr_cons. split; [|intros a Ha; rewrite H2 by lia; addr].
        split_and!; try done. rewrite H2 by lia. addr.
Qed.

(** [memmove] copies the [n] source bytes as they were before the call and
    nothing else changes, however source and destination overlap. *)
Theorem memmove_correct dst src n m :
  bytes_at (KString.memmove dst src n m) dst n = bytes_at m src n ∧
  ∀ a, a < dst ∨ dst + Z.of_nat n <= a → KString.memmove dst src n m a = m a.
Proof.
  split.
  - apply list_fmap_ext. intros i x [-> Hx]%lookup_seq. cbn. rewrite memmove_spec. addr. f_equal. lia.
  - intros a Ha. rewrite memmove_spec. addr.
Qed.

(** [memset] stores the low byte of [c] in each of the [n] bytes and
    nowhere else, whether it takes the word path ([stosl]) or the byte path
    ([stosb]); the user library's byte-only [memset] agrees with it. *)
Theorem memset_correct dst c n m :
  bytes_at (KString.memset dst c n m) dst n = replicate n (u8 c) ∧
  (∀ a, a < dst ∨ dst + Z.of_nat n <= a → KString.memset dst c n m a = m a) ∧
  ∀ a, UString.memset dst c n m a = KString.memset dst c n m a.
Proof.
  split_and!.
  - apply list_eq_same_length with n; [by rewrite length_replicate|apply length_bytes_at|].
    intros i x y Hi Hx Hy. apply list_lookup_total_correct in Hx, Hy. subst.
    rewrite bytes_at_lookup, lookup_total_replicate_2, memset_spec by done. addr.
  - intros a Ha. rewrite memset_spec. addr.
  - intros a. unfold UString.memset. by rewrite stosb_spec, memset_spec.
Qed.

(** [safestrcpy] into a buffer of [n > 0] bytes leaves there the first
    [n - 1] characters of the source string, always NUL-terminated, and writes
    nothing outside the buffer. *)
Theorem safestrcpy_correct s t n l m :
  0 < n → cstr m t l → apart s (Z.to_nat n) t (length l) →
  cstr (KString.safestrcpy s t n m) s (take (Z.to_nat (n - 1)) l) ∧
  ∀ a, a < s ∨ s + n <= a → KString.safestrcpy s t n m a = m a.
Proof.
  intros Hn Hs Ha. unfold KString.safestrcpy. destruct (Z.leb_spec n 0); [lia|].
  destruct (safestrcpy_loop_spec (Z.to_nat (n - 1)) l s t m Hs) as [H1 H2].
  - by replace (S (Z.to_nat (n - 1))) with (Z.to_nat n) by lia.
  - split; [done|]. intros a Ha'. apply H2. lia.
Qed.

Lemma safestrcpy_correct_witness :
  let m := st_bytes (λ _, 7) 100 [115; 104; 101; 108; 108; 0] in
  cstr (KString.safestrcpy 200 100 4 m) 200 [115; 104; 101] ∧ KString.safestrcpy 200 100 4 m 204 = 7.
Proof.
  intros m. destruct (safestrcpy_correct 200 100 4 [115; 104; 101; 108; 108] m) as [H1 H2].
  - lia.
  - repeat (apply cstr_cons; split; [reflexivity|split; [lia|]]). by apply cstr_nil.
  - right. cbn. lia.
  - split; [exact H1|]. rewrite H2 by lia. reflexivity.
Defined.
