(* ===== verification/Kalloc.v ===== *)
(** * Physical page allocator (kalloc.c, memlayout.h, the page macros of mmu.h)

    Free pages are linked through their own first word, as in the code; [chain]
    abstracts the linked list to the list of free pages.  Addresses are the
    kernel's virtual addresses.  [end] and [data] are symbols of the linker
    script and are fields of the state that never change. *)

From S2P Require Import Prelude CString.
#[local] Open Scope Z_scope.

Definition PGSIZE : Z := 4096.
Definition EXTMEM : Z := 1048576.
Definition PHYSTOP : Z := 234881024.
Definition DEVSPACE : Z := 4261412864.
Definition KERNBASE : Z := 2147483648.
Definition KERNLINK : Z := KERNBASE + EXTMEM.

Definition v2p (a : Z) : Z := u32 (a - KERNBASE).
Definition p2v (a : Z) : Z := u32 (a + KERNBASE).

(** [((sz)+PGSIZE-1) & ~(PGSIZE-1)] and [(a) & ~(PGSIZE-1)] on [uint]s. *)
Definition PGROUNDUP (sz : Z) : Z := Z.ldiff (u32 (sz + PGSIZE - 1)) (PGSIZE - 1).
Definition PGROUNDDOWN (a : Z) : Z := Z.ldiff a (PGSIZE - 1).

Record kmem := mkKmem {
  pm : mem;
  freelist : Z;
  use_lock : Z;
  kend : Z;
  kdata : Z;
}.

Definition set_pm (m : mem) (s : kmem) : kmem := mkKmem m (freelist s) (use_lock s) (kend s) (kdata s).
Definition set_freelist (x : Z) (s : kmem) : kmem := mkKmem (pm s) x (use_lock s) (kend s) (kdata s).
Definition set_use_lock (x : Z) (s : kmem) : kmem := mkKmem (pm s) (freelist s) x (kend s) (kdata s).

Definition upd_mem (f : mem → mem) : M kmem unit := modify (λ s, set_pm (f (pm s)) s).

Definition kfree (v : Z) : M kmem unit :=
  e ← gets kend;
  if negb (v mod PGSIZE =? 0) || (v <? e) || (PHYSTOP <=? v2p v) then panic "kfree" else
  upd_mem (KString.memset v 1 (Z.to_nat PGSIZE));;
  fl ← gets freelist;
  upd_mem (λ m, st32 m v fl);;
  modify (set_freelist v).

Definition kalloc : M kmem Z :=
  r ← gets freelist;
  (if negb (r =? 0) then m ← gets pm; modify (set_freelist (ld32 m r)) else mret tt);;
  mret r.

(** [for(; p + PGSIZE <= vend; p += PGSIZE) kfree(p)]; [fuel] bounds the
    number of turns. *)
Fixpoint freerange_loop (fuel : nat) (p vend : Z) : M kmem unit :=
  if p + PGSIZE <=? vend then
    match fuel with
    | O => out_of_fuel
    | S fuel' => kfree p;; freerange_loop fuel' (p + PGSIZE) vend
    end
  else mret tt.

Definition freerange (vstart vend : Z) : M kmem unit :=
  freerange_loop (Z.to_nat (vend / PGSIZE)) (PGROUNDUP vstart) vend.

Definition kinit1 (vstart vend : Z) : M kmem unit :=
  modify (set_use_lock 0);;
  freerange vstart vend.

Definition kinit2 (vstart vend : Z) : M kmem unit :=
  freerange vstart vend;;
  modify (set_use_lock 1).

(** ** The list of free pages *)

Fixpoint chain (m : mem) (p : Z) (l : list Z) : Prop :=
  match l with
  | [] => p = 0
  | x :: l' => p = x ∧ chain m (ld32 m x) l'
  end.

(** A page [kfree] accepts. *)
Definition page_ok (e x : Z) : Prop :=
  x mod PGSIZE = 0 ∧ e <= x ∧ KERNBASE <= x ∧ v2p x < PHYSTOP ∧ is_u32 x.

(** [a] is an address of the page at [x]. *)
Definition in_page (x a : Z) : Prop := x <= a < x + PGSIZE.

Record kmem_ok (s : kmem) (free : list Z) : Prop := {
  km_chain : chain (pm s) (freelist s) free;
  km_nodup : NoDup free;
  km_pages : ∀ x, x ∈ free → page_ok (kend s) x;
}.

Lemma pages_apart x y a : x mod PGSIZE = 0 → y mod PGSIZE = 0 → in_page x a → in_page y a → x = y.
Proof.
  unfold in_page, PGSIZE. intros Hx Hy Hxa Hya. apply Z.mod_divide in Hx as [i ->], Hy as [j ->]; lia.
Qed.

Lemma chain_ext m m' p l :
  (∀ x a, x ∈ l → in_page x a → m' a = m a) → chain m p l → chain m' p l.
Proof.
  revert p. induction l as [|x l IH]; intros p H; cbn; [done|]. intros [-> Hc]. split; [done|].
  rewrite (ld32_ext m m' x).
  - apply IH; [|done]. intros y a Hy. apply H. set_solver.
  - intros i Hi. apply (H x); [set_solver|]. unfold in_page, PGSIZE. lia.
Qed.

(** Writes outside the free pages keep the allocator's invariant. *)
Lemma kmem_ok_mem s free m :
  kmem_ok s free → (∀ x a, x ∈ free → in_page x a → m a = pm s a) → kmem_ok (set_pm m s) free.
Proof. intros [H1 H2 H3] Hm. split; try done. by eapply chain_ext. Qed.

Lemma freelist_u32 s free : kmem_ok s free → is_u32 (freelist s).
Proof.
  intros [Hc _ Hp]. destruct free as [|x free]; cbn in Hc; [by rewrite Hc|]. destruct Hc as [-> _].
  apply (Hp x). set_solver.
Qed.

Lemma kalloc_spec s free :
  kmem_ok s free →
  match free with
  | [] => kalloc s = Done 0 s
  | x :: free' => kalloc s = Done x (set_freelist (ld32 (pm s) x) s) ∧
                  kmem_ok (set_freelist (ld32 (pm s) x) s) free' ∧ page_ok (kend s) x ∧ x ∉ free'
  end.
Proof.
  intros [Hc Hn Hp]. unfold kalloc. mgo. destruct free as [|x free]; cbn in Hc.
  - by rewrite Hc.
  - destruct Hc as [E Hc]. rewrite E. destruct (Hp x) as (Hm & He & Hk & Hv & Hu); [set_solver|].
    destruct (Z.eqb_spec x 0) as [->|Hx]; [unfold KERNBASE in Hk; lia|].
    apply NoDup_cons in Hn as [Hni Hn]. split_and!; try done. split; try done. set_solver.
Qed.

Lemma kfree_spec s free v :
  kmem_ok s free → page_ok (kend s) v → v ∉ free →
  ∃ m, kfree v s = Done tt (set_freelist v (set_pm m s)) ∧
    kmem_ok (set_freelist v (set_pm m s)) (v :: free) ∧
    (∀ a, ¬ in_page v a → m a = pm s a) ∧ (∀ a, v + 4 <= a < v + PGSIZE → m a = 1).
Proof.
  intros [Hc Hn Hp] (Hm & He & Hk & Hv & Hu) Hni.
  exists (st32 (KString.memset v 1 (Z.to_nat PGSIZE) (pm s)) v (freelist s)). split_and!.
  - unfold kfree. mgo. rewrite Hm. cbn [Z.eqb negb orb].
    destruct (Z.ltb_spec v (kend s)); [lia|]. destruct (Z.leb_spec PHYSTOP (v2p v)); [lia|]. done.
  - split; cbn [freelist pm set_freelist set_pm kend].
    + cbn. split; [done|]. rewrite ld32_st32_eq.
      rewrite u32_id by (by apply (freelist_u32 s free)).
      eapply chain_ext; [|done]. intros x a Hx Ha.
      assert (Hna : ¬ in_page v a).
      { intros Hva. apply Hni. destruct (Hp x Hx) as (Hxm & _). by rewrite <-(pages_apart x v a). }
      unfold in_page, PGSIZE in *. rewrite st32_other, memset_spec by lia. addr.
    + by constructor.
    + intros x [->|Hx]%elem_of_cons; [done|auto].
  - unfold in_page, PGSIZE. intros a Ha. rewrite st32_other, memset_spec by lia. addr.
  - unfold PGSIZE. intros a Ha. rewrite st32_other, memset_spec by lia. addr.
Qed.

Lemma round_down a : Z.ldiff a (PGSIZE - 1) = PGSIZE * (a / PGSIZE).
Proof.
  change (PGSIZE - 1) with (Z.ones 12). rewrite Z.ldiff_ones_r, Z.shiftl_mul_pow2, Z.shiftr_div_pow2 by lia.
  change (2 ^ 12) with PGSIZE. lia.
Qed.

Lemma PGROUNDUP_spec a : 0 <= a → a + PGSIZE - 1 < 2 ^ 32 → PGROUNDUP a = PGSIZE * ((a + PGSIZE - 1) / PGSIZE).
Proof. intros. unfold PGROUNDUP. rewrite u32_id, round_down; [done|]. unfold is_u32, PGSIZE in *. lia. Qed.

(** The pages from [p] on. *)
Definition pages (p : Z) (k : nat) : list Z := (λ i, p + PGSIZE * Z.of_nat i) <$> seq 0 k.

Lemma pages_S p k : pages p (S k) = p :: pages (p + PGSIZE) k.
Proof.
  unfold pages. cbn [seq fmap list_fmap]. f_equal; [lia|]. rewrite <-fmap_S_seq, <-list_fmap_compose.
  apply list_fmap_ext. intros i x _. cbn. lia.
Qed.

Lemma pages_elem p k x : x ∈ pages p k ↔ ∃ i, (i < k)%nat ∧ x = p + PGSIZE * Z.of_nat i.
Proof.
  unfold pages. rewrite list_elem_of_fmap. split.
  - intros (i & -> & Hi%elem_of_seq). exists i. split; [lia|done].
  - intros (i & Hi & ->). exists i. split; [done|]. apply elem_of_seq. lia.
Qed.

Lemma freerange_loop_spec k : ∀ fuel p vend s free,
  (k <= fuel)%nat → vend - p < PGSIZE * (Z.of_nat k + 1) → PGSIZE * Z.of_nat k <= vend - p →
  kmem_ok s free → (∀ x, x ∈ pages p k → page_ok (kend s) x ∧ x ∉ free) →
  ∃ s', freerange_loop fuel p vend s = Done tt s' ∧ kmem_ok s' (reverse (pages p k) ++ free) ∧
    kend s' = kend s ∧ use_lock s' = use_lock s.
Proof.
  induction k as [|k IH]; intros fuel p vend s free Hf H1 H2 Hs Hp; unfold PGSIZE in *.
  - exists s. destruct fuel; cbn [freerange_loop]; destruct (Z.leb_spec (p + PGSIZE) vend); unfold PGSIZE in *; try lia; done.
  - destruct fuel as [|fuel]; [lia|]. cbn [freerange_loop]. destruct (Z.leb_spec (p + PGSIZE) vend); [|unfold PGSIZE in *; lia].
    destruct (Hp p) as [Hok Hni]; [rewrite pages_S; set_solver|].
    destruct (kfree_spec s free p Hs Hok Hni) as (m & E & Hs1 & _). rewrite (bind_Done _ _ _ _ _ E).
    edestruct (IH fuel (p + PGSIZE) vend) as (s' & E' & Hs' & He & Hu); [lia|unfold PGSIZE; lia..|exact Hs1| |].
    + intros x Hx. destruct (Hp x) as [Hokx Hnx]; [rewrite pages_S; set_solver|]. split; [done|].
      apply not_elem_of_cons. split; [|done]. apply pages_elem in Hx as (i & _ & ->). unfold PGSIZE. lia.
    + exists s'. rewrite E'. split_and!; try done. rewrite pages_S, reverse_cons, <-app_assoc. done.
Qed.

(** ** Boot and use of the allocator *)

(** The two calls of main.c. *)
Definition kinit : M kmem unit :=
  e ← gets kend;
  kinit1 e (p2v (4 * 1024 * 1024));;
  kinit2 (p2v (4 * 1024 * 1024)) (p2v PHYSTOP).

Lemma NoDup_pages p k : NoDup (pages p k).
Proof. apply NoDup_fmap_2_strong; [|apply NoDup_seq]. intros i j _ _. unfold PGSIZE. lia. Qed.

Lemma freerange_spec vstart vend s free :
  KERNBASE <= vstart → vstart + PGSIZE - 1 <= vend → vend <= p2v PHYSTOP → vend mod PGSIZE = 0 →
  kend s <= vstart → kmem_ok s free → (∀ x, x ∈ free → x < vstart ∨ vend <= x) →
  ∃ s' free', freerange vstart vend s = Done tt s' ∧ kmem_ok s' (free' ++ free) ∧
    (∀ x, x ∈ free' ↔ x mod PGSIZE = 0 ∧ vstart <= x < vend) ∧ kend s' = kend s ∧ use_lock s' = use_lock s.
Proof.
  change (p2v PHYSTOP) with 2382364672. unfold KERNBASE, PGSIZE in *. intros Hk Hlo Hhi Hv He Hs Hf.
  set (k := Z.to_nat (vend / 4096 - (vstart + 4095) / 4096)).
  assert (Hp : PGROUNDUP vstart = 4096 * ((vstart + 4095) / 4096)).
  { rewrite PGROUNDUP_spec; unfold PGSIZE; [f_equal; f_equal; lia|lia..]. }
  assert (Hr : ∀ x, x ∈ pages (PGROUNDUP vstart) k ↔ x mod 4096 = 0 ∧ vstart <= x < vend).
  { intros x. rewrite pages_elem, Hp. unfold k, PGSIZE. split.
    - intros (i & Hi & ->). Z.div_mod_to_equations. lia.
    - intros [Hx Hxr]. exists (Z.to_nat (x / 4096 - (vstart + 4095) / 4096)). Z.div_mod_to_equations. lia. }
  destruct (freerange_loop_spec k (Z.to_nat (vend / 4096)) (PGROUNDUP vstart) vend s free) as (s' & E & Hs' & H1 & H2);
    [unfold k; Z.div_mod_to_equations; lia| |rewrite Hp; unfold k, PGSIZE; Z.div_mod_to_equations; lia|done| |].
  - rewrite Hp. unfold k, PGSIZE. Z.div_mod_to_equations. lia.
  - intros x [Hx Hxr]%Hr. split; [|intros Hin; destruct (Hf x Hin); lia].
    unfold page_ok, v2p, is_u32, PGSIZE, KERNBASE, PHYSTOP. rewrite u32_id by (unfold is_u32; lia). lia.
  - exists s', (reverse (pages (PGROUNDUP vstart) k)). split_and!; try done.
    intros x. by rewrite elem_of_reverse.
Qed.

(** Booting the allocator.  With the kernel loaded below 4MB, [kinit1] and
    [kinit2] as [main] calls them return, and the free list then holds every
    page between the kernel's end and PHYSTOP exactly once. *)
Theorem kinit_frees_all s :
  KERNLINK <= kend s <= KERNBASE + 4 * 1024 * 1024 - PGSIZE → freelist s = 0 →
  ∃ s' free, kinit s = Done tt s' ∧ kmem_ok s' free ∧ use_lock s' = 1 ∧
    ∀ x, x ∈ free ↔ x mod PGSIZE = 0 ∧ kend s <= x < KERNBASE + PHYSTOP.
Proof.
  intros He Hf. unfold KERNLINK, EXTMEM, KERNBASE, PGSIZE in He.
  destruct (freerange_spec (kend s) (p2v (4 * 1024 * 1024)) (set_use_lock 0 s) [])
    as (s1 & f1 & E1 & H1 & R1 & K1 & _); try done; cbn [kend set_use_lock];
    try (change (p2v (4 * 1024 * 1024)) with 2151677952; change (p2v PHYSTOP) with 2382364672; unfold KERNBASE, PGSIZE; lia).
  { split; cbn; [done|constructor|]. intros x ?%not_elem_of_nil. done. }
  { intros x ?%not_elem_of_nil. done. }
  rewrite app_nil_r in H1. cbn [kend set_use_lock] in *.
  destruct (freerange_spec (p2v (4 * 1024 * 1024)) (p2v PHYSTOP) s1 f1)
    as (s2 & f2 & E2 & H2 & R2 & K2 & _); try done;
    try (change (p2v (4 * 1024 * 1024)) with 2151677952; change (p2v PHYSTOP) with 2382364672; unfold KERNBASE, PGSIZE; lia).
  { intros x Hx%R1. lia. }
  exists (set_use_lock 1 s2), (f2 ++ f1). split_and!.
  - unfold kinit. mgo. unfold kinit1. rewrite bind_assoc. mgo. rewrite (bind_Done _ _ _ _ _ E1).
    unfold kinit2. by rewrite (bind_Done _ _ _ _ _ E2).
  - destruct H2. by split.
  - done.
  - intros x. rewrite elem_of_app, R1, R2. change (p2v (4 * 1024 * 1024)) with 2151677952.
    change (p2v PHYSTOP) with 2382364672. unfold KERNBASE, PHYSTOP. lia.
Qed.

Lemma kinit_frees_all_witness :
  ∃ s' free, kinit (mkKmem (λ _, 0) 0 0 (KERNLINK + 54321) 0) = Done tt s' ∧ kmem_ok s' free ∧ KERNBASE + 8192000 ∈ free.
Proof.
  destruct (kinit_frees_all (mkKmem (λ _, 0) 0 0 (KERNLINK + 54321) 0)) as (s' & free & E & H & _ & R).
  - unfold KERNLINK, EXTMEM, KERNBASE, PGSIZE. cbn. lia.
  - reflexivity.
  - exists s', free. split; [exact E|]. split; [exact H|]. apply R. split; [reflexivity|].
    unfold KERNLINK, EXTMEM, KERNBASE, PHYSTOP. cbn. lia.
Defined.

(** The allocator and the pages its clients hold: they allocate, free pages
    they hold, and write only to those. *)
Inductive alloc_step : kmem * list Z → kmem * list Z → Prop :=
  | step_kalloc s s' used x : kalloc s = Done x s' → x ≠ 0 → alloc_step (s, used) (s', x :: used)
  | step_kalloc_none s s' used : kalloc s = Done 0 s' → alloc_step (s, used) (s', used)
  | step_kfree s s' used1 used2 x :
      kfree x s = Done tt s' → alloc_step (s, used1 ++ x :: used2) (s', used1 ++ used2)
  | step_write s m used :
      (∀ a, m a ≠ pm s a → ∃ x, x ∈ used ∧ in_page x a) → alloc_step (s, used) (set_pm m s, used).

(** Every page is either held by a client or free, once. *)
Record owned (all : list Z) (s : kmem) (used free : list Z) : Prop := {
  ow_ok : kmem_ok s free;
  ow_nodup : NoDup all;
  ow_perm : used ++ free ≡ₚ all;
  ow_pages : ∀ x, x ∈ all → page_ok (kend s) x;
}.

Lemma owned_kfree all s used1 used2 x free :
  owned all s (used1 ++ x :: used2) free →
  ∃ s', kfree x s = Done tt s' ∧ owned all s' (used1 ++ used2) (x :: free).
Proof.
  intros [Hok Hn Hp Hall].
  assert (Hx : x ∈ all) by (rewrite <-Hp; set_solver).
  assert (Hni : x ∉ free).
  { rewrite <-Hp in Hn. apply NoDup_app in Hn as (_ & Hd & _). apply Hd. set_solver. }
  destruct (kfree_spec s free x Hok (Hall x Hx) Hni) as (m & E & Hok' & _).
  eexists. split; [exact E|]. split; try done. rewrite <-Hp. solve_Permutation.
Qed.

Lemma owned_step all s used free c :
  owned all s used free → alloc_step (s, used) c → ∃ free', owned all c.1 c.2 free'.
Proof.
  intros Ho Hs. inversion Hs as [? s' ? x Ek Hx|? s' ? Ek|? s' u1 u2 x Ek|? m ? Hm]; subst; cbn [fst snd].
  - destruct Ho as [Hok Hn Hp Hall]. pose proof (kalloc_spec s free Hok) as K. destruct free as [|y free].
    + rewrite K in Ek. congruence.
    + destruct K as (E & Hok' & _). rewrite E in Ek. injection Ek as <- <-. exists free. split; try done.
      rewrite <-Hp. solve_Permutation.
  - destruct Ho as [Hok Hn Hp Hall]. pose proof (kalloc_spec s free Hok) as K. destruct free as [|y free].
    + rewrite K in Ek. injection Ek as <-. exists []. by split.
    + destruct K as (E & _ & (_ & _ & Hk & _) & _). rewrite E in Ek. injection Ek as -> <-. unfold KERNBASE in Hk. lia.
  - destruct (owned_kfree _ _ _ _ _ _ Ho) as (s1 & E & Ho'). rewrite E in Ek. injection Ek as <-. eauto.
  - destruct Ho as [Hok Hn Hp Hall]. exists free. split; try done. apply kmem_ok_mem; [done|].
    intros x a Hx Ha. destruct (decide (m a = pm s a)) as [|Hne]; [done|]. destruct (Hm a Hne) as (y & Hy & Hya).
    assert (y = x) as ->.
    { destruct (Hall x) as (? & _); [rewrite <-Hp; set_solver|]. destruct (Hall y) as (? & _); [rewrite <-Hp; set_solver|].
      by eapply pages_apart. }
    rewrite <-Hp in Hn. apply NoDup_app in Hn as (_ & Hd & _). by destruct (Hd x).
Qed.

(** C10: Page ownership.  In every state reachable by allocating pages, freeing
    held pages and writing to held pages, every page is either held by exactly
    one client or free: [kalloc] returns a page nobody holds, or 0 exactly when
    no page is free, and [kfree] of a held page never panics. *)
Theorem page_ownership all s0 used0 free0 s used :
  owned all s0 used0 free0 → rtc alloc_step (s0, used0) (s, used) →
  ∃ free, used ++ free ≡ₚ all ∧
    (∃ x s', kalloc s = Done x s' ∧ (x = 0 ↔ free = []) ∧ (x ≠ 0 → x ∈ free ∧ x ∉ used)) ∧
    (∀ x, x ∈ used → ∃ s', kfree x s = Done tt s').
Proof.
  intros Ho Hr.
  assert (H : ∃ free, owned all s used free).
  { remember (s0, used0) as c0 eqn:E0. remember (s, used) as c eqn:E.
    revert s0 used0 free0 Ho E0. induction Hr as [|c0 [s1 u1] c Hs _ IH]; intros; subst; [simplify_eq; eauto|].
    destruct (owned_step _ _ _ _ _ Ho Hs) as [free1 Ho1]. eauto. }
  destruct H as [free Ho']. exists free. destruct (Ho') as [Hok Hn Hp Hall]. split_and!; [done| |].
  - pose proof (kalloc_spec s free Hok) as K. destruct free as [|y free].
    + exists 0, s. done.
    + destruct K as (E & _ & (_ & _ & Hk & _) & _). exists y. eexists. split; [exact E|]. unfold KERNBASE in Hk.
      split; [split; [lia|done]|]. intros _. split; [set_solver|]. intros Hu.
      rewrite <-Hp in Hn. apply NoDup_app in Hn as (_ & Hd & _). apply (Hd y Hu). set_solver.
  - intros x (u1 & u2 & ->)%list_elem_of_split. destruct (owned_kfree _ _ _ _ _ _ Ho') as (s' & E & _). eauto.
Qed.

Lemma page_ownership_witness :
  let s := mkKmem (λ _, 0) (KERNBASE + 8192) 1 (KERNBASE + 4096) 0 in
  ∃ s', kfree (KERNBASE + 4096) s = Done tt s'.
Proof.
  intros s. destruct (page_ownership [KERNBASE + 4096; KERNBASE + 8192] s [KERNBASE + 4096] [KERNBASE + 8192]
    s [KERNBASE + 4096]) as (free & _ & _ & H).
  - split.
    + split; [done|apply NoDup_singleton|]. intros x ->%list_elem_of_singleton. done.
    + apply NoDup_cons. split; [|apply NoDup_singleton]. by intros ?%list_elem_of_singleton.
    + done.
    + intros x [->|[->|?%not_elem_of_nil]%elem_of_cons]%elem_of_cons; done.
  - reflexivity.
  - apply H. by left.
Defined.
