(* ===== verification/Vm.v ===== *)
(** * Virtual memory (vm.c, the page-table part of mmu.h)

    Page directories and page tables are pages of the memory of [Kalloc], read
    and written word by word as in the code; a pointer is the kernel virtual
    address, 0 the null pointer.  [pte_of] is what the paging hardware finds
    for a virtual address. *)

From S2P Require Import Prelude Bio CString Kalloc.
#[local] Open Scope Z_scope.

Definition NPDENTRIES : nat := 1024.
Definition NPTENTRIES : Z := 1024.
Definition PTE_P : Z := 1.
Definition PTE_W : Z := 2.
Definition PTE_U : Z := 4.

Definition PDX (va : Z) : Z := Z.land (Z.shiftr va 22) 1023.
Definition PTX (va : Z) : Z := Z.land (Z.shiftr va 12) 1023.
Definition PTE_ADDR (pte : Z) : Z := Z.ldiff pte 4095.
Definition PTE_FLAGS (pte : Z) : Z := Z.land pte 4095.

(** [*p] and [*p = v] for a word pointer. *)
Definition load (p : Z) : M kmem Z := gets (λ s, ld32 (pm s) p).
Definition store (p v : Z) : M kmem unit := upd_mem (λ m, st32 m p v).

Definition walkpgdir (pgdir va : Z) (alloc : bool) : M kmem Z :=
  let pde := pgdir + 4 * PDX va in
  e ← load pde;
  if has e PTE_P then mret (p2v (PTE_ADDR e) + 4 * PTX va) else
  if negb alloc then mret 0 else
  pgtab ← kalloc;
  if pgtab =? 0 then mret 0 else
  upd_mem (KString.memset pgtab 0 (Z.to_nat PGSIZE));;
  store pde (Z.lor (Z.lor (Z.lor (v2p pgtab) PTE_P) PTE_W) PTE_U);;
  mret (pgtab + 4 * PTX va).

(** The loop of [mappages]; [n] is the number of pages after the one at [a]. *)
Fixpoint mappages_loop (n : nat) (pgdir a last pa perm : Z) : M kmem Z :=
  pte ← walkpgdir pgdir a true;
  if pte =? 0 then mret (-1) else
  e ← load pte;
  if has e PTE_P then panic "remap" else
  store pte (Z.lor (Z.lor pa perm) PTE_P);;
  if a =? last then mret 0 else
  match n with
  | O => out_of_fuel
  | S n' => mappages_loop n' pgdir (u32 (a + PGSIZE)) last (u32 (pa + PGSIZE)) perm
  end.

Definition mappages (pgdir va size pa perm : Z) : M kmem Z :=
  let a := PGROUNDDOWN va in
  let last := PGROUNDDOWN (u32 (va + size - 1)) in
  mappages_loop (Z.to_nat (u32 (last - a) / PGSIZE)) pgdir a last pa perm.

(** The kernel's mappings: start, physical start and end, permissions. *)
Definition kmap (data : Z) : list (Z * Z * Z * Z) :=
  [ (KERNBASE, 0, EXTMEM, PTE_W);
    (KERNLINK, v2p KERNLINK, v2p data, 0);
    (data, v2p data, PHYSTOP, PTE_W);
    (DEVSPACE, DEVSPACE, 0, PTE_W) ].

Definition setupkvm : M kmem Z :=
  pgdir ← kalloc;
  if pgdir =? 0 then mret 0 else
  upd_mem (KString.memset pgdir 0 (Z.to_nat PGSIZE));;
  if DEVSPACE <? p2v PHYSTOP then panic "PHYSTOP too high" else
  data ← gets kdata;
  r ← for_each (kmap data) (λ '(virt, phys_start, phys_end, perm),
        e ← mappages pgdir virt (u32 (phys_end - phys_start)) phys_start perm;
        mret (if e <? 0 then Some 0 else None));
  mret (default pgdir r).

Definition inituvm (pgdir : Z) (init : list Z) : M kmem unit :=
  if PGSIZE <=? Z.of_nat (length init) then panic "inituvm: more than a page" else
  mem ← kalloc;
  upd_mem (KString.memset mem 0 (Z.to_nat PGSIZE));;
  mappages pgdir 0 PGSIZE (v2p mem) (Z.lor PTE_W PTE_U);;
  upd_mem (λ m, st_bytes m mem init).

Fixpoint deallocuvm_loop (fuel : nat) (pgdir a oldsz newsz : Z) : M kmem Z :=
  if a <? oldsz then
    match fuel with
    | O => out_of_fuel
    | S fuel' =>
        pte ← walkpgdir pgdir a false;
        if pte =? 0 then
          deallocuvm_loop fuel' pgdir (u32 (u32 (a + (NPTENTRIES - 1) * PGSIZE) + PGSIZE)) oldsz newsz
        else
          e ← load pte;
          (if has e PTE_P then
             let pa := PTE_ADDR e in
             if pa =? 0 then panic "kfree" else
             kfree (p2v pa);;
             store pte 0
           else mret tt);;
          deallocuvm_loop fuel' pgdir (u32 (a + PGSIZE)) oldsz newsz
    end
  else mret newsz.

Definition deallocuvm (pgdir oldsz newsz : Z) : M kmem Z :=
  if oldsz <=? newsz then mret oldsz else
  deallocuvm_loop (Z.to_nat (oldsz / PGSIZE) + 1) pgdir (PGROUNDUP newsz) oldsz newsz.

Fixpoint allocuvm_loop (fuel : nat) (pgdir a oldsz newsz : Z) : M kmem Z :=
  if a <? newsz then
    match fuel with
    | O => out_of_fuel
    | S fuel' =>
        mem ← kalloc;
        if mem =? 0 then deallocuvm pgdir newsz oldsz;; mret 0 else
        upd_mem (KString.memset mem 0 (Z.to_nat PGSIZE));;
        mappages pgdir a PGSIZE (v2p mem) (Z.lor PTE_W PTE_U);;
        allocuvm_loop fuel' pgdir (u32 (a + PGSIZE)) oldsz newsz
    end
  else mret newsz.

Definition allocuvm (pgdir oldsz newsz : Z) : M kmem Z :=
  if KERNBASE <=? newsz then mret 0 else
  if newsz <? oldsz then mret oldsz else
  allocuvm_loop (Z.to_nat (newsz / PGSIZE) + 1) pgdir (PGROUNDUP oldsz) oldsz newsz.

Definition freevm (pgdir : Z) : M kmem unit :=
  if pgdir =? 0 then panic "freevm: no pgdir" else
  deallocuvm pgdir KERNBASE 0;;
  iter_each (seq 0 NPDENTRIES) (λ i,
    e ← load (pgdir + 4 * Z.of_nat i);
    if has e PTE_P then kfree (p2v (PTE_ADDR e)) else mret tt);;
  kfree pgdir.

Definition clearpteu (pgdir uva : Z) : M kmem unit :=
  pte ← walkpgdir pgdir uva false;
  if pte =? 0 then panic "clearpteu" else
  e ← load pte;
  store pte (Z.ldiff e PTE_U).

Fixpoint copyuvm_loop (fuel : nat) (pgdir d i sz : Z) : M kmem Z :=
  if i <? sz then
    match fuel with
    | O => out_of_fuel
    | S fuel' =>
        pte ← walkpgdir pgdir i false;
        if pte =? 0 then panic "copyuvm: pte should exist" else
        e ← load pte;
        if negb (has e PTE_P) then panic "copyuvm: page not present" else
        let pa := PTE_ADDR e in
        let flags := PTE_FLAGS e in
        mem ← kalloc;
        if mem =? 0 then freevm d;; mret 0 else
        upd_mem (KString.memmove mem (p2v pa) (Z.to_nat PGSIZE));;
        r ← mappages d i PGSIZE (v2p mem) flags;
        if r <? 0 then freevm d;; mret 0 else
        copyuvm_loop fuel' pgdir d (u32 (i + PGSIZE)) sz
    end
  else mret d.

Definition copyuvm (pgdir sz : Z) : M kmem Z :=
  d ← setupkvm;
  if d =? 0 then mret 0 else
  copyuvm_loop (Z.to_nat (sz / PGSIZE) + 1) pgdir d 0 sz.

Definition uva2ka (pgdir uva : Z) : M kmem Z :=
  pte ← walkpgdir pgdir uva false;
  e ← load pte;
  if negb (has e PTE_P) then mret 0 else
  if negb (has e PTE_U) then mret 0 else
  mret (p2v (PTE_ADDR e)).

(** [p] holds the [len] bytes to copy; each turn copies at least one. *)
Fixpoint copyout_loop (fuel : nat) (pgdir va : Z) (p : list Z) : M kmem Z :=
  match p with
  | [] => mret 0
  | _ :: _ =>
      match fuel with
      | O => out_of_fuel
      | S fuel' =>
          let va0 := PGROUNDDOWN va in
          pa0 ← uva2ka pgdir va0;
          if pa0 =? 0 then mret (-1) else
          let n := Z.to_nat (PGSIZE - (va - va0)) in
          upd_mem (λ m, st_bytes m (pa0 + (va - va0)) (take n p));;
          copyout_loop fuel' pgdir (u32 (va0 + PGSIZE)) (drop n p)
      end
  end.

Definition copyout (pgdir va : Z) (p : list Z) : M kmem Z :=
  copyout_loop (length p) pgdir va p.

(** ** Entries *)

Lemma idx_range x k : 0 <= Z.land (Z.shiftr x k) 1023 < 1024.
Proof. change 1023 with (Z.ones 10). rewrite Z.land_ones by lia. apply Z.mod_pos_bound. lia. Qed.

Lemma PDX_range va : 0 <= PDX va < 1024.
Proof. apply idx_range. Qed.
Lemma PTX_range va : 0 <= PTX va < 1024.
Proof. apply idx_range. Qed.

Lemma PDX_div va : PDX va = (va / 2 ^ 22) mod 1024.
Proof. unfold PDX. change 1023 with (Z.ones 10). by rewrite Z.land_ones, Z.shiftr_div_pow2 by lia. Qed.
Lemma PTX_div va : PTX va = (va / 2 ^ 12) mod 1024.
Proof. unfold PTX. change 1023 with (Z.ones 10). by rewrite Z.land_ones, Z.shiftr_div_pow2 by lia. Qed.

(** Two addresses with the same indices are in the same page. *)
Lemma same_indices va va' : is_u32 va → is_u32 va' →
  PDX va = PDX va' → PTX va = PTX va' → va / PGSIZE = va' / PGSIZE.
Proof.
  rewrite !PDX_div, !PTX_div. unfold is_u32, PGSIZE. change (2 ^ 22) with 4194304. change (2 ^ 12) with 4096.
  change (2 ^ 32) with 4294967296. intros. Z.div_mod_to_equations. lia.
Qed.

Lemma aligned_bits x k : x mod 4096 = 0 → 0 <= k < 12 → Z.testbit x k = false.
Proof.
  intros Hx Hk. rewrite <-(Z.mod_pow2_bits_low x 12 k) by lia. change (2 ^ 12) with 4096. by rewrite Hx, Z.bits_0.
Qed.

Lemma small_bits f k : 0 <= f < 4096 → 12 <= k → Z.testbit f k = false.
Proof.
  intros Hf Hk. rewrite <-(Z.mod_small f (2 ^ 12)) by (change (2 ^ 12) with 4096; lia).
  apply Z.mod_pow2_bits_high. lia.
Qed.

Lemma ones12_bits k : 0 <= k → Z.testbit 4095 k = (k <? 12).
Proof.
  intros Hk. change 4095 with (Z.ones 12). destruct (Z.ltb_spec k 12).
  - by apply Z.ones_spec_low.
  - apply Z.ones_spec_high. lia.
Qed.

Lemma PTE_ADDR_lor x f : x mod 4096 = 0 → 0 <= f < 4096 → PTE_ADDR (Z.lor x f) = x.
Proof.
  intros Hx Hf. unfold PTE_ADDR. apply Z.bits_inj'. intros k Hk. rewrite Z.ldiff_spec, Z.lor_spec, ones12_bits by lia.
  destruct (Z.ltb_spec k 12).
  - rewrite (aligned_bits x) by (done || lia). by rewrite andb_false_r.
  - rewrite (small_bits f) by lia. by rewrite orb_false_r, andb_true_r.
Qed.

Lemma PTE_FLAGS_lor x f : x mod 4096 = 0 → 0 <= f < 4096 → PTE_FLAGS (Z.lor x f) = f.
Proof.
  intros Hx Hf. unfold PTE_FLAGS. apply Z.bits_inj'. intros k Hk. rewrite Z.land_spec, Z.lor_spec, ones12_bits by lia.
  destruct (Z.ltb_spec k 12).
  - rewrite (aligned_bits x) by (done || lia). by rewrite andb_true_r.
  - rewrite (small_bits f) by lia. by rewrite andb_false_r.
Qed.

Lemma lor_range x f : 0 <= x < 2 ^ 32 → 0 <= f < 2 ^ 32 → 0 <= Z.lor x f < 2 ^ 32.
Proof.
  intros Hx Hf. split; [apply Z.lor_nonneg; lia|].
  destruct (Z.eq_dec (Z.lor x f) 0) as [->|]; [lia|]. apply Z.log2_lt_pow2; [pose proof (Z.lor_nonneg x f); lia|].
  rewrite Z.log2_lor by lia. apply Z.max_lub_lt.
  - destruct (Z.eq_dec x 0) as [->|]; [done|]. apply Z.log2_lt_pow2; lia.
  - destruct (Z.eq_dec f 0) as [->|]; [done|]. apply Z.log2_lt_pow2; lia.
Qed.

Lemma p2v_v2p t : is_u32 t → p2v (v2p t) = t.
Proof.
  intros H. unfold p2v, v2p, u32. rewrite Zplus_mod_idemp_l. replace (t - KERNBASE + KERNBASE) with t by lia.
  by apply Z.mod_small.
Qed.

Lemma v2p_aligned t : is_u32 t → t mod 4096 = 0 → v2p t mod 4096 = 0.
Proof.
  unfold is_u32, v2p, u32, KERNBASE. change (2 ^ 32) with 4294967296. intros. Z.div_mod_to_equations. lia.
Qed.

(** ** What the paging hardware finds *)

Definition pde_at (m : mem) (pgdir i : Z) : Z := ld32 m (pgdir + 4 * i).
Definition pte_ptr (m : mem) (pgdir va : Z) : Z := p2v (PTE_ADDR (pde_at m pgdir (PDX va))) + 4 * PTX va.
Definition pte_of (m : mem) (pgdir va : Z) : Z :=
  if has (pde_at m pgdir (PDX va)) PTE_P then ld32 m (pte_ptr m pgdir va) else 0.

(** The pages of a page directory: itself and its page tables [T], each used
    by one entry. *)
Record space (m : mem) (pgdir : Z) (T : list Z) : Prop := {
  sp_pages : ∀ x, x ∈ pgdir :: T → x mod PGSIZE = 0 ∧ KERNBASE <= x ∧ is_u32 x;
  sp_nodup : NoDup (pgdir :: T);
  sp_tables : ∀ i, 0 <= i < 1024 → has (pde_at m pgdir i) PTE_P = true → p2v (PTE_ADDR (pde_at m pgdir i)) ∈ T;
  sp_inj : ∀ i j, 0 <= i < 1024 → 0 <= j < 1024 → has (pde_at m pgdir i) PTE_P = true →
    has (pde_at m pgdir j) PTE_P = true →
    p2v (PTE_ADDR (pde_at m pgdir i)) = p2v (PTE_ADDR (pde_at m pgdir j)) → i = j;
}.

(** Words in different pages, or with different indices, do not meet. *)
Lemma words_apart x y i j :
  x mod PGSIZE = 0 → y mod PGSIZE = 0 → 0 <= i < 1024 → 0 <= j < 1024 → x ≠ y ∨ i ≠ j →
  x + 4 * i + 4 <= y + 4 * j ∨ y + 4 * j + 4 <= x + 4 * i.
Proof.
  unfold PGSIZE. intros Hx Hy Hi Hj Hne. apply Z.mod_divide in Hx as [a ->], Hy as [b ->]; [|done..].
  destruct (Z.lt_trichotomy a b) as [|[->|]]; lia.
Qed.

Lemma space_table m pgdir T va :
  space m pgdir T → has (pde_at m pgdir (PDX va)) PTE_P = true →
  let t := p2v (PTE_ADDR (pde_at m pgdir (PDX va))) in
  t ∈ T ∧ t ≠ pgdir ∧ t mod PGSIZE = 0 ∧ KERNBASE <= t ∧ is_u32 t.
Proof.
  intros [Hp Hn Ht Hi] H t. assert (Hin : t ∈ T) by (apply Ht; [apply PDX_range|done]).
  destruct (Hp t) as (? & ? & ?); [set_solver|]. apply NoDup_cons in Hn as [Hn _].
  split_and!; try done. by intros ->.
Qed.

(** Writing a PTE changes the entry of its page and no other. *)
Lemma pte_store m pgdir T va v :
  space m pgdir T → has (pde_at m pgdir (PDX va)) PTE_P = true → is_u32 v →
  let m' := st32 m (pte_ptr m pgdir va) v in
  space m' pgdir T ∧
  (∀ i, 0 <= i < 1024 → pde_at m' pgdir i = pde_at m pgdir i) ∧
  ∀ va', pte_of m' pgdir va' =
    if bool_decide (PDX va' = PDX va ∧ PTX va' = PTX va) then v else pte_of m pgdir va'.
Proof.
  intros S H Hv m'. destruct (space_table _ _ _ _ S H) as (Hin & Hne & Hal & _ & _).
  set (t := p2v _) in *. destruct (sp_pages _ _ _ S pgdir) as (Hpal & _); [set_solver|].
  assert (Hpde : ∀ i, 0 <= i < 1024 → pde_at m' pgdir i = pde_at m pgdir i).
  { intros i Hi. unfold pde_at, m', pte_ptr. fold t. apply ld32_st32_ne.
    destruct (words_apart pgdir t i (PTX va)); auto using PTX_range; lia. }
  split_and!; [|done|].
  - destruct S as [S1 S2 S3 S4]. split; try done.
    + intros i Hi. rewrite Hpde by done. auto.
    + intros i j Hi Hj. rewrite !Hpde by done. auto.
  - intros va'. unfold pte_of, pte_ptr. rewrite Hpde by apply PDX_range.
    destruct (has (pde_at m pgdir (PDX va')) PTE_P) eqn:E; case_bool_decide as Hc.
    + destruct Hc as [E1 E2]. rewrite E1, E2. unfold m', pte_ptr. rewrite ld32_st32_eq. by apply u32_id.
    + destruct (space_table _ _ _ _ S E) as (_ & _ & Hal' & _ & _). set (t' := p2v (PTE_ADDR (pde_at m pgdir (PDX va')))) in *.
      unfold m', pte_ptr. fold t. apply ld32_st32_ne.
      destruct (words_apart t' t (PTX va') (PTX va)) as [?|?]; auto using PTX_range; try lia.
      destruct (decide (PTX va' = PTX va)) as [Ex|]; [left|by right]. intros Et. apply Hc. split; [|done].
      apply (sp_inj _ _ _ S); auto using PDX_range.
    + destruct Hc as [E1 _]. rewrite E1 in E. congruence.
    + done.
Qed.

(** The allocator together with one page directory: its pages are not free. *)
Record vm_ok (s : kmem) (pgdir : Z) (T free : list Z) : Prop := {
  vm_kmem : kmem_ok s free;
  vm_space : space (pm s) pgdir T;
  vm_apart : ∀ x, x ∈ pgdir :: T → x ∉ free;
}.

(** From [s] to [s'] only the directory's pages and pages that were free
    changed; pages moved from the free list to the tables. *)
Record vm_frame (pgdir : Z) (s : kmem) (T free : list Z) (s' : kmem) (T' free' : list Z) : Prop := {
  fr_mem : ∀ a, (∀ x, x ∈ pgdir :: T ++ free → ¬ in_page x a) → pm s' a = pm s a;
  fr_perm : T' ++ free' ≡ₚ T ++ free;
  fr_end : kend s' = kend s;
}.

Lemma vm_frame_refl pgdir s T free : vm_frame pgdir s T free s T free.
Proof. by split. Qed.

Lemma vm_frame_trans pgdir s0 T0 f0 s1 T1 f1 s2 T2 f2 :
  vm_frame pgdir s0 T0 f0 s1 T1 f1 → vm_frame pgdir s1 T1 f1 s2 T2 f2 → vm_frame pgdir s0 T0 f0 s2 T2 f2.
Proof.
  intros [A1 A2 A3] [B1 B2 B3]. split; [|by rewrite B2|congruence].
  intros a Ha. rewrite B1, A1; try done. intros x Hx. apply Ha. by rewrite A2 in Hx.
Qed.

Lemma walkpgdir_found pgdir va alloc s :
  has (pde_at (pm s) pgdir (PDX va)) PTE_P = true →
  walkpgdir pgdir va alloc s = Done (pte_ptr (pm s) pgdir va) s.
Proof. intros H. unfold walkpgdir. mgo. unfold pde_at in H. by rewrite H. Qed.

Lemma walkpgdir_none pgdir va s :
  has (pde_at (pm s) pgdir (PDX va)) PTE_P = false → walkpgdir pgdir va false s = Done 0 s.
Proof. intros H. unfold walkpgdir. mgo. unfold pde_at in H. by rewrite H. Qed.

Lemma pte_ptr_nonzero m pgdir T va :
  space m pgdir T → has (pde_at m pgdir (PDX va)) PTE_P = true → pte_ptr m pgdir va ≠ 0.
Proof.
  intros S H. destruct (space_table _ _ _ _ S H) as (_ & _ & _ & Hk & _). unfold pte_ptr.
  pose proof (PTX_range va). unfold KERNBASE in Hk. lia.
Qed.

(** The entry [walkpgdir] stores for a new table [t]. *)
Definition table_pde (t : Z) : Z := Z.lor (Z.lor (Z.lor (v2p t) PTE_P) PTE_W) PTE_U.

Lemma table_pde_spec t : is_u32 t → t mod PGSIZE = 0 →
  is_u32 (table_pde t) ∧ has (table_pde t) PTE_P = true ∧ p2v (PTE_ADDR (table_pde t)) = t.
Proof.
  intros Ht Ha. pose proof (v2p_aligned t Ht Ha) as Hv. pose proof (u32_range (t - KERNBASE)) as Hr. fold (v2p t) in Hr.
  assert (E : table_pde t = Z.lor (v2p t) 7) by (unfold table_pde, PTE_P, PTE_W, PTE_U; by rewrite <-!Z.lor_assoc).
  rewrite E. split_and!.
  - apply lor_range; unfold is_u32 in *; lia.
  - rewrite has_lor. cbn. by rewrite orb_true_r.
  - rewrite PTE_ADDR_lor by (done || lia). by apply p2v_v2p.
Qed.

Section NewTable.
Context (s : kmem) (pgdir va t : Z) (T free : list Z).
Hypothesis (V : vm_ok s pgdir T (t :: free)) (H : has (pde_at (pm s) pgdir (PDX va)) PTE_P = false).

Definition new_table : mem :=
  st32 (KString.memset t 0 (Z.to_nat PGSIZE) (pm s)) (pgdir + 4 * PDX va) (table_pde t).

Lemma new_table_page : t mod PGSIZE = 0 ∧ KERNBASE <= t ∧ is_u32 t ∧ t ∉ pgdir :: T ∧ t ∉ free ∧ pgdir mod PGSIZE = 0.
Proof.
  destruct V as [[_ Hn Hp] S Ha]. destruct (Hp t) as (? & ? & ? & ? & ?); [set_solver|].
  destruct (sp_pages _ _ _ S pgdir) as (? & _); [set_solver|].
  apply NoDup_cons in Hn as [? _]. split_and!; try done. intros Hin. by apply (Ha t); [|set_solver].
Qed.

Lemma new_table_other a : ¬ in_page t a → a < pgdir + 4 * PDX va ∨ pgdir + 4 * PDX va + 4 <= a → new_table a = pm s a.
Proof. unfold in_page, PGSIZE, new_table. intros Ht Ha. rewrite st32_other, memset_spec by done. unfold PGSIZE. addr. Qed.

Lemma new_table_pde i : 0 <= i < 1024 →
  pde_at new_table pgdir i = if i =? PDX va then table_pde t else pde_at (pm s) pgdir i.
Proof.
  intros Hi. destruct new_table_page as (Hal & Hk & Hu & Hn & _ & Hpal). pose proof (PDX_range va).
  unfold pde_at. destruct (Z.eqb_spec i (PDX va)) as [->|Hne].
  - unfold new_table. rewrite ld32_st32_eq. apply u32_id. by apply table_pde_spec.
  - apply ld32_ext. intros a Ha. apply new_table_other; [|lia].
    intros Hta. assert (in_page pgdir a) by (unfold in_page, PGSIZE; lia).
    rewrite (pages_apart t pgdir a) in Hn by done. set_solver.
Qed.

Lemma new_table_space : space new_table pgdir (t :: T).
Proof.
  destruct new_table_page as (Hal & Hk & Hu & Hn & _). destruct (table_pde_spec t Hu Hal) as (_ & Hh & Hpt).
  destruct V as [_ [S1 S2 S3 S4] _].
  assert (Hold : ∀ i, 0 <= i < 1024 → has (pde_at (pm s) pgdir i) PTE_P = true → p2v (PTE_ADDR (pde_at (pm s) pgdir i)) ≠ t).
  { intros i Hi Hp E. apply Hn. rewrite <-E. right. by apply S3. }
  split.
  - intros x Hx. destruct (decide (x = t)) as [->|]; [done|]. apply S1. set_solver.
  - apply NoDup_cons in S2 as [? ?]. apply NoDup_cons. split; [set_solver|]. apply NoDup_cons. set_solver.
  - intros i Hi. rewrite new_table_pde by done. destruct (Z.eqb_spec i (PDX va)); [rewrite Hpt; set_solver|].
    intros Hp. right. by apply S3.
  - intros i j Hi Hj. rewrite !new_table_pde by done.
    destruct (Z.eqb_spec i (PDX va)), (Z.eqb_spec j (PDX va)); subst; auto.
    + intros _ Hp E. rewrite Hpt in E. symmetry in E. by apply Hold in E.
    + intros Hp _ E. rewrite Hpt in E. by apply Hold in E.
Qed.

Lemma new_table_pte va' : pte_of new_table pgdir va' = pte_of (pm s) pgdir va'.
Proof.
  destruct new_table_page as (Hal & Hk & Hu & Hn & _ & Hpal). destruct (table_pde_spec t Hu Hal) as (_ & Hh & Hpt).
  pose proof (PDX_range va). pose proof (PTX_range va').
  unfold pte_of, pte_ptr. rewrite new_table_pde by apply PDX_range. destruct (Z.eqb_spec (PDX va') (PDX va)) as [E|E].
  - rewrite E, Hh, H, Hpt. unfold ld32, new_table.
    rewrite !st32_other, !memset_spec by (destruct (words_apart t pgdir (PTX va') (PDX va)); auto; [set_solver|lia..]).
    unfold PGSIZE. addr.
  - destruct (has (pde_at (pm s) pgdir (PDX va')) PTE_P) eqn:Ep; [|done]. apply ld32_ext.
    destruct (space_table _ _ _ _ (vm_space _ _ _ _ V) Ep) as (Hin & Hnp & Hal' & _).
    set (t' := p2v (PTE_ADDR (pde_at (pm s) pgdir (PDX va')))) in *.
    intros a Ha. apply new_table_other.
    + intros Hta. assert (in_page t' a) by (unfold in_page, PGSIZE; lia).
      rewrite (pages_apart t t' a) in Hn by done. set_solver.
    + destruct (words_apart t' pgdir (PTX va') (PDX va)); auto; lia.
Qed.

Lemma walkpgdir_new :
  let s' := set_pm new_table (set_freelist (ld32 (pm s) t) s) in
  walkpgdir pgdir va true s = Done (pte_ptr (pm s') pgdir va) s' ∧ vm_ok s' pgdir (t :: T) free ∧
  has (pde_at (pm s') pgdir (PDX va)) PTE_P = true ∧ vm_frame pgdir s T (t :: free) s' (t :: T) free.
Proof.
  intros s'. destruct new_table_page as (Hal & Hk & Hu & Hn & Hf & Hpal).
  destruct (table_pde_spec t Hu Hal) as (_ & Hh & Hpt). pose proof (PDX_range va).
  assert (Hpde : pde_at (pm s') pgdir (PDX va) = table_pde t).
  { unfold s'. cbn [pm set_pm]. by rewrite new_table_pde, Z.eqb_refl by apply PDX_range. }
  destruct (kalloc_spec s (t :: free) (vm_kmem _ _ _ _ V)) as (Ek & Hok & _).
  split_and!.
  - unfold pte_ptr. rewrite Hpde, Hpt. unfold walkpgdir. mgo. unfold pde_at in H. rewrite H. cbn [negb].
    rewrite (bind_Done _ _ _ _ _ Ek). destruct (Z.eqb_spec t 0); [unfold KERNBASE in Hk; lia|].
    mgo. mgo. done.
  - destruct V as [_ S Ha]. split; [|apply new_table_space|].
    + apply kmem_ok_mem; [done|]. intros x a Hx Hxa. apply new_table_other.
      * intros Hta. destruct (km_pages _ _ Hok x Hx) as (Hxal & _). rewrite (pages_apart t x a) in Hf by done. done.
      * destruct (decide (in_page pgdir a)) as [Hpa|Hpa]; [|unfold in_page, PGSIZE in Hpa; lia].
        destruct (km_pages _ _ Hok x Hx) as (Hxal & _). rewrite (pages_apart x pgdir a) in Hx by done.
        exfalso. apply (Ha pgdir); set_solver.
    + intros x Hx. destruct (decide (x = t)) as [->|]; [done|]. intros Hin. apply (Ha x); set_solver.
  - by rewrite Hpde.
  - split; [|solve_Permutation|done]. intros a Ha. apply new_table_other.
    + apply Ha. set_solver.
    + assert (¬ in_page pgdir a) by (apply Ha; set_solver). unfold in_page, PGSIZE in *. lia.
Qed.
End NewTable.

Lemma walkpgdir_alloc s pgdir va T free :
  vm_ok s pgdir T free →
  (free = [] ∧ walkpgdir pgdir va true s = Done 0 s) ∨
  ∃ s' T' free', walkpgdir pgdir va true s = Done (pte_ptr (pm s') pgdir va) s' ∧ vm_ok s' pgdir T' free' ∧
    has (pde_at (pm s') pgdir (PDX va)) PTE_P = true ∧ vm_frame pgdir s T free s' T' free' ∧
    ∀ va', pte_of (pm s') pgdir va' = pte_of (pm s) pgdir va'.
Proof.
  intros V. destruct (has (pde_at (pm s) pgdir (PDX va)) PTE_P) eqn:E.
  - right. exists s, T, free. split_and!; try done. by apply walkpgdir_found.
  - destruct free as [|t free].
    + left. split; [done|]. pose proof (kalloc_spec s [] (vm_kmem _ _ _ _ V)) as Ek.
      unfold walkpgdir. mgo. unfold pde_at in E. rewrite E. cbn [negb]. by rewrite (bind_Done _ _ _ _ _ Ek).
    + right. destruct (walkpgdir_new s pgdir va t T free V E) as (Ew & V' & Hh & F).
      eexists _, _, _. split; [exact Ew|]. split; [done|]. split; [done|]. split; [done|].
      intros va'. by apply (new_table_pte s pgdir va t T free).
Qed.

(** The entry of a mapped page. *)
Definition pte_val (pa perm : Z) : Z := Z.lor (Z.lor pa perm) PTE_P.

(** Writing an entry of a directory keeps the allocator's invariant. *)
Lemma vm_ok_store s pgdir T free va v :
  vm_ok s pgdir T free → has (pde_at (pm s) pgdir (PDX va)) PTE_P = true → is_u32 v →
  let s' := set_pm (st32 (pm s) (pte_ptr (pm s) pgdir va) v) s in
  vm_ok s' pgdir T free ∧ vm_frame pgdir s T free s' T free ∧
  ∀ va', pte_of (pm s') pgdir va' =
    if bool_decide (PDX va' = PDX va ∧ PTX va' = PTX va) then v else pte_of (pm s) pgdir va'.
Proof.
  intros [K S A] H Hv s'. destruct (space_table _ _ _ _ S H) as (Hin & _ & Hal & _).
  destruct (pte_store _ _ _ va v S H Hv) as (S' & _ & Hpte). set (t := p2v _) in *. pose proof (PTX_range va).
  assert (Hm : ∀ a, ¬ in_page t a → st32 (pm s) (pte_ptr (pm s) pgdir va) v a = pm s a).
  { intros a Ha. apply st32_other. unfold pte_ptr, in_page, PGSIZE in *. fold t. lia. }
  split_and!; [split; try done| |done].
  - apply kmem_ok_mem; [done|]. intros x a Hx Hxa. apply Hm. intros Hta.
    destruct (km_pages _ _ K x Hx) as (Hxal & _). rewrite (pages_apart x t a) in Hx by done. apply (A t); [by apply elem_of_cons; right|done].
  - split; try done. intros a Ha. apply Hm, Ha. apply elem_of_cons. right. apply elem_of_app. by left.
Qed.

Lemma map_page s pgdir T free a v :
  vm_ok s pgdir T free → is_u32 v → has (pte_of (pm s) pgdir a) PTE_P = false →
  (free = [] ∧ walkpgdir pgdir a true s = Done 0 s) ∨
  ∃ p s1 T' free', walkpgdir pgdir a true s = Done p s1 ∧ p ≠ 0 ∧ has (ld32 (pm s1) p) PTE_P = false ∧
    let s2 := set_pm (st32 (pm s1) p v) s1 in
    vm_ok s2 pgdir T' free' ∧ vm_frame pgdir s T free s2 T' free' ∧
    ∀ va, pte_of (pm s2) pgdir va =
      if bool_decide (PDX va = PDX a ∧ PTX va = PTX a) then v else pte_of (pm s) pgdir va.
Proof.
  intros V Hv Hun. destruct (walkpgdir_alloc s pgdir a T free V) as [?|(s1 & T1 & f1 & Ew & V1 & Hh & F1 & P1)]; [by left|right].
  destruct (vm_ok_store s1 pgdir T1 f1 a v V1 Hh Hv) as (V2 & F2 & P2).
  exists (pte_ptr (pm s1) pgdir a), s1, T1, f1. split; [done|]. split; [by eapply pte_ptr_nonzero, Hh; apply V1|].
  split; [|split; [done|split; [by eapply vm_frame_trans|]]].
  - rewrite <-P1 in Hun. unfold pte_of in Hun. by rewrite Hh in Hun.
  - intros va. by rewrite P2, P1.
Qed.

Lemma pte_val_u32 pa perm : 0 <= pa < 2 ^ 32 → 0 <= perm < 4096 → is_u32 (pte_val pa perm).
Proof. intros. unfold pte_val, is_u32, PTE_P. apply lor_range; [apply lor_range|]; lia. Qed.

Lemma page_indices a va : a mod PGSIZE = 0 → 0 <= a → a + PGSIZE <= 2 ^ 32 → is_u32 va →
  PDX va = PDX a ∧ PTX va = PTX a ↔ a <= va < a + PGSIZE.
Proof.
  intros Ha H0 H1 Hv. split.
  - intros [E1 E2]. pose proof (same_indices va a Hv ltac:(unfold is_u32, PGSIZE in *; lia) E1 E2) as E.
    unfold PGSIZE in *. Z.div_mod_to_equations. lia.
  - unfold is_u32, PGSIZE in *. rewrite !PDX_div, !PTX_div. change (2 ^ 22) with 4194304. change (2 ^ 12) with 4096.
    change (2 ^ 32) with 4294967296 in *. intros. split; f_equal; Z.div_mod_to_equations; lia.
Qed.

Lemma PGROUNDDOWN_page a va : a mod PGSIZE = 0 → a <= va < a + PGSIZE → PGROUNDDOWN va = a.
Proof. intros. unfold PGROUNDDOWN. rewrite round_down. unfold PGSIZE in *. Z.div_mod_to_equations. lia. Qed.

Lemma mappages_loop_spec n : ∀ s pgdir T free a pa perm,
  vm_ok s pgdir T free → a mod PGSIZE = 0 → 0 <= a → a + (Z.of_nat n + 1) * PGSIZE <= 2 ^ 32 →
  0 <= pa → pa + (Z.of_nat n + 1) * PGSIZE <= 2 ^ 32 → 0 <= perm < 4096 →
  (∀ va, a <= va < a + (Z.of_nat n + 1) * PGSIZE → has (pte_of (pm s) pgdir va) PTE_P = false) →
  ∃ r s' T' free', mappages_loop n pgdir a (a + Z.of_nat n * PGSIZE) pa perm s = Done r s' ∧
    vm_ok s' pgdir T' free' ∧ vm_frame pgdir s T free s' T' free' ∧
    (∀ va, is_u32 va → va < a ∨ a + (Z.of_nat n + 1) * PGSIZE <= va → pte_of (pm s') pgdir va = pte_of (pm s) pgdir va) ∧
    (r = 0 ∧ (∀ va, a <= va < a + (Z.of_nat n + 1) * PGSIZE →
               pte_of (pm s') pgdir va = pte_val (pa + (PGROUNDDOWN va - a)) perm)
     ∨ r = -1 ∧ free' = []).
Proof.
  induction n as [|n IH]; intros s pgdir T free a pa perm V Ha Ha0 Hlast Hpa Hpal Hperm Hun; cbn [mappages_loop];
    pose proof (pte_val_u32 pa perm ltac:(unfold PGSIZE in *; lia) Hperm) as Hv;
    (destruct (map_page s pgdir T free a (pte_val pa perm) V Hv) as [[Hf Ew]|(p & s1 & T1 & f1 & Ew & Hp & Hnp & V2 & F2 & P2)];
     [apply Hun; unfold PGSIZE; lia
     |exists (-1), s, T, free; rewrite (bind_Done _ _ _ _ _ Ew); split_and!; auto using vm_frame_refl|]);
    rewrite (bind_Done _ _ _ _ _ Ew); (destruct (Z.eqb_spec p 0); [done|]); mgo; rewrite Hnp;
    erewrite bind_Done by reflexivity; set (s2 := set_pm _ s1) in *; fold (pte_val pa perm) in s2.
  - replace (a + Z.of_nat 0 * PGSIZE) with a by (unfold PGSIZE; lia). rewrite Z.eqb_refl.
    exists 0, s2, T1, f1. split_and!; try done.
    + intros va Hva Hout. rewrite P2, bool_decide_eq_false_2; [done|]. rewrite page_indices; unfold PGSIZE in *; try done; lia.
    + left. split; [done|]. intros va Hva. rewrite P2, bool_decide_eq_true_2.
      * rewrite (PGROUNDDOWN_page a va), Z.sub_diag, Z.add_0_r by (done || lia). done.
      * apply page_indices; unfold PGSIZE, is_u32 in *; try done; lia.
  - destruct (Z.eqb_spec a (a + Z.of_nat (S n) * PGSIZE)); [unfold PGSIZE in *; lia|].
    rewrite !u32_id by (unfold is_u32, PGSIZE in *; lia).
    destruct (IH s2 pgdir T1 f1 (a + PGSIZE) (pa + PGSIZE) perm V2) as (r & s' & T' & f' & E & V' & F' & Hout & Hres).
    { unfold PGSIZE in *. Z.div_mod_to_equations. lia. }
    { unfold PGSIZE in *. lia. }
    { unfold PGSIZE in *. lia. }
    { unfold PGSIZE in *. lia. }
    { unfold PGSIZE in *. lia. }
    { done. }
    { intros va Hva. rewrite P2, bool_decide_eq_false_2; [apply Hun; unfold PGSIZE in *; lia|].
      rewrite page_indices; unfold PGSIZE, is_u32 in *; try done; lia. }
    replace (a + Z.of_nat (S n) * PGSIZE) with (a + PGSIZE + Z.of_nat n * PGSIZE) by (unfold PGSIZE; lia).
    exists r, s', T', f'. split; [exact E|]. split; [done|]. split; [by eapply vm_frame_trans|]. split.
    + intros va Hva Ho. rewrite Hout, P2, bool_decide_eq_false_2; [done| |done|unfold PGSIZE in *; lia].
      rewrite page_indices; unfold PGSIZE in *; try done; lia.
    + destruct Hres as [[-> Hin]|?]; [left|by right]. split; [done|]. intros va Hva.
      destruct (decide (va < a + PGSIZE)).
      * rewrite Hout, P2, bool_decide_eq_true_2.
        -- rewrite (PGROUNDDOWN_page a va), Z.sub_diag, Z.add_0_r by (done || lia). done.
        -- apply page_indices; unfold PGSIZE, is_u32 in *; try done; lia.
        -- unfold PGSIZE, is_u32 in *. lia.
        -- by left.
      * rewrite Hin by (unfold PGSIZE in *; lia). f_equal. lia.
Qed.

(** C9: Mapping pages.  For a page directory whose tables are its own, and a
    range of unmapped pages, [mappages] returns 0 with every page of the range
    (from the one holding [va] to the one holding [va + size - 1]) mapped to
    consecutive physical pages with the given permissions, or -1 when it ran
    out of pages; either way no mapping outside the range changes, the only
    memory written is the directory's own or was free, and no page is lost. *)
Theorem mappages_correct s pgdir T free va size pa perm :
  vm_ok s pgdir T free → 0 <= va → 0 < size → va + size <= 2 ^ 32 →
  0 <= pa → 0 <= perm < 4096 →
  let lo := PGROUNDDOWN va in
  let hi := PGROUNDDOWN (va + size - 1) + PGSIZE in
  pa + (hi - lo) <= 2 ^ 32 →
  (∀ va', lo <= va' < hi → has (pte_of (pm s) pgdir va') PTE_P = false) →
  ∃ r s' T' free', mappages pgdir va size pa perm s = Done r s' ∧
    vm_ok s' pgdir T' free' ∧ T' ++ free' ≡ₚ T ++ free ∧
    (∀ a, (∀ x, x ∈ pgdir :: T ++ free → ¬ in_page x a) → pm s' a = pm s a) ∧
    (∀ va', is_u32 va' → va' < lo ∨ hi <= va' → pte_of (pm s') pgdir va' = pte_of (pm s) pgdir va') ∧
    (r = 0 ∧ (∀ va', lo <= va' < hi → pte_of (pm s') pgdir va' = pte_val (pa + (PGROUNDDOWN va' - lo)) perm)
     ∨ r = -1 ∧ free' = []).
Proof.
  intros V Hva Hs Hvs Hpa Hperm lo hi Hps Hun. unfold mappages. fold lo.
  assert (Hlo : lo = PGSIZE * (va / PGSIZE)) by apply round_down.
  assert (Hhi : hi = PGSIZE * ((va + size - 1) / PGSIZE) + PGSIZE) by (unfold hi, PGROUNDDOWN; by rewrite round_down).
  rewrite (u32_id (va + size - 1)) by (unfold is_u32; lia). fold (PGROUNDDOWN (va + size - 1)).
  unfold PGSIZE in Hlo, Hhi. set (last := PGROUNDDOWN (va + size - 1)) in *. unfold hi, PGSIZE in Hhi, Hps.
  set (k := (last - lo) / PGSIZE).
  assert (Hk : 0 <= k ∧ last = lo + k * PGSIZE).
  { unfold k, PGSIZE. Z.div_mod_to_equations. lia. }
  rewrite (u32_id (last - lo)) by (unfold is_u32; Z.div_mod_to_equations; lia). fold k.
  destruct (mappages_loop_spec (Z.to_nat k) s pgdir T free lo pa perm)
    as (r & s' & T' & f' & E & V' & [F1 F2 F3] & Hout & Hres);
    rewrite ?Z2Nat.id in * by lia; try done.
  { rewrite Hlo. unfold PGSIZE. Z.div_mod_to_equations. lia. }
  { Z.div_mod_to_equations. lia. }
  { unfold PGSIZE in *. Z.div_mod_to_equations. lia. }
  { unfold PGSIZE in *. Z.div_mod_to_equations. lia. }
  { intros va' Hva'. apply Hun. unfold hi. lia. }
  exists r, s', T', f'. replace last with (lo + k * PGSIZE) by lia. split_and!; try done.
  - intros va' Hu Ho. apply Hout; [done|]. unfold hi in Ho. lia.
  - destruct Hres as [[-> Hin]|?]; [left; split; [done|]|by right]. intros va' Hv. apply Hin. unfold hi in Hv. lia.
Qed.

(** An empty page directory and two free pages. *)
Definition wit_dir : Z := KERNBASE + 8 * PGSIZE.
Definition wit_free : list Z := [KERNBASE + 9 * PGSIZE; KERNBASE + 10 * PGSIZE].
Definition wit_mem : mem := st32 (λ _, 0) (KERNBASE + 9 * PGSIZE) (KERNBASE + 10 * PGSIZE).
Definition wit_kmem (free : Z) : kmem := mkKmem wit_mem free 1 (KERNBASE + PGSIZE) 0.

Lemma wit_vm_ok : vm_ok (wit_kmem (KERNBASE + 9 * PGSIZE)) wit_dir [] wit_free.
Proof.
  assert (Hp : ∀ i, 0 <= i < 1024 → pde_at wit_mem wit_dir i = 0).
  { intros i Hi. unfold pde_at, wit_mem. rewrite ld32_st32_ne; [done|]. unfold wit_dir, PGSIZE. lia. }
  split; [split| |]; cbn [pm wit_kmem freelist kend].
  - split; [reflexivity|]. split; [|done]. unfold wit_mem. rewrite ld32_st32_eq. reflexivity.
  - apply NoDup_cons. split; [|apply NoDup_singleton]. by intros ?%list_elem_of_singleton.
  - intros x [->|[->|?%not_elem_of_nil]%elem_of_cons]%elem_of_cons; done.
  - split.
    + intros x [->|?%not_elem_of_nil]%elem_of_cons; done.
    + apply NoDup_singleton.
    + intros i Hi. by rewrite Hp.
    + intros i j Hi Hj. by rewrite Hp.
  - intros x [->|?%not_elem_of_nil]%elem_of_cons; [|done].
    by intros [?|[?|?%not_elem_of_nil]%elem_of_cons]%elem_of_cons.
Qed.

Lemma mappages_correct_witness :
  ∃ r s', mappages wit_dir 4196 100 8192 6 (wit_kmem (KERNBASE + 9 * PGSIZE)) = Done r s' ∧
    (r = 0 → pte_of (pm s') wit_dir 5000 = pte_val 8192 6).
Proof.
  destruct (mappages_correct (wit_kmem (KERNBASE + 9 * PGSIZE)) wit_dir [] wit_free 4196 100 8192 6)
    as (r & s' & T' & f' & E & _ & _ & _ & _ & H).
  - exact wit_vm_ok.
  - lia.
  - lia.
  - lia.
  - lia.
  - lia.
  - vm_compute. discriminate.
  - intros va Hva. unfold pte_of. replace (pde_at _ _ _) with 0; [reflexivity|].
    unfold pde_at. cbn [pm wit_kmem]. unfold wit_mem. rewrite ld32_st32_ne; [reflexivity|].
    pose proof (PDX_range va). unfold wit_dir, PGSIZE. lia.
  - exists r, s'. split; [exact E|]. clear E. intros ->. destruct H as [[_ H]|[? _]]; [|discriminate]. apply H. vm_compute. split; [discriminate|reflexivity].
Defined.

(** [allocuvm] ignores the result of [mappages]: with one free page, which
    it takes for the new user page, and none left for the page table, it
    returns the new size as if it had succeeded, and the page is not mapped. *)
Theorem allocuvm_reports_unmapped_page :
  match allocuvm wit_dir 0 PGSIZE (set_freelist (KERNBASE + 10 * PGSIZE) (wit_kmem 0)) with
  | Done r s' => r = PGSIZE ∧ pte_of (pm s') wit_dir 0 = 0 ∧ freelist s' = 0
  | _ => False
  end.
Proof. vm_compute. done. Qed.
