(* ===== verification/Fs.v ===== *)
(** * File system: blocks, inodes, directories, paths (fs.c, fs.h, file.h, stat.h)

    Layered on the log.  [fs] holds the log and cache, the superblock copy
    [sb], the inode cache, the device switch and console, and the two fields
    of the current process this layer reads ([proc->cwd], [proc->killed]).  A
    [struct inode *] is [Some] index into the inode cache, [None] for null;
    buffers of bytes passed by pointer are lists; a name or path is the list of
    its characters without the final NUL. *)

From S2P Require Import Prelude Bio Log Console.
#[local] Open Scope Z_scope.

Definition ROOTDEV : Z := 1.
Definition ROOTINO : Z := 1.
Definition NINODE : nat := 50.
Definition NDEV : Z := 10.
Definition NDIRECT : nat := 12.
Definition NINDIRECT : nat := 128.
Definition MAXFILE : Z := 140.
Definition IPB : Z := 8.
Definition BPB : Z := 4096.
Definition DIRSIZ : nat := 14.
Definition DINODE : nat := 64.
Definition DIRENT : Z := 16.
Arguments NINODE : simpl never.
Arguments NINDIRECT : simpl never.
Arguments BPB : simpl never.

Definition T_DIR : Z := 1.
Definition T_FILE : Z := 2.
Definition T_DEV : Z := 3.
Definition I_BUSY : Z := 1.
Definition I_VALID : Z := 2.

Definition IBLOCK (i : Z) (s : superblock) : Z := u32 (i / IPB + inodestart s).
Definition BBLOCK (b : Z) (s : superblock) : Z := u32 (b / BPB + bmapstart s).

Record inode := mkInode {
  i_dev : Z;
  i_num : Z;
  i_ref : Z;
  i_flags : Z;
  i_type : Z;
  i_major : Z;
  i_minor : Z;
  i_nlink : Z;
  i_size : Z;
  i_addrs : list Z;
}.

Definition set_i_dev (x : Z) (p : inode) : inode :=
  mkInode x (i_num p) (i_ref p) (i_flags p) (i_type p) (i_major p) (i_minor p) (i_nlink p) (i_size p) (i_addrs p).
Definition set_i_ref (x : Z) (p : inode) : inode :=
  mkInode (i_dev p) (i_num p) x (i_flags p) (i_type p) (i_major p) (i_minor p) (i_nlink p) (i_size p) (i_addrs p).
Definition set_i_flags (x : Z) (p : inode) : inode :=
  mkInode (i_dev p) (i_num p) (i_ref p) x (i_type p) (i_major p) (i_minor p) (i_nlink p) (i_size p) (i_addrs p).
Definition set_i_type (x : Z) (p : inode) : inode :=
  mkInode (i_dev p) (i_num p) (i_ref p) (i_flags p) x (i_major p) (i_minor p) (i_nlink p) (i_size p) (i_addrs p).
Definition set_i_major (x : Z) (p : inode) : inode :=
  mkInode (i_dev p) (i_num p) (i_ref p) (i_flags p) (i_type p) x (i_minor p) (i_nlink p) (i_size p) (i_addrs p).
Definition set_i_minor (x : Z) (p : inode) : inode :=
  mkInode (i_dev p) (i_num p) (i_ref p) (i_flags p) (i_type p) (i_major p) x (i_nlink p) (i_size p) (i_addrs p).
Definition set_i_nlink (x : Z) (p : inode) : inode :=
  mkInode (i_dev p) (i_num p) (i_ref p) (i_flags p) (i_type p) (i_major p) (i_minor p) x (i_size p) (i_addrs p).
Definition set_i_size (x : Z) (p : inode) : inode :=
  mkInode (i_dev p) (i_num p) (i_ref p) (i_flags p) (i_type p) (i_major p) (i_minor p) (i_nlink p) x (i_addrs p).
Definition set_i_addrs (x : list Z) (p : inode) : inode :=
  mkInode (i_dev p) (i_num p) (i_ref p) (i_flags p) (i_type p) (i_major p) (i_minor p) (i_nlink p) (i_size p) x.

Record stat := mkStat {
  st_type : Z;
  st_dev : Z;
  st_ino : Z;
  st_nlink : Z;
  st_size : Z;
}.

(** The functions a device switch entry may point to. *)
Inductive devfn := ConsoleFn.

Record devops := mkDevops {
  dev_read : option devfn;
  dev_write : option devfn;
}.

Notation iptr := (option nat).

Record fs := mkFs {
  flog : lst;
  sb : superblock;
  icache : nat → inode;
  devsw : Z → devops;
  fcons : cons;
  cur_cwd : iptr;
  cur_killed : bool;
}.

Definition set_flog (x : lst) (s : fs) : fs :=
  mkFs x (sb s) (icache s) (devsw s) (fcons s) (cur_cwd s) (cur_killed s).
Definition set_sb (x : superblock) (s : fs) : fs :=
  mkFs (flog s) x (icache s) (devsw s) (fcons s) (cur_cwd s) (cur_killed s).
Definition set_icache (x : nat → inode) (s : fs) : fs :=
  mkFs (flog s) (sb s) x (devsw s) (fcons s) (cur_cwd s) (cur_killed s).
Definition set_fcons (x : cons) (s : fs) : fs :=
  mkFs (flog s) (sb s) (icache s) (devsw s) x (cur_cwd s) (cur_killed s).

(** Routines of the log and of the buffer cache. *)
Definition lg_ {A} (m : M lst A) : M fs A := lift flog set_flog m.
Definition bc_ {A} (m : M io A) : M fs A := lg_ (io_ m).
Definition fwakeup (c : chan) : M fs unit := bc_ (wakeup c).

Definition inode_at (i : nat) : M fs inode := gets (λ s, icache s i).
Definition upd_inode (i : nat) (f : inode → inode) : M fs unit :=
  modify (λ s, set_icache (<[i := f (icache s i)]> (icache s)) s).
Definition upd_data (i : nat) (f : list Z → list Z) : M io unit :=
  upd_buf i (λ b, set_data (f (data b)) b).

(** ** Blocks *)

Definition bzero (dv bno : Z) : M fs unit :=
  bp ← bc_ (bread dv bno);
  bc_ (upd_data bp (λ _, replicate BSIZE 0));;
  lg_ (log_write bp);;
  bc_ (brelse bp).

(** [1 << (bi % 8)] *)
Definition bitmask (bi : Z) : Z := Z.shiftl 1 (bi mod 8).

(** The first clear bit [bi] with [b + bi < size], among the next [k]. *)
Fixpoint find_clear (k : nat) (d : list Z) (b bi size : Z) : option Z :=
  match k with
  | O => None
  | S k' =>
      if b + bi <? size then
        if Z.land (d !!! Z.to_nat (bi / 8)) (bitmask bi) =? 0 then Some bi
        else find_clear k' d b (bi + 1) size
      else None
  end.

(** One round of the loop over the bitmap: the bitmap block of group [g]. *)
Definition balloc_group (q : superblock) (dv : Z) (g : nat) : M fs (option Z) :=
  let b := Z.of_nat g * BPB in
  bp ← bc_ (bread dv (BBLOCK b q));
  x ← bc_ (buf_at bp);
  match find_clear (Z.to_nat BPB) (data x) b 0 (sb_size q) with
  | Some bi =>
      let k := Z.to_nat (bi / 8) in
      bc_ (upd_data bp (λ d, <[k := Z.lor (d !!! k) (bitmask bi)]> d));;
      lg_ (log_write bp);;
      bc_ (brelse bp);;
      bzero dv (b + bi);;
      mret (Some (b + bi))
  | None => bc_ (brelse bp);; mret None
  end.

Definition balloc (dv : Z) : M fs Z :=
  s ← get;
  r ← for_each (seq 0 (Z.to_nat ((sb_size (sb s) + BPB - 1) / BPB))) (balloc_group (sb s) dv);
  match r with
  | Some b => mret b
  | None => panic "balloc: out of blocks"
  end.

Definition bfree (dv b : Z) : M fs unit :=
  sb' ← lg_ (readsb dv);
  modify (set_sb sb');;
  bp ← bc_ (bread dv (BBLOCK b sb'));
  let bi := b mod BPB in
  let k := Z.to_nat (bi / 8) in
  x ← bc_ (buf_at bp);
  if Z.land (data x !!! k) (bitmask bi) =? 0 then panic "freeing free block" else
  bc_ (upd_data bp (λ d, <[k := Z.ldiff (d !!! k) (bitmask bi)]> d));;
  lg_ (log_write bp);;
  bc_ (brelse bp).

(** ** Inodes *)

Definition iinit (dv : Z) : M fs unit :=
  sb' ← lg_ (readsb dv);
  modify (set_sb sb').

(** Find the inode among slots [ks]; [empty] is the first free slot seen. *)
Fixpoint iget_scan (ic : nat → inode) (dv inum : Z) (ks : list nat) (empty : iptr) : nat + iptr :=
  match ks with
  | [] => inr empty
  | i :: ks' =>
      let p := ic i in
      if (0 <? i_ref p) && (i_dev p =? dv) && (i_num p =? inum) then inl i else
      iget_scan ic dv inum ks'
        (match empty with None => if i_ref p =? 0 then Some i else None | Some _ => empty end)
  end.

(** Never null: without a free slot it panics. *)
Definition iget (dv inum : Z) : M fs nat :=
  s ← get;
  match iget_scan (icache s) dv inum (seq 0 NINODE) None with
  | inl i => upd_inode i (λ p, set_i_ref (i_ref p + 1) p);; mret i
  | inr None => panic "iget: no inodes"
  | inr (Some i) =>
      upd_inode i (λ p, mkInode dv inum 1 0 (i_type p) (i_major p) (i_minor p) (i_nlink p) (i_size p) (i_addrs p));;
      mret i
  end.

Definition idup (i : nat) : M fs nat := upd_inode i (λ p, set_i_ref (i_ref p + 1) p);; mret i.

(** The on-disk inode [inum % IPB] of a block. *)
Definition doff (inum : Z) : nat := Z.to_nat (inum mod IPB) * DINODE.
Definition dip_type (d : list Z) (o : nat) : Z := s16 (get16 d o).
Definition dip_addrs (d : list Z) (o : nat) : list Z := (λ k, get32 d (o + 12 + 4 * k)) <$> seq 0 (NDIRECT + 1).

Fixpoint put_words (d : list Z) (o : nat) (l : list Z) : list Z :=
  match l with
  | [] => d
  | x :: l' => put_words (put32 d o x) (o + 4) l'
  end.

Definition ialloc (dv ty : Z) : M fs iptr :=
  s ← get;
  r ← for_each (seq 1 (Z.to_nat (ninodes (sb s)) - 1)) (λ k,
        let inum := Z.of_nat k in
        bp ← bc_ (bread dv (IBLOCK inum (sb s)));
        x ← bc_ (buf_at bp);
        if dip_type (data x) (doff inum) =? 0 then
          bc_ (upd_data bp (λ d, put16 (splice d (doff inum) (replicate DINODE 0)) (doff inum) ty));;
          lg_ (log_write bp);;
          bc_ (brelse bp);;
          ip ← iget dv inum;
          mret (Some ip)
        else bc_ (brelse bp);; mret None);
  match r with
  | Some ip => mret (Some ip)
  | None => panic "ialloc: no inodes"
  end.

(** [*dip = *ip] field by field. *)
Definition put_dinode (p : inode) (o : nat) (d : list Z) : list Z :=
  put_words (put32 (put16 (put16 (put16 (put16 d o (i_type p)) (o + 2) (i_major p)) (o + 4) (i_minor p))
    (o + 6) (i_nlink p)) (o + 8) (i_size p)) (o + 12) (i_addrs p).

Definition iupdate (i : nat) : M fs unit :=
  p ← inode_at i;
  s ← get;
  bp ← bc_ (bread (i_dev p) (IBLOCK (i_num p) (sb s)));
  bc_ (upd_data bp (put_dinode p (doff (i_num p))));;
  lg_ (log_write bp);;
  bc_ (brelse bp).

(** [*ip = *dip] field by field. *)
Definition get_dinode (d : list Z) (o : nat) (p : inode) : inode :=
  mkInode (i_dev p) (i_num p) (i_ref p) (i_flags p) (dip_type d o) (s16 (get16 d (o + 2)))
    (s16 (get16 d (o + 4))) (s16 (get16 d (o + 6))) (get32 d (o + 8)) (dip_addrs d o).

Definition ilock (ip : iptr) : M fs unit :=
  match ip with
  | None => panic "ilock"
  | Some i =>
      p ← inode_at i;
      if i_ref p <? 1 then panic "ilock" else
      if has (i_flags p) I_BUSY then sleep_on (ChInode i) else
      upd_inode i (λ p, set_i_flags (Z.lor (i_flags p) I_BUSY) p);;
      p ← inode_at i;
      if negb (has (i_flags p) I_VALID) then
        s ← get;
        bp ← bc_ (bread (i_dev p) (IBLOCK (i_num p) (sb s)));
        x ← bc_ (buf_at bp);
        upd_inode i (get_dinode (data x) (doff (i_num p)));;
        bc_ (brelse bp);;
        upd_inode i (λ p, set_i_flags (Z.lor (i_flags p) I_VALID) p);;
        p ← inode_at i;
        if i_type p =? 0 then panic "ilock: no type" else mret tt
      else mret tt
  end.

Definition iunlock (ip : iptr) : M fs unit :=
  match ip with
  | None => panic "iunlock"
  | Some i =>
      p ← inode_at i;
      if negb (has (i_flags p) I_BUSY) || (i_ref p <? 1) then panic "iunlock" else
      upd_inode i (λ p, set_i_flags (Z.ldiff (i_flags p) I_BUSY) p);;
      fwakeup (ChInode i)
  end.

(** ** Inode content *)

Definition bmap (i : nat) (bn : Z) : M fs Z :=
  p ← inode_at i;
  if bn <? Z.of_nat NDIRECT then
    let k := Z.to_nat bn in
    if i_addrs p !!! k =? 0 then
      addr ← balloc (i_dev p);
      upd_inode i (λ p, set_i_addrs (<[k := addr]> (i_addrs p)) p);;
      mret addr
    else mret (i_addrs p !!! k)
  else
  let bn := bn - Z.of_nat NDIRECT in
  if bn <? Z.of_nat NINDIRECT then
    addr ← (if i_addrs p !!! NDIRECT =? 0 then
              addr ← balloc (i_dev p);
              upd_inode i (λ p, set_i_addrs (<[NDIRECT := addr]> (i_addrs p)) p);;
              mret addr
            else mret (i_addrs p !!! NDIRECT));
    bp ← bc_ (bread (i_dev p) addr);
    x ← bc_ (buf_at bp);
    let k := (4 * Z.to_nat bn)%nat in
    addr ← (if get32 (data x) k =? 0 then
              addr ← balloc (i_dev p);
              bc_ (upd_data bp (λ d, put32 d k addr));;
              lg_ (log_write bp);;
              mret addr
            else mret (get32 (data x) k));
    bc_ (brelse bp);;
    mret addr
  else panic "bmap: out of range".

Definition itrunc (i : nat) : M fs unit :=
  iter_each (seq 0 NDIRECT) (λ k,
    p ← inode_at i;
    if negb (i_addrs p !!! k =? 0) then
      bfree (i_dev p) (i_addrs p !!! k);;
      upd_inode i (λ p, set_i_addrs (<[k := 0]> (i_addrs p)) p)
    else mret tt);;
  p ← inode_at i;
  (if negb (i_addrs p !!! NDIRECT =? 0) then
     bp ← bc_ (bread (i_dev p) (i_addrs p !!! NDIRECT));
     iter_each (seq 0 NINDIRECT) (λ j,
       x ← bc_ (buf_at bp);
       let a := get32 (data x) (4 * j) in
       if negb (a =? 0) then bfree (i_dev p) a else mret tt);;
     bc_ (brelse bp);;
     bfree (i_dev p) (i_addrs p !!! NDIRECT);;
     upd_inode i (λ p, set_i_addrs (<[NDIRECT := 0]> (i_addrs p)) p)
   else mret tt);;
  upd_inode i (set_i_size 0);;
  iupdate i.

Definition iput (i : nat) : M fs unit :=
  p ← inode_at i;
  (if (i_ref p =? 1) && has (i_flags p) I_VALID && (i_nlink p =? 0) then
     if has (i_flags p) I_BUSY then panic "iput busy" else
     upd_inode i (λ p, set_i_flags (Z.lor (i_flags p) I_BUSY) p);;
     itrunc i;;
     upd_inode i (set_i_type 0);;
     iupdate i;;
     upd_inode i (set_i_flags 0);;
     fwakeup (ChInode i)
   else mret tt);;
  upd_inode i (λ p, set_i_ref (i_ref p - 1) p).

Definition iunlockput (i : nat) : M fs unit :=
  iunlock (Some i);;
  iput i.

Definition stati (i : nat) : M fs stat :=
  p ← inode_at i;
  mret (mkStat (i_type p) (i_dev p) (i_num p) (i_nlink p) (i_size p)).

(** ** Devices: the console as a file *)

(** Returns the result and the bytes stored at [dst].  A sleeping reader keeps
    what the loop consumed. *)
Definition consoleread (i : nat) (n : Z) : M fs (Z * list Z) :=
  iunlock (Some i);;
  killed ← gets cur_killed;
  r ← lift_with (λ s, mkCread (fcons s) n []) (λ c, set_fcons (rcons c)) (λ r c, (r, rdst c))
        (consoleread_loop (Z.to_nat INPUT_BUF + 1) killed n);
  ilock (Some i);;
  mret r.

Definition consolewrite (i : nat) (buf : list Z) : M fs Z :=
  iunlock (Some i);;
  lift fcons set_fcons (consolewrite_chars buf);;
  ilock (Some i);;
  mret (Z.of_nat (length buf)).

Definition consoleinit : M fs unit :=
  modify (λ s, mkFs (flog s) (sb s) (icache s) (<[1 := mkDevops (Some ConsoleFn) (Some ConsoleFn)]> (devsw s))
    (mkCons 1 (panicked (fcons s)) (uart (fcons s)) (serial (fcons s)) (crt (fcons s)) (cursor (fcons s))
       (ibuf (fcons s)) (ir (fcons s)) (iw (fcons s)) (ie (fcons s)) (cwoken (fcons s)))
    (cur_cwd s) (cur_killed s)).

(** ** Reading and writing *)

Definition MAXM (n tot off : Z) : Z := Z.min (n - tot) (Z.of_nat BSIZE - off mod Z.of_nat BSIZE).

(** [for(tot=0; tot<n; tot+=m, off+=m, dst+=m)]: every turn moves at least one
    byte. *)
Fixpoint readi_loop (fuel : nat) (i : nat) (tot off n : Z) (dst : list Z) : M fs (list Z) :=
  if tot <? n then
    match fuel with
    | O => out_of_fuel
    | S fuel' =>
        addr ← bmap i (off / Z.of_nat BSIZE);
        p ← inode_at i;
        bp ← bc_ (bread (i_dev p) addr);
        let m := MAXM n tot off in
        x ← bc_ (buf_at bp);
        bc_ (brelse bp);;
        readi_loop fuel' i (tot + m) (off + m) n
          (dst ++ slice (data x) (Z.to_nat (off mod Z.of_nat BSIZE)) (Z.to_nat m))
    end
  else mret dst.

(** Returns the result and the bytes copied to [dst]. *)
Definition readi (i : nat) (off n : Z) : M fs (Z * list Z) :=
  p ← inode_at i;
  s ← get;
  if i_type p =? T_DEV then
    if (i_major p <? 0) || (NDEV <=? i_major p) then mret (-1, []) else
    match dev_read (devsw s (i_major p)) with
    | None => mret (-1, [])
    | Some ConsoleFn => consoleread i (s32 n)
    end
  else
  if (i_size p <? off) || (u32 (off + n) <? off) then mret (-1, []) else
  let n := if i_size p <? u32 (off + n) then i_size p - off else n in
  dst ← readi_loop (Z.to_nat n) i 0 off n [];
  mret (s32 n, dst).

Fixpoint writei_loop (fuel : nat) (i : nat) (tot off n : Z) (src : list Z) : M fs Z :=
  if tot <? n then
    match fuel with
    | O => out_of_fuel
    | S fuel' =>
        addr ← bmap i (off / Z.of_nat BSIZE);
        p ← inode_at i;
        bp ← bc_ (bread (i_dev p) addr);
        let m := MAXM n tot off in
        bc_ (upd_data bp (λ d, splice d (Z.to_nat (off mod Z.of_nat BSIZE)) (slice src (Z.to_nat tot) (Z.to_nat m))));;
        lg_ (log_write bp);;
        bc_ (brelse bp);;
        writei_loop fuel' i (tot + m) (off + m) n src
    end
  else mret off.

(** [src] holds the [n] bytes to write. *)
Definition writei (i : nat) (src : list Z) (off : Z) : M fs Z :=
  let n := Z.of_nat (length src) in
  p ← inode_at i;
  s ← get;
  if i_type p =? T_DEV then
    if (i_major p <? 0) || (NDEV <=? i_major p) then mret (-1) else
    match dev_write (devsw s (i_major p)) with
    | None => mret (-1)
    | Some ConsoleFn => consolewrite i src
    end
  else
  if (i_size p <? off) || (u32 (off + n) <? off) then mret (-1) else
  if MAXFILE * Z.of_nat BSIZE <? u32 (off + n) then mret (-1) else
  off ← writei_loop (Z.to_nat n) i 0 off n src;
  p ← inode_at i;
  (if (0 <? n) && (i_size p <? off) then upd_inode i (set_i_size off);; iupdate i else mret tt);;
  mret n.

(** ** Directories *)

(** [strncmp] on strings held as lists: NUL beyond the end. *)
Fixpoint lstrncmp (p q : list Z) (n : nat) : Z :=
  match n with
  | O => 0
  | S n' =>
      if negb (hd 0 p =? 0) && (hd 0 p =? hd 0 q) then lstrncmp (tail p) (tail q) n'
      else hd 0 p - hd 0 q
  end.

Definition namecmp (s t : list Z) : Z := lstrncmp s t DIRSIZ.

(** [for(off = 0; off < dp->size; off += sizeof(de))] as a list of offsets. *)
Definition dir_offsets (size : Z) : list Z := (λ k, DIRENT * Z.of_nat k) <$> seq 0 (Z.to_nat ((size + DIRENT - 1) / DIRENT)).

Definition read_dirent (msg : string) (i : nat) (off : Z) : M fs (list Z) :=
  '(r, de) ← readi i off DIRENT;
  if negb (r =? DIRENT) then panic msg else mret de.

(** The inode found and the offset of its entry. *)
Definition dirlookup (i : nat) (name : list Z) : M fs (option (nat * Z)) :=
  dp ← inode_at i;
  if negb (i_type dp =? T_DIR) then panic "dirlookup not DIR" else
  for_each (dir_offsets (i_size dp)) (λ off,
        de ← read_dirent "dirlink read" i off;
        if get16 de 0 =? 0 then mret None else
        if namecmp name (drop 2 de) =? 0 then
          ip ← iget (i_dev dp) (get16 de 0);
          mret (Some (ip, off))
        else mret None).

Definition dirlink (i : nat) (name : list Z) (inum : Z) : M fs Z :=
  ip ← dirlookup i name;
  match ip with
  | Some (k, _) => iput k;; mret (-1)
  | None =>
      dp ← inode_at i;
      r ← for_each (dir_offsets (i_size dp)) (λ off,
            de ← read_dirent "dirlink read" i off;
            mret (if get16 de 0 =? 0 then Some off else None));
      let off := default (DIRENT * ((i_size dp + DIRENT - 1) / DIRENT)) r in
      let de := put16 (0 :: 0 :: take DIRSIZ (name ++ replicate DIRSIZ 0)) 0 inum in
      r ← writei i de off;
      if negb (r =? DIRENT) then panic "dirlink" else mret 0
  end.

(** ** Paths *)

Fixpoint skip_slashes (path : list Z) : list Z :=
  match path with
  | c :: path' => if c =? 47 then skip_slashes path' else path
  | [] => []
  end.

(** The characters before the next slash, and the rest. *)
Fixpoint take_elem (path : list Z) : list Z * list Z :=
  match path with
  | c :: path' => if c =? 47 then ([], path) else let '(e, rest) := take_elem path' in (c :: e, rest)
  | [] => ([], [])
  end.

(** The rest of the path and the name copied, or [None] for no element. *)
Definition skipelem (path : list Z) : option (list Z * list Z) :=
  match skip_slashes path with
  | [] => None
  | path => let '(e, rest) := take_elem path in Some (skip_slashes rest, take DIRSIZ e)
  end.

Fixpoint namex_loop (fuel : nat) (ip : nat) (path : list Z) (parent : bool) (name : list Z) : M fs (iptr * list Z) :=
  match skipelem path with
  | None => if parent then iput ip;; mret (None, name) else mret (Some ip, name)
  | Some (path, name) =>
      match fuel with
      | O => out_of_fuel
      | S fuel' =>
          ilock (Some ip);;
          p ← inode_at ip;
          if negb (i_type p =? T_DIR) then iunlockput ip;; mret (None, name) else
          if parent && bool_decide (path = []) then iunlock (Some ip);; mret (Some ip, name) else
          next ← dirlookup ip name;
          match next with
          | None => iunlockput ip;; mret (None, name)
          | Some (next, _) => iunlockput ip;; namex_loop fuel' next path parent name
          end
      end
  end.

Definition namex (path : list Z) (parent : bool) : M fs (iptr * list Z) :=
  s ← get;
  ip ← (if hd 0 path =? 47 then iget ROOTDEV ROOTINO
        else match cur_cwd s with Some c => idup c | None => panic "null pointer" end);
  namex_loop (length path) ip path parent [].

Definition namei (path : list Z) : M fs iptr :=
  '(ip, _) ← namex path false;
  mret ip.

Definition nameiparent (path : list Z) : M fs (iptr * list Z) := namex path true.
