(* ===== verification/Pipe.v ===== *)
(** * Pipes (pipe.c)

    A pipe is a ring of [PIPESIZE] bytes with two [uint] counters that wrap.
    A reader or writer that sleeps keeps its position in the caller's buffer:
    [wst] and [rst] are the pipe with the locals of the sleeping routine.
    [pipe_ok p q] says that the ring holds the queue [q]; [pipe_step] is the
    interleaving of readers and writers on one pipe. *)

From S2P Require Import Prelude.
#[local] Open Scope Z_scope.

Definition PIPESIZE : Z := 512.

Record pipe := mkPipe {
  pdata : Z → Z;
  nread : Z;
  nwrite : Z;
  readopen : bool;
  writeopen : bool;
}.

Definition set_nread (x : Z) (p : pipe) : pipe := mkPipe (pdata p) x (nwrite p) (readopen p) (writeopen p).

(** [p->data[p->nwrite++ % PIPESIZE] = c] *)
Definition pipe_put (c : Z) (p : pipe) : pipe :=
  mkPipe (<[nwrite p mod PIPESIZE := c]> (pdata p)) (nread p) (u32 (nwrite p + 1)) (readopen p) (writeopen p).

(** [p->data[p->nread % PIPESIZE]] *)
Definition pipe_peek (p : pipe) : Z := pdata p (nread p mod PIPESIZE).

(** The pipe, the wakeups called and the bytes of [addr] not written yet. *)
Record wst := mkWst {
  wpipe : pipe;
  wwoken : list chan;
  wleft : list Z;
}.

(** [pp] is the address of the pipe, [killed] is [proc->killed]. *)
Fixpoint pipewrite_loop (pp : Z) (killed : bool) (left : list Z) : M wst bool :=
  match left with
  | [] => mret true
  | c :: left' =>
      s ← get;
      let p := wpipe s in
      if nwrite p =? u32 (nread p + PIPESIZE) then
        if negb (readopen p) || killed then mret false else
        modify (λ s, mkWst (wpipe s) (wwoken s ++ [ChPipeRead pp]) (wleft s));;
        sleep_on (ChPipeWrite pp)
      else
        put (mkWst (pipe_put c p) (wwoken s) left');;
        pipewrite_loop pp killed left'
  end.

(** [n] is the result when all of [addr[0..n]] has been written. *)
Definition pipewrite (pp : Z) (killed : bool) (n : Z) : M wst Z :=
  s ← get;
  ok ← pipewrite_loop pp killed (wleft s);
  if negb ok then mret (-1) else
  modify (λ s, mkWst (wpipe s) (wwoken s ++ [ChPipeRead pp]) (wleft s));;
  mret n.

(** The pipe, the wakeups called and the bytes stored at [addr]. *)
Record rst := mkRst {
  rpipe : pipe;
  rwoken : list chan;
  rbytes : list Z;
}.

Fixpoint piperead_copy (n : nat) : M rst unit :=
  match n with
  | O => mret tt
  | S n' =>
      s ← get;
      let p := rpipe s in
      if nread p =? nwrite p then mret tt else
      put (mkRst (set_nread (u32 (nread p + 1)) p) (rwoken s) (rbytes s ++ [pipe_peek p]));;
      piperead_copy n'
  end.

Definition piperead (pp : Z) (killed : bool) (n : Z) : M rst Z :=
  s ← get;
  if (nread (rpipe s) =? nwrite (rpipe s)) && writeopen (rpipe s) then
    if killed then mret (-1) else sleep_on (ChPipeRead pp)
  else
  piperead_copy (Z.to_nat n);;
  modify (λ s, mkRst (rpipe s) (rwoken s ++ [ChPipeWrite pp]) (rbytes s));;
  s' ← get;
  mret (Z.of_nat (length (rbytes s')) - Z.of_nat (length (rbytes s))).

(** [p->readopen = 1; p->writeopen = 1; p->nwrite = 0; p->nread = 0] *)
Definition pipe_init (p : pipe) : pipe := mkPipe (pdata p) 0 0 true true.

(** Close one end; the wakeup it calls, and whether the page is freed. *)
Definition pipe_close (pp : Z) (writable : bool) (p : pipe) : pipe * chan * bool :=
  let p' := if writable then mkPipe (pdata p) (nread p) (nwrite p) (readopen p) false
            else mkPipe (pdata p) (nread p) (nwrite p) false (writeopen p) in
  (p', if writable then ChPipeRead pp else ChPipeWrite pp, negb (readopen p') && negb (writeopen p')).

(** ** The ring as a queue *)

Record pipe_ok (p : pipe) (q : list Z) : Prop := {
  po_r : is_u32 (nread p);
  po_w : nwrite p = u32 (nread p + Z.of_nat (length q));
  po_cap : Z.of_nat (length q) <= PIPESIZE;
  po_data k c : q !! k = Some c → pdata p ((nread p + Z.of_nat k) mod PIPESIZE) = c;
}.

Lemma u32_mod_PIPESIZE x : u32 x mod PIPESIZE = x mod PIPESIZE.
Proof.
  unfold u32, PIPESIZE. change (2 ^ 32) with (512 * 8388608).
  rewrite Z.rem_mul_r by lia. rewrite Z.add_mod, Z.mul_comm, Z.mod_mul, Z.add_0_r, !Z.mod_mod by lia. done.
Qed.

Lemma pipe_ok_empty p : is_u32 (nread p) → pipe_ok p [] ↔ nread p = nwrite p.
Proof.
  intros Hr. split.
  - intros [_ Hw _ _]. rewrite Hw. cbn. by rewrite Z.add_0_r, u32_id.
  - intros Hw. split; try done. cbn. by rewrite Z.add_0_r, u32_id.
Qed.

(** The counters are equal exactly when the queue is empty. *)
Lemma pipe_empty p q : pipe_ok p q → (nread p =? nwrite p) = bool_decide (q = []).
Proof.
  intros [Hr Hw Hc _]. rewrite Hw. unfold is_u32, PIPESIZE in *. destruct q as [|c q]; cbn [length] in *.
  - rewrite Z.add_0_r, u32_id by done. by rewrite Z.eqb_refl.
  - rewrite bool_decide_eq_false_2 by done. apply Z.eqb_neq. unfold u32. intros H.
    Z.div_mod_to_equations. lia.
Qed.

(** They differ by [PIPESIZE] exactly when it is full. *)
Lemma pipe_full p q :
  pipe_ok p q → (nwrite p =? u32 (nread p + PIPESIZE)) = (Z.of_nat (length q) =? PIPESIZE).
Proof.
  intros [Hr Hw Hc _]. rewrite Hw. unfold is_u32, PIPESIZE in *.
  destruct (Z.eqb_spec (Z.of_nat (length q)) 512) as [->|Hne]; [apply Z.eqb_refl|].
  apply Z.eqb_neq. unfold u32. intros H. Z.div_mod_to_equations. lia.
Qed.

Lemma pipe_put_ok p q c :
  pipe_ok p q → Z.of_nat (length q) < PIPESIZE → pipe_ok (pipe_put c p) (q ++ [c]).
Proof.
  intros [Hr Hw Hc Hd] Hlt. split; cbn; try done.
  - rewrite Hw, length_app. cbn. unfold u32. rewrite Zplus_mod_idemp_l. f_equal. lia.
  - rewrite length_app. cbn. lia.
  - intros k x Hk. rewrite Hw, u32_mod_PIPESIZE. apply lookup_app_Some in Hk as [Hk|[Hge Hk]].
    + pose proof (lookup_lt_Some _ _ _ Hk) as Hkl. rewrite fn_lookup_insert_ne; [by apply Hd|].
      unfold PIPESIZE in *. intros H. Z.div_mod_to_equations. lia.
    + apply list_lookup_singleton_Some in Hk as [Hk ->].
      replace (Z.of_nat k) with (Z.of_nat (length q)) by lia. by rewrite fn_lookup_insert.
Qed.

Lemma pipe_get_ok p c q :
  pipe_ok p (c :: q) → pipe_peek p = c ∧ pipe_ok (set_nread (u32 (nread p + 1)) p) q.
Proof.
  intros [Hr Hw Hc Hd]. split.
  - unfold pipe_peek. rewrite <- (Hd 0%nat c eq_refl). f_equal. f_equal. lia.
  - split; cbn; [apply u32_range| |cbn in *; lia|].
    + rewrite Hw. cbn [length]. unfold u32. rewrite Zplus_mod_idemp_l. f_equal. lia.
    + intros k x Hk. rewrite <- (Hd (S k) x Hk), <- u32_mod_PIPESIZE.
      f_equal. rewrite <- (u32_mod_PIPESIZE (nread p + Z.of_nat (S k))). f_equal.
      unfold u32. rewrite Zplus_mod_idemp_l. f_equal. lia.
Qed.

(** ** Functional behaviour *)

Definition room (q : list Z) : nat := Z.to_nat PIPESIZE - length q.

(** The result of writing [left] to a pipe that holds [q]. *)
Definition write_outcome (pp : Z) (killed : bool) (p : pipe) (left q : list Z) (p' : pipe) (w : list chan)
    (o : outcome wst bool) : Prop :=
  if bool_decide (length left <= room q)%nat then o = Done true (mkWst p' w []) else
  if negb (readopen p) || killed then o = Done false (mkWst p' w (drop (room q) left))
  else o = Sleep (ChPipeWrite pp) (mkWst p' (w ++ [ChPipeRead pp]) (drop (room q) left)).

Lemma pipewrite_loop_spec pp killed left : ∀ p w q,
  pipe_ok p q → ∃ p', pipe_ok p' (q ++ take (room q) left) ∧
    readopen p' = readopen p ∧ writeopen p' = writeopen p ∧
    write_outcome pp killed p left q p' w (pipewrite_loop pp killed left (mkWst p w left)).
Proof.
  induction left as [|c left IH]; intros p w q Hp; cbn [pipewrite_loop].
  { exists p. unfold write_outcome. rewrite take_nil, app_nil_r, bool_decide_eq_true_2 by (cbn; lia). done. }
  mgo. cbn [wpipe]. rewrite (pipe_full _ _ Hp). pose proof (po_cap _ _ Hp) as Hc.
  destruct (Z.eqb_spec (Z.of_nat (length q)) PIPESIZE) as [Hf|Hf].
  - exists p. unfold write_outcome. assert (room q = 0%nat) as -> by (unfold room, PIPESIZE in *; lia).
    rewrite take_0, app_nil_r, drop_0, bool_decide_eq_false_2 by (cbn; lia).
    split_and!; try done. by destruct (readopen p), killed.
  - mgo. cbn [wwoken]. destruct (IH (pipe_put c p) w (q ++ [c])) as (p' & Hp' & Hr & Hw & Ho); [apply pipe_put_ok; [done|lia]|].
    assert (room q = S (room (q ++ [c]))) as E by (unfold room, PIPESIZE in *; rewrite length_app; cbn; lia).
    exists p'. rewrite E. cbn [take]. split_and!; [by rewrite (cons_middle c), app_assoc|done|done|].
    revert Ho. unfold write_outcome. rewrite E. cbn [length drop readopen pipe_put].
    rewrite (bool_decide_ext (S (length left) <= S (room (q ++ [c])))%nat (length left <= room (q ++ [c]))%nat) by lia.
    done.
Qed.

Lemma piperead_copy_spec n : ∀ p w bs q,
  pipe_ok p q → ∃ p', pipe_ok p' (drop n q) ∧ readopen p' = readopen p ∧ writeopen p' = writeopen p ∧
    piperead_copy n (mkRst p w bs) = Done tt (mkRst p' w (bs ++ take n q)).
Proof.
  induction n as [|n IH]; intros p w bs q Hp; cbn [piperead_copy].
  { exists p. by rewrite take_0, drop_0, app_nil_r. }
  mgo. cbn [rpipe]. rewrite (pipe_empty _ _ Hp). destruct q as [|c q].
  { exists p. by rewrite app_nil_r. }
  rewrite bool_decide_eq_false_2 by done. mgo. apply pipe_get_ok in Hp as [-> Hp].
  cbn [rwoken rbytes]. destruct (IH _ w (bs ++ [c]) q Hp) as (p' & Hp' & Hr & Hw & ->).
  exists p'. split_and!; [done..|]. cbn [take]. by rewrite <- app_assoc.
Qed.

(**  [pipewrite] appends to the queue: with room for all [n] bytes it
    queues them, wakes the readers and returns [n]; otherwise it queues what
    fits and then either returns -1 (no reader left, or the process has been
    killed) or wakes the readers and sleeps until there is room, keeping the
    bytes not written yet. *)
Theorem pipewrite_correct pp killed p w src q :
  pipe_ok p q → ∃ p', pipe_ok p' (q ++ take (room q) src) ∧
    readopen p' = readopen p ∧ writeopen p' = writeopen p ∧
    pipewrite pp killed (Z.of_nat (length src)) (mkWst p w src) =
      if bool_decide (length src <= room q)%nat
      then Done (Z.of_nat (length src)) (mkWst p' (w ++ [ChPipeRead pp]) [])
      else if negb (readopen p) || killed then Done (-1) (mkWst p' w (drop (room q) src))
      else Sleep (ChPipeWrite pp) (mkWst p' (w ++ [ChPipeRead pp]) (drop (room q) src)).
Proof.
  intros Hp. unfold pipewrite. mgo. cbn [wleft].
  destruct (pipewrite_loop_spec pp killed src p w q Hp) as (p' & Hp' & Hr & Hw & Ho).
  exists p'. split_and!; [done..|]. unfold write_outcome in Ho. case_bool_decide.
  - by erewrite bind_Done by exact Ho.
  - destruct (negb (readopen p) || killed); [by erewrite bind_Done by exact Ho|].
    unfold mbind, M_bind. by rewrite Ho.
Qed.

(**  [piperead] takes from the front of the queue: it sleeps (or returns -1
    when killed) while the pipe is empty and has a writer; otherwise it returns
    the first [n] bytes, or as many as there are, and wakes the writers. *)
Theorem piperead_correct pp killed p w n q :
  pipe_ok p q → ∃ p', pipe_ok p' (if bool_decide (q = []) && writeopen p then q else drop (Z.to_nat n) q) ∧
    readopen p' = readopen p ∧ writeopen p' = writeopen p ∧
    piperead pp killed n (mkRst p w []) =
      if bool_decide (q = []) && writeopen p
      then if killed then Done (-1) (mkRst p' w []) else Sleep (ChPipeRead pp) (mkRst p' w [])
      else Done (Z.of_nat (length (take (Z.to_nat n) q)))
             (mkRst p' (w ++ [ChPipeWrite pp]) (take (Z.to_nat n) q)).
Proof.
  intros Hp. unfold piperead. mgo. cbn [rpipe]. rewrite (pipe_empty _ _ Hp).
  destruct (bool_decide (q = []) && writeopen p) eqn:E.
  { exists p. by destruct killed. }
  destruct (piperead_copy_spec (Z.to_nat n) p w [] q Hp) as (p' & Hp' & Hr & Hw & Hc).
  exists p'. split_and!; [done..|]. erewrite bind_Done by exact Hc. munfold. f_equal. lia.
Qed.

(** ** Streams

    All that was queued by writers, and all that readers took, in order. *)
Record stream := mkStream {
  spipe : pipe;
  sent : list Z;
  rcvd : list Z;
}.

Inductive pipe_step (pp : Z) : stream → stream → Prop :=
  | step_write st killed src s' :
      left_in (pipewrite pp killed (Z.of_nat (length src)) (mkWst (spipe st) [] src)) = Some s' →
      pipe_step pp st (mkStream (wpipe s')
        (sent st ++ take (length src - length (wleft s')) src) (rcvd st))
  | step_read st killed n s' :
      left_in (piperead pp killed n (mkRst (spipe st) [] [])) = Some s' →
      pipe_step pp st (mkStream (rpipe s') (sent st) (rcvd st ++ rbytes s'))
  | step_close st writable :
      pipe_step pp st (mkStream (pipe_close pp writable (spipe st)).1.1 (sent st) (rcvd st)).

Definition stream_ok (st : stream) : Prop :=
  ∃ q, pipe_ok (spipe st) q ∧ sent st = rcvd st ++ q.

Lemma pipe_step_ok pp st st' : stream_ok st → pipe_step pp st st' → stream_ok st'.
Proof.
  intros (q & Hp & Hs) Hstep. destruct Hstep as [st killed src s' H|st killed n s' H|st writable].
  - destruct (pipewrite_loop_spec pp killed src (spipe st) [] q Hp) as (p' & Hp' & _ & _ & Ho).
    exists (q ++ take (room q) src). cbn. rewrite Hs.
    unfold pipewrite in H. erewrite bind_Done in H by done. cbn [wleft] in H. unfold write_outcome in Ho.
    case_bool_decide as Hl.
    + erewrite bind_Done in H by exact Ho. injection H as <-. cbn. rewrite Nat.sub_0_r.
      rewrite !take_ge by lia. by rewrite app_assoc, take_ge in * by lia.
    + assert (take (length src - length (drop (room q) src)) src = take (room q) src) as Et.
      { f_equal. rewrite length_drop. lia. }
      destruct (negb (readopen (spipe st)) || killed).
      * erewrite bind_Done in H by exact Ho. injection H as <-. cbn. by rewrite Et, app_assoc.
      * unfold mbind, M_bind in H. rewrite Ho in H. injection H as <-. cbn. by rewrite Et, app_assoc.
  - unfold piperead in H. erewrite bind_Done in H by done. cbn [rpipe] in H.
    rewrite (pipe_empty _ _ Hp) in H. destruct (bool_decide (q = []) && writeopen (spipe st)).
    + exists q. destruct killed; injection H as <-; cbn; by rewrite app_nil_r.
    + destruct (piperead_copy_spec (Z.to_nat n) (spipe st) [] [] q Hp) as (p' & Hp' & _ & _ & Hc).
      erewrite bind_Done in H by exact Hc. injection H as <-. exists (drop (Z.to_nat n) q). cbn.
      by rewrite <- app_assoc, take_drop.
  - exists q. cbn. split; [|done]. destruct Hp as [? ? ? ?], writable; by split.
Qed.

(** C22.  A pipe is a bounded FIFO: however reads, writes and closes interleave,
    from a fresh pipe on, the bytes readers have taken are a prefix, in order,
    of the bytes writers have queued, at most [PIPESIZE] are in between, and
    they are exactly what the ring holds — also after the counters wrap. *)
Theorem pipe_fifo pp p0 st :
  rtc (pipe_step pp) (mkStream (pipe_init p0) [] []) st →
  ∃ q, pipe_ok (spipe st) q ∧ sent st = rcvd st ++ q ∧ Z.of_nat (length q) <= PIPESIZE.
Proof.
  intros Hrun. assert (stream_ok st) as (q & Hp & Hs).
  { assert (stream_ok (mkStream (pipe_init p0) [] [])) as H0.
    { exists []. split; [|done]. by apply pipe_ok_empty. }
    revert H0. induction Hrun as [|x y z Hxy _ IH]; [done|]. eauto using pipe_step_ok. }
  exists q. split_and!; [done..|]. apply (po_cap _ _ Hp).
Qed.

Definition wit_pipe : pipe := pipe_init (mkPipe (λ _, 0) 0 0 false false).

Lemma pipewrite_correct_witness : ∃ p', pipe_ok p' ([] ++ take 512 (replicate 600 7)) ∧
  pipewrite 5 false 600 (mkWst wit_pipe [] (replicate 600 7)) =
    Sleep (ChPipeWrite 5) (mkWst p' [ChPipeRead 5] (replicate 88 7)).
Proof.
  destruct (pipewrite_correct 5 false wit_pipe [] (replicate 600 7) []) as (p' & Hp & _ & _ & Ho).
  - by apply pipe_ok_empty.
  - exists p'. split; [exact Hp|]. exact Ho.
Defined.

Lemma piperead_correct_witness : ∃ p',
  piperead 5 false 2 (mkRst (pipe_put 8 (pipe_put 7 (pipe_put 6 wit_pipe))) [] []) =
    Done 2 (mkRst p' [ChPipeWrite 5] [6; 7]) ∧ pipe_ok p' [8].
Proof.
  destruct (piperead_correct 5 false (pipe_put 8 (pipe_put 7 (pipe_put 6 wit_pipe))) [] 2 [6; 7; 8])
    as (p' & Hp & _ & _ & Ho).
  - change [6; 7; 8] with (([] ++ [6]) ++ [7] ++ [8]). rewrite app_assoc.
    repeat (apply pipe_put_ok; [|cbn; unfold PIPESIZE; lia]). by apply pipe_ok_empty.
  - exists p'. split; [exact Ho|exact Hp].
Defined.

Lemma pipe_fifo_witness : ∃ st, sent st = [6; 7; 8] ∧ rcvd st = [6; 7] ∧ ∃ q, pipe_ok (spipe st) q ∧ sent st = rcvd st ++ q.
Proof.
  eexists (mkStream _ [6; 7; 8] [6; 7]). split_and!; [done..|].
  edestruct (pipe_fifo 5 wit_pipe) as (q & Hq & Hs & _); [|exists q; split; [exact Hq|exact Hs]].
  eapply rtc_l; [eapply (step_write 5 _ false [6; 7; 8]); reflexivity|].
  eapply rtc_l; [eapply (step_read 5 _ false 2); reflexivity|]. apply rtc_refl.
Defined.
