(* ===== verification/File.v ===== *)
(** * Open files (file.c, pipealloc and pipeclose of pipe.c)

    The file table over the file system, the page allocator and the pipes.  A
    [struct file *] is an index into [ftab]; [struct pipe] lives in a page of
    [kalloc], and [pipes] gives its fields by the address of the page.  A
    buffer [addr] of user memory is the list of bytes read from it or to be
    stored in it; the caller moves them. *)

From S2P Require Import Prelude Bio Log Console Fs CString Kalloc Pipe.
#[local] Open Scope Z_scope.

Definition NFILE : nat := 100.
Definition NOFILE : nat := 16.
Arguments NFILE : simpl never.

Inductive ftype := FD_NONE | FD_PIPE | FD_INODE.

#[export] Instance ftype_eq_dec : EqDecision ftype.
Proof. solve_decision. Defined.

Record file := mkFile {
  f_type : ftype;
  f_ref : Z;
  readable : bool;
  writable : bool;
  f_pipe : Z;
  f_ip : iptr;
  f_off : Z;
}.

Definition set_f_ref (x : Z) (f : file) : file :=
  mkFile (f_type f) x (readable f) (writable f) (f_pipe f) (f_ip f) (f_off f).
Definition set_f_type (x : ftype) (f : file) : file :=
  mkFile x (f_ref f) (readable f) (writable f) (f_pipe f) (f_ip f) (f_off f).
Definition set_f_off (x : Z) (f : file) : file :=
  mkFile (f_type f) (f_ref f) (readable f) (writable f) (f_pipe f) (f_ip f) x.

Record fst := mkFst {
  ffs : fs;
  ftab : nat → file;
  fkm : kmem;
  pipes : Z → pipe;
}.

Definition set_ffs (x : fs) (s : fst) : fst := mkFst x (ftab s) (fkm s) (pipes s).
Definition set_ftab (x : nat → file) (s : fst) : fst := mkFst (ffs s) x (fkm s) (pipes s).
Definition set_fkm (x : kmem) (s : fst) : fst := mkFst (ffs s) (ftab s) x (pipes s).
Definition set_pipes (x : Z → pipe) (s : fst) : fst := mkFst (ffs s) (ftab s) (fkm s) x.

(** Routines of the file system, of the log and of the page allocator. *)
Definition fs_ {A} (m : M fs A) : M fst A := lift ffs set_ffs m.
Definition log_ {A} (m : M lst A) : M fst A := fs_ (lg_ m).
Definition km_ {A} (m : M kmem A) : M fst A := lift fkm set_fkm m.

Definition file_at (f : nat) : M fst file := gets (λ s, ftab s f).
Definition upd_file (f : nat) (g : file → file) : M fst unit :=
  modify (λ s, set_ftab (<[f := g (ftab s f)]> (ftab s)) s).
Definition upd_pipe (p : Z) (g : pipe → pipe) : M fst unit :=
  modify (λ s, set_pipes (<[p := g (pipes s p)]> (pipes s)) s).

Definition filealloc : M fst (option nat) :=
  s ← get;
  match find (λ f, f_ref (ftab s f) =? 0) (seq 0 NFILE) with
  | Some f => upd_file f (set_f_ref 1);; mret (Some f)
  | None => mret None
  end.

Definition filedup (f : nat) : M fst nat :=
  x ← file_at f;
  if f_ref x <? 1 then panic "filedup" else
  upd_file f (λ x, set_f_ref (f_ref x + 1) x);;
  mret f.

Definition pipeclose (p : Z) (wr : bool) : M fst unit :=
  s ← get;
  let '(p', c, free) := pipe_close p wr (pipes s p) in
  upd_pipe p (λ _, p');;
  fs_ (fwakeup c);;
  if free then km_ (kfree p) else mret tt.

(** [iput(ip)] of a pointer that may be null. *)
Definition iput_ (ip : iptr) : M fst unit :=
  match ip with Some i => fs_ (iput i) | None => panic "null pointer" end.

Definition fileclose (f : nat) : M fst unit :=
  x ← file_at f;
  if f_ref x <? 1 then panic "fileclose" else
  upd_file f (λ x, set_f_ref (f_ref x - 1) x);;
  if 0 <? f_ref x - 1 then mret tt else
  upd_file f (λ x, set_f_type FD_NONE (set_f_ref 0 x));;
  match f_type x with
  | FD_PIPE => pipeclose (f_pipe x) (writable x)
  | FD_INODE => log_ begin_op;; iput_ (f_ip x);; log_ end_op
  | FD_NONE => mret tt
  end.

(** The [stat] filled in, when the result is 0. *)
Definition filestat (f : nat) : M fst (Z * option stat) :=
  x ← file_at f;
  match f_type x, f_ip x with
  | FD_INODE, Some ip =>
      fs_ (ilock (Some ip));;
      st ← fs_ (stati ip);
      fs_ (iunlock (Some ip));;
      mret (0, Some st)
  | FD_INODE, None => panic "ilock"
  | _, _ => mret (-1, None)
  end.

(** The wakeups of a pipe routine. *)
Definition wake_all (l : list chan) (s : fst) : fst := state_of s (fs_ (iter_each l fwakeup) s).

(** [piperead(p, addr, n)]: the result and the bytes stored at [addr]. *)
Definition piperead_ (p n : Z) : M fst (Z * list Z) :=
  killed ← gets (λ s, cur_killed (ffs s));
  lift_with (λ s, mkRst (pipes s p) [] [])
    (λ r s, wake_all (rwoken r) (set_pipes (<[p := rpipe r]> (pipes s)) s))
    (λ v r, (v, rbytes r)) (piperead p killed n).

(** [pipewrite(p, addr, n)] where [src] is [addr[0..n]]. *)
Definition pipewrite_ (p : Z) (src : list Z) (n : Z) : M fst Z :=
  killed ← gets (λ s, cur_killed (ffs s));
  lift_with (λ s, mkWst (pipes s p) [] src)
    (λ w s, wake_all (wwoken w) (set_pipes (<[p := wpipe w]> (pipes s)) s))
    (λ v _, v) (pipewrite p killed n).

(** The result and the bytes stored at [addr]. *)
Definition fileread (f : nat) (n : Z) : M fst (Z * list Z) :=
  x ← file_at f;
  if negb (readable x) then mret (-1, []) else
  match f_type x, f_ip x with
  | FD_PIPE, _ => piperead_ (f_pipe x) n
  | FD_INODE, Some ip =>
      fs_ (ilock (Some ip));;
      x ← file_at f;
      '(r, bs) ← fs_ (readi ip (f_off x) (u32 n));
      (if 0 <? r then upd_file f (λ x, set_f_off (u32 (f_off x + r)) x) else mret tt);;
      fs_ (iunlock (Some ip));;
      mret (r, bs)
  | FD_INODE, None => panic "ilock"
  | FD_NONE, _ => panic "fileread"
  end.

(** [int max = ((LOGSIZE-1-1-2) / 2) * 512] *)
Definition filewrite_max : Z := (Z.of_nat LOGSIZE - 1 - 1 - 2) / 2 * 512.

(** [while(i < n)]: [i] after the loop.  Each turn writes at least one byte. *)
Fixpoint filewrite_loop (fuel : nat) (f ip : nat) (src : list Z) (i n : Z) : M fst Z :=
  if i <? n then
    match fuel with
    | O => out_of_fuel
    | S fuel' =>
        let n1 := if filewrite_max <? n - i then filewrite_max else n - i in
        log_ begin_op;;
        fs_ (ilock (Some ip));;
        x ← file_at f;
        r ← fs_ (writei ip (slice src (Z.to_nat i) (Z.to_nat n1)) (f_off x));
        (if 0 <? r then upd_file f (λ x, set_f_off (u32 (f_off x + r)) x) else mret tt);;
        fs_ (iunlock (Some ip));;
        log_ end_op;;
        if r <? 0 then mret i else
        if negb (r =? n1) then panic "short filewrite" else
        filewrite_loop fuel' f ip src (i + r) n
    end
  else mret i.

(** [src] is [addr[0..n]], empty when [n] is negative. *)
Definition filewrite (f : nat) (src : list Z) (n : Z) : M fst Z :=
  x ← file_at f;
  if negb (writable x) then mret (-1) else
  match f_type x, f_ip x with
  | FD_PIPE, _ => pipewrite_ (f_pipe x) src n
  | FD_INODE, Some ip =>
      i ← filewrite_loop (Z.to_nat n) f ip src 0 n;
      mret (if i =? n then n else -1)
  | FD_INODE, None => if 0 <? n then panic "ilock" else mret (if n =? 0 then 0 else -1)
  | FD_NONE, _ => panic "filewrite"
  end.

(** [bad:] of [pipealloc]; [p] is null there. *)
Definition pipealloc_bad (f0 f1 : option nat) : M fst (option (nat * nat)) :=
  (match f0 with Some f => fileclose f | None => mret tt end);;
  (match f1 with Some f => fileclose f | None => mret tt end);;
  mret None.

(** The read end and the write end, or [None] for -1. *)
Definition pipealloc : M fst (option (nat * nat)) :=
  f0 ← filealloc;
  match f0 with
  | None => pipealloc_bad None None
  | Some f0 =>
      f1 ← filealloc;
      match f1 with
      | None => pipealloc_bad (Some f0) None
      | Some f1 =>
          p ← km_ kalloc;
          if p =? 0 then pipealloc_bad (Some f0) (Some f1) else
          upd_pipe p pipe_init;;
          upd_file f0 (λ x, mkFile FD_PIPE (f_ref x) true false p (f_ip x) (f_off x));;
          upd_file f1 (λ x, mkFile FD_PIPE (f_ref x) false true p (f_ip x) (f_off x));;
          mret (Some (f0, f1))
      end
  end.
