(* ===== verification/Proc.v ===== *)
(** * Processes, scheduling and signals (proc.c, proc.h)

    [kst] is the kernel state: open files and everything below them, the
    process table and the globals of proc.c and trap.c.  A [struct proc *] is
    an index into [ptable], which is a total function: index [NPROC] is the
    memory just past the table, which [wakeup1] reaches.  [p->tf] and
    [p->context] point into the process's kernel stack and are kept as the
    structures they point to.  [cur] is [proc], of the one processor the model
    follows.

    A routine that calls [sleep] ends with outcome [Sleep c]: the process is
    marked SLEEPING on [c] and the processor goes to the scheduler.  [exit]
    ends with [Sleep ChNone]: it never comes back.  [scheduler_step] runs the
    scheduler from one [swtch] to the next. *)

From S2P Require Import Prelude Bio Log Console CString Kalloc Vm Fs File.
#[local] Open Scope Z_scope.

Definition NPROC : nat := 64.
Definition KSTACKSIZE : Z := 4096.
Definition NUMSIG : Z := 32.
Definition SIG_DFL : Z := 4294967295.
Definition SEG_UCODE : Z := 4.
Definition SEG_UDATA : Z := 5.
Definition DPL_USER : Z := 3.
Definition FL_IF : Z := 512.
Arguments NPROC : simpl never.

(** [struct trapframe] and, with the same fields, [struct bu_tf]. *)
Record trapframe := mkTf {
  edi : Z;
  esi : Z;
  ebp : Z;
  oesp : Z;
  ebx : Z;
  edx : Z;
  ecx : Z;
  eax : Z;
  gs : Z;
  padding1 : Z;
  fsreg : Z;
  padding2 : Z;
  es : Z;
  padding3 : Z;
  ds : Z;
  padding4 : Z;
  trapno : Z;
  err : Z;
  eip : Z;
  cs : Z;
  padding5 : Z;
  eflags : Z;
  esp : Z;
  ss : Z;
  padding6 : Z;
}.

Definition set_eax (x : Z) (v : trapframe) : trapframe :=
  mkTf (edi v) (esi v) (ebp v) (oesp v) (ebx v) (edx v) (ecx v) x (gs v) (padding1 v) (fsreg v) (padding2 v)
    (es v) (padding3 v) (ds v) (padding4 v) (trapno v) (err v) (eip v) (cs v) (padding5 v) (eflags v) (esp
    v) (ss v) (padding6 v).
Definition set_eip (x : Z) (v : trapframe) : trapframe :=
  mkTf (edi v) (esi v) (ebp v) (oesp v) (ebx v) (edx v) (ecx v) (eax v) (gs v) (padding1 v) (fsreg v)
    (padding2 v) (es v) (padding3 v) (ds v) (padding4 v) (trapno v) (err v) x (cs v) (padding5 v) (eflags v)
    (esp v) (ss v) (padding6 v).
Definition set_esp (x : Z) (v : trapframe) : trapframe :=
  mkTf (edi v) (esi v) (ebp v) (oesp v) (ebx v) (edx v) (ecx v) (eax v) (gs v) (padding1 v) (fsreg v)
    (padding2 v) (es v) (padding3 v) (ds v) (padding4 v) (trapno v) (err v) (eip v) (cs v) (padding5 v)
    (eflags v) x (ss v) (padding6 v).

Definition zero_tf : trapframe := mkTf 0 0 0 0 0 0 0 0 0 0 0 0 0 0 0 0 0 0 0 0 0 0 0 0 0.

(** Code addresses the kernel stores in a new process's context. *)
Inductive codeptr := CodeNull | Forkret | Trapret.

(** [struct context], with the word above it on the kernel stack. *)
Record ctx := mkCtx {
  c_edi : Z;
  c_esi : Z;
  c_ebx : Z;
  c_ebp : Z;
  c_eip : codeptr;
  c_ret : codeptr;
}.

Inductive procstate := UNUSED | EMBRYO | SLEEPING | RUNNABLE | RUNNING | ZOMBIE.

#[export] Instance procstate_eq_dec : EqDecision procstate.
Proof. solve_decision. Defined.

Definition is_state (s t : procstate) : bool := bool_decide (s = t).

(** [pending] is the bit pattern of the C [int]. *)
Record proc := mkProc {
  sz : Z;
  pgdir : Z;
  kstack : Z;
  pstate : procstate;
  pid : Z;
  parent : option nat;
  tf : trapframe;
  backup_tf : trapframe;
  pcontext : ctx;
  pchan : chan;
  killed : bool;
  ofile : nat → option nat;
  cwd : iptr;
  name : list Z;
  ntickets : Z;
  priority : Z;
  ctime : Z;
  ttime : Z;
  stime : Z;
  retime : Z;
  rutime : Z;
  status : Z;
  pending : Z;
  handling_signal : bool;
  handlers_array : nat → Z;
  ret_add : Z;
}.

Definition set_sz (x : Z) (v : proc) : proc :=
  mkProc x (pgdir v) (kstack v) (pstate v) (pid v) (parent v) (tf v) (backup_tf v) (pcontext v) (pchan v)
    (killed v) (ofile v) (cwd v) (name v) (ntickets v) (priority v) (ctime v) (ttime v) (stime v) (retime v)
    (rutime v) (status v) (pending v) (handling_signal v) (handlers_array v) (ret_add v).
Definition set_pgdir (x : Z) (v : proc) : proc :=
  mkProc (sz v) x (kstack v) (pstate v) (pid v) (parent v) (tf v) (backup_tf v) (pcontext v) (pchan v)
    (killed v) (ofile v) (cwd v) (name v) (ntickets v) (priority v) (ctime v) (ttime v) (stime v) (retime v)
    (rutime v) (status v) (pending v) (handling_signal v) (handlers_array v) (ret_add v).
Definition set_kstack (x : Z) (v : proc) : proc :=
  mkProc (sz v) (pgdir v) x (pstate v) (pid v) (parent v) (tf v) (backup_tf v) (pcontext v) (pchan v)
    (killed v) (ofile v) (cwd v) (name v) (ntickets v) (priority v) (ctime v) (ttime v) (stime v) (retime v)
    (rutime v) (status v) (pending v) (handling_signal v) (handlers_array v) (ret_add v).
Definition set_pstate (x : procstate) (v : proc) : proc :=
  mkProc (sz v) (pgdir v) (kstack v) x (pid v) (parent v) (tf v) (backup_tf v) (pcontext v) (pchan v)
    (killed v) (ofile v) (cwd v) (name v) (ntickets v) (priority v) (ctime v) (ttime v) (stime v) (retime v)
    (rutime v) (status v) (pending v) (handling_signal v) (handlers_array v) (ret_add v).
Definition set_pid (x : Z) (v : proc) : proc :=
  mkProc (sz v) (pgdir v) (kstack v) (pstate v) x (parent v) (tf v) (backup_tf v) (pcontext v) (pchan v)
    (killed v) (ofile v) (cwd v) (name v) (ntickets v) (priority v) (ctime v) (ttime v) (stime v) (retime v)
    (rutime v) (status v) (pending v) (handling_signal v) (handlers_array v) (ret_add v).
Definition set_parent (x : option nat) (v : proc) : proc :=
  mkProc (sz v) (pgdir v) (kstack v) (pstate v) (pid v) x (tf v) (backup_tf v) (pcontext v) (pchan v)
    (killed v) (ofile v) (cwd v) (name v) (ntickets v) (priority v) (ctime v) (ttime v) (stime v) (retime v)
    (rutime v) (status v) (pending v) (handling_signal v) (handlers_array v) (ret_add v).
Definition set_tf (x : trapframe) (v : proc) : proc :=
  mkProc (sz v) (pgdir v) (kstack v) (pstate v) (pid v) (parent v) x (backup_tf v) (pcontext v) (pchan v)
    (killed v) (ofile v) (cwd v) (name v) (ntickets v) (priority v) (ctime v) (ttime v) (stime v) (retime v)
    (rutime v) (status v) (pending v) (handling_signal v) (handlers_array v) (ret_add v).
Definition set_backup_tf (x : trapframe) (v : proc) : proc :=
  mkProc (sz v) (pgdir v) (kstack v) (pstate v) (pid v) (parent v) (tf v) x (pcontext v) (pchan v) (killed
    v) (ofile v) (cwd v) (name v) (ntickets v) (priority v) (ctime v) (ttime v) (stime v) (retime v) (rutime
    v) (status v) (pending v) (handling_signal v) (handlers_array v) (ret_add v).
Definition set_pcontext (x : ctx) (v : proc) : proc :=
  mkProc (sz v) (pgdir v) (kstack v) (pstate v) (pid v) (parent v) (tf v) (backup_tf v) x (pchan v) (killed
    v) (ofile v) (cwd v) (name v) (ntickets v) (priority v) (ctime v) (ttime v) (stime v) (retime v) (rutime
    v) (status v) (pending v) (handling_signal v) (handlers_array v) (ret_add v).
Definition set_pchan (x : chan) (v : proc) : proc :=
  mkProc (sz v) (pgdir v) (kstack v) (pstate v) (pid v) (parent v) (tf v) (backup_tf v) (pcontext v) x
    (killed v) (ofile v) (cwd v) (name v) (ntickets v) (priority v) (ctime v) (ttime v) (stime v) (retime v)
    (rutime v) (status v) (pending v) (handling_signal v) (handlers_array v) (ret_add v).
Definition set_killed (x : bool) (v : proc) : proc :=
  mkProc (sz v) (pgdir v) (kstack v) (pstate v) (pid v) (parent v) (tf v) (backup_tf v) (pcontext v) (pchan
    v) x (ofile v) (cwd v) (name v) (ntickets v) (priority v) (ctime v) (ttime v) (stime v) (retime v)
    (rutime v) (status v) (pending v) (handling_signal v) (handlers_array v) (ret_add v).
Definition set_ofile (x : nat → option nat) (v : proc) : proc :=
  mkProc (sz v) (pgdir v) (kstack v) (pstate v) (pid v) (parent v) (tf v) (backup_tf v) (pcontext v) (pchan
    v) (killed v) x (cwd v) (name v) (ntickets v) (priority v) (ctime v) (ttime v) (stime v) (retime v)
    (rutime v) (status v) (pending v) (handling_signal v) (handlers_array v) (ret_add v).
Definition set_cwd (x : iptr) (v : proc) : proc :=
  mkProc (sz v) (pgdir v) (kstack v) (pstate v) (pid v) (parent v) (tf v) (backup_tf v) (pcontext v) (pchan
    v) (killed v) (ofile v) x (name v) (ntickets v) (priority v) (ctime v) (ttime v) (stime v) (retime v)
    (rutime v) (status v) (pending v) (handling_signal v) (handlers_array v) (ret_add v).
Definition set_name (x : list Z) (v : proc) : proc :=
  mkProc (sz v) (pgdir v) (kstack v) (pstate v) (pid v) (parent v) (tf v) (backup_tf v) (pcontext v) (pchan
    v) (killed v) (ofile v) (cwd v) x (ntickets v) (priority v) (ctime v) (ttime v) (stime v) (retime v)
    (rutime v) (status v) (pending v) (handling_signal v) (handlers_array v) (ret_add v).
Definition set_ntickets (x : Z) (v : proc) : proc :=
  mkProc (sz v) (pgdir v) (kstack v) (pstate v) (pid v) (parent v) (tf v) (backup_tf v) (pcontext v) (pchan
    v) (killed v) (ofile v) (cwd v) (name v) x (priority v) (ctime v) (ttime v) (stime v) (retime v) (rutime
    v) (status v) (pending v) (handling_signal v) (handlers_array v) (ret_add v).
Definition set_priority (x : Z) (v : proc) : proc :=
  mkProc (sz v) (pgdir v) (kstack v) (pstate v) (pid v) (parent v) (tf v) (backup_tf v) (pcontext v) (pchan
    v) (killed v) (ofile v) (cwd v) (name v) (ntickets v) x (ctime v) (ttime v) (stime v) (retime v) (rutime
    v) (status v) (pending v) (handling_signal v) (handlers_array v) (ret_add v).
Definition set_ctime (x : Z) (v : proc) : proc :=
  mkProc (sz v) (pgdir v) (kstack v) (pstate v) (pid v) (parent v) (tf v) (backup_tf v) (pcontext v) (pchan
    v) (killed v) (ofile v) (cwd v) (name v) (ntickets v) (priority v) x (ttime v) (stime v) (retime v)
    (rutime v) (status v) (pending v) (handling_signal v) (handlers_array v) (ret_add v).
Definition set_ttime (x : Z) (v : proc) : proc :=
  mkProc (sz v) (pgdir v) (kstack v) (pstate v) (pid v) (parent v) (tf v) (backup_tf v) (pcontext v) (pchan
    v) (killed v) (ofile v) (cwd v) (name v) (ntickets v) (priority v) (ctime v) x (stime v) (retime v)
    (rutime v) (status v) (pending v) (handling_signal v) (handlers_array v) (ret_add v).
Definition set_stime (x : Z) (v : proc) : proc :=
  mkProc (sz v) (pgdir v) (kstack v) (pstate v) (pid v) (parent v) (tf v) (backup_tf v) (pcontext v) (pchan
    v) (killed v) (ofile v) (cwd v) (name v) (ntickets v) (priority v) (ctime v) (ttime v) x (retime v)
    (rutime v) (status v) (pending v) (handling_signal v) (handlers_array v) (ret_add v).
Definition set_retime (x : Z) (v : proc) : proc :=
  mkProc (sz v) (pgdir v) (kstack v) (pstate v) (pid v) (parent v) (tf v) (backup_tf v) (pcontext v) (pchan
    v) (killed v) (ofile v) (cwd v) (name v) (ntickets v) (priority v) (ctime v) (ttime v) (stime v) x
    (rutime v) (status v) (pending v) (handling_signal v) (handlers_array v) (ret_add v).
Definition set_rutime (x : Z) (v : proc) : proc :=
  mkProc (sz v) (pgdir v) (kstack v) (pstate v) (pid v) (parent v) (tf v) (backup_tf v) (pcontext v) (pchan
    v) (killed v) (ofile v) (cwd v) (name v) (ntickets v) (priority v) (ctime v) (ttime v) (stime v) (retime
    v) x (status v) (pending v) (handling_signal v) (handlers_array v) (ret_add v).
Definition set_status (x : Z) (v : proc) : proc :=
  mkProc (sz v) (pgdir v) (kstack v) (pstate v) (pid v) (parent v) (tf v) (backup_tf v) (pcontext v) (pchan
    v) (killed v) (ofile v) (cwd v) (name v) (ntickets v) (priority v) (ctime v) (ttime v) (stime v) (retime
    v) (rutime v) x (pending v) (handling_signal v) (handlers_array v) (ret_add v).
Definition set_pending (x : Z) (v : proc) : proc :=
  mkProc (sz v) (pgdir v) (kstack v) (pstate v) (pid v) (parent v) (tf v) (backup_tf v) (pcontext v) (pchan
    v) (killed v) (ofile v) (cwd v) (name v) (ntickets v) (priority v) (ctime v) (ttime v) (stime v) (retime
    v) (rutime v) (status v) x (handling_signal v) (handlers_array v) (ret_add v).
Definition set_handling_signal (x : bool) (v : proc) : proc :=
  mkProc (sz v) (pgdir v) (kstack v) (pstate v) (pid v) (parent v) (tf v) (backup_tf v) (pcontext v) (pchan
    v) (killed v) (ofile v) (cwd v) (name v) (ntickets v) (priority v) (ctime v) (ttime v) (stime v) (retime
    v) (rutime v) (status v) (pending v) x (handlers_array v) (ret_add v).
Definition set_handlers_array (x : nat → Z) (v : proc) : proc :=
  mkProc (sz v) (pgdir v) (kstack v) (pstate v) (pid v) (parent v) (tf v) (backup_tf v) (pcontext v) (pchan
    v) (killed v) (ofile v) (cwd v) (name v) (ntickets v) (priority v) (ctime v) (ttime v) (stime v) (retime
    v) (rutime v) (status v) (pending v) (handling_signal v) x (ret_add v).
Definition set_ret_add (x : Z) (v : proc) : proc :=
  mkProc (sz v) (pgdir v) (kstack v) (pstate v) (pid v) (parent v) (tf v) (backup_tf v) (pcontext v) (pchan
    v) (killed v) (ofile v) (cwd v) (name v) (ntickets v) (priority v) (ctime v) (ttime v) (stime v) (retime
    v) (rutime v) (status v) (pending v) (handling_signal v) (handlers_array v) x.

Record kst := mkKst {
  kf : fst;
  ptable : nat → proc;
  nextpid : Z;
  initproc : option nat;
  currentPolicy : Z;
  ticks : Z;
  rnext : Z;
  started : bool;
  first_ret : bool;
  cur : option nat;
}.

Definition set_kf (x : fst) (v : kst) : kst :=
  mkKst x (ptable v) (nextpid v) (initproc v) (currentPolicy v) (ticks v) (rnext v) (started v) (first_ret
    v) (cur v).
Definition set_ptable (x : nat → proc) (v : kst) : kst :=
  mkKst (kf v) x (nextpid v) (initproc v) (currentPolicy v) (ticks v) (rnext v) (started v) (first_ret v)
    (cur v).
Definition set_nextpid (x : Z) (v : kst) : kst :=
  mkKst (kf v) (ptable v) x (initproc v) (currentPolicy v) (ticks v) (rnext v) (started v) (first_ret v)
    (cur v).
Definition set_initproc (x : option nat) (v : kst) : kst :=
  mkKst (kf v) (ptable v) (nextpid v) x (currentPolicy v) (ticks v) (rnext v) (started v) (first_ret v) (cur v).
Definition set_currentPolicy (x : Z) (v : kst) : kst :=
  mkKst (kf v) (ptable v) (nextpid v) (initproc v) x (ticks v) (rnext v) (started v) (first_ret v) (cur v).
Definition set_ticks (x : Z) (v : kst) : kst :=
  mkKst (kf v) (ptable v) (nextpid v) (initproc v) (currentPolicy v) x (rnext v) (started v) (first_ret v)
    (cur v).
Definition set_rnext (x : Z) (v : kst) : kst :=
  mkKst (kf v) (ptable v) (nextpid v) (initproc v) (currentPolicy v) (ticks v) x (started v) (first_ret v)
    (cur v).
Definition set_started (x : bool) (v : kst) : kst :=
  mkKst (kf v) (ptable v) (nextpid v) (initproc v) (currentPolicy v) (ticks v) (rnext v) x (first_ret v)
    (cur v).
Definition set_first_ret (x : bool) (v : kst) : kst :=
  mkKst (kf v) (ptable v) (nextpid v) (initproc v) (currentPolicy v) (ticks v) (rnext v) (started v) x (cur v).
Definition set_cur (x : option nat) (v : kst) : kst :=
  mkKst (kf v) (ptable v) (nextpid v) (initproc v) (currentPolicy v) (ticks v) (rnext v) (started v)
    (first_ret v) x.

Definition proc_at (i : nat) : M kst proc := gets (λ s, ptable s i).
Definition upd_proc (i : nat) (f : proc → proc) : M kst unit :=
  modify (λ s, set_ptable (<[i := f (ptable s i)]> (ptable s)) s).

(** [proc], dereferenced. *)
Definition myproc : M kst nat :=
  c ← gets cur;
  match c with Some i => mret i | None => panic "null pointer" end.

(** ** Sleep and wakeup *)

(** The body of [wakeup1]'s loop. *)
Definition wake_one (c : chan) (p : proc) : proc :=
  if is_state (pstate p) SLEEPING && bool_decide (pchan p = c) then set_pstate RUNNABLE p else p.

(** The loop ends with [p = &ptable.proc[NPROC]], which the policy 3 code
    then updates. *)
Definition wakeup1 (c : chan) (s : kst) : kst :=
  let t := λ i, if (i <? NPROC)%nat then wake_one c (ptable s i) else ptable s i in
  let p := t NPROC in
  let t := if (currentPolicy s =? 3) && (ntickets p <? 90)
           then <[NPROC := set_ntickets (ntickets p + 10) p]> t else t in
  set_ptable t s.

Definition wakeup (c : chan) : M kst unit := modify (wakeup1 c).

(** The checks of [sched] on the lock and on interrupts hold by construction:
    a routine of the model is entered with the locks its callers hold. *)
Definition sched : M kst unit :=
  i ← myproc;
  p ← proc_at i;
  if is_state (pstate p) RUNNING then panic "sched running" else mret tt.

Definition sleep {A} (c : chan) : M kst A :=
  i ← gets cur;
  match i with
  | None => panic "sleep"
  | Some i => upd_proc i (λ p, set_pstate SLEEPING (set_pchan c p));; sched;; sleep_on c
  end.

(** What [sleep] does when its process runs again. *)
Definition sleep_return : M kst unit := i ← myproc; upd_proc i (set_pchan ChNone).

(** ** Calling the lower layers

    The file system sees [proc->cwd] and [proc->killed]; the wakeups it called
    are applied to the process table when it returns or sleeps. *)

Definition set_woken (l : list chan) (x : io) : io := mkIo (bufs x) (disk x) (disksize x) (written x) l.
Definition set_cwoken (l : list chan) (c : cons) : cons :=
  mkCons (locking c) (panicked c) (uart c) (serial c) (crt c) (cursor c) (ibuf c) (ir c) (iw c) (ie c) l.

Definition fst_io (t : fst) : io := dio (flog (ffs t)).

Definition enter (s : kst) : fst :=
  let f := ffs (kf s) in
  let me := match cur s with Some i => Some (ptable s i) | None => None end in
  set_ffs (mkFs (mkLst (set_woken [] (dio (flog f))) (lg (flog f))) (sb f) (icache f) (devsw f)
    (set_cwoken [] (fcons f)) (me ≫= cwd) (from_option killed false me)) (kf s).

Definition leave (t : fst) (s : kst) : kst :=
  foldl (λ s c, wakeup1 c s) (set_kf t s) (woken (fst_io t) ++ cwoken (fcons (ffs t))).

Definition f_ {A} (m : M fst A) : M kst A := λ s,
  match m (enter s) with
  | Done a t => Done a (leave t s)
  | Panic msg => Panic msg
  | Sleep c t => sleep c (leave t s)
  | OutOfFuel => OutOfFuel
  end.

Definition k_ {A} (m : M kmem A) : M kst A := f_ (km_ m).

(** ** User memory, through the page table of the current process

    The kernel runs on it; an access the hardware refuses is a page fault in
    kernel mode, which [trap] turns into a panic. *)

Definition ubyte (pd va : Z) : M kmem Z :=
  m ← gets pm;
  let e := pte_of m pd va in
  if has e PTE_P then mret (m (p2v (PTE_ADDR e) + va mod PGSIZE)) else panic "trap".

Fixpoint ubytes (pd va : Z) (n : nat) : M kmem (list Z) :=
  match n with
  | O => mret []
  | S n' => c ← ubyte pd va; l ← ubytes pd (va + 1) n'; mret (c :: l)
  end.

Fixpoint uwrite (pd va : Z) (l : list Z) : M kmem unit :=
  match l with
  | [] => mret tt
  | c :: l' =>
      m ← gets pm;
      let e := pte_of m pd va in
      if has e PTE_P && has e PTE_W
      then upd_mem (λ m, <[p2v (PTE_ADDR e) + va mod PGSIZE := c]> m);; uwrite pd (va + 1) l'
      else panic "trap"
  end.

Definition word_bytes (v : Z) : list Z := [u8 v; u8 (v / 2 ^ 8); u8 (v / 2 ^ 16); u8 (v / 2 ^ 24)].

Definition user_bytes (va : Z) (n : nat) : M kst (list Z) :=
  i ← myproc;
  p ← proc_at i;
  k_ (ubytes (pgdir p) va n).
Definition user_write (va : Z) (l : list Z) : M kst unit :=
  i ← myproc;
  p ← proc_at i;
  k_ (uwrite (pgdir p) va l).
Definition user_word (va : Z) : M kst Z := l ← user_bytes va 4; mret (get32 l 0).
Definition user_put_word (va v : Z) : M kst unit := user_write va (word_bytes v).

(** ** Signals *)

Definition restore_tf : M kst unit :=
  i ← myproc;
  upd_proc i (λ p, let b := backup_tf p in
    set_tf (mkTf (edi b) (esi b) (ebp b) (oesp b) (ebx b) (edx b) (ecx b) (eax b) (gs b) (padding1 b)
      (fsreg b) (padding2 b) (es b) (padding3 b) (ds b) (padding4 b) (trapno b) (err b) (eip b) (cs b)
      (padding5 b) (eflags b) (esp b) (ss b) (padding6 b)) p).

Definition set_default_handlers (p : proc) : proc :=
  set_handlers_array (λ k, if (k <? 32)%nat then SIG_DFL else handlers_array p k)
    (set_handling_signal false (set_pending 0 p)).

(** Returns the previous handler; -1 is [(sighandler_t)-1]. *)
Definition signal (signum handler : Z) : M kst Z :=
  if (NUMSIG - 1 <? signum) || (signum <? 0) then mret (u32 (-1)) else
  i ← myproc;
  p ← proc_at i;
  upd_proc i (λ p, set_handlers_array (<[Z.to_nat signum := handler]> (handlers_array p)) p);;
  mret (handlers_array p (Z.to_nat signum)).

(** The first slot of the table that satisfies [f]. *)
Definition find_proc (f : proc → bool) (s : kst) : option nat := find (λ i, f (ptable s i)) (seq 0 NPROC).

Definition sigsend (pd signum : Z) : M kst Z :=
  if (NUMSIG - 1 <? signum) || (signum <? 0) then mret (-1) else
  s ← get;
  match find_proc (λ p, pid p =? pd) s with
  | Some i => upd_proc i (λ p, set_pending (Z.lor (pending p) (Z.shiftl 1 signum)) p);; mret 0
  | None => mret (-1)
  end.

Definition sigreturn : M kst Z :=
  i ← myproc;
  upd_proc i (set_handling_signal false);;
  restore_tf;;
  mret 0.

(** ** Accounting *)

Definition account (p : proc) : proc :=
  match pstate p with
  | RUNNING => set_rutime (s32 (rutime p + 1)) p
  | SLEEPING => set_stime (s32 (stime p + 1)) p
  | RUNNABLE => set_retime (s32 (retime p + 1)) p
  | _ => p
  end.

Definition updatePerformanceFields : M kst unit := iter_each (seq 0 NPROC) (λ i, upd_proc i account).

(** ** Creating processes *)

(** The part of [allocproc] under [ptable.lock]. *)
Definition alloc_slot : M kst (option nat) :=
  s ← get;
  match find_proc (λ p, is_state (pstate p) UNUSED) s with
  | None => mret None
  | Some i =>
      upd_proc i (set_pstate EMBRYO);;
      upd_proc i (set_pid (nextpid s));;
      modify (set_nextpid (s32 (nextpid s + 1)));;
      upd_proc i set_default_handlers;;
      mret (Some i)
  end.

Definition allocproc : M kst (option nat) :=
  r ← alloc_slot;
  match r with
  | None => mret None
  | Some i =>
      k ← k_ kalloc;
      upd_proc i (set_kstack k);;
      if k =? 0 then upd_proc i (set_pstate UNUSED);; mret None else
      upd_proc i (set_pcontext (mkCtx 0 0 0 0 Forkret Trapret));;
      mret (Some i)
  end.

(** The tickets a new process starts with. *)
Definition distribute (policy : Z) (p : proc) : proc :=
  if policy =? 1 then set_ntickets 10 p else
  if policy =? 2 then set_ntickets (priority p) p else
  if policy =? 3 then set_ntickets 20 p else p.

(** [safestrcpy(p->name, s, sizeof(p->name))]: the string in [p->name]. *)
Definition copy_name (s : list Z) : list Z := take 15 s.

Definition switchuvm (i : nat) : M kst unit :=
  p ← proc_at i;
  if pgdir p =? 0 then panic "switchuvm: no pgdir" else mret tt.

Definition initcode_name : list Z := [105; 110; 105; 116; 99; 111; 100; 101].

(** [initcode] is the program linked into the kernel. *)
Definition userinit (initcode : list Z) : M kst unit :=
  r ← allocproc;
  match r with
  | None => panic "null pointer"
  | Some i =>
      modify (set_initproc (Some i));;
      pd ← k_ setupkvm;
      upd_proc i (set_pgdir pd);;
      if pd =? 0 then panic "userinit: out of memory?" else
      k_ (inituvm pd initcode);;
      upd_proc i (set_sz PGSIZE);;
      let cs0 := Z.lor (Z.shiftl SEG_UCODE 3) DPL_USER in
      let ds0 := Z.lor (Z.shiftl SEG_UDATA 3) DPL_USER in
      upd_proc i (set_tf (mkTf 0 0 0 0 0 0 0 0 0 0 0 0 ds0 0 ds0 0 0 0 0 cs0 0 FL_IF PGSIZE ds0 0));;
      upd_proc i (set_name initcode_name);;
      d ← f_ (fs_ (namei [47]));
      upd_proc i (set_cwd d);;
      policy ← gets currentPolicy;
      upd_proc i (λ p, distribute policy (set_priority 10 p));;
      t ← gets ticks;
      upd_proc i (set_pstate RUNNABLE);;
      upd_proc i (set_ctime (s32 t))
  end.

Definition growproc (n : Z) : M kst Z :=
  i ← myproc;
  p ← proc_at i;
  let sz0 := sz p in
  r ← (if 0 <? n then
         sz1 ← k_ (allocuvm (pgdir p) sz0 (u32 (sz0 + n)));
         mret (if sz1 =? 0 then None else Some sz1)
       else if n <? 0 then
         sz1 ← k_ (deallocuvm (pgdir p) sz0 (u32 (sz0 + n)));
         mret (if sz1 =? 0 then None else Some sz1)
       else mret (Some sz0));
  match r with
  | None => mret (-1)
  | Some sz1 => upd_proc i (set_sz sz1);; switchuvm i;; mret 0
  end.

(** [np->ofile[i] = filedup(proc->ofile[i])] for every open descriptor. *)
Definition dup_files (me np : nat) : M kst unit :=
  iter_each (seq 0 NOFILE) (λ k,
    p ← proc_at me;
    match ofile p k with
    | Some f => g ← f_ (filedup f); upd_proc np (λ q, set_ofile (<[k := Some g]> (ofile q)) q)
    | None => mret tt
    end).

Definition fork : M kst Z :=
  me ← myproc;
  r ← allocproc;
  match r with
  | None => mret (-1)
  | Some np =>
      p ← proc_at me;
      pd ← k_ (copyuvm (pgdir p) (sz p));
      upd_proc np (set_pgdir pd);;
      if pd =? 0 then
        q ← proc_at np;
        k_ (kfree (kstack q));;
        upd_proc np (set_kstack 0);;
        upd_proc np (set_pstate UNUSED);;
        mret (-1)
      else
      upd_proc np (set_sz (sz p));;
      upd_proc np (set_parent (Some me));;
      upd_proc np (set_tf (tf p));;
      upd_proc np (λ q, set_tf (set_eax 0 (tf q)) q);;
      dup_files me np;;
      match cwd p with
      | None => panic "null pointer"
      | Some d =>
          c ← f_ (fs_ (idup d));
          upd_proc np (set_cwd (Some c));;
          upd_proc np (set_name (copy_name (name p)));;
          q ← proc_at np;
          policy ← gets currentPolicy;
          upd_proc np (λ q, distribute policy (set_priority 10 q));;
          t ← gets ticks;
          upd_proc np (λ q, set_retime 0 (set_rutime 0 (set_stime 0 q)));;
          upd_proc np (set_pstate RUNNABLE);;
          upd_proc np (set_ctime (s32 t));;
          mret (pid q)
      end
  end.

(** ** Exit and wait *)

(** The address of a process as a wait channel. *)
Definition proc_chan (p : option nat) : chan := match p with Some i => ChProc i | None => ChNone end.

Definition close_files (me : nat) : M kst unit :=
  iter_each (seq 0 NOFILE) (λ k,
    p ← proc_at me;
    match ofile p k with
    | Some f => f_ (fileclose f);; upd_proc me (λ q, set_ofile (<[k := None]> (ofile q)) q)
    | None => mret tt
    end).

(** Pass abandoned children to init. *)
Definition reparent (me : nat) : M kst unit :=
  iter_each (seq 0 NPROC) (λ i,
    p ← proc_at i;
    ini ← gets initproc;
    if bool_decide (parent p = Some me) then
      upd_proc i (set_parent ini);;
      if is_state (pstate p) ZOMBIE then modify (wakeup1 (proc_chan ini)) else mret tt
    else mret tt).

Definition exit {A} (st : Z) : M kst A :=
  me ← myproc;
  ini ← gets initproc;
  if bool_decide (Some me = ini) then panic "init exiting" else
  close_files me;;
  f_ (log_ begin_op);;
  p ← proc_at me;
  f_ (iput_ (cwd p));;
  f_ (log_ end_op);;
  upd_proc me (set_cwd None);;
  p ← proc_at me;
  modify (wakeup1 (proc_chan (parent p)));;
  reparent me;;
  t ← gets ticks;
  upd_proc me (set_ttime (s32 t));;
  upd_proc me (set_pstate ZOMBIE);;
  upd_proc me (set_status st);;
  upd_proc me (set_ntickets 0);;
  sched;;
  sleep_on ChNone.

(** The fields [wait] and [wait_stat] clear when they free a slot. *)
Definition clear_slot (p : proc) : proc :=
  set_killed false (set_name [] (set_parent None (set_pid 0 (set_pstate UNUSED p)))).

Definition is_child (me : nat) (p : proc) : bool := bool_decide (parent p = Some me).

(** Free the kernel stack, the address space and the slot of zombie [i]. *)
Definition reap (i : nat) : M kst unit :=
  p ← proc_at i;
  k_ (kfree (kstack p));;
  upd_proc i (set_kstack 0);;
  k_ (freevm (pgdir p));;
  upd_proc i clear_slot.

(** No zombie child: give up, or sleep until a child exits. *)
Definition wait_none (me : nat) : M kst Z :=
  s ← get;
  if negb (existsb (λ i, is_child me (ptable s i)) (seq 0 NPROC)) || killed (ptable s me)
  then mret (-1) else sleep (ChProc me).

(** [statusp] is the user address [status]; 0 is null. *)
Definition wait (statusp : Z) : M kst Z :=
  me ← myproc;
  s ← get;
  match find_proc (λ p, is_child me p && is_state (pstate p) ZOMBIE) s with
  | Some i =>
      p ← proc_at i;
      (if negb (statusp =? 0) then user_put_word statusp (status p) else mret tt);;
      _ ← user_word statusp;
      upd_proc i (set_status 0);;
      upd_proc i (set_ntickets 0);;
      reap i;;
      mret (pid p)
  | None => wait_none me
  end.

(** [perfp] is the user address [perf_] of a [struct perf]. *)
Definition wait_stat (statusp perfp : Z) : M kst Z :=
  me ← myproc;
  s ← get;
  match find_proc (λ p, is_child me p && is_state (pstate p) ZOMBIE) s with
  | Some i =>
      p ← proc_at i;
      user_put_word statusp (status p);;
      user_put_word (perfp + 8) (stime p);;
      user_put_word (perfp + 12) (retime p);;
      user_put_word (perfp + 16) (rutime p);;
      user_put_word (perfp + 4) (ttime p);;
      user_put_word perfp (ctime p);;
      upd_proc i (λ p, set_priority 0 (set_ntickets 0 (set_ctime 0 (set_ttime 0 (set_rutime 0
        (set_retime 0 (set_stime 0 (set_status 0 p))))))));;
      reap i;;
      mret (pid p)
  | None => wait_none me
  end.

(** ** The scheduler *)

(** [unsigned long] has 32 bits.  The new [next] and the result. *)
Definition rand (next ticketsSum : Z) : Z * Z :=
  let next := u32 (next * 1103515245 + 12345) in
  (next, s32 (u32 (next / u32 (2 * (ticketsSum + 1)) mod u32 (ticketsSum + 1)))).

Definition srand (seed : Z) : M kst unit := modify (set_rnext seed).

(** [ticketCounterAll] *)
Definition count_tickets (t : nat → proc) : Z :=
  foldl (λ n i, if negb (is_state (pstate (t i)) ZOMBIE) then s32 (n + ntickets (t i)) else n) 1 (seq 0 NPROC).

(** The search for the process with the chosen ticket, from the slots [ks]
    on: the process to run and the counter, or [None] for the end of the
    loop. *)
Fixpoint draw (t : nat → proc) (chosen counter : Z) (ks : list nat) : option (nat * Z) :=
  match ks with
  | [] => None
  | i :: ks' =>
      let counter := s32 (counter + ntickets (t i)) in
      if counter <=? chosen then draw t chosen counter ks' else
      if negb (is_state (pstate (t i)) RUNNABLE) then None else Some (i, counter)
  end.

(** Where the scheduler is: at the top of its loop, or inside [swtch] to
    process [p], with its locals. *)
Inductive schedpc :=
  | SchedTop
  | SchedRun (p : nat) (chosen counter : Z).

Definition dispatch (chosen : Z) (r : option (nat * Z)) : M kst schedpc :=
  match r with
  | None => mret SchedTop
  | Some (i, counter) =>
      modify (set_cur (Some i));;
      switchuvm i;;
      upd_proc i (set_pstate RUNNING);;
      mret (SchedRun i chosen counter)
  end.

(** From one [swtch] to the next, or to the end of a round. *)
Definition scheduler_step (pc : schedpc) : M kst schedpc :=
  match pc with
  | SchedTop =>
      s ← get;
      let '(next, chosen) := rand (rnext s) (count_tickets (ptable s)) in
      modify (set_rnext next);;
      dispatch chosen (draw (ptable s) chosen 0 (seq 0 NPROC))
  | SchedRun p chosen counter =>
      modify (set_cur None);;
      s ← get;
      dispatch chosen (draw (ptable s) chosen counter (seq (S p) (NPROC - S p)))
  end.

(** [srand(ticks)] before the loop. *)
Definition scheduler_start : M kst schedpc :=
  t ← gets ticks;
  srand t;;
  mret SchedTop.

(** Up to the switch; the process continues when it is chosen again. *)
Definition yield : M kst unit :=
  i ← myproc;
  upd_proc i (set_pstate RUNNABLE);;
  policy ← gets currentPolicy;
  (if policy =? 3 then upd_proc i (λ p, if 1 <? ntickets p then set_ntickets (ntickets p - 1) p else p)
   else mret tt);;
  sched.

Definition forkret : M kst unit :=
  f ← gets first_ret;
  if (f : bool) then
    modify (set_first_ret false);;
    f_ (fs_ (iinit ROOTDEV));;
    f_ (log_ (initlog ROOTDEV))
  else mret tt.

(** ** Kill and the scheduling calls *)

Definition kill (pd : Z) : M kst Z :=
  s ← get;
  match find_proc (λ p, pid p =? pd) s with
  | Some i =>
      upd_proc i (set_killed true);;
      upd_proc i (set_ttime (s32 (ticks s)));;
      upd_proc i (λ p, if is_state (pstate p) SLEEPING then set_pstate RUNNABLE p else p);;
      mret 0
  | None => mret (-1)
  end.

Definition schedp (policy_id : Z) : M kst Z :=
  if (1 <=? policy_id) && (policy_id <=? 3) then modify (set_currentPolicy policy_id);; mret 0
  else panic "schedp: policy needs to be 1/2/3".

Definition priority_ (prio : Z) : M kst unit := i ← myproc; upd_proc i (set_priority prio).

(** ** Concrete states for the examples *)

Definition wit_kf : fst :=
  mkFst (mkFs (mkLst wit_io zero_log) (mkSb 0 0 0 0 0 0 0) (λ _, mkInode 0 0 0 0 0 0 0 0 0 []) (λ _, mkDevops None None)
    wit_cons None false) (λ _, mkFile FD_NONE 0 false false 0 None 0) (mkKmem (λ _, 0) 0 1 0 0)
    (λ _, Pipe.mkPipe (λ _, 0) 0 0 false false).

Definition wit_proc (st : procstate) (n tickets : Z) : proc :=
  mkProc 4096 4096 0 st n None zero_tf zero_tf (mkCtx 0 0 0 0 CodeNull CodeNull) ChNone false (λ _, None) None []
    tickets 10 0 0 0 0 0 0 0 false (λ _, SIG_DFL) 0.

(** A kernel whose process table is [t]. *)
Definition wit_kernel (t : nat → proc) (policy : Z) : kst := mkKst wit_kf t 5 (Some 0%nat) policy 0 7 false false None.
