(* ===== verification/Syscall.v ===== *)
(** * System call arguments and the process system calls (syscall.c, sysproc.c)

    A fetch routine returns [None] for -1.  A string argument is the list of
    its characters, whose length is the value [fetchstr] returns.  The table of
    system calls and [syscall] itself are in Trap.v, after the calls. *)

From S2P Require Import Prelude Bio Fs File CString Kalloc Vm Proc.
#[local] Open Scope Z_scope.

(** ** Fetching arguments *)

Definition fetchint (addr : Z) : M kst (option Z) :=
  i ← myproc;
  p ← proc_at i;
  if (sz p <=? addr) || (sz p <? u32 (addr + 4)) then mret None else
  v ← user_word addr;
  mret (Some (s32 v)).

(** [for(s = *pp; s < ep; s++)] over the [n] bytes up to [ep]. *)
Fixpoint scan_str (n : nat) (s : Z) : M kst (option (list Z)) :=
  match n with
  | O => mret None
  | S n' =>
      l ← user_bytes s 1;
      let c := hd 0 l in
      if c =? 0 then mret (Some []) else
      r ← scan_str n' (s + 1);
      mret (match r with Some rest => Some (c :: rest) | None => None end)
  end.

Definition fetchstr (addr : Z) : M kst (option (list Z)) :=
  i ← myproc;
  p ← proc_at i;
  if sz p <=? addr then mret None else scan_str (Z.to_nat (sz p - addr)) addr.

Definition argint (n : Z) : M kst (option Z) :=
  i ← myproc;
  p ← proc_at i;
  fetchint (u32 (esp (tf p) + 4 + 4 * n)).

Definition argptr (n size : Z) : M kst (option Z) :=
  r ← argint n;
  match r with
  | None => mret None
  | Some v =>
      i ← myproc;
      p ← proc_at i;
      let a := u32 v in
      if (sz p <=? a) || (sz p <? u32 (a + size)) then mret None else mret (Some a)
  end.

Definition argstr (n : Z) : M kst (option (list Z)) :=
  r ← argint n;
  match r with
  | None => mret None
  | Some addr => fetchstr (u32 addr)
  end.

(** [if(arg... < 0) return -1;] *)
Definition arg_or_fail {A} (m : M kst (option A)) (k : A → M kst Z) : M kst Z :=
  r ← m;
  match r with Some v => k v | None => mret (-1) end.

Notation "x <-! m ; k" := (arg_or_fail m (λ x, k)) (at level 200, m at level 100, k at level 200, right associativity).

(** ** Process system calls (sysproc.c) *)

Definition sys_schedp : M kst Z := policy_id <-! argint 0; schedp policy_id.

(** [sizeof(int* )] and [sizeof(struct perf* )] are 4. *)
Definition sys_wait_stat : M kst Z :=
  st <-! argptr 0 4;
  pf <-! argptr 1 4;
  wait_stat st pf.

(** Declared [void]: [undef] is what the caller finds in the result register,
    and the value of [priority_] when [argint] fails. *)
Definition sys_priority (undef : Z) : M kst Z :=
  r ← argint 0;
  priority_ (default undef r);;
  mret undef.

Definition sys_fork : M kst Z := fork.
Definition sys_exit : M kst Z := st <-! argint 0; exit st.
Definition sys_wait : M kst Z := st <-! argptr 0 4; wait st.
Definition sys_kill : M kst Z := pd <-! argint 0; kill pd.
Definition sys_getpid : M kst Z := i ← myproc; p ← proc_at i; mret (pid p).

Definition sys_sbrk : M kst Z :=
  n <-! argint 0;
  i ← myproc;
  p ← proc_at i;
  r ← growproc n;
  mret (if r <? 0 then -1 else s32 (sz p)).

(** The loop of [sys_sleep], entered again after each sleep. *)
Definition sleep_loop (ticks0 n : Z) : M kst Z :=
  t ← gets ticks;
  if u32 (t - ticks0) <? u32 n then
    i ← myproc;
    p ← proc_at i;
    if killed p then mret (-1) else sleep ChTicks
  else mret 0.

Definition sys_sleep : M kst Z :=
  n <-! argint 0;
  ticks0 ← gets ticks;
  sleep_loop ticks0 n.

Definition sys_uptime : M kst Z := t ← gets ticks; mret (s32 t).

Definition sys_signal : M kst Z :=
  signum <-! argint 0;
  handler <-! argptr 1 4;
  if (signum <? 0) || (NUMSIG - 1 <? signum) then mret (-1) else
  r ← signal signum handler;
  mret (s32 r).

Definition sys_sigsend : M kst Z :=
  pd <-! argint 0;
  signum <-! argint 1;
  if (signum <? 0) || (NUMSIG - 1 <? signum) then mret (-1) else
  sigsend pd signum.

Definition sys_sigreturn : M kst Z := sigreturn.
