(* ===== verification/Exec.v ===== *)
(** * Running a program (exec.c, elf.h, loaduvm of vm.c)

    The machine code [exec] places on the new stack (the bytes between
    [exit_start] and [exit_end], and those of [_sigreturn]) is produced by the
    compiler and assembler: it is a parameter, as is the stack content an ELF
    header that could not be read is left with. *)

From S2P Require Import Prelude Bio Log Fs File CString Kalloc Vm Proc.
#[local] Open Scope Z_scope.

Definition ELF_MAGIC : Z := 1179403647.
Definition ELF_PROG_LOAD : Z := 1.
Definition ELFHDR : Z := 52.
Definition PROGHDR : Z := 32.
Definition MAXARG : nat := 32.

Record elfhdr := mkElfhdr {
  magic : Z;
  entry : Z;
  phoff : Z;
  phnum : Z;
}.

(** The fields [exec] reads, at their offsets. *)
Definition decode_elf (d : list Z) : elfhdr := mkElfhdr (get32 d 0) (get32 d 24) (get32 d 28) (get16 d 44).

Record proghdr := mkProghdr {
  ph_type : Z;
  ph_off : Z;
  vaddr : Z;
  filesz : Z;
  memsz : Z;
}.

Definition decode_ph (d : list Z) : proghdr :=
  mkProghdr (get32 d 0) (get32 d 4) (get32 d 8) (get32 d 16) (get32 d 20).

(** ** Loading a segment *)

(** [for(i = 0; i < sz; i += PGSIZE)], at most [fuel] pages. *)
Fixpoint loaduvm_loop (fuel : nat) (pd addr : Z) (ip : nat) (offset sz i : Z) : M fst Z :=
  if i <? sz then
    match fuel with
    | O => out_of_fuel
    | S fuel' =>
        pte ← km_ (walkpgdir pd (u32 (addr + i)) false);
        if pte =? 0 then panic "loaduvm: address should exist" else
        e ← km_ (load pte);
        let pa := PTE_ADDR e in
        let n := if sz - i <? PGSIZE then sz - i else PGSIZE in
        '(r, bs) ← fs_ (readi ip (u32 (offset + i)) n);
        km_ (upd_mem (λ m, st_bytes m (p2v pa) bs));;
        if negb (u32 r =? n) then mret (-1) else
        loaduvm_loop fuel' pd addr ip offset sz (u32 (i + PGSIZE))
    end
  else mret 0.

Definition loaduvm (pd addr : Z) (ip : nat) (offset sz : Z) : M fst Z :=
  if negb (addr mod PGSIZE =? 0) then panic "loaduvm: addr must be page aligned" else
  loaduvm_loop (Z.to_nat ((sz + PGSIZE - 1) / PGSIZE)) pd addr ip offset sz 0.

(** The program headers from [off] on: the new size, or [None] for [bad]. *)
Fixpoint load_segments (n : nat) (pd : Z) (ip : nat) (off sz : Z) : M fst (option Z) :=
  match n with
  | O => mret (Some sz)
  | S n' =>
      '(r, bs) ← fs_ (readi ip (u32 off) PROGHDR);
      if negb (u32 r =? PROGHDR) then mret None else
      let ph := decode_ph bs in
      if negb (ph_type ph =? ELF_PROG_LOAD) then load_segments n' pd ip (s32 (off + PROGHDR)) sz else
      if memsz ph <? filesz ph then mret None else
      sz ← km_ (allocuvm pd sz (u32 (vaddr ph + memsz ph)));
      if sz =? 0 then mret None else
      r ← loaduvm pd (vaddr ph) ip (ph_off ph) (filesz ph);
      if r <? 0 then mret None else
      load_segments n' pd ip (s32 (off + PROGHDR)) sz
  end.

(** [(sp - len) & ~3] *)
Definition align_down (sp len : Z) : Z := Z.ldiff (u32 (sp - len)) 3.

(** Push the argument strings: the new [sp] and their addresses, or [None]. *)
Fixpoint push_args (pd : Z) (argc : nat) (argv : list (list Z)) (sp : Z) (ustack : list Z)
    : M kmem (option (Z * list Z)) :=
  match argv with
  | [] => mret (Some (sp, ustack))
  | s :: argv' =>
      if (MAXARG <=? argc)%nat then mret None else
      let sp := align_down sp (Z.of_nat (length s) + 1) in
      r ← copyout pd sp (s ++ [0]);
      if r <? 0 then mret None else
      push_args pd (S argc) argv' sp (ustack ++ [sp])
  end.

(** [for(last=s=path; *s; s++) if( *s == '/') last = s+1] *)
Fixpoint last_elem (path last : list Z) : list Z :=
  match path with
  | [] => last
  | c :: path' => last_elem path' (if c =? 47 then path' else last)
  end.

Section Exec.
Context (exit_code sigreturn_code elf_junk : list Z).

(** The two code stubs, the arguments and the initial frame on the stack of
    [pd] from [sz] down: the final [sp] and the address of [_sigreturn]'s
    copy, or [None] for [bad] (with that address, once it has been copied). *)
Definition build_stack (pd sz : Z) (argv : list (list Z)) : M kmem (option Z * option Z) :=
  let sp := u32 (sz - Z.of_nat (length exit_code)) in
  let retAdrss := sp in
  r ← copyout pd sp exit_code;
  if r <? 0 then mret (None, None) else
  let sp := align_down sp (Z.of_nat (length sigreturn_code)) in
  r ← copyout pd sp sigreturn_code;
  if r <? 0 then mret (None, None) else
  let ret := sp in
  r ← push_args pd 0 argv sp [];
  match r with
  | None => mret (None, Some ret)
  | Some (sp, args) =>
      let argc := Z.of_nat (length argv) in
      let ustack := retAdrss :: argc :: u32 (sp - (argc + 1) * 4) :: args ++ [0] in
      let sp := u32 (sp - (3 + argc + 1) * 4) in
      r ← copyout pd sp (ustack ≫= word_bytes);
      if r <? 0 then mret (None, Some ret) else mret (Some sp, Some ret)
  end.

(** [bad:] *)
Definition exec_bad (pd : Z) (ip : iptr) : M kst Z :=
  (if negb (pd =? 0) then k_ (freevm pd) else mret tt);;
  (match ip with Some i => f_ (fs_ (iunlockput i));; f_ (log_ end_op) | None => mret tt end);;
  mret (-1).

Definition exec (path : list Z) (argv : list (list Z)) : M kst Z :=
  me ← myproc;
  f_ (log_ begin_op);;
  r ← f_ (fs_ (namei path));
  match r with
  | None => f_ (log_ end_op);; mret (-1)
  | Some ip =>
      f_ (fs_ (ilock (Some ip)));;
      '(r, bs) ← f_ (fs_ (readi ip 0 ELFHDR));
      if u32 r <? ELFHDR then exec_bad 0 (Some ip) else
      let elf := decode_elf (bs ++ drop (length bs) elf_junk) in
      if negb (magic elf =? ELF_MAGIC) then exec_bad 0 (Some ip) else
      pd ← k_ setupkvm;
      if pd =? 0 then exec_bad 0 (Some ip) else
      r ← f_ (load_segments (Z.to_nat (phnum elf)) pd ip (s32 (phoff elf)) 0);
      match r with
      | None => exec_bad pd (Some ip)
      | Some sz0 =>
          f_ (fs_ (iunlockput ip));;
          f_ (log_ end_op);;
          let sz0 := PGROUNDUP sz0 in
          sz1 ← k_ (allocuvm pd sz0 (u32 (sz0 + 2 * PGSIZE)));
          if sz1 =? 0 then exec_bad pd None else
          k_ (clearpteu pd (u32 (sz1 - 2 * PGSIZE)));;
          '(osp, ret) ← k_ (build_stack pd sz1 argv);
          (match ret with Some a => upd_proc me (set_ret_add a) | None => mret tt end);;
          match osp with
          | None => exec_bad pd None
          | Some sp =>
              p ← proc_at me;
              upd_proc me (set_name (copy_name (last_elem path path)));;
              upd_proc me (set_pgdir pd);;
              upd_proc me (set_sz sz1);;
              upd_proc me (λ p, set_tf (set_esp sp (set_eip (entry elf) (tf p))) p);;
              switchuvm me;;
              k_ (freevm (pgdir p));;
              mret 0
          end
      end
  end.
End Exec.
