(* ===== verification/Sysfile.v ===== *)
(** * File system calls (sysfile.c, fcntl.h)

    Argument checking and calls into the file and file system layers, each
    call a routine of the whole kernel state. *)

From S2P Require Import Prelude Bio Log Fs File CString Kalloc Vm Proc Syscall Exec.
#[local] Open Scope Z_scope.

Definition O_RDONLY : Z := 0.
Definition O_WRONLY : Z := 1.
Definition O_RDWR : Z := 2.
Definition O_CREATE : Z := 512.

(** The descriptor and the file. *)
Definition argfd (n : Z) : M kst (option (Z * nat)) :=
  r ← argint n;
  match r with
  | None => mret None
  | Some fd =>
      i ← myproc;
      p ← proc_at i;
      if (fd <? 0) || (Z.of_nat NOFILE <=? fd) then mret None else
      mret (match ofile p (Z.to_nat fd) with Some f => Some (fd, f) | None => None end)
  end.

Definition fdalloc (f : nat) : M kst Z :=
  i ← myproc;
  p ← proc_at i;
  match find (λ fd, match ofile p fd with None => true | Some _ => false end) (seq 0 NOFILE) with
  | Some fd => upd_proc i (λ p, set_ofile (<[fd := Some f]> (ofile p)) p);; mret (Z.of_nat fd)
  | None => mret (-1)
  end.

(** [proc->ofile[fd] = 0] *)
Definition fdclear (fd : Z) : M kst unit :=
  i ← myproc;
  upd_proc i (λ p, set_ofile (<[Z.to_nat fd := None]> (ofile p)) p).

Definition sys_dup : M kst Z :=
  r <-! argfd 0;
  let f := r.2 in
  fd ← fdalloc f;
  if fd <? 0 then mret (-1) else
  f_ (filedup f);;
  mret fd.

Definition sys_read : M kst Z :=
  r <-! argfd 0;
  let f := r.2 in
  n <-! argint 2;
  p <-! argptr 1 n;
  '(r, bs) ← f_ (fileread f n);
  user_write p bs;;
  mret r.

Definition sys_write : M kst Z :=
  r <-! argfd 0;
  let f := r.2 in
  n <-! argint 2;
  p <-! argptr 1 n;
  src ← user_bytes p (Z.to_nat n);
  f_ (filewrite f src n).

Definition sys_close : M kst Z :=
  r <-! argfd 0;
  let '(fd, f) := r in
  fdclear fd;;
  f_ (fileclose f);;
  mret 0.

(** [stati] through the user pointer [st]. *)
Definition put_stat (st : Z) (x : stat) : M kst unit :=
  user_put_word (st + 4) (st_dev x);;
  user_put_word (st + 8) (st_ino x);;
  user_write st (take 2 (word_bytes (st_type x)));;
  user_write (st + 12) (take 2 (word_bytes (st_nlink x)));;
  user_put_word (st + 16) (st_size x).

Definition sys_fstat : M kst Z :=
  r <-! argfd 0;
  let f := r.2 in
  st <-! argptr 1 20;
  '(r, x) ← f_ (filestat f);
  (match x with Some x => put_stat st x | None => mret tt end);;
  mret r.

(** [ip->nlink += d; iupdate(ip);] *)
Definition add_nlink (ip : nat) (d : Z) : M fs unit :=
  upd_inode ip (λ p, set_i_nlink (s16 (i_nlink p + d)) p);;
  iupdate ip.

(** [bad:] of [sys_link]. *)
Definition link_bad (ip : nat) : M fst Z :=
  fs_ (ilock (Some ip));;
  fs_ (add_nlink ip (-1));;
  fs_ (iunlockput ip);;
  log_ end_op;;
  mret (-1).

Definition link (old new : list Z) : M fst Z :=
  log_ begin_op;;
  r ← fs_ (namei old);
  match r with
  | None => log_ end_op;; mret (-1)
  | Some ip =>
      fs_ (ilock (Some ip));;
      p ← fs_ (inode_at ip);
      if i_type p =? T_DIR then fs_ (iunlockput ip);; log_ end_op;; mret (-1) else
      fs_ (add_nlink ip 1);;
      fs_ (iunlock (Some ip));;
      '(r, name) ← fs_ (nameiparent new);
      match r with
      | None => link_bad ip
      | Some dp =>
          fs_ (ilock (Some dp));;
          d ← fs_ (inode_at dp);
          p ← fs_ (inode_at ip);
          r ← (if negb (i_dev d =? i_dev p) then mret (-1) else fs_ (dirlink dp name (i_num p)));
          if r <? 0 then fs_ (iunlockput dp);; link_bad ip else
          fs_ (iunlockput dp);;
          fs_ (iput ip);;
          log_ end_op;;
          mret 0
      end
  end.

Definition sys_link : M kst Z :=
  old <-! argstr 0;
  new <-! argstr 1;
  f_ (link old new).

(** Entries from the third on, as far as the size goes. *)
Definition isdirempty (dp : nat) : M fs bool :=
  d ← inode_at dp;
  r ← for_each (drop 2 (dir_offsets (i_size d))) (λ off,
        de ← read_dirent "isdirempty: readi" dp off;
        mret (if negb (get16 de 0 =? 0) then Some false else None));
  mret (default true r).

Definition DOT : list Z := [46].
Definition DOTDOT : list Z := [46; 46].

(** [bad:] of [sys_unlink]. *)
Definition unlink_bad (dp : nat) : M fst Z :=
  fs_ (iunlockput dp);;
  log_ end_op;;
  mret (-1).

Definition unlink (path : list Z) : M fst Z :=
  log_ begin_op;;
  '(r, name) ← fs_ (nameiparent path);
  match r with
  | None => log_ end_op;; mret (-1)
  | Some dp =>
      fs_ (ilock (Some dp));;
      if (namecmp name DOT =? 0) || (namecmp name DOTDOT =? 0) then unlink_bad dp else
      r ← fs_ (dirlookup dp name);
      match r with
      | None => unlink_bad dp
      | Some (ip, off) =>
          fs_ (ilock (Some ip));;
          p ← fs_ (inode_at ip);
          if i_nlink p <? 1 then panic "unlink: nlink < 1" else
          full ← (if i_type p =? T_DIR then e ← fs_ (isdirempty ip); mret (negb e) else mret false);
          if (full : bool) then fs_ (iunlockput ip);; unlink_bad dp else
          r ← fs_ (writei dp (replicate (Z.to_nat DIRENT) 0) off);
          if negb (r =? DIRENT) then panic "unlink: writei" else
          (if i_type p =? T_DIR then fs_ (add_nlink dp (-1)) else mret tt);;
          fs_ (iunlockput dp);;
          fs_ (add_nlink ip (-1));;
          fs_ (iunlockput ip);;
          log_ end_op;;
          mret 0
      end
  end.

Definition sys_unlink : M kst Z := path <-! argstr 0; f_ (unlink path).

Definition create (path : list Z) (type major minor : Z) : M fs iptr :=
  '(r, name) ← nameiparent path;
  match r with
  | None => mret None
  | Some dp =>
      ilock (Some dp);;
      r ← dirlookup dp name;
      match r with
      | Some (ip, _) =>
          iunlockput dp;;
          ilock (Some ip);;
          p ← inode_at ip;
          if (type =? T_FILE) && (i_type p =? T_FILE) then mret (Some ip) else
          iunlockput ip;;
          mret None
      | None =>
          d ← inode_at dp;
          r ← ialloc (i_dev d) type;
          match r with
          | None => panic "create: ialloc"
          | Some ip =>
              ilock (Some ip);;
              upd_inode ip (λ p, set_i_nlink 1 (set_i_minor minor (set_i_major major p)));;
              iupdate ip;;
              p ← inode_at ip;
              (if type =? T_DIR then
                 add_nlink dp 1;;
                 r1 ← dirlink ip DOT (i_num p);
                 if r1 <? 0 then panic "create dots" else
                 r2 ← dirlink ip DOTDOT (i_num d);
                 if r2 <? 0 then panic "create dots" else mret tt
               else mret tt);;
              r ← dirlink dp name (i_num p);
              if r <? 0 then panic "create: dirlink" else
              iunlockput dp;;
              mret (Some ip)
          end
      end
  end.

(** The inode to open, locked; [None] when [sys_open] has to return -1. *)
Definition open_inode (path : list Z) (omode : Z) : M fs iptr :=
  if has omode O_CREATE then create path T_FILE 0 0 else
  r ← namei path;
  match r with
  | None => mret None
  | Some ip =>
      ilock (Some ip);;
      p ← inode_at ip;
      if (i_type p =? T_DIR) && negb (omode =? O_RDONLY) then iunlockput ip;; mret None
      else mret (Some ip)
  end.

Definition sys_open : M kst Z :=
  path <-! argstr 0;
  omode <-! argint 1;
  f_ (log_ begin_op);;
  r ← f_ (fs_ (open_inode path omode));
  match r with
  | None => f_ (log_ end_op);; mret (-1)
  | Some ip =>
      fo ← f_ filealloc;
      fd ← (match fo with Some f => fdalloc f | None => mret (-1) end);
      match fo, 0 <=? fd with
      | Some f, true =>
          f_ (fs_ (iunlock (Some ip)));;
          f_ (log_ end_op);;
          f_ (upd_file f (λ x, mkFile FD_INODE (f_ref x) (negb (has omode O_WRONLY))
            (has omode O_WRONLY || has omode O_RDWR) (f_pipe x) (Some ip) 0));;
          mret fd
      | _, _ =>
          (match fo with Some f => f_ (fileclose f) | None => mret tt end);;
          f_ (fs_ (iunlockput ip));;
          f_ (log_ end_op);;
          mret (-1)
      end
  end.

(** [ip = create(...)] and what follows it in [sys_mkdir] and [sys_mknod]. *)
Definition make_node (r : option (list Z * Z * Z * Z)) : M kst Z :=
  match r with
  | None => f_ (log_ end_op);; mret (-1)
  | Some (path, type, major, minor) =>
      r ← f_ (fs_ (create path type (s16 major) (s16 minor)));
      match r with
      | None => f_ (log_ end_op);; mret (-1)
      | Some ip => f_ (fs_ (iunlockput ip));; f_ (log_ end_op);; mret 0
      end
  end.

Definition sys_mkdir : M kst Z :=
  f_ (log_ begin_op);;
  r ← argstr 0;
  make_node (match r with Some path => Some (path, T_DIR, 0, 0) | None => None end).

Definition sys_mknod : M kst Z :=
  f_ (log_ begin_op);;
  path ← argstr 0;
  match path with
  | None => make_node None
  | Some path =>
      major ← argint 1;
      match major with
      | None => make_node None
      | Some major =>
          minor ← argint 2;
          make_node (match minor with Some minor => Some (path, T_DEV, major, minor) | None => None end)
      end
  end.

Definition sys_chdir : M kst Z :=
  f_ (log_ begin_op);;
  path ← argstr 0;
  r ← (match path with Some path => f_ (fs_ (namei path)) | None => mret None end);
  match r with
  | None => f_ (log_ end_op);; mret (-1)
  | Some ip =>
      f_ (fs_ (ilock (Some ip)));;
      p ← f_ (fs_ (inode_at ip));
      if negb (i_type p =? T_DIR) then f_ (fs_ (iunlockput ip));; f_ (log_ end_op);; mret (-1) else
      f_ (fs_ (iunlock (Some ip)));;
      me ← myproc;
      q ← proc_at me;
      f_ (iput_ (cwd q));;
      f_ (log_ end_op);;
      upd_proc me (set_cwd (Some ip));;
      mret 0
  end.

(** [argv[i..]], with room for [room] more entries; [None] for -1. *)
Fixpoint fetch_argv (room : nat) (uargv i : Z) : M kst (option (list (list Z))) :=
  match room with
  | O => mret None
  | S room' =>
      uarg ← fetchint (u32 (uargv + 4 * i));
      match uarg with
      | None => mret None
      | Some 0 => mret (Some [])
      | Some uarg =>
          s ← fetchstr (u32 uarg);
          match s with
          | None => mret None
          | Some s =>
              rest ← fetch_argv room' uargv (i + 1);
              mret (match rest with Some l => Some (s :: l) | None => None end)
          end
      end
  end.

Definition sys_exec (exit_code sigreturn_code elf_junk : list Z) : M kst Z :=
  path <-! argstr 0;
  uargv <-! argint 1;
  argv <-! fetch_argv MAXARG (u32 uargv) 0;
  exec exit_code sigreturn_code elf_junk path argv.

Definition sys_pipe : M kst Z :=
  fd <-! argptr 0 8;
  r ← f_ pipealloc;
  match r with
  | None => mret (-1)
  | Some (rf, wf) =>
      fd0 ← fdalloc rf;
      fd1 ← (if fd0 <? 0 then mret (-1) else fdalloc wf);
      if (fd0 <? 0) || (fd1 <? 0) then
        (if 0 <=? fd0 then fdclear fd0 else mret tt);;
        f_ (fileclose rf);;
        f_ (fileclose wf);;
        mret (-1)
      else
      user_put_word fd fd0;;
      user_put_word (fd + 4) fd1;;
      mret 0
  end.
