(* ===== verification/Trap.v ===== *)
(** * Traps, system call dispatch and signal delivery (trap.c, syscall.c,
    kbdintr and uartintr)

    [trap tf] handles the frame [tf] the entry code built.  When the process
    gives up the processor on a clock tick the routine ends there with [true],
    and [trap_resume] is what runs when the scheduler comes back to it.
    [trapret] delivers signals before the return to user space. *)

From S2P Require Import Prelude Bio Log Console Fs File CString Kalloc Vm Proc Syscall Exec Sysfile.
#[local] Open Scope Z_scope.

Definition T_SYSCALL : Z := 64.
Definition T_IRQ0 : Z := 32.
Definition IRQ_TIMER : Z := 0.
Definition IRQ_KBD : Z := 1.
Definition IRQ_COM1 : Z := 4.
Definition IRQ_IDE : Z := 14.
Definition IRQ_SPURIOUS : Z := 31.

Section Trap.
(** The code stubs of [exec], stack content the code leaves uninitialised, and
    the register a [void] system call leaves its result in. *)
Context (exit_code sigreturn_code elf_junk : list Z) (undef : Z).

(** [syscalls[num]] *)
Definition syscalls (num : Z) : option (M kst Z) :=
  match num with
  | 1 => Some sys_fork
  | 2 => Some sys_exit
  | 3 => Some sys_wait
  | 4 => Some sys_pipe
  | 5 => Some sys_read
  | 6 => Some sys_kill
  | 7 => Some (sys_exec exit_code sigreturn_code elf_junk)
  | 8 => Some sys_fstat
  | 9 => Some sys_chdir
  | 10 => Some sys_dup
  | 11 => Some sys_getpid
  | 12 => Some sys_sbrk
  | 13 => Some sys_sleep
  | 14 => Some sys_uptime
  | 15 => Some sys_open
  | 16 => Some sys_write
  | 17 => Some sys_mknod
  | 18 => Some sys_unlink
  | 19 => Some sys_link
  | 20 => Some sys_mkdir
  | 21 => Some sys_close
  | 22 => Some sys_schedp
  | 23 => Some (sys_priority undef)
  | 24 => Some sys_wait_stat
  | 25 => Some sys_signal
  | 26 => Some sys_sigsend
  | 27 => Some sys_sigreturn
  | _ => None
  end.

Definition syscall : M kst unit :=
  i ← myproc;
  p ← proc_at i;
  r ← (match syscalls (s32 (eax (tf p))) with
       | Some call => call
       | None => mret (-1)
       end);
  upd_proc i (λ p, set_tf (set_eax (u32 r) (tf p)) p).

(** [(tf->cs & 3) == DPL_USER] *)
Definition user_mode (t : trapframe) : bool := Z.land (cs t) 3 =? DPL_USER.

(** [if(proc && proc->killed && user) exit(0);] *)
Definition exit_if_killed (t : trapframe) : M kst unit :=
  s ← get;
  match cur s with
  | Some i => if killed (ptable s i) && user_mode t then exit 0 else mret tt
  | None => mret tt
  end.

Definition procdump : M kst unit := modify (set_started true).

(** [consoleintr] on the characters the device has, then [procdump]. *)
Definition console_interrupt (chars : list Z) : M kst unit :=
  d ← f_ (fs_ (lift fcons set_fcons (consoleintr chars false)));
  if (d : bool) then procdump else mret tt.

Definition timer_interrupt (cpuid : Z) : M kst unit :=
  if cpuid =? 0 then
    modify (λ s, set_ticks (u32 (ticks s + 1)) s);;
    updatePerformanceFields;;
    wakeup ChTicks
  else mret tt.

(** The [switch] on [tf->trapno]. *)
Definition trap_switch (cpuid : Z) (chars : list Z) (t : trapframe) : M kst unit :=
  let n := trapno t in
  if n =? T_IRQ0 + IRQ_TIMER then timer_interrupt cpuid else
  if n =? T_IRQ0 + IRQ_IDE then mret tt else
  if n =? T_IRQ0 + IRQ_IDE + 1 then mret tt else
  if n =? T_IRQ0 + IRQ_KBD then console_interrupt chars else
  if n =? T_IRQ0 + IRQ_COM1 then console_interrupt chars else
  if (n =? T_IRQ0 + 7) || (n =? T_IRQ0 + IRQ_SPURIOUS) then mret tt else
  c ← gets cur;
  match c with
  | Some i => if Z.land (cs t) 3 =? 0 then panic "trap" else upd_proc i (set_killed true)
  | None => panic "trap"
  end.

(** After the [switch], up to the [yield]; whether the process yielded. *)
Definition trap_tail (t : trapframe) : M kst bool :=
  exit_if_killed t;;
  s ← get;
  match cur s with
  | Some i =>
      if is_state (pstate (ptable s i)) RUNNING && (trapno t =? T_IRQ0 + IRQ_TIMER)
      then yield;; mret true
      else exit_if_killed t;; mret false
  | None => mret false
  end.

(** The end of [trap], once a process that yielded runs again. *)
Definition trap_resume (t : trapframe) : M kst unit := exit_if_killed t.

Definition trap (cpuid : Z) (chars : list Z) (t : trapframe) : M kst bool :=
  if trapno t =? T_SYSCALL then
    i ← myproc;
    p ← proc_at i;
    if killed p then exit 0 else
    upd_proc i (set_tf t);;
    syscall;;
    p ← proc_at i;
    if killed p then exit 0 else mret false
  else
    trap_switch cpuid chars t;;
    trap_tail t.
End Trap.

(** ** Signal delivery *)

Definition save_tf : M kst unit :=
  i ← myproc;
  upd_proc i (λ p, let b := tf p in
    set_backup_tf (mkTf (edi b) (esi b) (ebp b) (oesp b) (ebx b) (edx b) (ecx b) (eax b) (gs b) (padding1 b)
      (fsreg b) (padding2 b) (es b) (padding3 b) (ds b) (padding4 b) (trapno b) (err b) (eip b) (cs b)
      (padding5 b) (eflags b) (esp b) (ss b) (padding6 b)) p).

Definition default_handler : M kst unit := i ← myproc; upd_proc i (set_handling_signal false).

(** [for(i = 0; i < 32; ++i)]: the lowest pending signal, from [i] on. *)
Fixpoint lowest_signal (k : nat) (i pend : Z) : option Z :=
  match k with
  | O => None
  | S k' => if negb (Z.land pend (Z.shiftl 1 i) =? 0) then Some i else lowest_signal k' (i + 1) pend
  end.

(** [proc->tf->esp -= 4; memmove(proc->tf->esp, &v, 4)] *)
Definition push_user (i : nat) (v : Z) : M kst unit :=
  upd_proc i (λ p, set_tf (set_esp (u32 (esp (tf p) - 4)) (tf p)) p);;
  p ← proc_at i;
  user_put_word (esp (tf p)) v.

(** The frame of a trap from user space is [proc->tf].  Without a pending bit
    [signum] would be uninitialised; [pending] is not 0 then. *)
Definition do_signal (t : trapframe) : M kst unit :=
  s ← get;
  match cur s with
  | None => mret tt
  | Some i =>
      let p := ptable s i in
      if user_mode t && negb (pending p =? 0) && negb (handling_signal p) then
        upd_proc i (set_handling_signal true);;
        match lowest_signal 32 0 (pending p) with
        | None => panic "uninitialised signum"
        | Some signum =>
            upd_proc i (λ p, set_pending (Z.ldiff (pending p) (Z.shiftl 1 signum)) p);;
            let curr_handler := handlers_array p (Z.to_nat signum) in
            if curr_handler =? SIG_DFL then default_handler else
            save_tf;;
            push_user i signum;;
            push_user i (ret_add p);;
            upd_proc i (λ p, set_tf (set_eip (handlers_array p (Z.to_nat signum)) (tf p)) p)
        end
      else mret tt
  end.
