(* ===== verification/KernelInv.v ===== *)
(** * The process table across the whole kernel

    [table_ok] is the invariant of the process table.  Most routines only
    change a process through its own fields and through wakeups: they are
    [light], which is closed under composition and shown once for every
    routine of the lower layers.  The routines that create, end, reap and
    switch processes are verified on their own, and [kernel_step] puts every
    entry into the kernel together. *)

From S2P Require Import Prelude Bio Log Console Fs File CString Kalloc Vm Proc Syscall Exec Sysfile Trap.
#[local] Open Scope Z_scope.

Create HintDb light.

(** ** Routines that leave the table alone, up to wakeups *)

Record evolves (s s' : kst) : Prop := {
  ev_next : nextpid s' = nextpid s;
  ev_init : initproc s' = initproc s;
  ev_cur : cur s' = cur s;
  ev_pid : ∀ i, pid (ptable s' i) = pid (ptable s i);
  ev_parent : ∀ i, parent (ptable s' i) = parent (ptable s i);
  ev_state : ∀ i, pstate (ptable s' i) = pstate (ptable s i) ∨
    (pstate (ptable s i) = SLEEPING ∧ pstate (ptable s' i) = RUNNABLE);
}.

#[export] Instance evolves_preorder : PreOrder evolves.
Proof.
  split.
  - intros s. split; auto.
  - intros s1 s2 s3 [] []. split; try congruence. intros i.
    specialize (ev_state0 i). specialize (ev_state1 i). intuition congruence.
Qed.

(** The current process, after some of that, put to sleep. *)
Definition slept (s s' : kst) : Prop :=
  ∃ s1 me c, evolves s s1 ∧ cur s1 = Some me ∧
    s' = set_ptable (<[me := set_pstate SLEEPING (set_pchan c (ptable s1 me))]> (ptable s1)) s1.

Definition light {A} (m : M kst A) : Prop := ∀ s,
  match m s with
  | Done _ s' => evolves s s'
  | Sleep _ s' => slept s s'
  | _ => True
  end.

Lemma slept_evolves s1 s2 s3 : evolves s1 s2 → slept s2 s3 → slept s1 s3.
Proof. intros H (s & me & c & H2 & Hc & ->). exists s, me, c. split; [by etrans|done]. Qed.

Section Light.
Context {A B : Type}.

Lemma light_ret (a : A) : light (mret a).
Proof. intros s. by cbn. Qed.

Lemma light_panic msg : light (A := A) (panic msg).
Proof. by intros s. Qed.

Lemma light_get : light get.
Proof. intros s. by cbn. Qed.

Lemma light_gets (f : kst → A) : light (gets f).
Proof. intros s. by cbn. Qed.

Lemma light_modify (f : kst → kst) : (∀ s, evolves s (f s)) → light (modify f).
Proof. intros H s. apply H. Qed.

Lemma light_bind (m : M kst A) (k : A → M kst B) : light m → (∀ a, light (k a)) → light (m ≫= k).
Proof.
  intros Hm Hk s. unfold mbind, M_bind. specialize (Hm s). destruct (m s) as [a s1|msg|c s1|]; try done.
  specialize (Hk a s1). destruct (k a s1) as [b s2|msg|c s2|]; try done; [by etrans|by eapply slept_evolves].
Qed.

Lemma light_for_each {C} (l : list C) (body : C → M kst (option A)) :
  (∀ x, light (body x)) → light (for_each l body).
Proof.
  intros Hb. induction l as [|x l IH]; intros s; [by cbn|]. cbn [for_each].
  unfold mbind, M_bind. specialize (Hb x s). destruct (body x s) as [[v|] s1|msg|c s1|]; try done.
  specialize (IH s1). destruct (for_each l body s1); try done; [by etrans|by eapply slept_evolves].
Qed.

Lemma light_iter_each {C} (l : list C) (body : C → M kst unit) :
  (∀ x, light (body x)) → light (iter_each l body).
Proof.
  intros Hb. induction l as [|x l IH]; intros s; [by cbn|]. cbn [iter_each].
  unfold mbind, M_bind. specialize (Hb x s). destruct (body x s) as [v s1|msg|c s1|]; try done.
  specialize (IH s1). destruct (iter_each l body s1); try done; [by etrans|by eapply slept_evolves].
Qed.
End Light.

(** An update of a process that keeps its state, pid and parent. *)
Definition keeps (f : proc → proc) : Prop :=
  ∀ p, pstate (f p) = pstate p ∧ pid (f p) = pid p ∧ parent (f p) = parent p.

Lemma evolves_upd s i f :
  (∀ p, pid (f p) = pid p ∧ parent (f p) = parent p ∧
    (pstate (f p) = pstate p ∨ (pstate p = SLEEPING ∧ pstate (f p) = RUNNABLE))) →
  evolves s (set_ptable (<[i := f (ptable s i)]> (ptable s)) s).
Proof.
  intros H. split; try done; cbn; intros j; (destruct (decide (i = j)) as [<-|Hne];
    [rewrite fn_lookup_insert; apply H|by rewrite fn_lookup_insert_ne; auto]).
Qed.

Lemma light_upd_proc i f : keeps f → light (upd_proc i f).
Proof. intros H s. apply evolves_upd. intros p. destruct (H p) as (? & ? & ?). auto. Qed.

Lemma evolves_wakeup1 c s : evolves s (wakeup1 c s).
Proof.
  unfold wakeup1. set (t := λ i, _).
  assert (∀ i, pid (t i) = pid (ptable s i) ∧ parent (t i) = parent (ptable s i) ∧
    (pstate (t i) = pstate (ptable s i) ∨ (pstate (ptable s i) = SLEEPING ∧ pstate (t i) = RUNNABLE))) as Ht.
  { intros i. unfold t. destruct (i <? NPROC)%nat; [|auto]. unfold wake_one.
    destruct (is_state (pstate (ptable s i)) SLEEPING) eqn:E; cbn; [|auto].
    apply bool_decide_eq_true in E. case_bool_decide; cbn; auto. }
  split; try done; cbn; intros i; (destruct (_ && _); [|apply Ht]);
    (destruct (decide (NPROC = i)) as [<-|Hne]; [rewrite fn_lookup_insert; apply Ht|rewrite fn_lookup_insert_ne by done; apply Ht]).
Qed.

Lemma evolves_leave t s : evolves s (leave t s).
Proof.
  unfold leave. assert (evolves s (set_kf t s)) as H by (by split; auto).
  revert H. generalize (set_kf t s). induction (woken (fst_io t) ++ cwoken (fcons (ffs t))) as [|c l IH]; intros s1 H; [done|].
  apply IH. etrans; [done|apply evolves_wakeup1].
Qed.

Lemma light_sleep {A} c : light (A := A) (sleep c).
Proof.
  intros s. unfold sleep, mbind, M_bind. cbn. destruct (cur s) as [me|] eqn:Hc; [|done].
  unfold sched, myproc, mbind, M_bind. cbn. rewrite Hc. cbn. rewrite fn_lookup_insert. cbn.
  exists s, me, c. done.
Qed.

Lemma light_f_ {A} (m : M fst A) : light (f_ m).
Proof.
  intros s. unfold f_. destruct (m (enter s)) as [a t|msg|c t|]; try done; [apply evolves_leave|].
  pose proof (light_sleep (A := A) c (leave t s)) as H. destruct (sleep c (leave t s)); try done.
  - etrans; [apply evolves_leave|done].
  - eapply slept_evolves; [apply evolves_leave|done].
Qed.

Lemma light_wakeup c : light (Proc.wakeup c).
Proof. apply light_modify, evolves_wakeup1. Qed.

Lemma light_kill_state i :
  light (upd_proc i (λ p, if is_state (pstate p) SLEEPING then set_pstate RUNNABLE p else p)).
Proof.
  intros s. apply evolves_upd. intros p. destruct (is_state (pstate p) SLEEPING) eqn:E; cbn; [|auto].
  apply bool_decide_eq_true in E. auto.
Qed.

(** [light] runs through a routine: sequencing, tests, and updates of single
    fields; what remains are calls, from the hint database. *)
Ltac light_field := intros ?; cbn; repeat (case_match; cbn); auto.
Ltac light1 :=
  cbv zeta;
  first
  [ solve [auto with light nocore]
  | simple apply light_ret | simple apply light_panic | simple apply light_get | simple apply light_gets
  | simple apply light_kill_state
  | simple apply light_bind; [|intros ?]
  | simple apply light_for_each; intros ?
  | simple apply light_iter_each; intros ?
  | simple apply light_upd_proc; light_field
  | simple apply light_modify; intros ?; by split; auto
  | case_match ].
Ltac light_tac := intros; repeat light1.

#[export] Hint Resolve light_wakeup @light_f_ @light_sleep : light.

Lemma light_myproc : light myproc.
Proof. unfold myproc. light_tac. Qed.
#[export] Hint Resolve light_myproc : light.

Lemma light_k_ {A} (m : M kmem A) : light (k_ m).
Proof. apply light_f_. Qed.
Lemma light_user_bytes va n : light (user_bytes va n).
Proof. unfold user_bytes, proc_at, k_. light_tac. Qed.
Lemma light_user_write va l : light (user_write va l).
Proof. unfold user_write, proc_at, k_. light_tac. Qed.
#[export] Hint Resolve @light_k_ light_user_bytes light_user_write : light.
Lemma light_user_word va : light (user_word va).
Proof. unfold user_word. light_tac. Qed.
Lemma light_user_put_word va v : light (user_put_word va v).
Proof. unfold user_put_word. light_tac. Qed.
Lemma light_switchuvm i : light (switchuvm i).
Proof. unfold switchuvm, proc_at. light_tac. Qed.
#[export] Hint Resolve light_user_word light_user_put_word light_switchuvm : light.

(** ** The routines of proc.c, syscall.c, sysproc.c, sysfile.c and exec.c that are light *)

Lemma light_signal signum h : light (signal signum h).
Proof. unfold signal, proc_at. light_tac. Qed.
Lemma light_sigsend pd signum : light (sigsend pd signum).
Proof. unfold sigsend, proc_at. light_tac. Qed.
Lemma light_sigreturn : light sigreturn.
Proof. unfold sigreturn, restore_tf, proc_at. light_tac. Qed.
Lemma light_updatePerformanceFields : light updatePerformanceFields.
Proof.
  unfold updatePerformanceFields. apply light_iter_each. intros i. apply light_upd_proc. intros p.
  unfold account. destruct (pstate p) eqn:E; cbn; auto.
Qed.
Lemma light_growproc n : light (growproc n).
Proof. unfold growproc, proc_at. light_tac. Qed.
Lemma light_kill pd : light (kill pd).
Proof. unfold kill. light_tac. Qed.
Lemma light_schedp n : light (schedp n).
Proof. unfold schedp. light_tac. Qed.
Lemma light_priority n : light (priority_ n).
Proof. unfold priority_. light_tac. Qed.
Lemma light_sleep_return : light sleep_return.
Proof. unfold sleep_return. light_tac. Qed.
Lemma light_forkret : light forkret.
Proof. unfold forkret. light_tac. Qed.
Lemma light_dup_files me np : light (dup_files me np).
Proof. unfold dup_files, proc_at. light_tac. Qed.
Lemma light_close_files me : light (close_files me).
Proof. unfold close_files, proc_at. light_tac. Qed.
#[export] Hint Resolve light_signal light_sigsend light_sigreturn light_updatePerformanceFields light_growproc
  light_kill light_schedp light_priority light_sleep_return light_forkret light_dup_files light_close_files : light.

Lemma light_arg_or_fail {A} (m : M kst (option A)) (k : A → M kst Z) :
  light m → (∀ a, light (k a)) → light (arg_or_fail m k).
Proof. intros Hm Hk. unfold arg_or_fail. light_tac. Qed.

Ltac light2 := first [apply light_arg_or_fail; [|intros ?] | light1].
Ltac light_sys := intros; repeat light2.

Lemma light_fetchint a : light (fetchint a).
Proof. unfold fetchint, proc_at. light_tac. Qed.
#[export] Hint Resolve light_fetchint : light.
Lemma light_scan_str n : ∀ a, light (scan_str n a).
Proof. induction n; intros a; cbn [scan_str]; light_tac. Qed.
#[export] Hint Resolve light_scan_str : light.
Lemma light_fetchstr a : light (fetchstr a).
Proof. unfold fetchstr, proc_at. light_tac. Qed.
Lemma light_argint n : light (argint n).
Proof. unfold argint, proc_at. light_tac. Qed.
#[export] Hint Resolve light_fetchstr light_argint : light.
Lemma light_argptr n size : light (argptr n size).
Proof. unfold argptr, proc_at. light_tac. Qed.
Lemma light_argstr n : light (argstr n).
Proof. unfold argstr. light_tac. Qed.
Lemma light_argfd n : light (argfd n).
Proof. unfold argfd, proc_at. light_tac. Qed.
Lemma light_fdalloc f : light (fdalloc f).
Proof. unfold fdalloc, proc_at. light_tac. Qed.
Lemma light_fdclear fd : light (fdclear fd).
Proof. unfold fdclear. light_tac. Qed.
Lemma light_put_stat st x : light (put_stat st x).
Proof. unfold put_stat. light_tac. Qed.
Lemma light_make_node r : light (make_node r).
Proof. unfold make_node. light_tac. Qed.
Lemma light_sleep_loop t n : light (sleep_loop t n).
Proof. unfold sleep_loop, proc_at. light_tac. Qed.
#[export] Hint Resolve light_argptr light_argstr light_argfd light_fdalloc light_fdclear light_put_stat
  light_make_node light_sleep_loop : light.
Lemma light_fetch_argv room : ∀ a i, light (fetch_argv room a i).
Proof. induction room; intros a i; cbn [fetch_argv]; light_tac. Qed.
Lemma light_exec_bad pd ip : light (exec_bad pd ip).
Proof. unfold exec_bad. light_tac. Qed.
#[export] Hint Resolve light_fetch_argv light_exec_bad : light.
Lemma light_exec e g j path argv : light (exec e g j path argv).
Proof. unfold exec, proc_at. light_tac. Qed.
#[export] Hint Resolve light_exec : light.

(** The system calls that neither create, end nor reap a process. *)
Definition heavy (num : Z) : bool := existsb (Z.eqb num) [1; 2; 3; 24].

Lemma light_sys_pipe : light sys_pipe.
Proof. unfold sys_pipe, proc_at. light_sys. Qed.
Lemma light_sys_read : light sys_read.
Proof. unfold sys_read, proc_at. light_sys. Qed.
Lemma light_sys_kill : light sys_kill.
Proof. unfold sys_kill, proc_at. light_sys. Qed.
Lemma light_sys_fstat : light sys_fstat.
Proof. unfold sys_fstat, proc_at. light_sys. Qed.
Lemma light_sys_chdir : light sys_chdir.
Proof. unfold sys_chdir, proc_at. light_sys. Qed.
Lemma light_sys_dup : light sys_dup.
Proof. unfold sys_dup, proc_at. light_sys. Qed.
Lemma light_sys_getpid : light sys_getpid.
Proof. unfold sys_getpid, proc_at. light_sys. Qed.
Lemma light_sys_sbrk : light sys_sbrk.
Proof. unfold sys_sbrk, proc_at. light_sys. Qed.
Lemma light_sys_sleep : light sys_sleep.
Proof. unfold sys_sleep, proc_at. light_sys. Qed.
Lemma light_sys_uptime : light sys_uptime.
Proof. unfold sys_uptime, proc_at. light_sys. Qed.
Lemma light_sys_open : light sys_open.
Proof. unfold sys_open, proc_at. light_sys. Qed.
Lemma light_sys_write : light sys_write.
Proof. unfold sys_write, proc_at. light_sys. Qed.
Lemma light_sys_mknod : light sys_mknod.
Proof. unfold sys_mknod, proc_at. light_sys. Qed.
Lemma light_sys_unlink : light sys_unlink.
Proof. unfold sys_unlink, proc_at. light_sys. Qed.
Lemma light_sys_link : light sys_link.
Proof. unfold sys_link, proc_at. light_sys. Qed.
Lemma light_sys_mkdir : light sys_mkdir.
Proof. unfold sys_mkdir, proc_at. light_sys. Qed.
Lemma light_sys_close : light sys_close.
Proof. unfold sys_close, proc_at. light_sys. Qed.
Lemma light_sys_schedp : light sys_schedp.
Proof. unfold sys_schedp, proc_at. light_sys. Qed.
Lemma light_sys_signal : light sys_signal.
Proof. unfold sys_signal, proc_at. light_sys. Qed.
Lemma light_sys_sigsend : light sys_sigsend.
Proof. unfold sys_sigsend, proc_at. light_sys. Qed.
Lemma light_sys_sigreturn : light sys_sigreturn.
Proof. unfold sys_sigreturn, proc_at. light_sys. Qed.
Lemma light_sys_exec e g j : light (sys_exec e g j).
Proof. unfold sys_exec. light_sys. Qed.
Lemma light_sys_priority u : light (sys_priority u).
Proof. unfold sys_priority. light_sys. Qed.
#[export] Hint Resolve light_sys_pipe light_sys_read light_sys_kill light_sys_fstat light_sys_chdir
  light_sys_dup light_sys_getpid light_sys_sbrk light_sys_sleep light_sys_uptime light_sys_open light_sys_write
  light_sys_mknod light_sys_unlink light_sys_link light_sys_mkdir light_sys_close light_sys_schedp
  light_sys_signal light_sys_sigsend light_sys_sigreturn light_sys_exec light_sys_priority : light.

Lemma light_syscalls e g j u num call :
  syscalls e g j u num = Some call → heavy num = false → light call.
Proof.
  intros Hn Hh. unfold syscalls in Hn.
  repeat (case_match; try discriminate Hn); injection Hn as <-; try discriminate Hh; auto with light nocore.
Qed.

(** ** The invariant *)

Definition used (s : kst) (i : nat) : Prop := pstate (ptable s i) ≠ UNUSED.

(** Neither free, nor being set up, nor dead. *)
Definition alive_state (x : procstate) : Prop := x = SLEEPING ∨ x = RUNNABLE ∨ x = RUNNING.
Definition alive (s : kst) (i : nat) : Prop := alive_state (pstate (ptable s i)).

(** Neither free nor being set up. *)
Definition settled (s : kst) (i : nat) : Prop := pstate (ptable s i) ≠ UNUSED ∧ pstate (ptable s i) ≠ EMBRYO.

(** Pids are distinct and below [nextpid]; a parent is alive, and every process
    that is not being set up has one, except for init; init is alive; free slots
    have no parent; only the current process is RUNNING. *)
Record table_ok (s : kst) : Prop := {
  ok_pid : ∀ i, (i < NPROC)%nat → used s i → 0 < pid (ptable s i) < nextpid s;
  ok_uniq : ∀ i j, (i < NPROC)%nat → (j < NPROC)%nat → used s i → used s j →
    pid (ptable s i) = pid (ptable s j) → i = j;
  ok_parent : ∀ i j, (i < NPROC)%nat → used s i → parent (ptable s i) = Some j → (j < NPROC)%nat ∧ alive s j;
  ok_child : ∀ i, (i < NPROC)%nat → settled s i → initproc s = Some i ∨ is_Some (parent (ptable s i));
  ok_free : ∀ i, (i < NPROC)%nat → ¬ used s i → parent (ptable s i) = None;
  ok_ini : is_Some (initproc s);
  ok_init : ∀ k, initproc s = Some k → (k < NPROC)%nat ∧ alive s k;
  ok_run : ∀ i, (i < NPROC)%nat → pstate (ptable s i) = RUNNING → cur s = Some i;
  ok_cur : ∀ i, cur s = Some i → (i < NPROC)%nat ∧ settled s i;
  ok_next : 0 < nextpid s;
}.

Lemma alive_used s i : alive s i → used s i.
Proof. unfold alive, used, alive_state. intuition congruence. Qed.

Lemma alive_settled s i : alive s i → settled s i.
Proof. unfold alive, settled, alive_state. intuition congruence. Qed.

Lemma settled_used s i : settled s i → used s i.
Proof. by intros [? _]. Qed.

Lemma evolves_settled s s' i : evolves s s' → settled s i ↔ settled s' i.
Proof. intros H. unfold settled. destruct (ev_state _ _ H i); intuition congruence. Qed.

Lemma evolves_used s s' i : evolves s s' → used s i ↔ used s' i.
Proof. intros H. unfold used. destruct (ev_state _ _ H i); intuition congruence. Qed.

Lemma evolves_alive s s' i : evolves s s' → alive s i → alive s' i.
Proof. intros H. unfold alive, alive_state. destruct (ev_state _ _ H i); intuition congruence. Qed.

Lemma evolves_state s s' i x : evolves s s' → x ≠ SLEEPING → pstate (ptable s i) = x → pstate (ptable s' i) = x.
Proof. intros H. destruct (ev_state _ _ H i); intuition congruence. Qed.

Lemma evolves_ok s s' : evolves s s' → table_ok s → table_ok s'.
Proof.
  intros H [Hp Hu Hpa Hch Hf Hni Hi Hr Hc Hn]. pose proof H as [En Ei Ec Ep Epa Es]. split.
  - intros i Hlt Hus. rewrite Ep, En. apply Hp; [done|by eapply evolves_used].
  - intros i j ? ? Hi' Hj'. rewrite !Ep. apply Hu; try done; by eapply evolves_used.
  - intros i j Hlt Hus. rewrite Epa. intros E. destruct (Hpa i j) as [? ?]; try done; [by eapply evolves_used|].
    split; [done|by eapply evolves_alive].
  - intros i Hlt Hus. rewrite Epa, Ei. apply Hch; [done|by rewrite (evolves_settled _ _ _ H)].
  - intros i Hlt Hus. rewrite Epa. apply Hf; [done|by rewrite (evolves_used _ _ _ H)].
  - by rewrite Ei.
  - intros k. rewrite Ei. intros [? ?]%Hi. split; [done|by eapply evolves_alive].
  - intros i Hlt. rewrite Ec. intros E. apply Hr; [done|]. destruct (Es i); intuition congruence.
  - intros i. rewrite Ec. intros [? ?]%Hc. split; [done|by rewrite <- (evolves_settled _ _ _ H)].
  - by rewrite En.
Qed.

Definition set_slot (i : nat) (q : proc) (s : kst) : kst := set_ptable (<[i := q]> (ptable s)) s.

Lemma slot_eq i q s : ptable (set_slot i q s) i = q.
Proof. cbn. by rewrite fn_lookup_insert. Qed.
Lemma slot_ne i j q s : i ≠ j → ptable (set_slot i q s) j = ptable s j.
Proof. intros. cbn. by rewrite fn_lookup_insert_ne. Qed.

Lemma alive_slot i j q s : alive s j → (i = j → alive_state (pstate q)) → alive (set_slot i q s) j.
Proof.
  unfold alive. intros H Hq. destruct (decide (i = j)) as [<-|Hne]; [rewrite slot_eq; auto|by rewrite slot_ne].
Qed.

(** Change a process in use to another state in use. *)
Lemma table_ok_upd s i q :
  table_ok s → (i < NPROC)%nat → used s i → pid q = pid (ptable s i) → pstate q ≠ UNUSED →
  (pstate q = EMBRYO → pstate (ptable s i) = EMBRYO) →
  (pstate q ≠ EMBRYO → initproc s = Some i ∨ is_Some (parent q)) →
  (pstate q = RUNNING → cur s = Some i) →
  (∀ j, parent q = Some j → (j < NPROC)%nat ∧ alive (set_slot i q s) j) →
  (alive s i → alive_state (pstate q) ∨
    ((∀ j, (j < NPROC)%nat → used s j → parent (ptable s j) ≠ Some i) ∧ initproc s ≠ Some i)) →
  table_ok (set_slot i q s).
Proof.
  intros [Hp Hu Hpa Hch Hf Hni Hi Hr Hc Hn] Hlt Hus Epid Hq Hqe Hqc Hqr Hqp Hal.
  assert (∀ j, used (set_slot i q s) j ↔ used s j) as Eu.
  { intros j. unfold used. destruct (decide (i = j)) as [<-|Hne]; [by rewrite slot_eq|by rewrite slot_ne]. }
  assert (∀ j, pid (ptable (set_slot i q s) j) = pid (ptable s j)) as Ep.
  { intros j. destruct (decide (i = j)) as [<-|Hne]; [by rewrite slot_eq|by rewrite slot_ne]. }
  split.
  - intros j Hj. rewrite Eu, Ep. by apply Hp.
  - intros j k Hj Hk. rewrite !Eu, !Ep. by apply Hu.
  - intros j k Hj Hju. destruct (decide (i = j)) as [<-|Hne]; [rewrite slot_eq; apply Hqp|].
    rewrite slot_ne by done. intros E. apply Eu in Hju. destruct (Hpa j k Hj Hju E) as [? Ha].
    split; [done|]. apply alive_slot; [done|]. intros <-. destruct (Hal Ha) as [?|[Hno _]]; [done|]. by destruct (Hno j Hj Hju).
  - intros j Hj Hjs. destruct (decide (i = j)) as [<-|Hne]; unfold settled in Hjs;
      [rewrite slot_eq in *; apply Hqc, Hjs|rewrite slot_ne in * by done; by apply Hch].
  - intros j Hj. rewrite Eu. intros Hju. rewrite slot_ne by naive_solver. by apply Hf.
  - done.
  - intros k Ek. destruct (Hi k Ek) as [? Ha]. split; [done|]. apply alive_slot; [done|]. intros <-.
    destruct (Hal Ha) as [?|[_ Hno]]; [done|]. by destruct (Hno Ek).
  - intros j Hj. destruct (decide (i = j)) as [<-|Hne]; [by rewrite slot_eq|]. rewrite slot_ne by done. by apply Hr.
  - intros j [? [? ?]]%Hc. split; [done|]. unfold settled. destruct (decide (i = j)) as [<-|Hne]; [rewrite slot_eq; naive_solver|by rewrite slot_ne].
  - done.
Qed.

(** Give a slot back that nothing refers to. *)
Lemma table_ok_free s i q :
  table_ok s → (i < NPROC)%nat → ¬ alive s i → cur s ≠ Some i → pstate q = UNUSED → parent q = None →
  table_ok (set_slot i q s).
Proof.
  intros [Hp Hu Hpa Hch Hf Hni Hi Hr Hc Hn] Hlt Hna Hcur Hq Hqp.
  assert (∀ j, used (set_slot i q s) j → i ≠ j ∧ used s j) as Eu.
  { intros j. unfold used. destruct (decide (i = j)) as [<-|Hne]; [by rewrite slot_eq|by rewrite slot_ne]. }
  split.
  - intros j Hj [Hne Hju]%Eu. rewrite slot_ne by done. by apply Hp.
  - intros j k Hj Hk [? ?]%Eu [? ?]%Eu. rewrite !slot_ne by done. by apply Hu.
  - intros j k Hj [Hne Hju]%Eu. rewrite slot_ne by done. intros E. destruct (Hpa j k Hj Hju E) as [? Ha].
    split; [done|]. apply alive_slot; [done|]. by intros <-.
  - intros j Hj Hs. pose proof (settled_used _ _ Hs) as [Hne _]%Eu. unfold settled in Hs. rewrite slot_ne in * by done. by apply Hch.
  - intros j Hj Hnu. destruct (decide (i = j)) as [<-|Hne]; [by rewrite slot_eq|]. rewrite slot_ne by done.
    apply Hf; [done|]. unfold used in *. by rewrite slot_ne in Hnu.
  - done.
  - intros k [? Ha]%Hi. split; [done|]. apply alive_slot; [done|]. by intros <-.
  - intros j Hj. destruct (decide (i = j)) as [<-|Hne]; [by rewrite slot_eq, Hq|]. rewrite slot_ne by done. by apply Hr.
  - intros j Ej. change (cur s = Some j) in Ej. destruct (Hc j Ej) as [? ?]. split; [done|]. unfold settled. rewrite slot_ne by congruence. done.
  - done.
Qed.

Lemma slept_ok s s' : slept s s' → table_ok s → table_ok s'.
Proof.
  intros (s1 & me & c & Hev & Hc & ->) Hok. apply (evolves_ok _ _ Hev) in Hok.
  destruct (ok_cur _ Hok _ Hc) as [Hlt Hset]. pose proof (settled_used _ _ Hset) as Hu. apply table_ok_upd; try done.
  - intros _. by apply (ok_child _ Hok).
  - intros j E. cbn in E. destruct (ok_parent _ Hok me j) as [? ?]; try done. split; [done|].
    apply alive_slot; [done|]. intros _. cbn. unfold alive_state. auto.
  - intros _. left. cbn. unfold alive_state. auto.
Qed.

(** ** Routines that create, end, reap and switch processes *)

(** Process [me] has left the processor to the scheduler. *)
Definition switched (me : nat) (s : kst) : Prop :=
  table_ok s ∧ cur s = Some me ∧ pstate (ptable s me) ≠ RUNNING.

(** A routine run by [me]: [P] before, [Q] when it returns, [switched] when it
    does not. *)
Definition triple {A} (me : nat) (P : kst → Prop) (m : M kst A) (Q : A → kst → Prop) : Prop := ∀ s, P s →
  match m s with
  | Done a s' => Q a s'
  | Sleep _ s' => switched me s'
  | _ => True
  end.

(** Assertions that imply the invariant and survive light routines. *)
Class Stable (me : nat) (P : kst → Prop) : Prop := {
  stable_ok : ∀ s, P s → table_ok s ∧ cur s = Some me;
  stable_ev : ∀ s s', evolves s s' → P s → P s';
}.

(** The kernel runs on behalf of [me]. *)
Definition krun (me : nat) (s : kst) : Prop :=
  table_ok s ∧ cur s = Some me ∧ pstate (ptable s me) = RUNNING.

(** ... which has slot [np] in preparation. *)
Definition embryo (me np : nat) (s : kst) : Prop :=
  krun me s ∧ (np < NPROC)%nat ∧ pstate (ptable s np) = EMBRYO.
Definition fresh (me np : nat) (s : kst) : Prop := embryo me np s ∧ parent (ptable s np) = None.
Definition adopted (me np : nat) (s : kst) : Prop := embryo me np s ∧ parent (ptable s np) = Some me.

#[export] Instance krun_stable me : Stable me (krun me).
Proof.
  split; [by intros s (? & ? & ?)|]. intros s s' H (? & ? & ?). split_and!; [by eapply evolves_ok|by rewrite (ev_cur _ _ H)|].
  by eapply evolves_state.
Qed.
#[export] Instance embryo_stable me np : Stable me (embryo me np).
Proof.
  split; [by intros s [(? & ? & ?) _]|]. intros s s' H (? & ? & ?). split_and!; [by eapply stable_ev|done|by eapply evolves_state].
Qed.
#[export] Instance fresh_stable me np : Stable me (fresh me np).
Proof.
  split; [by intros s [[(? & ? & ?) _] _]|]. intros s s' H (? & ?). split_and!; [by eapply stable_ev|by rewrite (ev_parent _ _ H)].
Qed.

#[export] Instance adopted_stable me np : Stable me (adopted me np).
Proof.
  split; [by intros s [[(? & ? & ?) _] _]|]. intros s s' H (? & ?). split_and!; [by eapply stable_ev|by rewrite (ev_parent _ _ H)].
Qed.

Lemma slept_switched me s s' : slept s s' → table_ok s → cur s = Some me → switched me s'.
Proof.
  intros H Hok Hc. split; [by eapply slept_ok|]. destruct H as (s1 & me' & c & Hev & Hc' & ->).
  rewrite (ev_cur _ _ Hev), Hc in Hc'. injection Hc' as <-. cbn. rewrite fn_lookup_insert.
  by rewrite (ev_cur _ _ Hev).
Qed.

Section Triple.
Context {A B : Type} (me : nat).
Implicit Types P : kst → Prop.

Lemma triple_bind P (m : M kst A) Q (k : A → M kst B) R :
  triple me P m Q → (∀ a, triple me (Q a) (k a) R) → triple me P (m ≫= k) R.
Proof.
  intros Hm Hk s Hs. unfold mbind, M_bind. specialize (Hm s Hs). destruct (m s) as [a s1|msg|c s1|]; try done.
  exact (Hk a s1 Hm).
Qed.

Lemma triple_light P (m : M kst A) `{!Stable me P} : light m → triple me P m (λ _, P).
Proof.
  intros Hm s Hs. specialize (Hm s). destruct (m s) as [a s1|msg|c s1|]; try done.
  - by eapply stable_ev.
  - destruct (stable_ok _ Hs). by eapply slept_switched.
Qed.

Lemma triple_seq P (m : M kst A) (k : A → M kst B) R `{!Stable me P} :
  light m → (∀ a, triple me P (k a) R) → triple me P (m ≫= k) R.
Proof. intros Hm Hk. eapply triple_bind; [by apply triple_light|done]. Qed.

Lemma triple_ret P (a : A) (Q : A → kst → Prop) : (∀ s, P s → Q a s) → triple me P (mret a) Q.
Proof. intros H s Hs. by apply H. Qed.

Lemma triple_panic P msg (Q : A → kst → Prop) : triple me P (panic msg) Q.
Proof. by intros s Hs. Qed.

Lemma triple_conseq P P' (m : M kst A) Q : (∀ s, P s → P' s) → triple me P' m Q → triple me P m Q.
Proof. intros H Hm s Hs. by apply Hm, H. Qed.

Lemma triple_upd P i f (Q : kst → Prop) :
  (∀ s, P s → Q (set_slot i (f (ptable s i)) s)) → triple me P (upd_proc i f) (λ _, Q).
Proof. intros H s Hs. by apply H. Qed.
End Triple.

(** Light statements are stepped over; the rest is left to the proof. *)
Ltac tstep := cbv zeta; first
  [ simple apply triple_panic
  | simple apply triple_seq; [apply _|solve [light_tac]|intros ?]
  | simple apply triple_ret; by intros ?
  | case_match ].

Lemma find_proc_Some f s i :
  find_proc f s = Some i → (i < NPROC)%nat ∧ f (ptable s i) = true.
Proof.
  unfold find_proc. intros [H1 H2]%find_some. split; [|done]. apply in_seq in H1. lia.
Qed.

(** The state [alloc_slot] leaves when slot [i] was the first free one. *)
Record allocated (i : nat) (s s' : kst) : Prop := {
  al_slot : ptable s' i = set_default_handlers (set_pid (nextpid s) (set_pstate EMBRYO (ptable s i)));
  al_other : ∀ j, i ≠ j → ptable s' j = ptable s j;
  al_next : nextpid s' = s32 (nextpid s + 1);
  al_init : initproc s' = initproc s;
  al_cur : cur s' = cur s;
}.

Lemma alloc_slot_spec s i :
  find_proc (λ p, is_state (pstate p) UNUSED) s = Some i →
  ∃ s', alloc_slot s = Done (Some i) s' ∧ allocated i s s'.
Proof.
  intros E. eexists. split.
  - unfold alloc_slot. mgo. rewrite E. do 4 mgo. reflexivity.
  - split; cbn; try done; [by rewrite !fn_lookup_insert|intros j ?; by rewrite !fn_lookup_insert_ne].
Qed.

Lemma allocated_ok i s s' :
  allocated i s s' → table_ok s → (i < NPROC)%nat → pstate (ptable s i) = UNUSED → nextpid s < 2 ^ 31 - 1 →
  table_ok s'.
Proof.
  intros [Ei Ej En Eini Ec] [Hp Hu Hpa Hch Hf Hni Hi' Hru Hcu Hnx] Hlt Hi Hn.
  rewrite s32_id in En by (unfold is_s32; lia).
  assert (∀ j, i ≠ j → used s' j ↔ used s j) as Hus by (intros j ?; unfold used; by rewrite Ej).
  assert (∀ j, alive s j → alive s' j) as Hal.
  { intros j Ha. unfold alive. destruct (decide (i = j)) as [<-|]; [|by rewrite Ej].
    unfold alive, alive_state in Ha. rewrite Hi in Ha. intuition discriminate. }
  assert (∀ j, (j < NPROC)%nat → i ≠ j → used s' j → 0 < pid (ptable s' j) < nextpid s) as Hd.
  { intros j Hj Hne Hju. rewrite Ej by done. by apply Hp, Hus. }
  split.
  - intros j Hj Hju. rewrite En. destruct (decide (i = j)) as [<-|Hne]; [rewrite Ei; cbn; lia|].
    specialize (Hd j Hj Hne Hju). lia.
  - intros j k Hj Hk Hju Hku. destruct (decide (i = j)) as [<-|Hne], (decide (i = k)) as [<-|Hne']; try done.
    + specialize (Hd k Hk Hne' Hku). rewrite Ei. cbn. lia.
    + specialize (Hd j Hj Hne Hju). rewrite Ei. cbn. lia.
    + rewrite !Ej by done. apply Hu; try done; by apply Hus.
  - intros j k Hj Hju. destruct (decide (i = j)) as [<-|Hne].
    + rewrite Ei. cbn. rewrite Hf by (unfold used; auto). done.
    + rewrite Ej by done. intros E. destruct (Hpa j k Hj) as [? ?]; try done; [by apply Hus|auto].
  - intros j Hj. unfold settled. destruct (decide (i = j)) as [<-|Hne]; [rewrite Ei; by intros [_ []]|]. rewrite Ej, Eini by done. by apply Hch.
  - intros j Hj Hju. destruct (decide (i = j)) as [<-|Hne]; [destruct Hju; unfold used; by rewrite Ei|].
    rewrite Ej by done. apply Hf; [done|]. by rewrite <- (Hus j Hne).
  - by rewrite Eini.
  - intros k. rewrite Eini. intros [? ?]%Hi'. auto.
  - intros j Hj. rewrite Ec. destruct (decide (i = j)) as [<-|Hne]; [by rewrite Ei|]. rewrite Ej by done. by apply Hru.
  - intros j. rewrite Ec. intros [? Hju]%Hcu. split; [done|]. unfold settled. rewrite Ej; [done|]. intros <-. by destruct Hju.
  - rewrite En. lia.
Qed.

Lemma triple_alloc_slot me :
  triple me (λ s, krun me s ∧ nextpid s < 2 ^ 31 - 1) alloc_slot
    (λ r s, match r with Some np => fresh me np s | None => krun me s end).
Proof.
  intros s [[Hok [Hc Hr]] Hn]. destruct (find_proc (λ p, is_state (pstate p) UNUSED) s) as [i|] eqn:E.
  - destruct (alloc_slot_spec s i E) as (s' & -> & Hal). apply find_proc_Some in E as [Hlt Hi].
    apply bool_decide_eq_true in Hi. pose proof (allocated_ok _ _ _ Hal Hok Hlt Hi Hn) as Hok'.
    destruct Hal as [Ei Ej En Eini Ec]. unfold fresh, embryo, krun. rewrite Ec, Ei, Ej by congruence.
    split_and!; try done.
    cbn. apply (ok_free _ Hok); [done|]. unfold used. auto.
  - unfold alloc_slot. mgo. rewrite E. by split_and!.
Qed.

Lemma triple_allocproc me :
  triple me (λ s, krun me s ∧ nextpid s < 2 ^ 31 - 1) allocproc
    (λ r s, match r with Some np => fresh me np s | None => krun me s end).
Proof.
  unfold allocproc. eapply triple_bind; [apply triple_alloc_slot|]. intros [np|]; [|by apply triple_ret].
  tstep. tstep. destruct (_ =? 0); [|by repeat tstep].
  eapply triple_bind; [|intros ?; apply triple_ret; intros s Hs; exact Hs].
  apply triple_upd. intros s [[Hrun [Hlt He]] Hp]. destruct Hrun as (Hok & Hc & Hr). assert (np ≠ me) by congruence.
  split_and!; [|done|by rewrite slot_ne]. apply table_ok_free; try done; [|congruence].
  unfold alive, alive_state. rewrite He. intuition discriminate.
Qed.

Lemma triple_myproc {B} me P (k : nat → M kst B) R :
  (∀ s, P s → cur s = Some me) → triple me P (k me) R → triple me P (myproc ≫= k) R.
Proof.
  intros Hc Hk s Hs. erewrite bind_Done; [exact (Hk s Hs)|]. unfold myproc. erewrite bind_Done by done. by rewrite (Hc s Hs).
Qed.

Lemma krun_alive me s : krun me s → (me < NPROC)%nat ∧ alive s me.
Proof.
  intros (Hok & Hc & Hr). destruct (ok_cur _ Hok _ Hc). split; [done|]. unfold alive, alive_state. auto.
Qed.

(** Give the new process its parent. *)
Lemma triple_set_parent me np :
  triple me (embryo me np) (upd_proc np (set_parent (Some me))) (λ _, adopted me np).
Proof.
  apply triple_upd. intros s (Hrun & Hlt & He). destruct (krun_alive _ _ Hrun) as [Hml Hma].
  destruct Hrun as (Hok & Hc & Hr). assert (np ≠ me) by congruence.
  assert (used s np) as Hu by (unfold used; congruence).
  split; [split_and!; [split_and!|done|by rewrite slot_eq]|by rewrite slot_eq]; [|done|by rewrite slot_ne].
  apply table_ok_upd; try done; cbn; try congruence.
  - intros j [= <-]. split; [done|]. apply alive_slot; [done|]. by intros <-.
  - unfold alive, alive_state. rewrite He. intuition discriminate.
Qed.

Lemma triple_set_runnable me np :
  triple me (adopted me np) (upd_proc np (set_pstate RUNNABLE)) (λ _, krun me).
Proof.
  apply triple_upd. intros s [(Hrun & Hlt & He) Hpar]. destruct Hrun as (Hok & Hc & Hr). assert (np ≠ me) by congruence.
  assert (used s np) as Hu by (unfold used; congruence).
  split_and!; [|done|by rewrite slot_ne]. apply table_ok_upd; try done.
  - intros _. right. cbn. by rewrite Hpar.
  - cbn. intros j E. destruct (ok_parent _ Hok np j) as [? ?]; try done. split; [done|].
    apply alive_slot; [done|]. intros _. unfold alive_state. cbn. auto.
  - intros _. left. unfold alive_state. cbn. auto.
Qed.

Lemma light_distribute i policy : light (upd_proc i (λ p, distribute policy (set_priority 10 p))).
Proof. apply light_upd_proc. intros p. unfold distribute. repeat case_match; auto. Qed.
#[export] Hint Resolve light_distribute : light.

Lemma triple_fork me : triple me (λ s, krun me s ∧ nextpid s < 2 ^ 31 - 1) fork (λ _, krun me).
Proof.
  unfold fork, proc_at. apply triple_myproc; [by intros s [(? & ? & ?) _]|].
  eapply triple_bind; [apply triple_allocproc|]. intros [np|]; [|by apply triple_ret].
  do 3 tstep. destruct (_ =? 0).
  - do 3 tstep. eapply triple_bind; [|intros ?; apply triple_ret; intros s Hs; exact Hs].
    apply triple_upd. intros s [[Hrun [Hlt He]] Hp]. destruct Hrun as (Hok & Hc & Hr). assert (np ≠ me) by congruence.
    split_and!; [|done|by rewrite slot_ne]. apply table_ok_free; try done; [|congruence].
    unfold alive, alive_state. rewrite He. intuition discriminate.
  - apply triple_conseq with (embryo me np); [by intros s []|]. tstep.
    eapply triple_bind; [apply triple_set_parent|]. intros []. do 3 tstep. case_match; [|apply triple_panic].
    do 8 tstep. eapply triple_bind; [apply triple_set_runnable|]. intros []. repeat tstep.
Qed.

(** ** Exit *)

(** [me] is about to die: nothing in [l] is its child any more. *)
Definition orphaned (me : nat) (l : list nat) (s : kst) : Prop :=
  krun me s ∧ initproc s ≠ Some me ∧ ∀ j, j ∈ l → parent (ptable s j) ≠ Some me.

#[export] Instance orphaned_stable me l : Stable me (orphaned me l).
Proof.
  split; [by intros s ((? & ? & ?) & _)|]. intros s s' H (? & ? & Hj). split_and!; [by eapply stable_ev|by rewrite (ev_init _ _ H)|].
  intros j Hj'. rewrite (ev_parent _ _ H). auto.
Qed.

Lemma reparent_one me i l ini s :
  orphaned me l s → (i < NPROC)%nat → initproc s = ini → parent (ptable s i) = Some me →
  orphaned me (i :: l) (set_slot i (set_parent ini (ptable s i)) s).
Proof.
  intros (Hrun & Hini & Hl) Hlt Ei Ep. pose proof Hrun as (Hok & Hc & Hr).
  assert (used s i) as Hu by (intros Hu; rewrite (ok_free _ Hok i) in Ep; [done..|unfold used; auto]).
  split_and!; [|done|].
  - split_and!; [|done|].
    + apply table_ok_upd; try done; cbn.
      * intros _. right. rewrite <- Ei. apply (ok_ini _ Hok).
      * intros E. apply (ok_run _ Hok); done.
      * intros j E. destruct (ok_init _ Hok j) as [? ?]; [congruence|]. split; [done|]. apply alive_slot; [done|]. by intros ->.
      * by left.
    + destruct (decide (i = me)) as [<-|]; [by rewrite slot_eq|by rewrite slot_ne].
  - intros j Hj. destruct (decide (i = j)) as [<-|Hne]; [rewrite slot_eq; cbn; congruence|].
    rewrite slot_ne by done. apply Hl. apply elem_of_cons in Hj as [->|]; done.
Qed.

Lemma triple_reparent me :
  triple me (orphaned me []) (reparent me) (λ _, orphaned me (reverse (seq 0 NPROC))).
Proof.
  unfold reparent. rewrite <- (app_nil_r (reverse _)). assert (∀ i, i ∈ seq 0 NPROC → (i < NPROC)%nat) as Hin.
  { intros i Hi. apply elem_of_seq in Hi. lia. }
  revert Hin. generalize (seq 0 NPROC) (@nil nat). induction l as [|i l IH]; intros acc Hin; cbn [iter_each].
  - rewrite reverse_nil. by apply triple_ret.
  - rewrite reverse_cons, <- app_assoc. cbn [app]. apply (triple_bind me _ _ (λ _, orphaned me (i :: acc))).
    + intros s Hs. unfold proc_at. do 2 mgo. assert (i < NPROC)%nat as Hlt by (apply Hin; set_solver).
      case_bool_decide as Ep.
      * mgo. pose proof (reparent_one me i acc _ s Hs Hlt eq_refl Ep) as Ho. unfold set_slot in Ho.
        destruct (is_state _ _); [|exact Ho].
        exact (triple_light me _ _ (light_wakeup (proc_chan (initproc s))) _ Ho).
      * destruct Hs as (? & ? & Hl). split_and!; try done. intros j [->|]%elem_of_cons; auto.
    + intros _. apply IH. intros j Hj. apply Hin. set_solver.
Qed.

(** The last steps of [exit]. *)
Definition dead (me : nat) (s : kst) : Prop := switched me s ∧ pstate (ptable s me) = ZOMBIE.

#[export] Instance dead_stable me : Stable me (dead me).
Proof.
  split; [by intros s ((? & ? & ?) & _)|]. intros s s' H ((? & ? & ?) & Hz).
  assert (pstate (ptable s' me) = ZOMBIE) as Hz' by (by eapply evolves_state).
  split; [|done]. split_and!; [by eapply evolves_ok|by rewrite (ev_cur _ _ H)|congruence].
Qed.

Lemma triple_zombie me :
  triple me (orphaned me (reverse (seq 0 NPROC))) (upd_proc me (set_pstate ZOMBIE)) (λ _, dead me).
Proof.
  apply triple_upd. intros s (Hrun & Hini & Hl). destruct (krun_alive _ _ Hrun) as [Hlt Ha].
  destruct Hrun as (Hok & Hc & Hr). unfold dead, switched. rewrite slot_eq. split_and!; try done.
  assert (∀ j, (j < NPROC)%nat → parent (ptable s j) ≠ Some me) as Hno.
  { intros j Hj. apply Hl. apply elem_of_reverse, elem_of_seq. lia. }
  apply table_ok_upd; try done.
  - by apply alive_used.
  - intros _. by apply (ok_child _ Hok), alive_settled.
  - cbn. intros j E. destruct (ok_parent _ Hok me j) as [? ?]; try done; [by apply alive_used|]. split; [done|].
    apply alive_slot; [done|]. intros <-. by destruct (Hno me Hlt).
  - intros _. right. split; [|done]. auto.
Qed.

Lemma triple_exit {A} me st : triple me (krun me) (exit (A := A) st) (λ _ _, False).
Proof.
  unfold exit, proc_at. apply triple_myproc; [by intros s (? & ? & ?)|].
  intros s Hs. mgo. case_bool_decide as Hi; [done|]. assert (orphaned me [] s) as Ho.
  { split_and!; [done..|]. by intros j ?%not_elem_of_nil. }
  clear Hi Hs. revert s Ho. change (triple me (orphaned me []) (close_files me;; f_ (log_ begin_op);;
    p ← gets (λ s, ptable s me); f_ (iput_ (cwd p));; f_ (log_ end_op);; upd_proc me (set_cwd None);;
    p ← gets (λ s, ptable s me); modify (wakeup1 (proc_chan (parent p)));; reparent me;;
    t ← gets ticks; upd_proc me (set_ttime (s32 t));; upd_proc me (set_pstate ZOMBIE);;
    upd_proc me (set_status st);; upd_proc me (set_ntickets 0);; sched;; sleep_on ChNone) (λ _ : A, λ _, False)).
  do 7 tstep. simple apply triple_seq; [apply _|apply light_wakeup|intros []].
  eapply triple_bind; [apply triple_reparent|]. intros []. do 2 tstep.
  eapply triple_bind; [apply triple_zombie|]. intros []. do 2 tstep.
  simple apply triple_seq; [apply _|unfold sched, proc_at; light_tac|intros []]. by intros s [? ?].
Qed.

(** ** Wait *)

Definition zombie (me i : nat) (s : kst) : Prop :=
  krun me s ∧ (i < NPROC)%nat ∧ pstate (ptable s i) = ZOMBIE.

#[export] Instance zombie_stable me i : Stable me (zombie me i).
Proof.
  split; [by intros s ((? & ? & ?) & _)|]. intros s s' H (? & ? & ?).
  split_and!; [by eapply stable_ev|done|by eapply evolves_state].
Qed.

Lemma triple_reap me i : triple me (zombie me i) (reap i) (λ _, krun me).
Proof.
  unfold reap, proc_at. do 4 tstep. apply triple_upd. intros s ((Hok & Hc & Hr) & Hlt & Hz).
  assert (i ≠ me) by congruence. split_and!; [|done|by rewrite slot_ne]. apply table_ok_free; try done; [|congruence].
  unfold alive, alive_state. rewrite Hz. intuition discriminate.
Qed.

Lemma light_wait_none me : light (wait_none me).
Proof. unfold wait_none. light_tac. Qed.

(** The two [wait]s: the zombie found, then [found]; otherwise [wait_none]. *)
Lemma triple_wait_with me (found : nat → M kst Z) :
  (∀ i, triple me (zombie me i) (found i) (λ _, krun me)) →
  triple me (krun me) (s ← get;
    match find_proc (λ p, is_child me p && is_state (pstate p) ZOMBIE) s with
    | Some i => found i
    | None => wait_none me
    end) (λ _, krun me).
Proof.
  intros Hf s Hs. mgo. destruct (find_proc _ s) as [i|] eqn:E.
  - apply find_proc_Some in E as [Hlt Hi]. apply andb_true_iff in Hi as [_ Hi]. apply bool_decide_eq_true in Hi.
    apply Hf. by split_and!.
  - exact (triple_light me _ _ (light_wait_none me) s Hs).
Qed.

Lemma triple_wait me a : triple me (krun me) (wait a) (λ _, krun me).
Proof.
  unfold wait. apply triple_myproc; [by intros s (? & ? & ?)|].
  apply (triple_wait_with me (λ i, p ← proc_at i; (if negb (a =? 0) then user_put_word a (status p) else mret tt);;
    _ ← user_word a; upd_proc i (set_status 0);; upd_proc i (set_ntickets 0);; reap i;; mret (pid p))).
  intros i. unfold proc_at. do 5 tstep. eapply triple_bind; [apply triple_reap|]. intros []. by apply triple_ret.
Qed.

Lemma triple_wait_stat me a b : triple me (krun me) (wait_stat a b) (λ _, krun me).
Proof.
  unfold wait_stat. apply triple_myproc; [by intros s (? & ? & ?)|].
  eapply (triple_wait_with me (λ i, p ← proc_at i; user_put_word a (status p);; _)).
  intros i. unfold proc_at. do 8 tstep. eapply triple_bind; [apply triple_reap|]. intros []. by apply triple_ret.
Qed.

(** ** System calls and traps *)

Lemma triple_post {A} me P (m : M kst A) (Q Q' : A → kst → Prop) :
  (∀ a s, Q a s → Q' a s) → triple me P m Q → triple me P m Q'.
Proof. intros H Hm s Hs. specialize (Hm s Hs). destruct (m s); auto. Qed.

Lemma triple_arg {A} me P (m : M kst (option A)) (k : A → M kst Z) Q `{!Stable me P} :
  light m → (∀ a, triple me P (k a) Q) → (∀ s, P s → Q (-1) s) → triple me P (arg_or_fail m k) Q.
Proof.
  intros Hm Hk H1. unfold arg_or_fail. apply triple_seq; [done|done|]. intros [a|]; [apply Hk|by apply triple_ret].
Qed.

Lemma heavy_cases num : heavy num = true → num = 1 ∨ num = 2 ∨ num = 3 ∨ num = 24.
Proof.
  unfold heavy. cbn. intros H. repeat (apply orb_true_iff in H as [H%Z.eqb_eq|H]; [auto|]). discriminate.
Qed.

Lemma triple_call e g j u me num call :
  syscalls e g j u num = Some call →
  triple me (λ s, krun me s ∧ nextpid s < 2 ^ 31 - 1) call (λ _, krun me).
Proof.
  intros Hn. destruct (heavy num) eqn:Hh.
  - apply heavy_cases in Hh as [->|[->|[->| ->]]]; injection Hn as <-; [apply triple_fork|..];
      (eapply triple_conseq; [intros s [Hs _]; exact Hs|]).
    + apply triple_arg; [apply _|auto with light|intros a|done].
      eapply triple_post; [|apply triple_exit]. done.
    + apply triple_arg; [apply _|auto with light|intros a; apply triple_wait|done].
    + repeat (apply triple_arg; [apply _|auto with light|intros ?|done]). apply triple_wait_stat.
  - eapply triple_conseq; [intros s [Hs _]; exact Hs|].
    apply (triple_light me (krun me)); [apply _|by eapply light_syscalls].
Qed.

(** [krun] with room for another pid. *)
Definition krun_pid (me : nat) (s : kst) : Prop := krun me s ∧ nextpid s < 2 ^ 31 - 1.

#[export] Instance krun_pid_stable me : Stable me (krun_pid me).
Proof.
  split; [by intros s ((? & ? & ?) & _)|]. intros s s' H [? ?]. split; [by eapply stable_ev|by rewrite (ev_next _ _ H)].
Qed.

Lemma light_trap_switch cpuid chars t : light (trap_switch cpuid chars t).
Proof. unfold trap_switch, timer_interrupt, console_interrupt, procdump. light_tac. Qed.

Lemma triple_exit_if_killed me t : triple me (krun me) (exit_if_killed t) (λ _, krun me).
Proof.
  intros s Hs. unfold exit_if_killed. mgo. pose proof Hs as (_ & Hc & _). rewrite Hc.
  destruct (killed (ptable s me) && user_mode t); [|exact Hs].
  exact (triple_post me _ _ _ (λ _, krun me) (λ _ _ F, False_ind _ F) (triple_exit me 0) s Hs).
Qed.

Lemma triple_yield me : triple me (krun me) yield (λ _, switched me).
Proof.
  unfold yield. apply triple_myproc; [by intros s (? & ? & ?)|].
  assert (Stable me (switched me)) as Hst.
  { split; [by intros s (? & ? & ?)|]. intros s s' H (? & ? & Hr). split_and!; [by eapply evolves_ok|by rewrite (ev_cur _ _ H)|].
    destruct (ev_state _ _ H me); intuition congruence. }
  apply (triple_bind me _ _ (λ _, switched me)).
  - apply triple_upd. intros s Hs. destruct (krun_alive _ _ Hs) as [Hlt Ha]. destruct Hs as (Hok & Hc & Hr).
    unfold switched. rewrite slot_eq. split_and!; try done. apply table_ok_upd; try done; [by apply alive_used|intros _; by apply (ok_child _ Hok), alive_settled| |].
    + cbn. intros j E. destruct (ok_parent _ Hok me j) as [? ?]; try done; [by apply alive_used|]. split; [done|].
      apply alive_slot; [done|]. unfold alive_state. cbn. auto.
    + intros _. left. unfold alive_state. cbn. auto.
  - intros []. do 2 tstep. unfold sched, proc_at. apply triple_light; [done|light_tac].
Qed.

Lemma triple_trap_tail me t :
  triple me (krun me) (trap_tail t) (λ b s, if b : bool then switched me s else krun me s).
Proof.
  unfold trap_tail. eapply triple_bind; [apply triple_exit_if_killed|]. intros [] s Hs. mgo.
  pose proof Hs as (_ & Hc & _). rewrite Hc. destruct (_ && _).
  - revert s Hs Hc. assert (triple me (krun me) (yield;; mret true) (λ b s, if b : bool then switched me s else krun me s)) as H.
    { eapply triple_bind; [apply triple_yield|]. intros []. by apply triple_ret. }
    intros s Hs _. exact (H s Hs).
  - assert (triple me (krun me) (exit_if_killed t;; mret false) (λ b s, if b : bool then switched me s else krun me s)) as H.
    { eapply triple_bind; [apply triple_exit_if_killed|]. intros []. by apply triple_ret. }
    exact (H s Hs).
Qed.

Lemma triple_syscall e g j u me : triple me (krun_pid me) (syscall e g j u) (λ _, krun me).
Proof.
  unfold syscall, proc_at. apply triple_myproc; [by intros s ((? & ? & ?) & _)|]. tstep.
  eapply (triple_bind me _ _ (λ _, krun me)).
  - destruct (syscalls e g j u _) as [call|] eqn:E; [by eapply triple_call|]. apply triple_ret. by intros s [? _].
  - intros r. apply triple_light; [apply _|light_tac].
Qed.

Lemma triple_trap e g j u me cpuid chars t :
  triple me (krun_pid me) (trap e g j u cpuid chars t) (λ b s, if b : bool then switched me s else krun me s).
Proof.
  assert (∀ Q, triple me (krun me) (exit (A := bool) 0) Q) as Hexit.
  { intros Q. eapply triple_post; [|apply triple_exit]. done. }
  unfold trap, proc_at. destruct (_ =? T_SYSCALL).
  - apply triple_myproc; [by intros s ((? & ? & ?) & _)|]. tstep.
    destruct (killed _); [eapply triple_conseq; [|apply Hexit]; by intros s [? _]|]. tstep.
    eapply triple_bind; [apply triple_syscall|]. intros []. tstep.
    destruct (killed _); [apply Hexit|by apply triple_ret].
  - apply triple_conseq with (krun me); [by intros s [? _]|].
    apply triple_seq; [apply _|apply light_trap_switch|]. intros []. apply triple_trap_tail.
Qed.

Lemma light_do_signal t : light (do_signal t).
Proof. unfold do_signal, default_handler, save_tf, push_user, proc_at. light_tac. Qed.

(** ** The scheduler *)

Lemma draw_Some t ch ks : ∀ c i c',
  draw t ch c ks = Some (i, c') → i ∈ ks ∧ pstate (t i) = RUNNABLE.
Proof.
  induction ks as [|k ks IH]; intros c i c'; cbn [draw]; [done|]. destruct (_ <=? ch).
  - intros [? ?]%IH. split; [by right|done].
  - destruct (is_state _ _) eqn:E; cbn; [|done]. intros [= <- _]. apply bool_decide_eq_true in E. split; [by left|done].
Qed.

(** Where the scheduler is, and the state that goes with it. *)
Definition sched_ok (pc : schedpc) (s : kst) : Prop :=
  table_ok s ∧ match pc with SchedTop => cur s = None | SchedRun p _ _ => cur s = Some p end.

Lemma table_ok_cur s c : table_ok s → (∀ i, (i < NPROC)%nat → pstate (ptable s i) ≠ RUNNING) →
  (∀ i, c = Some i → (i < NPROC)%nat ∧ settled s i) → table_ok (set_cur c s).
Proof.
  intros [Hp Hu Hpa Hch Hf Hni Hi Hr Hc Hn] Hno Hcu. split; try done. intros i Hlt E. by destruct (Hno i Hlt).
Qed.

Lemma dispatch_ok ch s r :
  table_ok s → cur s = None → (∀ i c, r = Some (i, c) → (i < NPROC)%nat ∧ pstate (ptable s i) = RUNNABLE) →
  match dispatch ch r s with
  | Done pc s' => sched_ok pc s' ∧ (∀ p a b, pc = SchedRun p a b → pstate (ptable s' p) = RUNNING)
  | Sleep _ _ => False
  | _ => True
  end.
Proof.
  intros Hok Hc Hr. unfold dispatch. destruct r as [[i c]|]; [|by split; [split|]]. destruct (Hr i c eq_refl) as [Hlt Hi].
  mgo. unfold switchuvm, proc_at, mbind, M_bind. cbn. destruct (pgdir _ =? 0); cbn; [done|].
  assert (∀ k, (k < NPROC)%nat → pstate (ptable s k) ≠ RUNNING) as Hno.
  { intros k Hk E. apply (ok_run _ Hok) in E; [congruence|done]. }
  assert (used s i) as Hu by (unfold used; congruence).
  split; [|intros p a b [= <- <- <-]; by rewrite fn_lookup_insert]. split; [|done].
  apply (table_ok_upd (set_cur (Some i) s) i (set_pstate RUNNING (ptable s i))); try done.
  - apply table_ok_cur; [done..|]. intros ? [= <-]. split; [done|]. unfold settled. rewrite Hi. done.
  - intros _. apply (ok_child _ Hok); [done|]. unfold settled. by rewrite Hi.
  - intros k E. cbn in E. destruct (ok_parent _ Hok i k) as [? ?]; try done. split; [done|].
    apply (alive_slot i k _ (set_cur (Some i) s)); [done|]. intros _. unfold alive_state. cbn. auto.
  - intros _. left. unfold alive_state. cbn. auto.
Qed.

(** The scheduler runs when the processor is idle or its process has left. *)
Lemma scheduler_step_ok pc s :
  sched_ok pc s → (∀ p a b, pc = SchedRun p a b → pstate (ptable s p) ≠ RUNNING) →
  match scheduler_step pc s with
  | Done pc' s' => sched_ok pc' s' ∧ (∀ p a b, pc' = SchedRun p a b → pstate (ptable s' p) = RUNNING)
  | Sleep _ _ => False
  | _ => True
  end.
Proof.
  intros [Hok Hc] Hnr. destruct pc as [|p ch c]; cbn [scheduler_step].
  - mgo. destruct (rand _ _) as [nx ch]. mgo. apply dispatch_ok; [|done|].
    + destruct Hok. by split.
    + intros i c [Hi Hr]%draw_Some. apply elem_of_seq in Hi. split; [lia|done].
  - mgo. mgo. apply dispatch_ok; [|done|].
    + apply table_ok_cur; [done| |done]. intros i Hlt E. pose proof (ok_run _ Hok i Hlt E) as E'.
      rewrite Hc in E'. injection E' as <-. by eapply Hnr.
    + intros i c' [Hi Hr]%draw_Some. apply elem_of_seq in Hi. split; [lia|done].
Qed.

(** ** All of the kernel *)

Section Kernel.
Context (exit_code sigreturn_code elf_junk : list Z) (undef : Z).

(** Running in user mode, or in the kernel on behalf of a process. *)
Definition in_process (pc : schedpc) (s : kst) : Prop :=
  ∃ p a b, pc = SchedRun p a b ∧ pstate (ptable s p) = RUNNING.

(** The processor, from one point where control can change hands to the next:
    the scheduler, a trap in a process or while idle, the end of a trap after a
    [yield], a return from [sleep], the first return of a new process, and
    signal delivery on the way back to user space.  A routine that has slept is
    called again by a trap after [sleep] has returned.  The pids handed out stay
    below 2^31 - 1. *)
Inductive kernel_step : schedpc * kst → schedpc * kst → Prop :=
  | step_sched pc s pc' s' :
      ¬ in_process pc s → scheduler_step pc s = Done pc' s' → kernel_step (pc, s) (pc', s')
  | step_trap pc s cpuid chars t s' :
      in_process pc s → nextpid s < 2 ^ 31 - 1 →
      left_in (trap exit_code sigreturn_code elf_junk undef cpuid chars t s) = Some s' →
      kernel_step (pc, s) (pc, s')
  | step_idle s cpuid chars t s' :
      left_in (trap exit_code sigreturn_code elf_junk undef cpuid chars t s) = Some s' →
      kernel_step (SchedTop, s) (SchedTop, s')
  | step_resume pc s t s' :
      in_process pc s → left_in (trap_resume t s) = Some s' → kernel_step (pc, s) (pc, s')
  | step_woken pc s s' :
      in_process pc s → left_in (sleep_return s) = Some s' → kernel_step (pc, s) (pc, s')
  | step_forkret pc s s' :
      in_process pc s → left_in (forkret s) = Some s' → kernel_step (pc, s) (pc, s')
  | step_signal pc s t s' :
      in_process pc s → left_in (do_signal t s) = Some s' → kernel_step (pc, s) (pc, s').

Lemma triple_left {A} me pc P (m : M kst A) (Q : A → kst → Prop) s s' :
  triple me P m Q → (∀ a t, Q a t → table_ok t ∧ cur t = Some me) → P s →
  (∃ a b, pc = SchedRun me a b) → left_in (m s) = Some s' → sched_ok pc s'.
Proof.
  intros Hm HQ Hs (a & b & ->) Hl. specialize (Hm s Hs). unfold sched_ok.
  destruct (m s); cbn in Hl; simplify_eq; [by eapply HQ|]. by destruct Hm as (? & ? & _).
Qed.

Lemma krun_of pc s : sched_ok pc s → in_process pc s → ∃ me, krun me s ∧ ∃ a b, pc = SchedRun me a b.
Proof. intros [Hok Hc] (p & a & b & -> & Hr). exists p. split; [by split_and!|eauto]. Qed.

Lemma light_idle {A} (m : M kst A) s s' :
  light m → sched_ok SchedTop s → left_in (m s) = Some s' → sched_ok SchedTop s'.
Proof.
  intros Hm [Hok Hc] Hl. specialize (Hm s). destruct (m s) as [a t|?|? t|]; cbn in Hl; simplify_eq.
  - split; [by eapply evolves_ok|by rewrite (ev_cur _ _ Hm)].
  - destruct Hm as (s1 & me & c' & Hev & Hc' & _). rewrite (ev_cur _ _ Hev), Hc in Hc'. done.
Qed.

Lemma trap_idle cpuid chars t s s' :
  sched_ok SchedTop s → left_in (trap exit_code sigreturn_code elf_junk undef cpuid chars t s) = Some s' →
  sched_ok SchedTop s'.
Proof.
  intros Hs Hl. pose proof Hs as [_ Hc]. unfold trap in Hl. destruct (_ =? T_SYSCALL).
  - unfold myproc, mbind, M_bind in Hl. cbn in Hl. by rewrite Hc in Hl.
  - pose proof (light_trap_switch cpuid chars t s) as Hsw. unfold mbind, M_bind in Hl.
    destruct (trap_switch cpuid chars t s) as [[] s1|?|c s1|] eqn:E; try done.
    + assert (cur s1 = None) as Hc1 by (by rewrite (ev_cur _ _ Hsw)).
      unfold trap_tail, exit_if_killed, mbind, M_bind in Hl. cbn in Hl. rewrite Hc1 in Hl. cbn in Hl. rewrite Hc1 in Hl.
      injection Hl as <-. split; [|done]. eapply evolves_ok; [exact Hsw|apply Hs].
    + destruct Hsw as (s2 & me & c2 & Hev & Hc' & _). rewrite (ev_cur _ _ Hev), Hc in Hc'. done.
Qed.

Lemma light_step {A} (m : M kst A) pc s s' :
  light m → sched_ok pc s → in_process pc s → left_in (m s) = Some s' → sched_ok pc s'.
Proof.
  intros Hm Hs Hin Hl. destruct (krun_of _ _ Hs Hin) as (me & Hrun & Hpc).
  eapply (triple_left me); [exact (triple_light me (krun me) m Hm)| |done..]. by intros _ t (? & ? & ?).
Qed.

Lemma kernel_step_ok c c' : kernel_step c c' → sched_ok c.1 c.2 → sched_ok c'.1 c'.2.
Proof.
  intros Hstep Hs. destruct Hstep as [pc s pc' s' Hn E|pc s cpuid chars t s' Hin Hp Hl|s cpuid chars t s' Hl
    |pc s t s' Hin Hl|pc s s' Hin Hl|pc s s' Hin Hl|pc s t s' Hin Hl]; cbn in *.
  - pose proof (scheduler_step_ok pc s Hs) as H. rewrite E in H. apply H. intros p a b -> Hr. apply Hn. by exists p, a, b.
  - destruct (krun_of _ _ Hs Hin) as (me & Hrun & Hpc). eapply (triple_left me); [apply triple_trap| |by split|done..].
    by intros [] u (? & ? & ?).
  - by eapply trap_idle.
  - destruct (krun_of _ _ Hs Hin) as (me & Hrun & Hpc). eapply (triple_left me); [apply triple_exit_if_killed| |done..].
    by intros [] u (? & ? & ?).
  - by eapply (light_step _ _ _ _ light_sleep_return).
  - by eapply (light_step _ _ _ _ light_forkret).
  - by eapply (light_step _ _ _ _ (light_do_signal t)).
Qed.

(** A zombie has somebody to reap it. *)
Lemma zombie_reaper s i : table_ok s → (i < NPROC)%nat → pstate (ptable s i) = ZOMBIE →
  ∃ j, parent (ptable s i) = Some j ∧ (j < NPROC)%nat ∧ alive s j.
Proof.
  intros Hok Hi Hz. destruct (ok_child _ Hok i Hi) as [E|[j E]]; [unfold settled; by rewrite Hz|..].
  - destruct (ok_init _ Hok _ E) as [_ Ha]. unfold alive, alive_state in Ha. rewrite Hz in Ha. intuition discriminate.
  - destruct (ok_parent _ Hok i j) as [? ?]; [done|unfold used; by rewrite Hz|done|]. by exists j.
Qed.

(** C2.  The process table stays well formed whatever the kernel does, as long as
    it hands out fewer than 2^31 - 2 pids: along any sequence of scheduler steps,
    traps (every system call, interrupt and fault), resumed sleeps, returns of
    new processes and signal deliveries, every process in use has a pid of its
    own below [nextpid], every process that is not being set up has a parent,
    except for init, and a parent is a live process; init is alive, free slots
    have no parent, and the only RUNNING process is the one on the processor.
    So a zombie always has somebody to reap it. *)
Theorem process_table_invariant c0 c :
  sched_ok c0.1 c0.2 → rtc kernel_step c0 c → sched_ok c.1 c.2 ∧
  ∀ i, (i < NPROC)%nat → pstate (ptable c.2 i) = ZOMBIE → ∃ j, parent (ptable c.2 i) = Some j ∧ (j < NPROC)%nat ∧ alive c.2 j.
Proof.
  intros H0 Hrun. assert (sched_ok c.1 c.2) as Hc.
  { induction Hrun as [|c1 c2 c3 H12 _ IH]; [done|]. apply IH. by eapply kernel_step_ok. }
  split; [done|]. intros i. apply zombie_reaper, Hc.
Qed.
End Kernel.

(** Init is RUNNABLE with 10 tickets and every other slot is free. *)
Definition wit_kst : kst :=
  mkKst wit_kf (λ i, if (i =? 0)%nat then wit_proc RUNNABLE 1 10 else wit_proc UNUSED 0 0) 2 (Some 0%nat) 1 0 7
    false false None.

Lemma wit_kst_ok : sched_ok SchedTop wit_kst.
Proof.
  assert (∀ i, used wit_kst i → i = 0%nat) as Hu.
  { intros i. unfold used. cbn. destruct (Nat.eqb_spec i 0); [done|]. by intros []. }
  split; [|done]. split; try done.
  - intros i _ ->%Hu. done.
  - intros i j _ _ ->%Hu ->%Hu. done.
  - intros i j _ ->%Hu. done.
  - intros i _ Hs%settled_used%Hu. subst i. by left.
  - intros i _ _. cbn. by destruct (i =? 0)%nat.
  - intros k [= <-]. split; [unfold NPROC; lia|]. unfold alive, alive_state. cbn. auto.
  - intros i _. cbn. by destruct (i =? 0)%nat.
Qed.

Lemma process_table_invariant_witness :
  ∃ s, rtc (kernel_step [] [] [] 0) (SchedTop, wit_kst) (SchedRun 0 0 10, s) ∧ sched_ok (SchedRun 0 0 10) s.
Proof.
  exists (state_of wit_kst (scheduler_step SchedTop wit_kst)).
  assert (rtc (kernel_step [] [] [] 0) (SchedTop, wit_kst)
    (SchedRun 0 0 10, state_of wit_kst (scheduler_step SchedTop wit_kst))) as Hrun.
  { apply rtc_once, step_sched; [by intros (p & a & b & ? & _)|]. vm_compute. reflexivity. }
  split; [exact Hrun|].
  exact (proj1 (process_table_invariant [] [] [] 0 (SchedTop, wit_kst) _ wit_kst_ok Hrun)).
Defined.
