(* ===== verification/Lottery.v ===== *)
(** * The lottery scheduler and the accounting of time (proc.c)

    [upto t k] is the number of tickets the processes in the first [k] slots
    hold; process [i] owns the tickets from [upto t i] to [upto t (S i)].  The
    theorems relate [draw] and [scheduler_step] of [Proc] to this reading, and
    state what [wakeup1] and [updatePerformanceFields] do to every process. *)

From S2P Require Import Prelude Proc.
#[local] Open Scope Z_scope.

(** ** Tickets *)

Fixpoint upto (t : nat → proc) (k : nat) : Z :=
  match k with O => 0 | S k' => upto t k' + ntickets (t k') end.

(** Ticket counts are not negative and their sum is an [int]. *)
Definition tickets_ok (t : nat → proc) : Prop :=
  (∀ i, (i < NPROC)%nat → 0 <= ntickets (t i)) ∧ upto t NPROC < 2 ^ 31 - 1.

(** Process [i] owns ticket [c]. *)
Definition owns (t : nat → proc) (i : nat) (c : Z) : Prop := upto t i <= c < upto t (S i).

Section Tickets.
Context (t : nat → proc) (Hok : tickets_ok t).

Lemma upto_mono i j : (i <= j <= NPROC)%nat → upto t i <= upto t j.
Proof.
  intros [Hij Hj]. induction Hij as [|j Hij IH]; [lia|]. cbn [upto].
  pose proof (proj1 Hok j ltac:(lia)). specialize (IH ltac:(lia)). lia.
Qed.

Lemma upto_range i : (i <= NPROC)%nat → 0 <= upto t i < 2 ^ 31 - 1.
Proof.
  intros Hi. pose proof (upto_mono 0 i ltac:(lia)). pose proof (upto_mono i NPROC ltac:(lia)).
  pose proof (proj2 Hok). cbn in H. lia.
Qed.

Lemma upto_s32 i : (i < NPROC)%nat → s32 (upto t i + ntickets (t i)) = upto t (S i).
Proof. intros Hi. apply s32_id. pose proof (upto_range (S i) ltac:(lia)). unfold is_s32. cbn [upto] in *. lia. Qed.

Lemma owns_unique i j c : (i < NPROC)%nat → (j < NPROC)%nat → owns t i c → owns t j c → i = j.
Proof.
  unfold owns. intros Hi Hj H1 H2. destruct (Nat.lt_trichotomy i j) as [H|[H|H]]; [|done|].
  - pose proof (upto_mono (S i) j ltac:(lia)). lia.
  - pose proof (upto_mono (S j) i ltac:(lia)). lia.
Qed.

(** [draw] from slot [k] on, when the slots before it do not own [c]. *)
Lemma draw_spec n : ∀ k c, (k + n = NPROC)%nat → upto t k <= c →
  draw t c (upto t k) (seq k n) =
    match find (λ i, c <? upto t (S i)) (seq k n) with
    | Some i => if is_state (pstate (t i)) RUNNABLE then Some (i, upto t (S i)) else None
    | None => None
    end.
Proof.
  induction n as [|n IH]; intros k c Hk Hc; [done|]. cbn [seq draw find]. rewrite upto_s32 by lia.
  destruct (Z.leb_spec (upto t (S k)) c) as [Hle|Hlt].
  - rewrite (proj2 (Z.ltb_ge c _)) by done. by apply IH; [lia|].
  - rewrite (proj2 (Z.ltb_lt c _)) by done. by destruct (is_state _ _).
Qed.

Lemma find_owner c n : ∀ k, (k + n = NPROC)%nat → upto t k <= c →
  match find (λ i, c <? upto t (S i)) (seq k n) with
  | Some i => (i < NPROC)%nat ∧ owns t i c
  | None => upto t NPROC <= c
  end.
Proof.
  induction n as [|n IH]; intros k Hk Hc; cbn [seq find]; [by replace NPROC with k by lia|].
  destruct (Z.ltb_spec c (upto t (S k))); [split; [lia|done]|]. by apply IH; [lia|].
Qed.

Lemma draw_iff c i d : 0 <= c →
  draw t c 0 (seq 0 NPROC) = Some (i, d) ↔
  (i < NPROC)%nat ∧ owns t i c ∧ pstate (t i) = RUNNABLE ∧ d = upto t (S i).
Proof.
  intros Hc. pose proof (draw_spec NPROC 0 c eq_refl Hc) as Hd. cbn [upto] in Hd. rewrite Hd.
  pose proof (find_owner c NPROC 0 eq_refl Hc) as Hf. destruct (find _ (seq 0 NPROC)) as [k|].
  - destruct Hf as [Hk Ho]. destruct (is_state (pstate (t k)) RUNNABLE) eqn:E.
    + apply bool_decide_eq_true in E. split; [intros [= <- <-]; by split_and!|].
      intros (Hi & Ho' & _ & ->). by rewrite (owns_unique i k c).
    + split; [done|]. intros (Hi & Ho' & Hr & _). rewrite (owns_unique i k c) in Hr by done.
      unfold is_state in E. by rewrite bool_decide_eq_true_2 in E.
  - split; [done|]. intros (Hi & [_ Ho] & _). pose proof (upto_mono (S i) NPROC ltac:(lia)). lia.
Qed.

(** [c] is among [seq 0 n]: how many of them lie in an interval. *)
Lemma count_interval a b n : 0 <= a <= b → b <= Z.of_nat n →
  length (filter (λ k : nat, a <= Z.of_nat k < b) (seq 0 n)) = Z.to_nat (b - a).
Proof.
  intros Hab Hb.
  replace n with (Z.to_nat a + (Z.to_nat (b - a) + (n - Z.to_nat b)))%nat by lia.
  rewrite seq_app, filter_app, seq_app, filter_app, !length_app.
  rewrite (filter_none _ (seq 0 (Z.to_nat a))); [|intros x Hx%elem_of_seq; lia].
  rewrite (filter_id _ (seq _ (Z.to_nat (b - a)))); [|intros x Hx%elem_of_seq; lia].
  rewrite (filter_none _ (seq _ (n - Z.to_nat b))); [|intros x Hx%elem_of_seq; lia].
  rewrite length_seq. cbn. lia.
Qed.
End Tickets.

(** C3.  The lottery is exact: for any ticket [c] the scheduler draws, the
    search finds process [i] precisely when [i] is RUNNABLE and owns ticket
    [c]; a ticket nobody owns, or whose owner cannot run, selects nobody. *)
Theorem lottery_exact t c i d :
  tickets_ok t → 0 <= c →
  draw t c 0 (seq 0 NPROC) = Some (i, d) ↔
  (i < NPROC)%nat ∧ owns t i c ∧ pstate (t i) = RUNNABLE ∧ d = upto t (S i).
Proof. intros. by apply draw_iff. Qed.

(** C25.  The lottery is fair: among all the tickets handed out, the number that
    select a RUNNABLE process is the number of tickets it holds. *)
Theorem lottery_fair t i :
  tickets_ok t → (i < NPROC)%nat → pstate (t i) = RUNNABLE →
  length (filter (λ c : nat, fst <$> draw t (Z.of_nat c) 0 (seq 0 NPROC) = Some i)
    (seq 0 (Z.to_nat (upto t NPROC)))) = Z.to_nat (ntickets (t i)).
Proof.
  intros Hok Hi Hr. pose proof (upto_range t Hok i ltac:(lia)). pose proof (upto_range t Hok NPROC ltac:(lia)).
  pose proof (upto_mono t Hok (S i) NPROC ltac:(lia)). pose proof (upto_mono t Hok i (S i) ltac:(lia)).
  replace (ntickets (t i)) with (upto t (S i) - upto t i) by (cbn [upto]; lia).
  rewrite <- (count_interval (upto t i) (upto t (S i)) (Z.to_nat (upto t NPROC))) by lia.
  f_equal. apply list_filter_iff. intros c. rewrite fmap_Some. split.
  - intros ([k d] & E & ->). apply (draw_iff t Hok) in E as (_ & Ho & _); [exact Ho|lia].
  - intros Ho. exists (i, upto t (S i)). split; [|done]. apply (draw_iff t Hok); [lia|]. by split_and!.
Qed.

(** ** Random numbers and the scheduler's loop *)

(**  [rand] stays within what it is asked for: with a ticket count that is
    a sensible [int], the number drawn is between 0 and the count, inclusive,
    and the generator's state stays 32 bits. *)
Theorem rand_bounds nx n :
  0 <= n < 2 ^ 30 → 0 <= (rand nx n).2 <= n ∧ is_u32 (rand nx n).1.
Proof.
  intros Hn. unfold rand. cbn [fst snd]. split; [|apply u32_range].
  rewrite (u32_id (n + 1)) by (unfold is_u32; lia).
  set (q := u32 _ / _). pose proof (Z.mod_pos_bound q (n + 1) ltac:(lia)).
  rewrite (u32_id (q mod (n + 1))) by (unfold is_u32; lia). rewrite s32_id by (unfold is_s32; lia). lia.
Qed.

(**  Only the first process of a round is chosen by lottery: when the
    winner in slot [p] gives up the processor, the scheduler goes on to slot
    [p + 1] and, if that process is RUNNABLE, runs it next without drawing a
    ticket. *)
Theorem scheduler_continues_past_winner s p chosen counter :
  (S p < NPROC)%nat → 0 <= ntickets (ptable s (S p)) → chosen < counter →
  counter + ntickets (ptable s (S p)) < 2 ^ 31 → - 2 ^ 31 <= counter →
  pstate (ptable s (S p)) = RUNNABLE → pgdir (ptable s (S p)) ≠ 0 →
  ∃ s', scheduler_step (SchedRun p chosen counter) s =
      Done (SchedRun (S p) chosen (counter + ntickets (ptable s (S p)))) s' ∧
    cur s' = Some (S p) ∧ pstate (ptable s' (S p)) = RUNNING ∧ rnext s' = rnext s.
Proof.
  intros Hp Ht Hc Hmax Hmin Hr Hpg. cbn [scheduler_step].
  replace (NPROC - S p)%nat with (S (NPROC - S (S p))) by lia. cbn [seq].
  mgo. mgo. set (s1 := set_cur None s). change (ptable s) with (ptable s1) in *. cbn [draw].
  rewrite s32_id by (unfold is_s32; lia). rewrite (proj2 (Z.leb_gt _ _)) by lia. unfold is_state.
  rewrite Hr, bool_decide_eq_true_2 by done. cbn [negb dispatch]. mgo.
  assert (switchuvm (S p) (set_cur (Some (S p)) s1) = Done tt (set_cur (Some (S p)) s1)) as Hsw.
  { unfold switchuvm, proc_at. mgo. change (ptable (set_cur _ s1)) with (ptable s1).
    by rewrite (proj2 (Z.eqb_neq _ _) Hpg). }
  mgo. mgo. eexists. split; [reflexivity|]. cbn. by rewrite fn_lookup_insert.
Qed.

(** ** Wakeups *)

Lemma wakeup1_at c s i : (i < NPROC)%nat → ptable (wakeup1 c s) i = wake_one c (ptable s i).
Proof.
  intros Hi. unfold wakeup1, set_ptable. cbv zeta. cbn [ptable]. destruct (_ && _); rewrite ?fn_lookup_insert_ne by lia;
    by rewrite (proj2 (Nat.ltb_lt _ _) Hi).
Qed.

(**  No wakeup is lost: after [wakeup(c)] no process sleeps on [c]; those
    that did are RUNNABLE, and every other process is untouched. *)
Theorem wakeup_wakes_all c s i s' :
  (i < NPROC)%nat → Proc.wakeup c s = Done tt s' →
  let p := ptable s i in
  let p' := ptable s' i in
  ¬ (pstate p' = SLEEPING ∧ pchan p' = c) ∧
  (pstate p = SLEEPING → pchan p = c → p' = set_pstate RUNNABLE p) ∧
  (pstate p ≠ SLEEPING ∨ pchan p ≠ c → p' = p).
Proof.
  intros Hi [= <-]. cbv zeta. rewrite wakeup1_at by done. unfold wake_one, is_state.
  case_bool_decide as H1; cbn; [case_bool_decide as H2|]; split_and!; try done; cbn; intuition congruence.
Qed.

(**  Under policy 3 the ticket bonus for waking up never reaches a process:
    the loop of [wakeup1] has no braces, so the bonus is applied once, to the
    structure just past the table, and no process in the table gains a ticket. *)
Theorem wakeup_bonus_misses_table c s :
  currentPolicy s = 3 → ntickets (ptable s NPROC) < 90 →
  (∀ i, (i < NPROC)%nat → ntickets (ptable (wakeup1 c s) i) = ntickets (ptable s i)) ∧
  ntickets (ptable (wakeup1 c s) NPROC) = ntickets (ptable s NPROC) + 10.
Proof.
  intros Hp Hn. split.
  - intros i Hi. rewrite wakeup1_at by done. unfold wake_one. by destruct (_ && _).
  - unfold wakeup1, set_ptable. cbv zeta. cbn [ptable].
    rewrite Nat.ltb_irrefl, Hp, (proj2 (Z.ltb_lt _ _) Hn). change (3 =? 3) with true. cbn [andb].
    by rewrite fn_lookup_insert.
Qed.

(** ** Accounting *)

(** The ticks a process has been seen running, sleeping or ready. *)
Definition accounted (p : proc) : Z := rutime p + stime p + retime p.

Definition counted (p : proc) : bool :=
  is_state (pstate p) RUNNING || is_state (pstate p) SLEEPING || is_state (pstate p) RUNNABLE.

(** Counters that have not reached the end of their range. *)
Definition times_ok (p : proc) : Prop :=
  0 <= rutime p < 2 ^ 31 - 1 ∧ 0 <= stime p < 2 ^ 31 - 1 ∧ 0 <= retime p < 2 ^ 31 - 1.

Lemma accounted_account p :
  times_ok p → accounted (account p) = accounted p + Z.b2z (counted p).
Proof.
  intros (? & ? & ?). unfold account, accounted, counted, is_state.
  destruct (pstate p) eqn:E; repeat (case_bool_decide; try congruence); cbn; rewrite ?s32_id by (unfold is_s32; lia); lia.
Qed.

Lemma update_all l : ∀ s, NoDup l →
  ∃ s', iter_each l (λ i, upd_proc i account) s = Done tt s' ∧ ticks s' = ticks s ∧
    (∀ i, ptable s' i = if decide (i ∈ l) then account (ptable s i) else ptable s i).
Proof.
  induction l as [|k l IH]; intros s Hnd.
  { exists s. split_and!; [done..|]. intros i. by rewrite decide_False by set_solver. }
  apply NoDup_cons in Hnd as [Hk Hnd]. cbn [iter_each]. erewrite bind_Done by done.
  destruct (IH (set_ptable (<[k := account (ptable s k)]> (ptable s)) s) Hnd) as (s' & -> & Et & Es).
  exists s'. split_and!; [done..|]. intros i. rewrite Es. cbn. destruct (decide (k = i)) as [<-|Hne].
  - rewrite decide_False, decide_True by set_solver. by rewrite fn_lookup_insert.
  - rewrite fn_lookup_insert_ne by done. destruct (decide (i ∈ l)); [by rewrite decide_True by set_solver|].
    by rewrite decide_False by set_solver.
Qed.

(**  A clock tick charges each process once: every RUNNING, SLEEPING or
    RUNNABLE process gains one tick, in the counter of the state it was in, and
    no other process gains any. *)
Theorem tick_charges_once s i :
  (i < NPROC)%nat → times_ok (ptable s i) →
  ∃ s', updatePerformanceFields s = Done tt s' ∧
    accounted (ptable s' i) = accounted (ptable s i) + Z.b2z (counted (ptable s i)) ∧
    rutime (ptable s' i) = rutime (ptable s i) + Z.b2z (is_state (pstate (ptable s i)) RUNNING) ∧
    stime (ptable s' i) = stime (ptable s i) + Z.b2z (is_state (pstate (ptable s i)) SLEEPING) ∧
    retime (ptable s' i) = retime (ptable s i) + Z.b2z (is_state (pstate (ptable s i)) RUNNABLE).
Proof.
  intros Hi Ht. destruct (update_all (seq 0 NPROC) s (NoDup_seq _ _)) as (s' & E & _ & Es).
  exists s'. split; [exact E|]. rewrite Es, decide_True by (apply elem_of_seq; lia).
  split; [by apply accounted_account|]. destruct Ht as (? & ? & ?).
  unfold account, is_state. destruct (pstate (ptable s i)) eqn:Ep; repeat (case_bool_decide; try congruence);
    cbn; rewrite ?s32_id by (unfold is_s32; lia); lia.
Qed.

(** ** Witnesses *)

(** Three processes, with 10, 20 and 5 tickets, and nothing else. *)
Definition wit_table : nat → proc := λ i,
  match i with
  | 0%nat => wit_proc RUNNABLE 1 10
  | 1%nat => wit_proc RUNNABLE 2 20
  | 2%nat => set_pchan ChTicks (wit_proc SLEEPING 3 5)
  | _ => wit_proc UNUSED 0 0
  end.

Lemma wit_table_ok : tickets_ok wit_table.
Proof. split; [intros [|[|[|i]]] _; cbn; lia|]. vm_compute. reflexivity. Qed.

Lemma lottery_exact_witness : draw wit_table 17 0 (seq 0 NPROC) = Some (1%nat, 30).
Proof.
  apply (lottery_exact wit_table 17 1 30 wit_table_ok); [lia|].
  split; [unfold NPROC; lia|]. split; [|done]. vm_compute. split; congruence.
Defined.

Lemma lottery_fair_witness :
  length (filter (λ c : nat, fst <$> draw wit_table (Z.of_nat c) 0 (seq 0 NPROC) = Some 1%nat)
    (seq 0 (Z.to_nat (upto wit_table NPROC)))) = 20%nat.
Proof. exact (lottery_fair wit_table 1 wit_table_ok ltac:(unfold NPROC; lia) eq_refl). Defined.

Lemma rand_bounds_witness : 0 <= (rand 1 35).2 <= 35.
Proof. exact (proj1 (rand_bounds 1 35 ltac:(lia))). Defined.

Lemma scheduler_continues_past_winner_witness :
  ∃ s', scheduler_step (SchedRun 0 3 10) (wit_kernel wit_table 1) = Done (SchedRun 1 3 30) s' ∧ cur s' = Some 1%nat.
Proof.
  destruct (scheduler_continues_past_winner (wit_kernel wit_table 1) 0 3 10) as (s' & E & Hc & _);
    [unfold NPROC; lia|cbn; lia|lia|cbn; lia|lia|done|done|].
  exists s'. split; [exact E|exact Hc].
Defined.

Lemma wakeup_wakes_all_witness :
  pstate (ptable (wakeup1 ChTicks (wit_kernel wit_table 1)) 2) = RUNNABLE.
Proof.
  destruct (wakeup_wakes_all ChTicks (wit_kernel wit_table 1) 2 _ ltac:(unfold NPROC; lia) eq_refl) as (_ & H & _).
  rewrite (H eq_refl eq_refl). reflexivity.
Defined.

Lemma wakeup_bonus_misses_table_witness :
  ntickets (ptable (wakeup1 ChTicks (wit_kernel wit_table 3)) 2) = 5 ∧
  ntickets (ptable (wakeup1 ChTicks (wit_kernel wit_table 3)) NPROC) = 10.
Proof.
  destruct (wakeup_bonus_misses_table ChTicks (wit_kernel wit_table 3) eq_refl ltac:(reflexivity)) as [H1 H2].
  split; [exact (H1 2%nat ltac:(unfold NPROC; lia))|exact H2].
Defined.

Lemma tick_charges_once_witness :
  ∃ s', updatePerformanceFields (wit_kernel wit_table 1) = Done tt s' ∧ stime (ptable s' 2) = 1.
Proof.
  destruct (tick_charges_once (wit_kernel wit_table 1) 2 ltac:(unfold NPROC; lia)) as (s' & E & _ & _ & H & _).
  - unfold times_ok. cbn. lia.
  - exists s'. split; [exact E|exact H].
Defined.
