(* ===== verification/Signals.v ===== *)
(** * Signals and kill (proc.c, trap.c)

    What [do_signal] does to the process it runs on, and what [sigreturn] and
    the system call path around it undo; what [kill] does with a pid no process
    has. *)

From S2P Require Import Prelude Bio Log Console Fs File CString Kalloc Vm Proc Syscall Exec Sysfile Trap.
#[local] Open Scope Z_scope.

(** ** Calls into the memory layer leave the table alone *)

Lemma leave_quiet s a : woken (fst_io a) = [] → cwoken (fcons (ffs a)) = [] → leave a s = set_kf a s.
Proof. intros E1 E2. unfold leave. by rewrite E1, E2. Qed.

(** ** Writing user memory *)

(** Where the byte at [va] is. *)
Definition uaddr (m : mem) (pd va : Z) : Z := p2v (PTE_ADDR (pte_of m pd va)) + va mod PGSIZE.

(** Writing user memory changes the memory only, or faults. *)
Lemma uwrite_cases pd l : ∀ va k,
  (∃ m', uwrite pd va l k = Done tt (set_pm m' k)) ∨ uwrite pd va l k = Panic "trap".
Proof.
  induction l as [|c l IH]; intros va k; cbn [uwrite]; [left; exists (pm k); by destruct k|].
  mgo. destruct (_ && _); [|by right]. mgo. apply (IH _ (set_pm _ k)).
Qed.

(** The [n] bytes at [va] can be written: their pages are mapped writable, are
    none of the pages of the page table, which has the pages [T], and
    different pages are in different places. *)
Record room (m : mem) (pd : Z) (T : list Z) (va n : Z) : Prop := {
  rm_space : space m pd T;
  rm_mapped j : 0 <= j < n → has (pte_of m pd (va + j)) PTE_P = true ∧ has (pte_of m pd (va + j)) PTE_W = true;
  rm_apart j : 0 <= j < n → p2v (PTE_ADDR (pte_of m pd (va + j))) ∉ pd :: T;
  rm_inj j k : 0 <= j < n → 0 <= k < n →
    p2v (PTE_ADDR (pte_of m pd (va + j))) = p2v (PTE_ADDR (pte_of m pd (va + k))) → (va + j) / PGSIZE = (va + k) / PGSIZE;
}.

Lemma frame_aligned e : p2v (PTE_ADDR e) mod PGSIZE = 0.
Proof.
  unfold p2v, PTE_ADDR, u32, KERNBASE, PGSIZE. replace (Z.ldiff e 4095) with (e / 4096 * 4096).
  - Z.div_mod_to_equations. lia.
  - change 4095 with (Z.ones 12). rewrite Z.ldiff_ones_r, Z.shiftl_mul_pow2, Z.shiftr_div_pow2 by lia. done.
Qed.

Lemma uaddr_in_page m pd va : in_page (p2v (PTE_ADDR (pte_of m pd va))) (uaddr m pd va).
Proof. unfold in_page, uaddr. pose proof (Z.mod_pos_bound va PGSIZE eq_refl). lia. Qed.

Lemma uaddr_inj m pd T va n j k : room m pd T va n → 0 <= j < n → 0 <= k < n → uaddr m pd (va + j) = uaddr m pd (va + k) → j = k.
Proof.
  intros H Hj Hk E. assert (Ef : p2v (PTE_ADDR (pte_of m pd (va + j))) = p2v (PTE_ADDR (pte_of m pd (va + k)))).
  { apply (pages_apart _ _ (uaddr m pd (va + j))); [apply frame_aligned..|apply uaddr_in_page|rewrite E; apply uaddr_in_page]. }
  pose proof (rm_inj _ _ _ _ _ H j k Hj Hk Ef) as Ed. unfold uaddr in E. rewrite Ef in E.
  pose proof (Z.div_mod (va + j) PGSIZE ltac:(done)). pose proof (Z.div_mod (va + k) PGSIZE ltac:(done)). lia.
Qed.

(** A byte outside the pages of the page table leaves the translation alone. *)
Lemma byte_store m pd T x a c : space m pd T → x mod PGSIZE = 0 → x ∉ pd :: T → in_page x a →
  space (<[a := c]> m) pd T ∧ ∀ va, pte_of (<[a := c]> m) pd va = pte_of m pd va.
Proof.
  intros S Hx Hn Ha. assert (Hw : ∀ y i, y ∈ pd :: T → 0 <= i < 1024 → ld32 (<[a := c]> m) (y + 4 * i) = ld32 m (y + 4 * i)).
  { intros y i Hy Hi. destruct (sp_pages _ _ _ S y Hy) as (Hya & _). apply ld32_ext. intros b Hb. rewrite insert_mem.
    destruct (Z.eqb_spec b a) as [->|]; [|done]. destruct Hn. rewrite (pages_apart x y a Hx Hya Ha); [done|]. unfold in_page, PGSIZE. lia. }
  assert (Hpde : ∀ i, 0 <= i < 1024 → pde_at (<[a := c]> m) pd i = pde_at m pd i) by (intros i Hi; apply Hw; [set_solver|done]).
  split.
  - destruct S as [S1 S2 S3 S4]. split; try done.
    + intros i Hi. rewrite Hpde by done. auto.
    + intros i j Hi Hj. rewrite !Hpde by done. auto.
  - intros va. unfold pte_of, pte_ptr. rewrite Hpde by apply PDX_range. destruct (has _ PTE_P) eqn:E; [|done].
    destruct (space_table _ _ _ _ S E) as (Ht & _). apply Hw; [set_solver|apply PTX_range].
Qed.

Lemma room_ext m m' pd T va n va' n' : room m pd T va n → space m' pd T → (∀ v, pte_of m' pd v = pte_of m pd v) →
  va <= va' → va' + n' <= va + n → room m' pd T va' n'.
Proof.
  intros [R1 R2 R3 R4] S E H1 H2. assert (Hs : ∀ j, va' + j = va + (va' - va + j)) by (intros; lia). split; [done|..].
  - intros j Hj. rewrite !E, Hs. apply R2. lia.
  - intros j Hj. rewrite !E, Hs. apply R3. lia.
  - intros j k Hj Hk. rewrite !E, (Hs j), (Hs k). apply R4; lia.
Qed.

(** What is written is there, and nothing else has changed. *)
Lemma uwrite_room pd T l : ∀ va k, room (pm k) pd T va (Z.of_nat (length l)) →
  ∃ m', uwrite pd va l k = Done tt (set_pm m' k) ∧ space m' pd T ∧ (∀ v, pte_of m' pd v = pte_of (pm k) pd v) ∧
    (∀ j c, l !! j = Some c → m' (uaddr (pm k) pd (va + Z.of_nat j)) = c) ∧
    ∀ a, (∀ j, 0 <= j < Z.of_nat (length l) → a ≠ uaddr (pm k) pd (va + j)) → m' a = pm k a.
Proof.
  induction l as [|c l IH]; intros va k H.
  { exists (pm k). split_and!; [by destruct k|exact (rm_space _ _ _ _ _ H)|done..]. }
  cbn [length] in H. rewrite Nat2Z.inj_succ in H. unfold Z.succ in H. destruct (rm_mapped _ _ _ _ _ H 0) as [P W]; [lia|]. rewrite Z.add_0_r in P, W.
  pose proof (rm_apart _ _ _ _ _ H 0 ltac:(lia)) as Ha. rewrite Z.add_0_r in Ha.
  destruct (byte_store (pm k) pd T _ (uaddr (pm k) pd va) c (rm_space _ _ _ _ _ H) (frame_aligned _) Ha (uaddr_in_page _ _ _)) as [S1 E1].
  cbn [uwrite]. mgo. rewrite P, W. cbn [andb]. mgo. fold (uaddr (pm k) pd va).
  destruct (IH (va + 1) (set_pm (<[uaddr (pm k) pd va := c]> (pm k)) k)) as (m' & -> & S2 & E2 & W2 & F2).
  { apply (room_ext _ _ _ _ _ _ (va + 1) (Z.of_nat (length l)) H S1 E1); lia. }
  cbn [pm set_pm] in *. assert (Hu : ∀ v, uaddr (<[uaddr (pm k) pd va := c]> (pm k)) pd v = uaddr (pm k) pd v) by (intros v; unfold uaddr at 1; by rewrite E1).
  assert (Hne : ∀ j, 0 < j < Z.of_nat (length l) + 1 → uaddr (pm k) pd va ≠ uaddr (pm k) pd (va + j)).
  { intros j Hj E. rewrite <- (Z.add_0_r va) in E at 1. apply (uaddr_inj _ _ _ _ _ _ _ H) in E; lia. }
  exists m'. split_and!; [done|done|intros v; by rewrite E2|..].
  - intros [|j] x Hx; cbn in Hx.
    + injection Hx as <-. rewrite Z.add_0_r, F2; [by rewrite insert_mem, Z.eqb_refl|]. intros j Hj. rewrite Hu, <- Z.add_assoc. apply Hne. lia.
    + rewrite <- (W2 j x Hx), Hu. do 2 f_equal. lia.
  - intros a Hna. rewrite F2.
    + rewrite insert_mem. destruct (Z.eqb_spec a (uaddr (pm k) pd va)) as [->|]; [|done]. destruct (Hna 0); [cbn; lia|by rewrite Z.add_0_r].
    + intros j Hj. rewrite Hu, <- Z.add_assoc. apply Hna. cbn. lia.
Qed.

(** The same in the kernel's state. *)
Lemma user_put_word_eq s me va v : cur s = Some me →
  user_put_word va v s = match uwrite (pgdir (ptable s me)) va (word_bytes v) (fkm (kf s)) with
                         | Done _ k => Done tt (set_kf (set_fkm k (enter s)) s)
                         | Panic msg => Panic msg
                         | Sleep c k => sleep c (set_kf (set_fkm k (enter s)) s)
                         | OutOfFuel => OutOfFuel
                         end.
Proof.
  intros Hc. unfold user_put_word, user_write, myproc, proc_at, k_.
  erewrite bind_Done; [|erewrite bind_Done by done; rewrite Hc; reflexivity]. mgo.
  unfold f_, km_, lift. change (fkm (enter s)) with (fkm (kf s)).
  destruct (uwrite _ _ _ _) as [[] k|msg|c k|]; try done; rewrite leave_quiet; done.
Qed.

(** ** Delivery *)

Lemma lowest_signal_spec n : ∀ k i pend,
  i <= n < i + Z.of_nat k → 0 <= i → Z.testbit pend n = true →
  (∀ j, i <= j < n → Z.testbit pend j = false) → lowest_signal k i pend = Some n.
Proof.
  assert (∀ i pend, 0 <= i → negb (Z.land pend (Z.shiftl 1 i) =? 0) = Z.testbit pend i) as Hb.
  { intros i pend Hi. rewrite Z.shiftl_1_l. destruct (Z.testbit pend i) eqn:E.
    - apply negb_true_iff, Z.eqb_neq. intros H0. apply (f_equal (λ x, Z.testbit x i)) in H0.
      by rewrite Z.land_spec, E, Z.pow2_bits_true, Z.bits_0 in H0 by done.
    - apply negb_false_iff, Z.eqb_eq. apply Z.bits_inj'. intros j Hj. rewrite Z.land_spec, Z.bits_0.
      destruct (decide (i = j)) as [<-|]; [by rewrite E|]. by rewrite Z.pow2_bits_false, andb_false_r by done. }
  induction k as [|k IH]; intros i pend Hn Hi Ht Hlow; [lia|]. cbn [lowest_signal]. rewrite Hb by done.
  destruct (decide (i = n)) as [->|]; [by rewrite Ht|]. rewrite (Hlow i) by lia. apply IH; try done; [lia..|].
  intros j Hj. apply Hlow. lia.
Qed.

Lemma pending_nonzero pend n : 0 <= n → Z.testbit pend n = true → (pend =? 0) = false.
Proof. intros Hn Ht. apply Z.eqb_neq. intros ->. by rewrite Z.bits_0 in Ht. Qed.

(** The state after [n] has been taken off the pending set. *)
Definition taken (me : nat) (n : Z) (s : kst) : kst :=
  let s1 := set_ptable (<[me := set_handling_signal true (ptable s me)]> (ptable s)) s in
  set_ptable (<[me := set_pending (Z.ldiff (pending (ptable s1 me)) (Z.shiftl 1 n)) (ptable s1 me)]> (ptable s1)) s1.

(** [do_signal] up to the choice of the handler. *)
Lemma do_signal_taken s me t n :
  cur s = Some me → user_mode t = true → handling_signal (ptable s me) = false → 0 <= n < 32 →
  Z.testbit (pending (ptable s me)) n = true → (∀ j, 0 <= j < n → Z.testbit (pending (ptable s me)) j = false) →
  do_signal t s = (if handlers_array (ptable s me) (Z.to_nat n) =? SIG_DFL then default_handler else
    save_tf;; push_user me n;; push_user me (ret_add (ptable s me));;
    upd_proc me (λ p, set_tf (set_eip (handlers_array p (Z.to_nat n)) (tf p)) p)) (taken me n s).
Proof.
  intros Hc Hu Hh Hn Ht Hlow. unfold do_signal. mgo. rewrite Hc, Hu, Hh, (pending_nonzero _ n) by (done || lia).
  cbn [negb andb]. mgo. rewrite (lowest_signal_spec n) by (done || lia). mgo. reflexivity.
Qed.

Lemma tf_eta b :
  mkTf (edi b) (esi b) (ebp b) (oesp b) (ebx b) (edx b) (ecx b) (eax b) (gs b) (padding1 b)
    (fsreg b) (padding2 b) (es b) (padding3 b) (ds b) (padding4 b) (trapno b) (err b) (eip b) (cs b)
    (padding5 b) (eflags b) (esp b) (ss b) (padding6 b) = b.
Proof. by destruct b. Qed.

(** From [s] to [s'] only the process [me], now [p'], and the memory, now [m'],
    have changed; [enter] is what a call into the layers below starts from. *)
Record only (s s' : kst) (me : nat) (p' : proc) (m' : mem) : Prop := {
  on_table i : ptable s' i = if decide (i = me) then p' else ptable s i;
  on_rest : s' = set_ptable (ptable s') (set_kf (kf s') s);
  on_mem : fkm (kf s') = set_pm m' (fkm (kf s));
  on_enter : enter s' = set_fkm (set_pm m' (fkm (kf s))) (enter s);
}.

Lemma only_cur s s' me p' m' : only s s' me p' m' → cur s' = cur s.
Proof. intros H. by rewrite (on_rest _ _ _ _ _ H). Qed.

Lemma only_table s f me p' : cur s = Some me → (∀ i, f i = if decide (i = me) then p' else ptable s i) →
  cwd p' = cwd (ptable s me) → killed p' = killed (ptable s me) → only s (set_ptable f s) me p' (pm (fkm (kf s))).
Proof.
  intros Hc Hf H1 H2. split; [done|by destruct s|by destruct s as [[? ? [] ?]]|].
  unfold enter. cbn [kf cur ptable set_ptable]. rewrite Hc, Hf, decide_True by done. cbn. rewrite H1, H2. by destruct s as [[? ? [] ?]].
Qed.

(** A further change to the process. *)
Lemma only_upd s s1 me p1 m1 g : cur s = Some me → only s s1 me p1 m1 → cwd (g p1) = cwd p1 → killed (g p1) = killed p1 →
  ∃ s2, upd_proc me g s1 = Done tt s2 ∧ only s s2 me (g p1) m1.
Proof.
  intros Hc H H1 H2. pose proof (only_cur _ _ _ _ _ H) as Hc1. destruct H as [Ht Hr Hm He]. eexists. split; [reflexivity|].
  pose proof (Ht me) as Hp. rewrite decide_True in Hp by done. split; cbn [kf ptable set_ptable].
  - intros i. destruct (decide (i = me)) as [->|Hne]; [by rewrite fn_lookup_insert, Hp|]. rewrite fn_lookup_insert_ne, Ht by done. by rewrite decide_False.
  - rewrite Hr. reflexivity.
  - exact Hm.
  - rewrite <- He. unfold enter. cbn [kf cur ptable set_ptable]. rewrite Hc1, Hc, fn_lookup_insert, Hp. cbn. by rewrite H1, H2.
Qed.

Lemma only_myproc s s1 me p1 m1 : cur s = Some me → only s s1 me p1 m1 → myproc s1 = Done me s1.
Proof. intros Hc H. unfold myproc. erewrite bind_Done by done. by rewrite (only_cur _ _ _ _ _ H), Hc. Qed.

Lemma save_tf_only s s1 me p1 m1 : cur s = Some me → only s s1 me p1 m1 →
  ∃ s2, save_tf s1 = Done tt s2 ∧ only s s2 me (set_backup_tf (tf p1) p1) m1.
Proof.
  intros Hc H. unfold save_tf. rewrite (bind_Done _ _ _ _ _ (only_myproc _ _ _ _ _ Hc H)).
  match goal with |- context [upd_proc me ?g] => destruct (only_upd s s1 me p1 m1 g Hc H eq_refl eq_refl) as (s2 & E & H2) end.
  exists s2. split; [exact E|]. cbv beta zeta in H2. by rewrite tf_eta in H2.
Qed.

Lemma enter_enter s k : enter (set_kf (set_fkm k (enter s)) s) = set_fkm k (enter s).
Proof. unfold enter. by destruct s as [[] ? ? ? ? ? ? ? ? []]. Qed.

Lemma push_user_only s s1 me p1 m1 v : cur s = Some me → only s s1 me p1 m1 →
  let p2 := set_tf (set_esp (u32 (esp (tf p1) - 4)) (tf p1)) p1 in
  (uwrite (pgdir p1) (u32 (esp (tf p1) - 4)) (word_bytes v) (set_pm m1 (fkm (kf s))) = Panic "trap" ∧ push_user me v s1 = Panic "trap") ∨
  ∃ s2 m2, uwrite (pgdir p1) (u32 (esp (tf p1) - 4)) (word_bytes v) (set_pm m1 (fkm (kf s))) = Done tt (set_pm m2 (fkm (kf s))) ∧
    push_user me v s1 = Done tt s2 ∧ only s s2 me p2 m2.
Proof.
  intros Hc H p2. destruct (only_upd s s1 me p1 m1 (λ p, set_tf (set_esp (u32 (esp (tf p) - 4)) (tf p)) p) Hc H eq_refl eq_refl) as (s2 & E & H2).
  fold p2 in H2. pose proof (only_cur _ _ _ _ _ H2) as Hc2. pose proof (on_table _ _ _ _ _ H2 me) as Hp. rewrite decide_True in Hp by done.
  unfold push_user, proc_at. rewrite (bind_Done _ _ _ _ _ E). mgo. rewrite Hp, (user_put_word_eq s2 me) by (by rewrite Hc2).
  rewrite Hp, (on_mem _ _ _ _ _ H2). change (pgdir p2) with (pgdir p1). change (esp (tf p2)) with (u32 (esp (tf p1) - 4)).
  destruct (uwrite_cases (pgdir p1) (word_bytes v) (u32 (esp (tf p1) - 4)) (set_pm m1 (fkm (kf s)))) as [[m2 ->]| ->]; [right|by left].
  do 2 eexists. split; [reflexivity|]. split; [reflexivity|]. destruct H2 as [Ht Hr Hm He]. split; cbn [kf ptable set_kf].
  - exact Ht.
  - rewrite Hr. reflexivity.
  - reflexivity.
  - rewrite enter_enter, He. reflexivity.
Qed.

(** The bytes [l] are at [va], and nothing else has changed. *)
Definition pushed (m m' : mem) (pd va : Z) (l : list Z) : Prop :=
  (∀ j c, l !! j = Some c → m' (uaddr m pd (va + Z.of_nat j)) = c) ∧
  ∀ a, (∀ j, 0 <= j < Z.of_nat (length l) → a ≠ uaddr m pd (va + j)) → m' a = m a.

(** Two words, the higher one first. *)
Lemma push_two m pd T sp v w k : room m pd T sp 8 →
  ∃ m1 m2, uwrite pd (sp + 4) (word_bytes v) (set_pm m k) = Done tt (set_pm m1 k) ∧
    uwrite pd sp (word_bytes w) (set_pm m1 k) = Done tt (set_pm m2 k) ∧ pushed m m2 pd sp (word_bytes w ++ word_bytes v).
Proof.
  intros H. destruct (uwrite_room pd T (word_bytes v) (sp + 4) (set_pm m k)) as (m1 & E1 & S1 & P1 & W1 & F1).
  { apply (room_ext _ _ _ _ _ _ _ _ H (rm_space _ _ _ _ _ H) (λ _, eq_refl)); cbn; lia. }
  destruct (uwrite_room pd T (word_bytes w) sp (set_pm m1 k)) as (m2 & E2 & _ & P2 & W2 & F2).
  { apply (room_ext _ _ _ _ _ _ _ _ H S1 P1); cbn; lia. }
  cbn [pm set_pm] in *. assert (Hu : ∀ a, uaddr m1 pd a = uaddr m pd a) by (intros a; unfold uaddr at 1; by rewrite P1).
  exists m1, m2. split_and!; [exact E1|exact E2|]. split.
  - intros j c Hj. apply lookup_app_Some in Hj as [Hj|[Hl Hj]]; [by rewrite <- Hu; apply W2|].
    pose proof (lookup_lt_Some _ _ _ Hj) as Hlt. cbn [length word_bytes] in Hl, Hlt, Hj. rewrite F2.
    + rewrite <- (W1 _ _ Hj). do 2 f_equal. lia.
    + intros i Hi E. rewrite Hu in E. apply (uaddr_inj _ _ _ _ _ _ _ H) in E; cbn in Hi; lia.
  - intros a Ha. cbn in Ha. rewrite F2, F1; [done|..]; intros j Hj; cbn in Hj.
    + rewrite <- Z.add_assoc. apply Ha. lia.
    + rewrite Hu. apply Ha. lia.
Qed.

Lemma u32_sub_sub x : u32 (u32 (x - 4) - 4) = u32 (x - 8).
Proof. unfold u32. rewrite Zminus_mod_idemp_l. f_equal. lia. Qed.


(** No signal interrupts the handling of another, and none is delivered to a
    process that has none pending or was not in user space. *)
Lemma do_signal_quiet s me t :
  cur s = Some me →
  user_mode t = false ∨ pending (ptable s me) = 0 ∨ handling_signal (ptable s me) = true →
  do_signal t s = Done tt s.
Proof.
  intros Hc H. unfold do_signal. mgo. rewrite Hc.
  destruct H as [->|[->| ->]]; cbn; rewrite ?andb_false_r; done.
Qed.

(** C40.  Returning from a handler.  The system call [sigreturn] puts back the
    frame [do_signal] saved and allows the next signal, except for one register:
    [syscall] then stores the call's result 0 in [eax], so the interrupted
    program continues with every register as it was but [eax]. *)
Theorem sigreturn_loses_eax e g j u s me :
  cur s = Some me → eax (tf (ptable s me)) = 27 →
  ∃ s', syscall e g j u s = Done tt s' ∧
    tf (ptable s' me) = set_eax 0 (backup_tf (ptable s me)) ∧ handling_signal (ptable s' me) = false ∧
    pending (ptable s' me) = pending (ptable s me).
Proof.
  intros Hc He. assert (∀ s1, cur s1 = Some me → myproc s1 = Done me s1) as Hm.
  { intros s1 H1. unfold myproc. erewrite bind_Done by done. by rewrite H1. }
  unfold syscall, proc_at. erewrite bind_Done by (by apply Hm). mgo. rewrite He.
  change (syscalls e g j u (s32 27)) with (Some sys_sigreturn). unfold sys_sigreturn, sigreturn, restore_tf.
  rewrite bind_assoc. erewrite bind_Done by (by apply Hm). rewrite bind_assoc. mgo. rewrite !bind_assoc.
  erewrite bind_Done by (by apply Hm). mgo. mgo. eexists. split; [reflexivity|].
  cbn [ptable set_ptable]. rewrite !fn_lookup_insert, tf_eta. done.
Qed.

(** ** Kill *)

(**  [kill(0)] reaches free slots, whose pid is 0.  When the first slot with
    pid 0 is a free one, the call succeeds and marks that slot killed, and when
    [fork] takes the slot the mark is still there: the new process is killed at
    its first return to user space. *)
Theorem kill_zero_marks_free_slot s i :
  find_proc (λ p, pid p =? 0) s = Some i → find_proc (λ p, is_state (pstate p) UNUSED) s = Some i →
  ∃ s1 s2, kill 0 s = Done 0 s1 ∧ alloc_slot s1 = Done (Some i) s2 ∧
    pstate (ptable s2 i) = EMBRYO ∧ killed (ptable s2 i) = true.
Proof.
  intros H0 Hu. assert (pstate (ptable s i) = UNUSED) as Hi.
  { unfold find_proc in Hu. apply find_some in Hu as [_ Hu]. by apply bool_decide_eq_true in Hu. }
  assert (∃ s1, kill 0 s = Done 0 s1 ∧ killed (ptable s1 i) = true ∧
    ∀ k, pstate (ptable s1 k) = pstate (ptable s k)) as (s1 & E1 & Hk & Hs).
  { unfold kill. mgo. rewrite H0. eexists. split; [by do 3 mgo|]. cbn [ptable set_ptable].
    rewrite !fn_lookup_insert. cbn [pstate set_ttime set_killed]. rewrite Hi. cbn. split; [done|].
    intros k. destruct (decide (i = k)) as [<-|]; [by rewrite !fn_lookup_insert|by rewrite !fn_lookup_insert_ne]. }
  assert (find_proc (λ p, is_state (pstate p) UNUSED) s1 = Some i) as Hu1.
  { rewrite <- Hu. unfold find_proc. apply find_ext. intros k. by rewrite Hs. }
  exists s1. eexists. split; [done|]. split; [unfold alloc_slot; mgo; rewrite Hu1; by do 4 mgo|].
  cbn [ptable set_ptable set_nextpid]. rewrite !fn_lookup_insert. done.
Qed.

(** ** Witnesses *)

Definition wit_sig (p : proc) : kst := set_cur (Some 0%nat) (wit_kernel (λ i, if (i =? 0)%nat then p else wit_proc UNUSED 0 0) 1).

Definition wit_frame : trapframe := mkTf 1 2 3 4 5 6 7 27 0 0 0 0 0 0 0 0 64 0 100 27 0 0 4000 35 0.

(** Signals 3 and 5 are pending, with the default handlers. *)
Definition wit_pending : proc := set_pending 40 (set_tf wit_frame (wit_proc RUNNING 1 10)).

(** The same with a handler at 0x500 for signal 3, which returns to 0x700; the
    page directory is at 0x80001000 and maps the first page, with the stack, to
    the page at 0x3000. *)
Definition wit_dir : Z := 0x80001000.
Definition wit_tables : mem := st32 (st32 (λ _, 0) wit_dir 0x2007) 0x80002000 0x3007.
Definition wit_handled : proc :=
  let p := set_handlers_array (λ k, if (k =? 3)%nat then 0x500 else SIG_DFL) wit_pending in
  set_ret_add 0x700 (set_pgdir wit_dir p).
Definition wit_stack : kst := set_kf (set_fkm (mkKmem wit_tables 0 1 0 0) wit_kf) (wit_sig wit_handled).

Lemma wit_pde i : 0 <= i < 1024 → pde_at wit_tables wit_dir i = if i =? 0 then 0x2007 else 0.
Proof.
  intros Hi. unfold pde_at, wit_tables, wit_dir. rewrite ld32_st32_ne by lia. destruct (Z.eqb_spec i 0) as [->|]; [reflexivity|].
  by rewrite ld32_st32_ne by lia.
Qed.

Lemma wit_room : room wit_tables wit_dir [0x80002000] 3992 8.
Proof.
  assert (Hp : ∀ j, 0 <= j < 8 → pte_of wit_tables wit_dir (3992 + j) = 0x3007).
  { intros j Hj. assert (j = 0 ∨ j = 1 ∨ j = 2 ∨ j = 3 ∨ j = 4 ∨ j = 5 ∨ j = 6 ∨ j = 7) as Hc by lia.
    repeat (destruct Hc as [->|Hc]; [reflexivity|]). subst j. reflexivity. }
  split.
  - split.
    + intros x Hx. assert (x = 0x80001000 ∨ x = 0x80002000) as [->| ->] by set_solver; repeat split; discriminate.
    + apply NoDup_cons. split; [set_solver|apply NoDup_singleton].
    + intros i Hi. rewrite wit_pde by done. destruct (i =? 0); [|done]. intros _. left.
    + intros i j Hi Hj. rewrite !wit_pde by done. destruct (Z.eqb_spec i 0), (Z.eqb_spec j 0); try done. lia.
  - intros j Hj. by rewrite Hp.
  - intros j Hj. rewrite Hp by done. set_solver.
  - intros j k Hj Hk _. rewrite !Z.div_small by (unfold PGSIZE; lia). done.
Qed.


Lemma sigreturn_loses_eax_witness :
  ∃ s', syscall [] [] [] 0 (wit_sig wit_pending) = Done tt s' ∧ handling_signal (ptable s' 0%nat) = false.
Proof.
  destruct (sigreturn_loses_eax [] [] [] 0 (wit_sig wit_pending) 0 eq_refl eq_refl) as (s' & E & _ & Hh & _).
  exists s'. split; [exact E|exact Hh].
Defined.

Lemma kill_zero_marks_free_slot_witness :
  ∃ s1 s2, kill 0 (wit_sig wit_pending) = Done 0 s1 ∧ alloc_slot s1 = Done (Some 1%nat) s2 ∧ killed (ptable s2 1%nat) = true.
Proof.
  destruct (kill_zero_marks_free_slot (wit_sig wit_pending) 1 eq_refl eq_refl) as (s1 & s2 & E1 & E2 & _ & Hk).
  exists s1, s2. split; [exact E1|]. split; [exact E2|exact Hk].
Defined.
