(* ===== verification/FsSpec.v ===== *)
(** * What the file system promises (fs.c)

    Path elements, the on-disk inode format and the inode cache: reference
    definitions and the theorems that relate the routines of [Fs] to them.  The
    contents of files and the block bitmap are in FsData.v. *)

From S2P Require Import Prelude Bio Log Console Fs.
#[local] Open Scope Z_scope.

(** ** Paths *)

(** The pieces between slashes. *)
Fixpoint split_on (path : list Z) : list (list Z) :=
  match path with
  | [] => [[]]
  | c :: path' =>
      if c =? 47 then [] :: split_on path'
      else match split_on path' with e :: es => (c :: e) :: es | [] => [[c]] end
  end.

(** The elements of a path: the pieces that are not empty. *)
Definition elems (path : list Z) : list (list Z) := filter (λ e, e ≠ []) (split_on path).
Arguments elems : simpl never.

Lemma split_on_cons path : ∃ e es, split_on path = e :: es.
Proof. induction path as [|c path (e & es & E)]; cbn; [by eexists _, _|]. rewrite E. destruct (c =? 47); by eexists _, _. Qed.

Lemma elems_slash path : elems (47 :: path) = elems path.
Proof.
  unfold elems. cbn [split_on]. change (47 =? 47) with true. cbv iota.
  by rewrite filter_cons, decide_False by (intros H; by destruct H).
Qed.

Lemma elems_skip path : elems (skip_slashes path) = elems path.
Proof.
  induction path as [|c path IH]; cbn [skip_slashes]; [done|]. destruct (Z.eqb_spec c 47) as [->|]; [by rewrite IH, elems_slash|done].
Qed.

Lemma skip_head path c rest : skip_slashes path = c :: rest → c ≠ 47.
Proof.
  induction path as [|x path IH]; cbn; [done|]. destruct (Z.eqb_spec x 47) as [->|]; [auto|]. by intros [= <- _].
Qed.

Lemma skip_length path : (length (skip_slashes path) <= length path)%nat.
Proof. induction path as [|x path IH]; cbn; [lia|]. destruct (x =? 47); cbn; lia. Qed.

Lemma take_elem_spec path : ∀ e rest, take_elem path = (e, rest) →
  path = e ++ rest ∧ 47 ∉ e ∧ (rest = [] ∨ ∃ r, rest = 47 :: r).
Proof.
  induction path as [|c path IH]; cbn; intros e rest; [intros [= <- <-]; split_and!; auto; set_solver|].
  destruct (Z.eqb_spec c 47) as [->|Hc].
  - intros [= <- <-]. split_and!; [done|set_solver|eauto].
  - destruct (take_elem path) as [e' r'] eqn:E. intros [= <- <-]. destruct (IH _ _ eq_refl) as (-> & ? & ?).
    split_and!; [done|set_solver|done].
Qed.

Lemma split_on_app e rest : 47 ∉ e → rest = [] ∨ (∃ r, rest = 47 :: r) →
  split_on (e ++ rest) = e :: tail (split_on rest).
Proof.
  intros He Hr. induction e as [|c e IH]; cbn.
  - destruct Hr as [->|[r ->]]; done.
  - apply not_elem_of_cons in He as [Hc He]. rewrite (proj2 (Z.eqb_neq c 47)) by done. by rewrite IH.
Qed.

Lemma elems_tail rest : rest = [] ∨ (∃ r, rest = 47 :: r) →
  filter (λ e, e ≠ []) (tail (split_on rest)) = elems rest.
Proof. intros [->|[r ->]]; [done|]. by rewrite elems_slash. Qed.

(**  [skipelem] peels off one path element: it returns null exactly when the
    path has no element left; otherwise the name is the first element (cut to
    [DIRSIZ] characters), the elements of the rest are the remaining ones, the
    rest is empty exactly when this was the last one, and it is shorter than
    the path, so walking a path ends. *)
Theorem skipelem_correct path :
  match skipelem path with
  | None => elems path = []
  | Some (rest, name) => ∃ e, elems path = e :: elems rest ∧ name = take DIRSIZ e ∧ e ≠ [] ∧ 47 ∉ e ∧
      (rest = [] ↔ elems rest = []) ∧ (length rest < length path)%nat
  end.
Proof.
  unfold skipelem. rewrite <- (elems_skip path). pose proof (skip_length path) as Hlen.
  destruct (skip_slashes path) as [|c p] eqn:E; [done|]. pose proof (skip_head _ _ _ E) as Hc.
  destruct (take_elem (c :: p)) as [e rest] eqn:Et. pose proof Et as Ht. apply take_elem_spec in Ht as (Hp & He & Hr).
  assert (e ≠ []) as Hne. { intros ->. cbn in Hp. destruct Hr as [->|[r ->]]; [done|]. congruence. }
  exists e. rewrite Hp. unfold elems at 1. rewrite split_on_app by done.
  rewrite filter_cons, decide_True, elems_tail, elems_skip by done. split_and!; try done.
  - split; [intros Hs; by rewrite <- elems_skip, Hs|]. intros Hs. destruct (skip_slashes rest) as [|c' r'] eqn:Es; [done|].
    pose proof (skip_head _ _ _ Es) as Hc'. rewrite <- elems_skip, Es in Hs. unfold elems in Hs. cbn [split_on] in Hs.
    rewrite (proj2 (Z.eqb_neq c' 47)) in Hs by done. destruct (split_on_cons r') as (x & xs & Ex).
    rewrite Ex, filter_cons, decide_True in Hs; done.
  - pose proof (skip_length rest). rewrite Hp, length_app in Hlen. destruct e; [done|]. cbn in *. lia.
Qed.

(** ** On-disk inodes *)

Lemma get16_put16_ne d i j v : (i + 2 <= j ∨ j + 2 <= i)%nat → get16 (put16 d i v) j = get16 d j.
Proof. intros. unfold get16, put16. by rewrite !lt_insert_ne by lia. Qed.
Lemma get16_put32_ne d i j v : (i + 4 <= j ∨ j + 2 <= i)%nat → get16 (put32 d i v) j = get16 d j.
Proof. intros. unfold get16, put32. by rewrite !lt_insert_ne by lia. Qed.
Lemma get32_put16_ne d i j v : (i + 2 <= j ∨ j + 4 <= i)%nat → get32 (put16 d i v) j = get32 d j.
Proof. intros. unfold get32, put16. by rewrite !lt_insert_ne by lia. Qed.

Lemma length_put_words l : ∀ d o, length (put_words d o l) = length d.
Proof. induction l as [|x l IH]; intros d o; cbn; [done|]. by rewrite IH, length_put32. Qed.

Lemma get16_put_words l : ∀ d o j, (j + 2 <= o ∨ o + 4 * length l <= j)%nat → get16 (put_words d o l) j = get16 d j.
Proof.
  induction l as [|x l IH]; intros d o j H; cbn [put_words length] in *; [done|].
  rewrite IH by lia. apply get16_put32_ne. lia.
Qed.

Lemma get32_put_words_ne l : ∀ d o j, (j + 4 <= o ∨ o + 4 * length l <= j)%nat → get32 (put_words d o l) j = get32 d j.
Proof.
  induction l as [|x l IH]; intros d o j H; cbn [put_words length] in *; [done|].
  rewrite IH by lia. apply get32_put32_ne. lia.
Qed.

Lemma get32_put_words l : ∀ d o k, (o + 4 * length l <= length d)%nat → (k < length l)%nat →
  get32 (put_words d o l) (o + 4 * k) = u32 (l !!! k).
Proof.
  induction l as [|x l IH]; intros d o k Hd Hk; cbn [put_words length] in *; [lia|]. destruct k as [|k].
  - rewrite Nat.mul_0_r, Nat.add_0_r, get32_put_words_ne by lia. apply get32_put32_eq. lia.
  - replace (o + 4 * S k)%nat with (o + 4 + 4 * k)%nat by lia. apply IH; rewrite ?length_put32; lia.
Qed.

Lemma length_put_dinode p o d : length (put_dinode p o d) = length d.
Proof. unfold put_dinode. by rewrite length_put_words, length_put32, !length_put16. Qed.

(** An inode whose fields fit their types. *)
Definition dinode_ok (p : inode) : Prop :=
  s16 (i_type p) = i_type p ∧ s16 (i_major p) = i_major p ∧ s16 (i_minor p) = i_minor p ∧
  s16 (i_nlink p) = i_nlink p ∧ is_u32 (i_size p) ∧ length (i_addrs p) = (NDIRECT + 1)%nat ∧
  Forall is_u32 (i_addrs p).

(** The fields of [q] that are only in memory, with the rest from [p]. *)
Definition with_dinode (q p : inode) : inode :=
  mkInode (i_dev q) (i_num q) (i_ref q) (i_flags q) (i_type p) (i_major p) (i_minor p) (i_nlink p) (i_size p) (i_addrs p).

Lemma s16_u16 x : s16 (u16 x) = s16 x.
Proof. unfold s16, u16. by rewrite Zplus_mod_idemp_l. Qed.

Lemma addrs_put_dinode p o d :
  length (i_addrs p) = (NDIRECT + 1)%nat → Forall is_u32 (i_addrs p) → (o + DINODE <= length d)%nat →
  dip_addrs (put_dinode p o d) o = i_addrs p.
Proof.
  intros Hlen Hu Ho. unfold DINODE, NDIRECT in *. apply list_eq_same_length with 13%nat; [done|unfold dip_addrs; by rewrite length_fmap, length_seq|].
  intros i x y Hi Hx Hy. unfold dip_addrs in Hx. rewrite list_lookup_fmap, lookup_seq_lt in Hx by done. injection Hx as <-.
  unfold put_dinode. change (i + (i + (i + (i + 0))))%nat with (4 * i)%nat. rewrite get32_put_words.
  - rewrite (list_lookup_total_correct _ _ _ Hy), u32_id; [done|]. by eapply Forall_lookup_1.
  - rewrite length_put32, !length_put16, Hlen. lia.
  - by rewrite Hlen.
Qed.

Lemma put_get_dinode p q o d :
  dinode_ok p → (o + DINODE <= length d)%nat → get_dinode (put_dinode p o d) o q = with_dinode q p.
Proof.
  intros (H1 & H2 & H3 & H4 & H5 & H6 & H7) Ho. unfold get_dinode, with_dinode, dip_type.
  rewrite addrs_put_dinode by done. unfold put_dinode, DINODE in *.
  rewrite !get16_put_words by lia. rewrite get32_put_words_ne by lia.
  rewrite get32_put32_eq, (u32_id (i_size p)) by (done || (rewrite !length_put16; lia)).
  rewrite !get16_put32_ne by lia.
  rewrite (get16_put16_ne _ (o + 6) (o + 4)), (get16_put16_ne _ (o + 6) (o + 2)), (get16_put16_ne _ (o + 6) o) by lia.
  rewrite (get16_put16_ne _ (o + 4) (o + 2)), (get16_put16_ne _ (o + 4) o), (get16_put16_ne _ (o + 2) o) by lia.
  rewrite !get16_put16_eq by (rewrite ?length_put16; lia). rewrite !s16_u16, H1, H2, H3, H4. done.
Qed.

Lemma other_dinode p q o o' d :
  length (i_addrs p) = (NDIRECT + 1)%nat → (o + DINODE <= o' ∨ o' + DINODE <= o)%nat →
  get_dinode (put_dinode p o d) o' q = get_dinode d o' q.
Proof.
  intros Hl Ho. unfold get_dinode, dip_type, dip_addrs, put_dinode, DINODE, NDIRECT in *.
  rewrite !get16_put_words by lia. rewrite !get16_put32_ne, !get16_put16_ne by lia.
  rewrite get32_put_words_ne by lia. rewrite get32_put32_ne, !get32_put16_ne by lia. f_equal.
  apply list_fmap_ext. intros i x Hx. apply lookup_seq in Hx as [-> Hi].
  by rewrite get32_put_words_ne, get32_put32_ne, !get32_put16_ne by lia.
Qed.

(** C38.  The on-disk inode is a round trip: what [iupdate] stores for an inode
    is what [ilock] reads back, field for field, and the other inodes of the
    block are not touched. *)
Theorem dinode_roundtrip p q q' d n n' :
  dinode_ok p → length d = BSIZE → 0 <= n → 0 <= n' → n mod IPB ≠ n' mod IPB →
  get_dinode (put_dinode p (doff n) d) (doff n) q = with_dinode q p ∧
  get_dinode (put_dinode p (doff n) d) (doff n') q' = get_dinode d (doff n') q' ∧
  length (put_dinode p (doff n) d) = BSIZE.
Proof.
  intros Hp Hd Hn Hn' Hne. unfold doff, IPB, BSIZE, DINODE in *.
  pose proof (Z.mod_pos_bound n 8 ltac:(lia)). pose proof (Z.mod_pos_bound n' 8 ltac:(lia)).
  split_and!; [apply put_get_dinode; [done|unfold DINODE; lia]|apply other_dinode; [apply Hp|unfold DINODE; lia]|].
  by rewrite length_put_dinode.
Qed.

Lemma dinode_roundtrip_witness :
  get_dinode (put_dinode (mkInode 1 9 1 2 T_FILE 0 0 1 600 [40; 41; 0; 0; 0; 0; 0; 0; 0; 0; 0; 0; 0]) (doff 9) (replicate BSIZE 255))
    (doff 9) (mkInode 1 9 1 1 0 0 0 0 0 []) = mkInode 1 9 1 1 T_FILE 0 0 1 600 [40; 41; 0; 0; 0; 0; 0; 0; 0; 0; 0; 0; 0].
Proof.
  apply (dinode_roundtrip (mkInode 1 9 1 2 T_FILE 0 0 1 600 [40; 41; 0; 0; 0; 0; 0; 0; 0; 0; 0; 0; 0])
    (mkInode 1 9 1 1 0 0 0 0 0 []) (mkInode 1 9 1 1 0 0 0 0 0 []) (replicate BSIZE 255) 9 8); try done.
  unfold dinode_ok. split_and!; try done. repeat constructor; done.
Defined.

(** ** The inode cache *)

(** Slot [i] is a referenced copy of inode [(dv, inum)]. *)
Definition caches (ic : nat → inode) (i : nat) (dv inum : Z) : Prop :=
  0 < i_ref (ic i) ∧ i_dev (ic i) = dv ∧ i_num (ic i) = inum.

Record icache_ok (ic : nat → inode) : Prop := {
  ic_ref : ∀ i, (i < NINODE)%nat → 0 <= i_ref (ic i);
  ic_uniq : ∀ i j dv inum, (i < NINODE)%nat → (j < NINODE)%nat → caches ic i dv inum → caches ic j dv inum → i = j;
}.

Lemma iget_scan_spec ic dv inum ks : ∀ empty,
  match iget_scan ic dv inum ks empty with
  | inl i => i ∈ ks ∧ caches ic i dv inum
  | inr e => (∀ i, i ∈ ks → ¬ caches ic i dv inum) ∧
      match empty with
      | Some k => e = Some k
      | None => match e with Some k => k ∈ ks ∧ i_ref (ic k) = 0 | None => ∀ i, i ∈ ks → i_ref (ic i) ≠ 0 end
      end
  end.
Proof.
  induction ks as [|k ks IH]; intros empty; cbn [iget_scan].
  { split; [set_solver|]. destruct empty; [done|]. set_solver. }
  destruct (_ && _) eqn:E.
  - apply andb_true_iff in E as [[E1%Z.ltb_lt E2%Z.eqb_eq]%andb_true_iff E3%Z.eqb_eq]. split; [by left|done].
  - assert (¬ caches ic k dv inum) as Hk.
    { intros (H1 & H2 & H3). rewrite (proj2 (Z.ltb_lt _ _) H1), (proj2 (Z.eqb_eq _ _) H2), (proj2 (Z.eqb_eq _ _) H3) in E. done. }
    specialize (IH (match empty with None => if i_ref (ic k) =? 0 then Some k else None | Some _ => empty end)).
    destruct (iget_scan ic dv inum ks _) as [i|e]; [destruct IH; split; [by right|done]|].
    destruct IH as [Hno He]. split; [intros i [->|]%elem_of_cons; auto|]. destruct empty as [x|]; [done|].
    destruct (Z.eqb_spec (i_ref (ic k)) 0) as [H0|H0].
    + subst e. split; [by left|done].
    + destruct e as [x|]; [destruct He; split; [by right|done]|]. intros i [->|]%elem_of_cons; auto.
Qed.

Lemma caches_upd ic i p j dv inum :
  caches (<[i := p]> ic) j dv inum ↔
  if decide (i = j) then 0 < i_ref p ∧ i_dev p = dv ∧ i_num p = inum else caches ic j dv inum.
Proof.
  unfold caches. destruct (decide (i = j)) as [<-|]; [by rewrite fn_lookup_insert|by rewrite fn_lookup_insert_ne].
Qed.

(** C37.  The inode cache holds each inode once.  [iget] returns the slot that
    already caches the inode, with one more reference, and otherwise takes a
    slot nobody refers to, with one reference and not valid; no other slot
    changes and no inode is ever cached twice.  It panics only when every slot
    is in use and none holds the inode. *)
Theorem iget_correct s dv inum :
  icache_ok (icache s) →
  match iget dv inum s with
  | Done i s' =>
      let p := icache s i in
      let p' := icache s' i in
      (i < NINODE)%nat ∧ icache_ok (icache s') ∧ caches (icache s') i dv inum ∧
      s' = set_icache (icache s') s ∧ (∀ j, j ≠ i → icache s' j = icache s j) ∧
      ((caches (icache s) i dv inum ∧ p' = set_i_ref (i_ref p + 1) p) ∨
       (i_ref p = 0 ∧ i_ref p' = 1 ∧ i_flags p' = 0 ∧ ∀ j, (j < NINODE)%nat → ¬ caches (icache s) j dv inum))
  | Panic _ => ∀ j, (j < NINODE)%nat → 0 < i_ref (icache s j) ∧ ¬ caches (icache s) j dv inum
  | _ => False
  end.
Proof.
  intros [Href Huniq]. unfold iget. mgo. pose proof (iget_scan_spec (icache s) dv inum (seq 0 NINODE) None) as Hsc.
  assert (∀ j, j ∈ seq 0 NINODE ↔ (j < NINODE)%nat) as Hseq by (intros j; rewrite elem_of_seq; lia).
  destruct (iget_scan _ _ _ _ _) as [i|[i|]].
  - destruct Hsc as [Hi Hc]. rewrite Hseq in Hi. mgo. unfold mret, M_ret. cbv zeta. cbn [icache set_icache]. rewrite fn_lookup_insert.
    pose proof Hc as (H1 & H2 & H3).
    assert (∀ j dv inum, caches (<[i := set_i_ref (i_ref (icache s i) + 1) (icache s i)]> (icache s)) j dv inum →
      caches (icache s) j dv inum) as Hback.
    { intros j dv' inum'. rewrite caches_upd. case_decide; [subst; cbn; intros (? & ? & ?); by split_and!|done]. }
    split_and!; try done.
    + split; [|intros j k dv' inum' Hj Hk ?%Hback ?%Hback; eauto]. intros j Hj.
      destruct (decide (i = j)) as [<-|]; [rewrite fn_lookup_insert; cbn; lia|rewrite fn_lookup_insert_ne by done; auto].
    + apply caches_upd. rewrite decide_True by done. cbn. split_and!; try done. lia.
    + intros j Hj. by rewrite fn_lookup_insert_ne.
    + by left.
  - destruct Hsc as [Hno [Hi H0]]. rewrite Hseq in Hi. mgo. unfold mret, M_ret. cbv zeta. cbn [icache set_icache]. rewrite fn_lookup_insert.
    assert (∀ j, (j < NINODE)%nat → ¬ caches (icache s) j dv inum) as Hno' by (intros j Hj; apply Hno; by apply Hseq).
    split_and!; try done.
    + split.
      * intros j Hj. destruct (decide (i = j)) as [<-|]; [rewrite fn_lookup_insert; cbn; lia|rewrite fn_lookup_insert_ne by done; auto].
      * intros j k dv' inum' Hj Hk. rewrite !caches_upd. destruct (decide (i = j)) as [<-|], (decide (i = k)) as [<-|]; try done.
        -- intros (_ & <- & <-) Hc. by destruct (Hno' k Hk).
        -- intros Hc (_ & <- & <-). by destruct (Hno' j Hj).
        -- by apply Huniq.
    + apply caches_upd. by rewrite decide_True by done.
    + intros j Hj. by rewrite fn_lookup_insert_ne.
    + right. by split_and!.
  - destruct Hsc as [Hno Hall]. cbn. intros j Hj. split; [|apply Hno; by apply Hseq].
    specialize (Hall j (proj2 (Hseq j) Hj)). specialize (Href j Hj). lia.
Qed.

Definition wit_fs : fs :=
  mkFs (mkLst wit_io zero_log) (mkSb 0 0 0 0 0 0 0) (λ i, mkInode 1 (Z.of_nat i) (if (i <? 3)%nat then 1 else 0) 0 0 0 0 0 0 [])
    (λ _, mkDevops None None) wit_cons None false.

(** Inodes 0, 1 and 2 are referenced: inode 2 is found in its slot. *)
Lemma iget_correct_witness :
  match iget 1 2 wit_fs with Done i s' => i_ref (icache s' i) = 2 | _ => False end.
Proof.
  assert (icache_ok (icache wit_fs)) as Hok.
  { split.
    - intros i _. cbn [wit_fs icache i_ref]. destruct (i <? 3)%nat; lia.
    - intros i j dv inum _ _ (_ & _ & H1) (_ & _ & H2). cbn in *. lia. }
  pose proof (iget_correct wit_fs 1 2 Hok) as H.
  assert (E : match iget 1 2 wit_fs with Done i s' => i = 2%nat | _ => False end) by (vm_compute; reflexivity).
  destruct (iget 1 2 wit_fs) as [i s'|?|? ?|]; [|destruct E..]. subst i. cbv zeta in H.
  destruct H as (_ & _ & _ & _ & _ & [[_ H]|[H _]]); [rewrite H; reflexivity|discriminate H].
Defined.
