(* ===== verification/FsData.v ===== *)
(** * File contents and the block bitmap (fs.c)

    A file's bytes are found through its block addresses, direct or in the
    indirect block, in the blocks' [view].  [readi] returns them and [writei]
    changes exactly the bytes it is given; [balloc] takes the first block whose
    bit in the bitmap is clear.  All of it runs inside a transaction: [in_tx s bs k] says that
    the log already holds the blocks [bs] and has room for [k] more. *)

From S2P Require Import Prelude Bio Log Console Fs.
#[local] Open Scope Z_scope.

(** ** Block operations of the file system layer *)

Definition fio (s : fs) : io := dio (flog s).
Definition fview (s : fs) (b : Z) : list Z := view (fio s) b.

(** [s'] is [s] up to the buffer cache and the log. *)
Definition only_log (s s' : fs) : Prop := s' = set_flog (flog s') s.

Lemma only_log_refl s : only_log s s.
Proof. by destruct s. Qed.
Lemma only_log_trans s1 s2 s3 : only_log s1 s2 → only_log s2 s3 → only_log s1 s3.
Proof. unfold only_log. intros -> ->. done. Qed.
#[export] Instance only_log_preorder : PreOrder only_log.
Proof. split; [exact only_log_refl|exact only_log_trans]. Qed.

(** No buffer is locked and a free one is left. *)
Record quiet_fs (s : fs) (L : list Z) : Prop := {
  qf_idle : idle (fio s);
  qf_pins : ∀ b, pinned (fio s) b → b ∈ L;
  qf_room : (length L < NBUF)%nat;
}.

(** Nothing happened but reading. *)
Record same_fs (s s' : fs) : Prop := {
  sf_only : only_log s s';
  sf_lg : lg (flog s') = lg (flog s);
  sf_io : unchanged (fio s) (fio s');
}.

Lemma same_fs_refl s : same_fs s s.
Proof. split; [apply only_log_refl|done|by split]. Qed.
Lemma same_fs_trans s1 s2 s3 : same_fs s1 s2 → same_fs s2 s3 → same_fs s1 s3.
Proof. intros [] []. split; [by etrans|congruence|by eapply unchanged_trans]. Qed.
#[export] Instance same_fs_preorder : PreOrder same_fs.
Proof. split; [exact same_fs_refl|exact same_fs_trans]. Qed.

Lemma same_view s s' b : same_fs s s' → fview s' b = fview s b.
Proof. intros [_ _ U]. apply (un_view _ _ U). Qed.
Lemma same_icache s s' : same_fs s s' → icache s' = icache s.
Proof. intros [-> _ _]. done. Qed.
Lemma same_size s s' : same_fs s s' → disksize (fio s') = disksize (fio s).
Proof. intros [_ _ U]. apply (un_size _ _ U). Qed.

Lemma same_quiet s s' L : same_fs s s' → idle (fio s') → quiet_fs s L → quiet_fs s' L.
Proof. intros [_ _ U] Hi [_ Hp Hr]. split; [done| |done]. intros b Hb. apply Hp. by apply (un_pinned _ _ U). Qed.

Lemma bc_Done {A} (m : M io A) s a d : m (fio s) = Done a d → bc_ m s = Done a (set_flog (set_dio d (flog s)) s).
Proof. intros H. unfold bc_, lg_, io_, lift, fio in *. by rewrite H. Qed.

(** Read a block: what the buffer holds is the block's view. *)
Lemma fs_read_block s L b :
  quiet_fs s L → 0 <= b < disksize (fio s) →
  ∃ i s1 s2, bc_ (bread 1 b) s = Done i s1 ∧ bc_ (buf_at i) s1 = Done (bufs (fio s1) i) s1 ∧
    data (bufs (fio s1) i) = fview s b ∧ bc_ (brelse i) s1 = Done tt s2 ∧
    icache s1 = icache s ∧ quiet_fs s2 L ∧ same_fs s s2.
Proof.
  intros Hq Hb. destruct Hq as [Hi Hp Hr].
  destruct (read_block (fio s) b L) as (i & d1 & d2 & E1 & Ed & E2 & I2 & U2); try done.
  exists i, (set_flog (set_dio d1 (flog s)) s), (set_flog (set_dio d2 (flog s)) s).
  split_and!; try done.
  - by apply bc_Done.
  - by erewrite bc_Done by exact E2.
  - by apply same_quiet with s; [split| |].
Qed.

(** ** Where a file's bytes are *)

(** The address of block [bn] of a file. *)
Definition fblock (s : fs) (p : inode) (bn : Z) : Z :=
  if bn <? Z.of_nat NDIRECT then i_addrs p !!! Z.to_nat bn
  else get32 (fview s (i_addrs p !!! NDIRECT)) (4 * Z.to_nat (bn - Z.of_nat NDIRECT)).

(** Byte [o] of a file. *)
Definition fbyte (s : fs) (p : inode) (o : Z) : Z :=
  fview s (fblock s p (o / Z.of_nat BSIZE)) !!! Z.to_nat (o mod Z.of_nat BSIZE).

Definition fbytes (s : fs) (p : inode) (o n : Z) : list Z :=
  (λ k, fbyte s p (o + Z.of_nat k)) <$> seq 0 (Z.to_nat n).

(** A block that belongs to the files' part of the disk. *)
Definition data_block (s : fs) (b : Z) : Prop := 0 < b < disksize (fio s) ∧ ¬ in_log (lg (flog s)) b.

(** The first [nb] blocks of a file are allocated, each to one place. *)
Record file_ok (s : fs) (p : inode) (nb : Z) : Prop := {
  fo_dev : i_dev p = 1;
  fo_max : 0 <= nb <= MAXFILE;
  fo_block : ∀ bn, 0 <= bn < nb → data_block s (fblock s p bn);
  fo_ind : Z.of_nat NDIRECT < nb → data_block s (i_addrs p !!! NDIRECT);
  fo_inj : ∀ a b, 0 <= a < nb → 0 <= b < nb → fblock s p a = fblock s p b → a = b;
  fo_noind : ∀ bn, 0 <= bn < nb → Z.of_nat NDIRECT < nb → fblock s p bn ≠ i_addrs p !!! NDIRECT;
}.

Lemma fblock_same s s' p bn : same_fs s s' → fblock s' p bn = fblock s p bn.
Proof. intros H. unfold fblock. by rewrite (same_view _ _ _ H). Qed.

Lemma file_ok_same s s' p nb : same_fs s s' → file_ok s p nb → file_ok s' p nb.
Proof.
  intros H [H1 H2 H3 H4 H5 H6].
  assert (∀ b, data_block s b → data_block s' b) as Hd.
  { intros b. unfold data_block. by rewrite (same_size _ _ H), (sf_lg _ _ H). }
  split; try done.
  - intros bn Hb. rewrite (fblock_same _ _ _ _ H). auto.
  - auto.
  - intros a b Ha Hb. rewrite !(fblock_same _ _ _ _ H). auto.
  - intros bn Hb Hn. rewrite (fblock_same _ _ _ _ H). auto.
Qed.

(** An allocated block is found, not allocated again. *)
Lemma bmap_mapped s L i nb bn :
  quiet_fs s L → file_ok s (icache s i) nb → 0 <= bn < nb →
  ∃ s', bmap i bn s = Done (fblock s (icache s i) bn) s' ∧ quiet_fs s' L ∧ same_fs s s'.
Proof.
  intros Hq Hf Hb. destruct (fo_block _ _ _ Hf bn Hb) as [Hr _]. unfold bmap, inode_at, fblock in *. mgo.
  pose proof (fo_max _ _ _ Hf) as Hmax. unfold MAXFILE in Hmax.
  destruct (Z.ltb_spec bn (Z.of_nat NDIRECT)) as [Hd|Hd].
  - rewrite (proj2 (Z.eqb_neq _ 0)) by lia. by exists s.
  - unfold NDIRECT, NINDIRECT in *.
    rewrite (proj2 (Z.ltb_lt _ _)) by lia. destruct (fo_ind _ _ _ Hf) as [Hi _]; [unfold NDIRECT; lia|]. unfold NDIRECT in Hi.
    rewrite (proj2 (Z.eqb_neq _ 0)) by lia. mgo. rewrite (fo_dev _ _ _ Hf).
    destruct (fs_read_block s L (i_addrs (icache s i) !!! 12%nat) Hq) as (k & s1 & s2 & E1 & E2 & Ed & E3 & _ & Hq2 & Hs2); [lia|].
    rewrite (bind_Done _ _ _ _ _ E1), (bind_Done _ _ _ _ _ E2), Ed.
    rewrite (proj2 (Z.eqb_neq _ 0)) by (intros H0; rewrite H0 in Hr; lia). mgo.
    rewrite (bind_Done _ _ _ _ _ E3). by exists s2.
Qed.

(** ** Reading *)

Lemma slice_fmap {A} `{Inhabited A} (d : list A) a m :
  (a + m <= length d)%nat → slice d a m = (λ k, d !!! (a + k)%nat) <$> seq 0 m.
Proof.
  intros Hl. apply list_eq_same_length with m; [by rewrite length_fmap, length_seq|unfold slice; rewrite length_take, length_drop; lia|].
  intros k x y Hk Hx Hy. rewrite list_lookup_fmap, lookup_seq_lt in Hy by done. injection Hy as <-.
  unfold slice in Hx. rewrite lookup_take_lt, lookup_drop in Hx by done. by rewrite (list_lookup_total_correct _ _ _ Hx).
Qed.

Lemma fbytes_app s p o a b :
  0 <= a → 0 <= b → fbytes s p o (a + b) = fbytes s p o a ++ fbytes s p (o + a) b.
Proof.
  intros Ha Hb. unfold fbytes. rewrite Z2Nat.inj_add, seq_app, fmap_app by done. f_equal. cbn [plus].
  rewrite <- (Nat.add_0_r (Z.to_nat a)) at 1. rewrite <- fmap_add_seq, <- list_fmap_compose.
  apply list_fmap_ext. intros k x _. cbn. f_equal. lia.
Qed.

Lemma fbytes_block s p o m L nb :
  quiet_fs s L → file_ok s p nb → 0 <= o → 0 < m → o mod Z.of_nat BSIZE + m <= Z.of_nat BSIZE → o / Z.of_nat BSIZE < nb →
  slice (fview s (fblock s p (o / Z.of_nat BSIZE))) (Z.to_nat (o mod Z.of_nat BSIZE)) (Z.to_nat m) = fbytes s p o m.
Proof.
  intros Hq Hf Ho Hm Hfit Hb. unfold BSIZE in *. change (Z.of_nat 512) with 512 in *. pose proof (Z.mod_pos_bound o 512 ltac:(lia)).
  assert (0 <= o / 512) by (apply Z.div_pos; lia).
  destruct (fo_block _ _ _ Hf (o / 512)) as [Hr _]; [lia|].
  rewrite slice_fmap.
  - unfold fbytes. apply list_fmap_ext. intros k x Hx. apply lookup_seq in Hx as [-> Hk]. cbn [plus].
    unfold fbyte, BSIZE. change (Z.of_nat 512) with 512.
    assert ((o + Z.of_nat k) / 512 = o / 512) as -> by (Z.div_mod_to_equations; lia).
    assert ((o + Z.of_nat k) mod 512 = o mod 512 + Z.of_nat k) as -> by (Z.div_mod_to_equations; lia). f_equal. lia.
  - unfold fview. rewrite length_view by (apply (qf_idle _ _ Hq) || lia). unfold BSIZE. lia.
Qed.

Lemma readi_loop_spec fuel : ∀ s L i nb tot off n dst,
  quiet_fs s L → file_ok s (icache s i) nb → 0 <= tot <= n → 0 <= off → off + (n - tot) <= Z.of_nat BSIZE * nb →
  n - tot <= Z.of_nat fuel →
  ∃ s', readi_loop fuel i tot off n dst s = Done (dst ++ fbytes s (icache s i) off (n - tot)) s' ∧
    quiet_fs s' L ∧ same_fs s s'.
Proof.
  induction fuel as [|fuel IH]; intros s L i nb tot off n dst Hq Hf Ht Ho Hn Hfu; cbn [readi_loop];
    destruct (Z.ltb_spec tot n) as [Hlt|Hge]; try lia.
  { exists s. replace (n - tot) with 0 by lia. cbn. rewrite app_nil_r. split_and!; [done..|apply same_fs_refl]. }
  2: { exists s. replace (n - tot) with 0 by lia. cbn. rewrite app_nil_r. split_and!; [done..|apply same_fs_refl]. }
  set (m := MAXM n tot off). unfold BSIZE in *. change (Z.of_nat 512) with 512 in *.
  pose proof (Z.mod_pos_bound off 512 ltac:(lia)) as Hmod.
  assert (0 < m ∧ m <= n - tot ∧ off mod 512 + m <= 512) as (Hm & Hmn & Hfit) by (unfold m, MAXM, BSIZE; lia).
  assert (0 <= off / 512 < nb) as Hbn by (split; [apply Z.div_pos; lia|apply Z.div_lt_upper_bound; lia]).
  destruct (bmap_mapped s L i nb (off / 512)) as (s1 & E1 & Hq1 & Hs1); try done.
  rewrite (bind_Done _ _ _ _ _ E1). unfold inode_at. mgo.
  rewrite (same_icache _ _ Hs1), (fo_dev _ _ _ Hf).
  destruct (fo_block _ _ _ Hf (off / 512) Hbn) as [Hr _].
  destruct (fs_read_block s1 L (fblock s (icache s i) (off / 512)) Hq1) as (k & s2 & s3 & E2 & E3 & Ed & E4 & _ & Hq3 & Hs3);
    [rewrite (same_size _ _ Hs1); lia|].
  rewrite (bind_Done _ _ _ _ _ E2), (bind_Done _ _ _ _ _ E3), (bind_Done _ _ _ _ _ E4), Ed.
  assert (same_fs s s3) as Hs by (by etrans).
  assert (icache s3 = icache s) as Hic by (by apply same_icache).
  destruct (IH s3 L i nb (tot + m) (off + m) n (dst ++ slice (fview s1 (fblock s (icache s i) (off / 512))) (Z.to_nat (off mod 512)) (Z.to_nat m)))
    as (s4 & E & Hq4 & Hs4); try done; try lia; [rewrite Hic; by eapply file_ok_same|].
  exists s4. split_and!; [|done|by etrans]. rewrite E. f_equal.
  rewrite <- app_assoc. f_equal. rewrite (same_view _ _ _ Hs1).
  pose proof (fbytes_block s (icache s i) off m L nb) as Hfb. unfold BSIZE in Hfb. change (Z.of_nat 512) with 512 in Hfb.
  rewrite Hfb by (done || lia). rewrite Hic. replace (n - tot) with (m + (n - (tot + m))) by lia.
  rewrite fbytes_app by lia. f_equal.
  unfold fbytes. apply list_fmap_ext. intros j x _. unfold fbyte. rewrite (fblock_same _ _ _ _ Hs), (same_view _ _ _ Hs). done.
Qed.

(** How much of a request of [n] bytes at [off] lies inside the file. *)
Definition read_len (size off n : Z) : Z := if size <? off + n then size - off else n.

Lemma readi_spec s L i nb off n :
  let p := icache s i in
  quiet_fs s L → file_ok s p nb → i_type p ≠ T_DEV → 0 <= i_size p <= Z.of_nat BSIZE * nb →
  0 <= off → 0 <= n → off + n < 2 ^ 31 →
  ∃ s', readi i off n s =
      Done (if i_size p <? off then (-1, []) else (read_len (i_size p) off n, fbytes s p off (read_len (i_size p) off n))) s' ∧
    quiet_fs s' L ∧ same_fs s s'.
Proof.
  intros p Hq Hf Hty Hsz Ho Hn Hmax. unfold readi, inode_at. mgo. mgo. fold p.
  rewrite (proj2 (Z.eqb_neq _ _) Hty). rewrite u32_id by (unfold is_u32; lia).
  rewrite (proj2 (Z.ltb_ge (off + n) off)) by lia. rewrite orb_false_r.
  destruct (Z.ltb_spec (i_size p) off) as [Hlt|Hge]; [exists s; split_and!; [done..|apply same_fs_refl]|].
  fold (read_len (i_size p) off n). set (n' := read_len _ _ _).
  assert (0 <= n' ∧ off + n' <= i_size p ∧ n' < 2 ^ 31) as (H1 & H2 & H3).
  { unfold n', read_len. destruct (Z.ltb_spec (i_size p) (off + n)); lia. }
  destruct (readi_loop_spec (Z.to_nat n') s L i nb 0 off n' []) as (s' & E & Hq' & Hs'); try done; try lia.
  rewrite (bind_Done _ _ _ _ _ E). exists s'. split_and!; [|done..].
  rewrite Z.sub_0_r, s32_id by (unfold is_s32; lia). done.
Qed.

(** C8.  [readi] returns the file's bytes: for a file whose blocks are
    allocated, a read of [n] bytes at [off] returns the bytes from [off] on, as
    many as were asked for or as the file has, through direct and indirect
    blocks alike, and leaves the file system as it was; beyond the end of the
    file it returns -1. *)
Theorem readi_correct s L i nb off n :
  let p := icache s i in
  quiet_fs s L → file_ok s p nb → i_type p ≠ T_DEV → 0 <= i_size p <= Z.of_nat BSIZE * nb →
  0 <= off → 0 <= n → off + n < 2 ^ 31 →
  ∃ s', readi i off n s =
      Done (if i_size p <? off then (-1, []) else (read_len (i_size p) off n, fbytes s p off (read_len (i_size p) off n))) s' ∧
    quiet_fs s' L ∧ same_fs s s'.
Proof. exact (readi_spec s L i nb off n). Qed.

(** ** Inside a transaction *)

(** A system call is between [begin_op] and [end_op], the log holds the blocks
    [bs], and [k] more blocks fit. *)
Record in_tx (s : fs) (bs : list Z) (k : Z) : Prop := {
  tx_idle : idle (fio s);
  tx_log : log_ok (flog s) bs;
  tx_out : 1 <= outstanding (lg (flog s));
  tx_room : Z.of_nat (length bs) + k <= Z.min (Z.of_nat LOGSIZE) (size (lg (flog s)) - 1);
}.

Lemma in_tx_quiet s bs k : in_tx s bs k → 1 <= k → quiet_fs s bs.
Proof.
  intros [Hi Hl _ Hr] Hk. split; [done|intros b; apply (lo_pins _ _ Hl)|].
  unfold LOGSIZE, NBUF in *. lia.
Qed.

Lemma in_tx_same s s' bs k : same_fs s s' → idle (fio s') → in_tx s bs k → in_tx s' bs k.
Proof.
  intros [Ho El U] Hi' [Hi [C G T H P] Hout Hr]. unfold fio in *. rewrite <- El in *. rewrite <- (un_size _ _ U) in *.
  split; try done. split; try done; [apply Hi'|]. intros b. by rewrite (un_pinned _ _ U).
Qed.

(** [s'] is [s] after an update of the one block [b] under the log. *)
Record updated (s s' : fs) (b : Z) (f : list Z → list Z) : Prop := {
  up_only : only_log s s';
  up_lg : same_log (lg (flog s)) (lg (flog s'));
  up_size : disksize (fio s') = disksize (fio s);
  up_view : ∀ b', fview s' b' = if decide (b' = b) then f (fview s b) else fview s b';
}.

(** Read a block, change it, log it, release it. *)
Lemma fs_update s bs k b f :
  in_tx s bs k → 1 <= k → 0 <= b < disksize (fio s) → ¬ in_log (lg (flog s)) b →
  (∀ x, length x = BSIZE → length (f x) = BSIZE) →
  ∃ i s1 s2 s3 s', bc_ (bread 1 b) s = Done i s1 ∧ bc_ (buf_at i) s1 = Done (bufs (fio s1) i) s1 ∧
    data (bufs (fio s1) i) = fview s b ∧ bc_ (upd_data i f) s1 = Done tt s2 ∧
    lg_ (log_write i) s2 = Done tt s3 ∧ bc_ (brelse i) s3 = Done tt s' ∧
    in_tx s' (record b bs) (k - 1) ∧ updated s s' b f.
Proof.
  intros Ht Hk Hb Hl Hf. pose proof (in_tx_quiet _ _ _ Ht Hk) as Hq. destruct Ht as [Hi Ho Hout Hr].
  destruct (fs_read_block s bs b Hq Hb) as (i & s1 & _ & E1 & E2 & Ed & _).
  destruct (logged_update_spec (flog s) bs b f) as (l' & E & I' & L' & S' & _ & Z' & _ & V'); try done; [unfold LOGSIZE in *; lia..|].
  unfold logged_update in E. minv E. minv E. minv E.
  assert (bc_ (bread 1 b) s = Done r (set_flog s0 s)) as E1' by (unfold bc_, lg_, lift; by rewrite E0).
  rewrite E1' in E1. injection E1 as <- <-.
  exists r, (set_flog s0 s), (set_flog s2 s), (set_flog s3 s), (set_flog l' s).
  destruct r0, r1. split_and!; try done.
  - unfold bc_, lg_, io_, lift in *. cbn in E3 |- *. by injection E3 as <-.
  - unfold lg_, lift. cbn. by rewrite E4.
  - unfold bc_, lg_, lift. cbn. by rewrite E.
  - pose proof (length_record b bs). split; cbn [flog set_flog fio]; try done; rewrite S'; cbn [outstanding size set_lh] in *; [done|lia].
Qed.

(** ** Writing *)

Lemma updated_data s s' b f b' : updated s s' b f → data_block s b' → data_block s' b'.
Proof.
  intros [_ El Es _]. unfold data_block, in_log. rewrite Es, El. done.
Qed.

(** Updating a file's data block leaves its block addresses alone. *)
Lemma fblock_updated s s' p nb bn f a :
  file_ok s p nb → 0 <= bn < nb → updated s s' (fblock s p bn) f → 0 <= a < nb → fblock s' p a = fblock s p a.
Proof.
  intros Hf Hb Hu Ha. unfold fblock at 1 2. destruct (Z.ltb_spec a (Z.of_nat NDIRECT)); [done|].
  rewrite (up_view _ _ _ _ Hu), decide_False; [done|].
  apply not_eq_sym, (fo_noind _ _ _ Hf); lia.
Qed.

Lemma file_ok_updated s s' p nb bn f :
  file_ok s p nb → 0 <= bn < nb → updated s s' (fblock s p bn) f → file_ok s' p nb.
Proof.
  intros Hf Hb Hu. assert (∀ a, 0 <= a < nb → fblock s' p a = fblock s p a) as E by eauto using fblock_updated.
  split; try apply Hf.
  - intros a Ha. rewrite E by done. eapply updated_data; [done|]. by apply (fo_block _ _ _ Hf).
  - intros H. eapply updated_data; [done|]. by apply (fo_ind _ _ _ Hf).
  - intros a b Ha Hb'. rewrite !E by done. by apply (fo_inj _ _ _ Hf).
  - intros a Ha Hn. rewrite E by done. by apply (fo_noind _ _ _ Hf).
Qed.

Lemma splice_lookup {A} `{Inhabited A} (d l : list A) i k : (i + length l <= length d)%nat →
  splice d i l !!! k = if decide (i <= k < i + length l)%nat then l !!! (k - i)%nat else d !!! k.
Proof.
  intros Hl. unfold splice. destruct (decide _) as [Hk|Hk].
  - rewrite lookup_total_app_r by (rewrite length_take; lia). rewrite length_take, lookup_total_app_l by lia. f_equal. lia.
  - destruct (decide (k < i)%nat).
    + rewrite lookup_total_app_l by (rewrite length_take; lia). by rewrite lookup_total_take_lt.
    + rewrite lookup_total_app_r by (rewrite length_take; lia). rewrite length_take, lookup_total_app_r by lia.
      rewrite lookup_total_drop. f_equal. lia.
Qed.

(** What a write of [n] bytes of [src], from [tot] on, at offset [off] makes of
    a file whose [nb] blocks hold [old]. *)
Definition overwritten (src : list Z) (tot off n : Z) (old : Z → Z) (o : Z) : Z :=
  if decide (off <= o < off + n) then src !!! Z.to_nat (tot + (o - off)) else old o.

(** One round of the loop overwrites the piece of the file in its block. *)
Lemma fbyte_updated s s' p nb off m src tot L :
  let f := λ d, splice d (Z.to_nat (off mod Z.of_nat BSIZE)) (slice src (Z.to_nat tot) (Z.to_nat m)) in
  quiet_fs s L → file_ok s p nb → 0 <= off → 0 < m → 0 <= tot → tot + m <= Z.of_nat (length src) →
  off mod Z.of_nat BSIZE + m <= Z.of_nat BSIZE → off / Z.of_nat BSIZE < nb →
  updated s s' (fblock s p (off / Z.of_nat BSIZE)) f →
  ∀ o, 0 <= o < Z.of_nat BSIZE * nb → fbyte s' p o = overwritten src tot off m (fbyte s p) o.
Proof.
  intros f Hq Hf Ho Hm Ht Hs Hfit Hb Hu o Ho'. unfold BSIZE in *. change (Z.of_nat 512) with 512 in *.
  assert (0 <= off / 512) by (apply Z.div_pos; lia).
  assert (0 <= o / 512 < nb) by (split; [apply Z.div_pos; lia|apply Z.div_lt_upper_bound; lia]).
  pose proof (Z.mod_pos_bound off 512 ltac:(lia)). pose proof (Z.mod_pos_bound o 512 ltac:(lia)).
  unfold fbyte, overwritten, BSIZE. change (Z.of_nat 512) with 512.
  rewrite (fblock_updated _ _ _ _ _ _ _ Hf (conj H Hb) Hu) by done. rewrite (up_view _ _ _ _ Hu).
  assert (length (slice src (Z.to_nat tot) (Z.to_nat m)) = Z.to_nat m) as Hls
    by (unfold slice; rewrite length_take, length_drop; lia).
  destruct (decide (_ = _)) as [E|Hne].
  2: { rewrite decide_False; [done|]. intros [H3 H4]. apply Hne. f_equal. Z.div_mod_to_equations. lia. }
  apply (fo_inj _ _ _ Hf) in E; [|done..]. destruct (fo_block _ _ _ Hf (off / 512)) as [Hr _]; [done|].
  assert (length (fview s (fblock s p (off / 512))) = 512%nat) as Hlv
    by (apply length_view; [apply (qf_idle _ _ Hq)|lia]).
  unfold f. rewrite splice_lookup by (rewrite ?Hls, Hlv; lia). rewrite Hls.
  destruct (decide _) as [Hin|Hin], (decide (off <= o < off + m)) as [Hin'|Hin'].
  - rewrite slice_fmap by lia. rewrite list_lookup_total_alt, list_lookup_fmap, lookup_seq_lt by lia. cbn.
    f_equal. Z.div_mod_to_equations. lia.
  - exfalso. apply Hin'. Z.div_mod_to_equations. lia.
  - exfalso. apply Hin. Z.div_mod_to_equations. lia.
  - by rewrite E.
Qed.

(** The blocks that [n] bytes at [off] touch. *)
Definition spanned (off n : Z) : Z :=
  if n =? 0 then 0 else (off mod Z.of_nat BSIZE + n + Z.of_nat BSIZE - 1) / Z.of_nat BSIZE.

Lemma spanned_step off n : 0 <= off → 0 < n →
  spanned (off + MAXM n 0 off) (n - MAXM n 0 off) = spanned off n - 1.
Proof.
  intros Ho Hn. unfold spanned, MAXM, BSIZE. change (Z.of_nat 512) with 512.
  rewrite (proj2 (Z.eqb_neq n 0)) by lia. rewrite Z.sub_0_r. pose proof (Z.mod_pos_bound off 512 ltac:(lia)).
  destruct (Z.min_spec n (512 - off mod 512)) as [[Hl ->]|[Hl ->]].
  - rewrite Z.sub_diag. cbn. Z.div_mod_to_equations. lia.
  - destruct (Z.eqb_spec (n - (512 - off mod 512)) 0); Z.div_mod_to_equations; lia.
Qed.

Lemma spanned_pos off n : 0 <= off → 0 < n → 1 <= spanned off n.
Proof.
  intros Ho Hn. unfold spanned, BSIZE. change (Z.of_nat 512) with 512.
  rewrite (proj2 (Z.eqb_neq n 0)) by lia. Z.div_mod_to_equations. lia.
Qed.

(** What a write inside a file does: the file holds the new bytes and no block
    outside the file changed. *)
Record wrote_file (s s' : fs) (p : inode) (nb : Z) (src : list Z) (tot off n : Z) : Prop := {
  wf_only : only_log s s';
  wf_size : disksize (fio s') = disksize (fio s);
  wf_block : ∀ a, 0 <= a < nb → fblock s' p a = fblock s p a;
  wf_byte : ∀ o, 0 <= o < Z.of_nat BSIZE * nb → fbyte s' p o = overwritten src tot off n (fbyte s p) o;
  wf_other : ∀ b, (∀ a, 0 <= a < nb → b ≠ fblock s p a) → fview s' b = fview s b;
}.

Lemma wrote_file_nil s p nb src tot off : wrote_file s s p nb src tot off 0.
Proof.
  split; try done. intros o _. unfold overwritten. rewrite decide_False; [done|lia].
Qed.

Lemma wrote_file_step s s1 s2 p nb src tot off m n :
  0 <= m <= n → wrote_file s s1 p nb src tot off m → wrote_file s1 s2 p nb src (tot + m) (off + m) (n - m) →
  wrote_file s s2 p nb src tot off n.
Proof.
  intros Hm [A1 A2 A3 A4 A5] [B1 B2 B3 B4 B5]. split.
  - by etrans.
  - congruence.
  - intros a Ha. rewrite B3, A3; done.
  - intros o Ho. rewrite B4 by done. unfold overwritten in *. specialize (A4 o Ho). repeat case_decide; try lia; try done.
    f_equal. lia.
  - intros b Hb. rewrite B5, A5; [done..|]. intros a Ha. rewrite A3; auto.
Qed.

Lemma wrote_file_same s s1 s2 p nb src tot off n :
  same_fs s s1 → wrote_file s1 s2 p nb src tot off n → wrote_file s s2 p nb src tot off n.
Proof.
  intros H [B1 B2 B3 B4 B5].
  assert (∀ a, fblock s1 p a = fblock s p a) as E by (intros; by apply fblock_same).
  split.
  - etrans; [apply H|done].
  - rewrite B2. apply same_size, H.
  - intros a Ha. rewrite B3; auto.
  - intros o Ho. rewrite B4 by done. unfold overwritten. case_decide; [done|]. unfold fbyte. by rewrite E, (same_view _ _ _ H).
  - intros b Hb. rewrite B5; [apply same_view, H|]. intros a Ha. rewrite E. auto.
Qed.

Lemma MAXM_bounds n tot off : 0 <= off → tot < n →
  MAXM n tot off = MAXM (n - tot) 0 off ∧ 0 < MAXM n tot off ∧ MAXM n tot off <= n - tot ∧
  off mod Z.of_nat BSIZE + MAXM n tot off <= Z.of_nat BSIZE.
Proof.
  intros Ho Hn. unfold MAXM, BSIZE. change (Z.of_nat 512) with 512.
  pose proof (Z.mod_pos_bound off 512 ltac:(lia)). rewrite Z.sub_0_r. lia.
Qed.

(** One round of the loop. *)
Lemma writei_round s bs k i nb tot off n src (K : M fs Z) :
  let m := MAXM n tot off in
  in_tx s bs k → 1 <= k → file_ok s (icache s i) nb → 0 <= tot < n → 0 <= off → off + (n - tot) <= Z.of_nat BSIZE * nb →
  n = Z.of_nat (length src) →
  ∃ s' bs', (addr ← bmap i (off / Z.of_nat BSIZE);
      p ← inode_at i;
      bp ← bc_ (bread (i_dev p) addr);
      bc_ (upd_data bp (λ d, splice d (Z.to_nat (off mod Z.of_nat BSIZE)) (slice src (Z.to_nat tot) (Z.to_nat m))));;
      lg_ (log_write bp);;
      bc_ (brelse bp);;
      K) s = K s' ∧
    icache s' = icache s ∧ in_tx s' bs' (k - 1) ∧ file_ok s' (icache s i) nb ∧
    wrote_file s s' (icache s i) nb src tot off m.
Proof.
  intros m Htx Hk Hf Ht Ho Hn Hlen. destruct (MAXM_bounds n tot off) as (_ & Hm & Hmn & Hfit); [lia..|]. fold m in Hm, Hmn, Hfit.
  assert (0 <= off / Z.of_nat BSIZE < nb) as Hbn
    by (unfold BSIZE in *; split; [apply Z.div_pos; lia|apply Z.div_lt_upper_bound; lia]).
  destruct (bmap_mapped s bs i nb (off / Z.of_nat BSIZE)) as (s1 & E1 & Hq1 & Hs1); [eapply in_tx_quiet; [done|lia]|done..|].
  rewrite (bind_Done _ _ _ _ _ E1). unfold inode_at. mgo. rewrite (same_icache _ _ Hs1), (fo_dev _ _ _ Hf).
  pose proof (file_ok_same _ _ _ _ Hs1 Hf) as Hf1. pose proof (in_tx_same _ _ _ _ Hs1 (qf_idle _ _ Hq1) Htx) as Htx1.
  destruct (fo_block _ _ _ Hf1 _ Hbn) as [Hr Hnl]. rewrite <- (fblock_same _ _ _ _ Hs1).
  set (f := λ d : list Z, splice d (Z.to_nat (off mod Z.of_nat BSIZE)) (slice src (Z.to_nat tot) (Z.to_nat m))).
  destruct (fs_update s1 bs k (fblock s1 (icache s i) (off / Z.of_nat BSIZE)) f) as (bp & s2 & s3 & s4 & s5 & E2 & _ & _ & E3 & E4 & E5 & Htx5 & Hu);
    [done|lia|lia|done|..].
  { intros x Hx. unfold f. rewrite length_splice; [done|]. unfold slice. rewrite length_take, length_drop, Hx.
    pose proof (Z.mod_pos_bound off (Z.of_nat BSIZE) ltac:(unfold BSIZE; lia)). lia. }
  rewrite (bind_Done _ _ _ _ _ E2), (bind_Done _ _ _ _ _ E3), (bind_Done _ _ _ _ _ E4), (bind_Done _ _ _ _ _ E5).
  exists s5. eexists. split_and!; [done|..|done|by eapply file_ok_updated|eapply wrote_file_same; [done|]].
  - rewrite (up_only _ _ _ _ Hu). cbn. by apply same_icache.
  - split; try apply Hu.
    + by eauto using fblock_updated.
    + eapply fbyte_updated; try done; lia.
    + intros b Hb. rewrite (up_view _ _ _ _ Hu), decide_False; [done|]. auto.
Qed.

Lemma writei_loop_spec fuel : ∀ s bs k i nb tot off n src,
  in_tx s bs k → file_ok s (icache s i) nb → 0 <= tot <= n → 0 <= off → off + (n - tot) <= Z.of_nat BSIZE * nb →
  n - tot <= Z.of_nat fuel → n = Z.of_nat (length src) → spanned off (n - tot) <= k →
  ∃ s' bs', writei_loop fuel i tot off n src s = Done (off + (n - tot)) s' ∧
    in_tx s' bs' (k - spanned off (n - tot)) ∧ wrote_file s s' (icache s i) nb src tot off (n - tot).
Proof.
  assert (∀ s bs k i nb tot off n src, in_tx s bs k → 0 <= tot <= n → ¬ tot < n →
    ∃ s' bs', (mret off : M fs Z) s = Done (off + (n - tot)) s' ∧
      in_tx s' bs' (k - spanned off (n - tot)) ∧ wrote_file s s' (icache s i) nb src tot off (n - tot)) as Hend.
  { intros s bs k i nb tot off n src Htx Ht Hge. exists s, bs. replace (n - tot) with 0 by lia.
    change (spanned off 0) with 0. rewrite Z.add_0_r, Z.sub_0_r. split_and!; [done..|apply wrote_file_nil]. }
  induction fuel as [|fuel IH]; intros s bs k i nb tot off n src Htx Hf Ht Ho Hn Hfu Hlen Hk; cbn [writei_loop];
    destruct (Z.ltb_spec tot n) as [Hlt|Hge]; [lia|eapply Hend; [done..|lia]| |eapply Hend; [done..|lia]].
  destruct (MAXM_bounds n tot off) as (Em & Hm & Hmn & Hfit); [done..|].
  pose proof (spanned_pos off (n - tot) Ho ltac:(lia)) as Hsp. pose proof (spanned_step off (n - tot) Ho ltac:(lia)) as Hst.
  rewrite <- Em in Hst. cbv zeta.
  destruct (writei_round s bs k i nb tot off n src (writei_loop fuel i (tot + MAXM n tot off) (off + MAXM n tot off) n src))
    as (s5 & bs5 & -> & Hic & Htx5 & Hf5 & Hw); try done; try lia.
  set (m := MAXM n tot off) in *.
  replace (n - tot - m) with (n - (tot + m)) in Hst by lia.
  destruct (IH s5 bs5 (k - 1) i nb (tot + m) (off + m) n src) as (s' & bs' & -> & Htx' & Hw'); try done; try lia; [by rewrite Hic|].
  rewrite Hic in Hw'. exists s', bs'. split_and!.
  - f_equal. lia.
  - rewrite Hst in Htx'. by replace (k - spanned off (n - tot)) with (k - 1 - (spanned off (n - tot) - 1)) by lia.
  - eapply wrote_file_same; [reflexivity|]. eapply wrote_file_step with (m := m); [lia|done|]. by replace (n - tot - m) with (n - (tot + m)) by lia.
Qed.

(** C4.  [writei] inside a file: a write of [src] at an offset from which it
    fits in the file returns the number of bytes, in a transaction with room
    for the blocks it spans, and afterwards the file's bytes are the old ones
    with [src] in place of the bytes from [off] on; no block outside the file
    changes, and the inode is as it was. *)
Theorem writei_correct s bs i nb off src :
  let p := icache s i in
  let n := Z.of_nat (length src) in
  in_tx s bs (spanned off n) → file_ok s p nb → i_type p ≠ T_DEV → i_size p <= Z.of_nat BSIZE * nb →
  0 <= off → off + n <= i_size p →
  ∃ s' bs', writei i src off s = Done n s' ∧ in_tx s' bs' 0 ∧ icache s' = icache s ∧
    (∀ o, 0 <= o < i_size p → fbyte s' p o = overwritten src 0 off n (fbyte s p) o) ∧
    (∀ b, (∀ a, 0 <= a < nb → b ≠ fblock s p a) → fview s' b = fview s b).
Proof.
  intros p n Htx Hf Hty Hsz Ho Hn. pose proof (fo_max _ _ _ Hf) as Hmax. unfold MAXFILE, NDIRECT, NINDIRECT, BSIZE in Hmax.
  assert (0 <= off + n < 2 ^ 31) by (unfold BSIZE, n in *; lia).
  unfold writei, inode_at. mgo. mgo. fold p n. rewrite (proj2 (Z.eqb_neq _ _) Hty), u32_id by (unfold is_u32; lia).
  rewrite (proj2 (Z.ltb_ge (i_size p) off)), (proj2 (Z.ltb_ge (off + n) off)) by lia. cbn [orb].
  rewrite (proj2 (Z.ltb_ge _ (off + n))) by (unfold MAXFILE, NDIRECT, NINDIRECT, BSIZE in *; lia).
  destruct (writei_loop_spec (Z.to_nat n) s bs (spanned off n) i nb 0 off n src) as (s' & bs' & E & Htx' & [W1 W2 W3 W4 W5]);
    rewrite ?Z.sub_0_r; try done; try lia.
  rewrite Z.sub_0_r in *. rewrite Z.sub_diag in Htx'.
  exists s', bs'. assert (icache s' = icache s) as Hic by (by rewrite W1). split_and!; try done; [|intros o Ho'; apply W4; lia].
  rewrite (bind_Done _ _ _ _ _ E). mgo. rewrite Hic. fold p.
  rewrite (proj2 (Z.ltb_ge (i_size p) _)) by lia. rewrite andb_false_r. done.
Qed.

(** ** The free bitmap *)

(** Is block [b] marked in use? *)
Definition used (s : fs) (b : Z) : bool :=
  Z.testbit (fview s (BBLOCK b (sb s)) !!! Z.to_nat (b mod BPB / 8)) (b mod 8).

Lemma bitmask_clear x bi : (Z.land x (bitmask bi) =? 0) = negb (Z.testbit x (bi mod 8)).
Proof.
  unfold bitmask. pose proof (Z.mod_pos_bound bi 8 ltac:(lia)). rewrite Z.shiftl_1_l.
  destruct (Z.testbit x (bi mod 8)) eqn:E; cbn.
  - apply Z.eqb_neq. intros H0. assert (Z.testbit (Z.land x (2 ^ (bi mod 8))) (bi mod 8) = true) as H1
      by (rewrite Z.land_spec, E, Z.pow2_bits_true; lia). by rewrite H0, Z.bits_0 in H1.
  - apply Z.eqb_eq, Z.bits_inj'. intros i Hi. rewrite Z.land_spec, Z.bits_0, Z.pow2_bits_eqb by lia.
    destruct (Z.eqb_spec (bi mod 8) i) as [<-|]; [by rewrite E|by rewrite andb_false_r].
Qed.

Definition bit_in (d : list Z) (bi : Z) : bool := Z.testbit (d !!! Z.to_nat (bi / 8)) (bi mod 8).

(** The scan of one bitmap block finds the first clear bit. *)
Lemma find_clear_spec k : ∀ d b bi size,
  match find_clear k d b bi size with
  | Some x => bi <= x < bi + Z.of_nat k ∧ b + x < size ∧ bit_in d x = false ∧ ∀ y, bi <= y < x → bit_in d y = true
  | None => ∀ y, bi <= y < bi + Z.of_nat k → b + y < size → bit_in d y = true
  end.
Proof.
  induction k as [|k IH]; intros d b bi size; cbn [find_clear]; [lia|].
  destruct (Z.ltb_spec (b + bi) size) as [Hlt|Hge]; [|lia].
  rewrite bitmask_clear. fold (bit_in d bi). destruct (bit_in d bi) eqn:E; cbn [negb].
  - specialize (IH d b (bi + 1) size). destruct (find_clear k d b (bi + 1) size) as [x|].
    + destruct IH as (H1 & H2 & H3 & H4). split_and!; try done; try lia.
      intros y Hy. destruct (decide (y = bi)) as [->|]; [done|]. apply H4. lia.
    + intros y Hy Hs. destruct (decide (y = bi)) as [->|]; [done|]. apply IH; lia.
  - split_and!; try done; lia.
Qed.

Lemma group_div g bi : 0 <= bi < BPB →
  (g * BPB + bi) / BPB = g ∧ (g * BPB + bi) mod BPB = bi ∧ (g * BPB + bi) mod 8 = bi mod 8.
Proof. intros Hb. unfold BPB in *. Z.div_mod_to_equations. lia. Qed.

Lemma used_bit_in s g bi : 0 <= bi < BPB →
  used s (g * BPB + bi) = bit_in (fview s (BBLOCK (g * BPB) (sb s))) bi.
Proof.
  intros Hb. unfold used, bit_in, BBLOCK. destruct (group_div g bi Hb) as (-> & -> & ->).
  by rewrite Z.div_mul by done.
Qed.

Lemma BBLOCK_inj q a b :
  0 <= a < 2 ^ 32 → 0 <= b < 2 ^ 32 → BBLOCK a q = BBLOCK b q → a / BPB = b / BPB.
Proof.
  intros Ha Hb. unfold BBLOCK, u32, BPB in *.
  assert (0 <= a / 4096 < 2 ^ 20) by (split; [apply Z.div_pos; lia|apply Z.div_lt_upper_bound; lia]).
  assert (0 <= b / 4096 < 2 ^ 20) by (split; [apply Z.div_pos; lia|apply Z.div_lt_upper_bound; lia]).
  generalize dependent (a / 4096). generalize dependent (b / 4096). intros. Z.div_mod_to_equations. lia.
Qed.

(** Marking a bit sets that bit alone. *)
Definition mark (bi : Z) (d : list Z) : list Z :=
  <[Z.to_nat (bi / 8) := Z.lor (d !!! Z.to_nat (bi / 8)) (bitmask bi)]> d.

Lemma bit_in_mark d x y : length d = BSIZE → 0 <= x < BPB → 0 <= y < BPB →
  bit_in (mark x d) y = bool_decide (y = x) || bit_in d y.
Proof.
  intros Hl Hx Hy. unfold bit_in, mark. unfold BPB, BSIZE in *.
  assert (0 <= x / 8 < 512 ∧ 0 <= y / 8 < 512 ∧ 0 <= x mod 8 < 8 ∧ 0 <= y mod 8 < 8) as (? & ? & ? & ?)
    by (Z.div_mod_to_equations; lia).
  destruct (decide (x / 8 = y / 8)) as [E|Hne].
  - rewrite E, list_lookup_total_insert_eq by lia. rewrite Z.lor_spec. unfold bitmask.
    rewrite Z.shiftl_1_l, Z.pow2_bits_eqb by lia. rewrite orb_comm. f_equal.
    case_bool_decide as Hc; [subst; apply Z.eqb_refl|]. apply Z.eqb_neq. intros ?. apply Hc. Z.div_mod_to_equations. lia.
  - rewrite list_lookup_total_insert_ne by lia. rewrite bool_decide_false; [done|]. by intros ->.
Qed.

(** The bitmap lies on the disk outside the log, and every block it calls free
    is a data block that is not part of it. *)
Record bitmap_ok (s : fs) : Prop := {
  bm_block : ∀ b, 0 <= b < sb_size (sb s) → data_block s (BBLOCK b (sb s));
  bm_free : ∀ b, 0 <= b < sb_size (sb s) → used s b = false →
    data_block s b ∧ ∀ b', 0 <= b' < sb_size (sb s) → BBLOCK b' (sb s) ≠ b;
}.

(** ** Allocation *)

(** Block [b] was allocated: its bit is the only one that changed, it is zero,
    and no block but it and its bitmap block changed. *)
Record allocated (s s' : fs) (b : Z) : Prop := {
  al_only : only_log s s';
  al_bits : ∀ b', 0 <= b' < sb_size (sb s) → used s' b' = bool_decide (b' = b) || used s b';
  al_zero : fview s' b = replicate BSIZE 0;
  al_other : ∀ b', b' ≠ b → b' ≠ BBLOCK b (sb s) → fview s' b' = fview s b';
}.

Lemma used_same s s' b : same_fs s s' → used s' b = used s b.
Proof. intros H. unfold used. rewrite (same_view _ _ _ H). destruct H as [-> _ _]. done. Qed.

Lemma bitmap_ok_same s s' : same_fs s s' → bitmap_ok s → bitmap_ok s'.
Proof.
  intros H [H1 H2]. pose proof (sf_only _ _ H) as Eo. assert (sb s' = sb s) as Es by (by rewrite Eo).
  assert (∀ b, data_block s b → data_block s' b) as Hd.
  { intros b. unfold data_block. by rewrite (same_size _ _ H), (sf_lg _ _ H). }
  split; rewrite Es; [auto|]. intros b Hb. rewrite (used_same _ _ _ H). intros Hu. destruct (H2 b Hb Hu). auto.
Qed.

Lemma allocated_same s s1 s2 b : same_fs s s1 → allocated s1 s2 b → allocated s s2 b.
Proof.
  intros H [A1 A2 A3 A4]. pose proof (sf_only _ _ H) as Eo. assert (sb s1 = sb s) as Es by (by rewrite Eo).
  rewrite Es in *. split; [by etrans| |done|].
  - intros b' Hb. by rewrite A2, (used_same _ _ _ H).
  - intros b' H1 H2. rewrite A4 by done. by apply same_view.
Qed.

(** Marking bit [x] of group [g], then zeroing its block. *)
Lemma updated_allocated s s1 s2 g x :
  let b := g * BPB + x in
  idle (fio s) → bitmap_ok s → sb_size (sb s) < 2 ^ 32 → 0 <= x < BPB → 0 <= b < sb_size (sb s) → used s b = false →
  updated s s1 (BBLOCK (g * BPB) (sb s)) (mark x) → updated s1 s2 b (λ _, replicate BSIZE 0) → allocated s s2 b.
Proof.
  intros b [C _] Hbm Hsz Hx Hb Hu U1 U2. destruct (bm_free _ Hbm b Hb Hu) as [Hd Hne].
  assert (BBLOCK (g * BPB) (sb s) = BBLOCK b (sb s)) as EB.
  { unfold BBLOCK, b. destruct (group_div g x Hx) as (-> & _). by rewrite Z.div_mul. }
  assert (sb s2 = sb s) as Esb by (by rewrite (up_only _ _ _ _ U2), (up_only _ _ _ _ U1)).
  split.
  - etrans; [apply U1|apply U2].
  - intros b' Hb'. unfold used at 1. rewrite Esb, (up_view _ _ _ _ U2), decide_False by auto.
    rewrite (up_view _ _ _ _ U1). destruct (decide _) as [E|Hn].
    + rewrite EB in E. apply BBLOCK_inj in E as Eg; [|lia..].
      unfold b in Eg. rewrite (proj1 (group_div g x Hx)) in Eg.
      assert (b' = g * BPB + b' mod BPB ∧ 0 <= b' mod BPB < BPB) as [Eb' Hm] by (unfold BPB in *; Z.div_mod_to_equations; lia).
      pose proof (bit_in_mark (fview s (BBLOCK (g * BPB) (sb s))) x (b' mod BPB)) as Hbit. unfold bit_in at 1 in Hbit.
      replace (b' mod 8) with (b' mod BPB mod 8) by (unfold BPB; Z.div_mod_to_equations; lia).
      rewrite Hbit; [|apply length_view; [done|rewrite EB; destruct (bm_block _ Hbm b Hb); lia]|done..].
      replace (used s b') with (used s (g * BPB + b' mod BPB)) by congruence. rewrite used_bit_in by done. f_equal. apply bool_decide_ext. unfold b. lia.
    + rewrite bool_decide_false by (intros ->; congruence). done.
  - by rewrite (up_view _ _ _ _ U2), decide_True.
  - intros b' H1 H2. rewrite (up_view _ _ _ _ U2), decide_False, (up_view _ _ _ _ U1), decide_False by congruence. done.
Qed.

(** What the search returns from the blocks [lo, hi). *)
Definition searched (s : fs) (bs : list Z) (lo hi : Z) (r : option Z) (s' : fs) : Prop :=
  match r with
  | Some b => lo <= b < hi ∧ used s b = false ∧ (∀ b', lo <= b' < b → used s b' = true) ∧
      allocated s s' b ∧ ∃ bs', in_tx s' bs' 0
  | None => (∀ b', lo <= b' < hi → used s b' = true) ∧ same_fs s s' ∧ in_tx s' bs 2
  end.

Lemma balloc_group_spec s bs g :
  in_tx s bs 2 → bitmap_ok s → sb_size (sb s) < 2 ^ 32 → Z.of_nat g * BPB < sb_size (sb s) →
  ∃ r s', balloc_group (sb s) 1 g s = Done r s' ∧
    searched s bs (Z.of_nat g * BPB) (Z.min (sb_size (sb s)) (Z.of_nat (S g) * BPB)) r s'.
Proof.
  intros Htx Hbm Hsz Hg. unfold balloc_group. set (gz := Z.of_nat g * BPB) in *.
  assert (0 <= gz) by (unfold gz, BPB; lia). destruct (bm_block _ Hbm gz) as [Hr Hnl]; [lia|].
  assert (Z.of_nat (S g) * BPB = gz + BPB) as -> by (unfold gz; lia).
  assert (∀ y, 0 <= y < BPB → used s (gz + y) = bit_in (fview s (BBLOCK gz (sb s))) y) as Hbit by (intros; by apply used_bit_in).
  pose proof (find_clear_spec (Z.to_nat BPB) (fview s (BBLOCK gz (sb s))) gz 0 (sb_size (sb s))) as Hc.
  rewrite Z2Nat.id in Hc by (by unfold BPB).
  destruct (find_clear _ _ _ _ _) as [x|] eqn:Ef.
  - destruct Hc as (Hx & Hs & Hcl & Hfst). rewrite Z.add_0_l in Hx. rewrite <- Hbit in Hcl by done.
    destruct (bm_free _ Hbm (gz + x)) as [[Hr' Hnl'] Hne]; [lia|done|].
    destruct (fs_update s bs 2 (BBLOCK gz (sb s)) (mark x)) as (i & s1 & s2 & s3 & s4 & E1 & E2 & Ed & E3 & E4 & E5 & Htx4 & U4);
      [done|lia|lia|done|intros d Hd; unfold mark; by rewrite length_insert|].
    assert (¬ in_log (lg (flog s4)) (gz + x)) as Hnl4 by (unfold in_log; rewrite (up_lg _ _ _ _ U4); done).
    destruct (fs_update s4 _ 1 (gz + x) (λ _, replicate BSIZE 0) Htx4) as (j & t1 & t2 & t3 & t4 & F1 & _ & _ & F3 & F4 & F5 & Htx' & U');
      [lia|rewrite (up_size _ _ _ _ U4); lia|done|intros; by rewrite length_replicate|].
    exists (Some (gz + x)), t4. split.
    + rewrite (bind_Done _ _ _ _ _ E1), (bind_Done _ _ _ _ _ E2), Ed, Ef.
      cbv zeta. fold (mark x). rewrite (bind_Done _ _ _ _ _ E3), (bind_Done _ _ _ _ _ E4), (bind_Done _ _ _ _ _ E5).
      unfold bzero. erewrite bind_Done; [reflexivity|].
      by rewrite (bind_Done _ _ _ _ _ F1), (bind_Done _ _ _ _ _ F3), (bind_Done _ _ _ _ _ F4).
    + split_and!; [lia..|done| | |by eexists].
      * intros b' Hb'. replace b' with (gz + (b' - gz)) by lia. rewrite Hbit by lia. apply Hfst. lia.
      * eapply updated_allocated; try done; try lia. apply (tx_idle _ _ _ Htx).
  - destruct (fs_read_block s bs (BBLOCK gz (sb s))) as (i & s1 & s2 & E1 & E2 & Ed & E3 & _ & Hq & Hs);
      [by eapply in_tx_quiet|lia|].
    exists None, s2. rewrite (bind_Done _ _ _ _ _ E1), (bind_Done _ _ _ _ _ E2), Ed, Ef, (bind_Done _ _ _ _ _ E3).
    split; [done|]. split_and!; [|done|eapply in_tx_same; [done|apply Hq|done]].
    intros b' Hb'. replace b' with (gz + (b' - gz)) by lia. rewrite Hbit by lia. apply Hc; lia.
Qed.

Lemma balloc_loop s bs k : ∀ g,
  in_tx s bs 2 → bitmap_ok s → sb_size (sb s) < 2 ^ 32 →
  (k ≠ 0%nat → Z.of_nat (g + k - 1) * BPB < sb_size (sb s)) →
  ∃ r s', for_each (seq g k) (balloc_group (sb s) 1) s = Done r s' ∧
    searched s bs (Z.of_nat g * BPB) (Z.min (sb_size (sb s)) (Z.of_nat (g + k) * BPB)) r s'.
Proof.
  revert s. induction k as [|k IH]; intros s g Htx Hbm Hsz Hg; cbn [seq for_each].
  { exists None, s. split; [done|]. rewrite Nat.add_0_r. split_and!; [lia|apply same_fs_refl|done]. }
  destruct (balloc_group_spec s bs g) as (r & s1 & E1 & H1); try done; [unfold BPB in *; lia|].
  rewrite (bind_Done _ _ _ _ _ E1). destruct r as [b|].
  - exists (Some b), s1. split; [done|]. destruct H1 as (Hb & H1). split; [unfold BPB in *; lia|done].
  - destruct H1 as (Hall & Hs1 & Htx1). pose proof (sf_only _ _ Hs1) as Eo. assert (sb s1 = sb s) as Es by (by rewrite Eo).
    destruct (IH s1 (S g)) as (r & s2 & E2 & H2); try done; rewrite ?Es; [by eapply bitmap_ok_same|done|..].
    { intros Hk. replace (S g + k - 1)%nat with (g + S k - 1)%nat by lia. apply Hg. lia. }
    rewrite Es in E2, H2. exists r, s2. split; [done|]. replace (g + S k)%nat with (S g + k)%nat by lia.
    assert (∀ b, Z.of_nat g * BPB <= b < Z.of_nat (S g) * BPB → b < sb_size (sb s) → used s b = true) as Hall'
      by (intros; apply Hall; lia).
    destruct r as [b|]; cbn in H2 |- *.
    + destruct H2 as (Hb & Hu & Hf & Ha & Ht). rewrite (used_same _ _ _ Hs1) in Hu.
      split_and!; try done; [unfold BPB in *; lia..| |by eapply allocated_same].
      intros b' Hb'. destruct (decide (b' < Z.of_nat (S g) * BPB)); [apply Hall'; lia|].
      rewrite <- (used_same _ _ _ Hs1). apply Hf. lia.
    + destruct H2 as (Hf & Hs2 & Ht). split_and!; [|by etrans|done].
      intros b' Hb'. destruct (decide (b' < Z.of_nat (S g) * BPB)); [apply Hall'; lia|].
      rewrite <- (used_same _ _ _ Hs1). apply Hf. lia.
Qed.

(** C21.  [balloc] allocates the first free block: in a transaction with room for
    two blocks, and with a bitmap that marks every metadata block, it returns
    the lowest block whose bit is clear, sets that bit and no other, and leaves
    the block zeroed and all other blocks as they were; when every bit is set it
    panics. *)
Theorem balloc_correct s bs :
  in_tx s bs 2 → bitmap_ok s → 0 <= sb_size (sb s) < 2 ^ 32 →
  (∃ b s' bs', balloc 1 s = Done b s' ∧ 0 <= b < sb_size (sb s) ∧ used s b = false ∧
     (∀ b', 0 <= b' < b → used s b' = true) ∧ allocated s s' b ∧ in_tx s' bs' 0) ∨
  (∀ b, 0 <= b < sb_size (sb s) → used s b = true) ∧ balloc 1 s = Panic "balloc: out of blocks".
Proof.
  intros Htx Hbm Hsz. unfold balloc. mgo. set (k := Z.to_nat ((sb_size (sb s) + BPB - 1) / BPB)).
  assert (sb_size (sb s) <= Z.of_nat k * BPB ∧ (k ≠ 0%nat → Z.of_nat (0 + k - 1) * BPB < sb_size (sb s))) as [Hk1 Hk2].
  { unfold k, BPB in *. Z.div_mod_to_equations. lia. }
  destruct (balloc_loop s bs k 0) as (r & s' & E & H); try done; try lia.
  rewrite (bind_Done _ _ _ _ _ E). cbn [plus] in H. rewrite Z.min_l in H by lia. change (Z.of_nat 0 * BPB) with 0 in H. destruct r as [b|].
  - left. destruct H as (Hb & Hu & Hf & Ha & bs' & Ht). exists b, s', bs'. by split_and!; try apply Hb.
  - right. destruct H as (Hall & _). by split.
Qed.

(** ** A small disk

    Forty blocks: the superblock, the log in blocks 2 to 13, the bitmap in
    block 15 with blocks 0 to 19 in use, and a file in blocks 18 and 19. *)
Definition wit_fsdisk : Z → list Z := λ b,
  if b =? 1 then put32 (put32 (replicate BSIZE 0) 12 12) 16 2
  else if b =? 15 then [255; 255; 15] ++ replicate 509 0
  else replicate BSIZE b.

Definition wit_file : inode := mkInode 1 5 1 I_VALID T_FILE 0 0 1 1000 ([18; 19] ++ replicate 11 0).

Definition wit_fs_on (d : io) : fs :=
  mkFs (mkLst d (set_outstanding 1 wit_log)) (mkSb 40 20 32 12 2 14 15)
    (λ _, wit_file) (λ _, mkDevops None None) wit_cons None false.
Definition wit_fscache : io := dio (boot wit_fsdisk 40).
Definition wit_fs : fs := wit_fs_on wit_fscache.

Lemma wit_fscache_spec : idle wit_fscache ∧ (∀ b, ¬ pinned wit_fscache b) ∧ (∀ b, view wit_fscache b = wit_fsdisk b) ∧ disksize wit_fscache = 40.
Proof.
  destruct (boot_spec wit_fsdisk 40) as (I & P & V & _ & Es & _).
  { intros b _. unfold wit_fsdisk. repeat case_match; rewrite ?length_replicate; done. }
  by split_and!.
Qed.
#[local] Opaque wit_fscache.

Lemma wit_fs_boot : idle (fio wit_fs) ∧ (∀ b, ¬ pinned (fio wit_fs) b) ∧ (∀ b, fview wit_fs b = wit_fsdisk b) ∧ disksize (fio wit_fs) = 40.
Proof. exact wit_fscache_spec. Qed.

Lemma wit_on_tx d k : idle d → (∀ b, ¬ pinned d b) → disksize d = 40 → k <= 11 → in_tx (wit_fs_on d) [] k.
Proof.
  intros I P Es Hk. split; [done| |done|change (0 + k <= 11); lia].
  split; cbn [flog wit_fs_on dio lg]; rewrite ?Es; [apply I|by split|by apply tx_nil|split; cbn; [done|lia]|].
  intros b. split; intros Hb; [destruct (P b Hb)|destruct (not_elem_of_nil _ Hb)].
Qed.

Lemma wit_fs_tx k : k <= 11 → in_tx wit_fs [] k.
Proof. destruct wit_fscache_spec as (I & P & _ & Es). exact (wit_on_tx wit_fscache k I P Es). Qed.

Lemma wit_fs_file : file_ok wit_fs wit_file 2.
Proof.
  destruct wit_fs_boot as (_ & _ & _ & Es).
  assert (∀ bn, 0 <= bn < 2 → fblock wit_fs wit_file bn = 18 + bn) as E.
  { intros bn Hb. assert (bn = 0 ∨ bn = 1) as [-> | ->] by lia; reflexivity. }
  split; [done|unfold MAXFILE, NDIRECT, NINDIRECT; lia|..].
  - intros bn Hb. rewrite E by done. split; [rewrite Es; lia|unfold in_log; cbn; lia].
  - unfold NDIRECT; lia.
  - intros a b Ha Hb. rewrite !E by done. lia.
  - unfold NDIRECT; lia.
Qed.

Lemma readi_correct_witness : ∃ s', readi 0 510 4 wit_fs = Done (4, [18; 18; 19; 19]) s'.
Proof.
  destruct (readi_correct wit_fs [] 0 2 510 4) as (s' & E & _); cbn [icache wit_fs].
  - eapply in_tx_quiet; [apply (wit_fs_tx 1); lia|lia].
  - exact wit_fs_file.
  - done.
  - cbn. unfold BSIZE. lia.
  - lia.
  - lia.
  - lia.
  - exists s'. rewrite E. reflexivity.
Defined.

Lemma writei_correct_witness : ∃ s', writei 0 [1; 2; 3; 4] 510 wit_fs = Done 4 s' ∧ fbyte s' wit_file 511 = 2 ∧ fbyte s' wit_file 514 = 19.
Proof.
  destruct (writei_correct wit_fs [] 0 2 510 [1; 2; 3; 4]) as (s' & bs' & E & _ & _ & Hb & _); cbn [icache wit_fs].
  - apply wit_fs_tx. vm_compute. discriminate.
  - exact wit_fs_file.
  - done.
  - cbn. unfold BSIZE. lia.
  - lia.
  - cbn. lia.
  - exists s'. split; [exact E|]. change (icache wit_fs 0) with wit_file in Hb. change (i_size wit_file) with 1000 in Hb. rewrite !Hb by lia. split; [reflexivity|].
    unfold overwritten. rewrite decide_False by (cbn; lia).
    unfold fbyte. destruct wit_fs_boot as (_ & _ & V & _). rewrite V. reflexivity.
Defined.

Lemma balloc_correct_witness : ∃ s', balloc 1 wit_fs = Done 20 s' ∧ used s' 20 = true ∧ fview s' 20 = replicate BSIZE 0.
Proof.
  destruct wit_fs_boot as (I & P & V & Es).
  assert (∀ b, 0 <= b < 40 → used wit_fs b = bool_decide (b < 20)) as Hu.
  { intros b Hb. unfold used. change (BBLOCK b (sb wit_fs)) with (u32 (b / BPB + 15)).
    rewrite V. assert (b / BPB = 0) as -> by (unfold BPB; Z.div_mod_to_equations; lia).
    assert (b ∈ (Z.of_nat <$> seq 0 40)) as Hin by (apply list_elem_of_fmap; exists (Z.to_nat b); rewrite elem_of_seq; lia).
    revert b Hin Hb. apply (Forall_forall (λ b, 0 <= b < 40 → _)). repeat (constructor; [intros _; reflexivity|]). constructor. }
  destruct (balloc_correct wit_fs []) as [(b & s' & bs' & E & Hb & Hub & Hf & [A1 A2 A3 A4] & _)|[Hall _]].
  - apply wit_fs_tx. lia.
  - assert (∀ b, 0 <= b < 40 → BBLOCK b (sb wit_fs) = 15) as EB.
    { intros b Hb. change (u32 (b / BPB + 15) = 15). assert (b / BPB = 0) as -> by (unfold BPB; Z.div_mod_to_equations; lia). done. }
    split; change (sb_size (sb wit_fs)) with 40.
    + intros b Hb. rewrite EB by done.
      split; [rewrite Es; lia|unfold in_log; cbn; lia].
    + intros b Hb. rewrite Hu by done. intros Hd%bool_decide_eq_false. split; [split; [rewrite Es; lia|unfold in_log; cbn; lia]|].
      intros b' Hb'. rewrite EB by done. lia.
  - cbn. lia.
  - change (sb_size (sb wit_fs)) with 40 in *. rewrite Hu in Hub by done. apply bool_decide_eq_false in Hub.
    assert (b = 20) as ->. { destruct (decide (b = 20)); [done|]. specialize (Hf 20 ltac:(lia)). by rewrite Hu in Hf by lia. }
    exists s'. split_and!; [exact E| |exact A3]. rewrite A2 by lia. reflexivity.
  - exfalso. specialize (Hall 30). rewrite Hu in Hall by lia. by specialize (Hall ltac:(cbn; lia)).
Defined.
