(* ===== verification/Grep.v ===== *)
(** * Searching text (grep.c)

    A C string is the list of its characters without the final NUL; a file is
    the list of its bytes.  The matcher of grep.c is related to the regular
    language of its pattern: [compile] turns a pattern into a regular
    expression and the anchors, [lang] is the language of an expression.  The
    loop of [grep] reads a file through a 1024-byte buffer; a descriptor is the
    list of the chunks that reads return, a file on disk being one chunk. *)

From S2P Require Import Prelude.
#[local] Open Scope Z_scope.

(** ** The matcher *)

(** The loop tries the rest of the pattern, [here], after each run of [c]. *)
Fixpoint matchstar (here : list Z → bool) (c : Z) (text : list Z) : bool :=
  if here text then true else
  match text with
  | [] => false
  | x :: text' => if (x =? c) || (c =? 46) then matchstar here c text' else false
  end.

Fixpoint matchhere (re text : list Z) : bool :=
  match re with
  | [] => true
  | c :: re1 =>
      let rest :=
        if (c =? 36) && bool_decide (re1 = []) then bool_decide (text = []) else
        match text with
        | [] => false
        | x :: text' => if (c =? 46) || (c =? x) then matchhere re1 text' else false
        end in
      match re1 with
      | s :: re2 => if s =? 42 then matchstar (matchhere re2) c text else rest
      | [] => rest
      end
  end.

(** The loop over the starting points. *)
Fixpoint match_any (re text : list Z) : bool :=
  if matchhere re text then true else
  match text with
  | [] => false
  | _ :: text' => match_any re text'
  end.

Definition match_ (re text : list Z) : bool :=
  match re with
  | c :: re1 => if c =? 94 then matchhere re1 text else match_any re text
  | [] => match_any re text
  end.

(** ** Reading and selecting lines *)

Definition GREPBUF : nat := 1024.
Arguments GREPBUF : simpl never.

(** [strchr(p, c)] on a buffer: it stops at a NUL. *)
Fixpoint strchr_at (c : Z) (p : list Z) : option nat :=
  match p with
  | [] => None
  | x :: p' => if x =? 0 then None else if x =? c then Some O else S <$> strchr_at c p'
  end.

(** [while((q = strchr(p, '\n')) != 0)]: what is written and what is left at
    [p]; [None] when [fuel] turns do not suffice. *)
Fixpoint grep_lines (fuel : nat) (re p : list Z) : option (list Z * list Z) :=
  match strchr_at 10 p with
  | None => Some ([], p)
  | Some q =>
      match fuel with
      | O => None
      | S fuel' =>
          let w := if match_ re (take q p) then take (q + 1) p else [] in
          '(out, rest) ← grep_lines fuel' re (drop (q + 1) p);
          Some (w ++ out, rest)
      end
  end.

(** [read(fd, buf, n)] on a descriptor that returns these chunks. *)
Definition read_chunk (n : nat) (ins : list (list Z)) : list Z * list (list Z) :=
  match ins with
  | [] => ([], [])
  | c :: ins' => (take n c, match drop n c with [] => ins' | d => d :: ins' end)
  end.

(** [while((n = read(fd, buf+m, sizeof(buf)-m-1)) > 0)]; [kept] is what the
    first [m] bytes of [buf] hold. *)
Fixpoint grep_loop (fuel : nat) (re kept : list Z) (ins : list (list Z)) : option (list Z) :=
  let '(c, ins') := read_chunk (GREPBUF - length kept - 1) ins in
  match c with
  | [] => Some []
  | _ =>
      match fuel with
      | O => None
      | S fuel' =>
          let b := kept ++ c in
          '(out, rest) ← grep_lines (length b) re b;
          let kept' := if (length rest =? length b)%nat then [] else rest in
          out' ← grep_loop fuel' re kept' ins';
          Some (out ++ out')
      end
  end.

(** Every turn takes at least one byte. *)
Definition grep (re : list Z) (ins : list (list Z)) : option (list Z) :=
  grep_loop (length (concat ins)) re [] ins.

(** ** Regular expressions *)

Inductive regex :=
  | Eps
  | Chr (c : Z)
  | Dot
  | Seq (r s : regex)
  | Star (r : regex).

Inductive lang : regex → list Z → Prop :=
  | lang_eps : lang Eps []
  | lang_chr c : lang (Chr c) [c]
  | lang_dot c : lang Dot [c]
  | lang_seq r s w v : lang r w → lang s v → lang (Seq r s) (w ++ v)
  | lang_star_nil r : lang (Star r) []
  | lang_star_cons r w v : lang r w → lang (Star r) v → lang (Star r) (w ++ v).
#[local] Hint Constructors lang : core.

Definition atom (c : Z) : regex := if c =? 46 then Dot else Chr c.

(** The expression a pattern without [^] stands for, and whether it ends in the
    anchor [$]. *)
Fixpoint compile (re : list Z) : regex * bool :=
  match re with
  | [] => (Eps, false)
  | c :: re1 =>
      let rest := if (c =? 36) && bool_decide (re1 = []) then (Eps, true)
                  else let '(r, e) := compile re1 in (Seq (atom c) r, e) in
      match re1 with
      | s :: re2 => if s =? 42 then let '(r, e) := compile re2 in (Seq (Star (atom c)) r, e) else rest
      | [] => rest
      end
  end.

Definition here_spec (re text : list Z) : Prop :=
  ∃ w v, text = w ++ v ∧ lang (compile re).1 w ∧ ((compile re).2 = true → v = []).

Lemma lang_atom c x : (x =? c) || (c =? 46) = true ↔ lang (atom c) [x].
Proof.
  unfold atom. destruct (Z.eqb_spec c 46) as [->|Hc].
  - rewrite orb_true_r. split; auto.
  - rewrite orb_false_r, Z.eqb_eq. split; [intros ->; auto|]. inversion 1; auto.
Qed.

Lemma lang_atom_inv c w : lang (atom c) w → ∃ x, w = [x] ∧ lang (atom c) [x].
Proof. unfold atom. destruct (c =? 46); inversion 1; subst; eauto. Qed.

Lemma lang_seq_inv r s w : lang (Seq r s) w → ∃ a b, w = a ++ b ∧ lang r a ∧ lang s b.
Proof. inversion 1; subst; eauto 6. Qed.

Lemma lang_star_inv c w : lang (Star (atom c)) w →
  w = [] ∨ ∃ x w', w = x :: w' ∧ lang (atom c) [x] ∧ lang (Star (atom c)) w'.
Proof.
  inversion 1 as [| | | |r|r a b Ha Hb]; subst; [by left|]. right.
  apply lang_atom_inv in Ha as (x & -> & Hx). exists x, b. auto.
Qed.

(** [matchstar] takes the shortest run of [c] after which the rest matches. *)
Lemma matchstar_spec here c text :
  matchstar here c text = true ↔ ∃ w v, text = w ++ v ∧ lang (Star (atom c)) w ∧ here v = true.
Proof.
  induction text as [|x text IH]; cbn [matchstar].
  - destruct (here []) eqn:E; split; intros H; try done.
    + by exists [], [].
    + destruct H as (w & v & Hw & _ & Hv). apply eq_sym, app_eq_nil in Hw as [-> ->]. congruence.
  - destruct (here (x :: text)) eqn:E; [split; [intros _|done]; by exists [], (x :: text)|].
    destruct ((x =? c) || (c =? 46)) eqn:Ex.
    + rewrite IH. split; intros (w & v & Hw & Hl & Hv).
      * exists (x :: w), v. split_and!; [by rewrite Hw| |done].
        apply (lang_star_cons _ [x]); [by apply lang_atom|done].
      * apply lang_star_inv in Hl as [->|(y & w' & -> & _ & Hl)]; [cbn in Hw; subst; congruence|].
        injection Hw as -> ->. by exists w', v.
    + split; [done|]. intros (w & v & Hw & Hl & Hv).
      apply lang_star_inv in Hl as [->|(y & w' & -> & Hy & _)]; [cbn in Hw; subst; congruence|].
      injection Hw as -> _. apply lang_atom in Hy. congruence.
Qed.

(** One character, then the rest. *)
Lemma here_char c re1 text :
  (∀ text, matchhere re1 text = true ↔ here_spec re1 text) →
  match text with
  | [] => false
  | x :: text' => if (c =? 46) || (c =? x) then matchhere re1 text' else false
  end = true ↔
  ∃ w v, text = w ++ v ∧ lang (Seq (atom c) (compile re1).1) w ∧ ((compile re1).2 = true → v = []).
Proof.
  intros IH. destruct text as [|x text].
  - split; [done|]. intros (w & v & Hw & Hl & _). apply eq_sym, app_eq_nil in Hw as [-> _].
    apply lang_seq_inv in Hl as (a & b & Hab & Ha & _). apply lang_atom_inv in Ha as (y & -> & _). done.
  - rewrite orb_comm, Z.eqb_sym. destruct ((x =? c) || (c =? 46)) eqn:Ex.
    + rewrite IH. split.
      * intros (w & v & -> & Hl & Hv). exists (x :: w), v. split_and!; [done| |done].
        apply (lang_seq _ _ [x]); [by apply lang_atom|done].
      * intros (w & v & Hw & Hl & Hv). apply lang_seq_inv in Hl as (a & b & -> & Ha & Hb).
        apply lang_atom_inv in Ha as (y & -> & _). injection Hw as -> ->. by exists b, v.
    + split; [done|]. intros (w & v & Hw & Hl & _). apply lang_seq_inv in Hl as (a & b & -> & Ha & _).
      apply lang_atom_inv in Ha as (y & -> & Hy). injection Hw as -> _. apply lang_atom in Hy. congruence.
Qed.

Lemma here_rest c re1 text :
  (∀ text, matchhere re1 text = true ↔ here_spec re1 text) →
  (if (c =? 36) && bool_decide (re1 = []) then bool_decide (text = []) else
   match text with
   | [] => false
   | x :: text' => if (c =? 46) || (c =? x) then matchhere re1 text' else false
   end) = true ↔
  ∃ w v, text = w ++ v ∧
    lang (if (c =? 36) && bool_decide (re1 = []) then (Eps, true)
          else let '(r, e) := compile re1 in (Seq (atom c) r, e)).1 w ∧
    ((if (c =? 36) && bool_decide (re1 = []) then (Eps, true)
      else let '(r, e) := compile re1 in (Seq (atom c) r, e)).2 = true → v = []).
Proof.
  intros IH. destruct (_ && _).
  - rewrite bool_decide_eq_true. cbn. split; [intros ->; by exists [], []|].
    intros (w & v & -> & Hl & ->); [|done]. inversion Hl. done.
  - rewrite (here_char c re1 text IH). destruct (compile re1). done.
Qed.

Lemma matchhere_ind re : ∀ n, (length re <= n)%nat → ∀ text, matchhere re text = true ↔ here_spec re text.
Proof.
  intros n. revert re. induction n as [|n IH]; intros [|c re1] Hn text; try (cbn in Hn; lia);
    try (split; [intros _; by exists [], text|done]).
  cbn in Hn. pose proof (IH re1 ltac:(lia)) as IH1. unfold here_spec.
  cbn [matchhere compile]. destruct re1 as [|s re2]; [by apply here_rest|].
  destruct (s =? 42) eqn:Es; [|by apply here_rest].
  rewrite matchstar_spec. pose proof (IH re2 ltac:(cbn in Hn; lia)) as IH2. unfold here_spec in IH2.
  destruct (compile re2) as [r e]. cbn [fst snd] in *. split.
  - intros (w & v & -> & Hl & (a & b & -> & Ha & Hb)%IH2). exists (w ++ a), b. rewrite app_assoc. auto.
  - intros (w & v & -> & (a & b & -> & Ha & Hb)%lang_seq_inv & Hv). exists a, (b ++ v). rewrite app_assoc.
    split_and!; [done..|]. apply IH2. by exists b, v.
Qed.

Lemma matchhere_spec re text : matchhere re text = true ↔ here_spec re text.
Proof. by eapply matchhere_ind. Qed.

Lemma match_any_spec re text : match_any re text = true ↔ ∃ a b, text = a ++ b ∧ here_spec re b.
Proof.
  induction text as [|x text IH]; cbn [match_any]; destruct (matchhere re _) eqn:E.
  - split; [intros _|done]. exists [], []. split; [done|]. by apply matchhere_spec.
  - split; [done|]. intros (a & b & Hab & Hb). apply eq_sym, app_eq_nil in Hab as [-> ->].
    apply matchhere_spec in Hb. congruence.
  - split; [intros _|done]. exists [], (x :: text). split; [done|]. by apply matchhere_spec.
  - rewrite IH. split; intros (a & b & Hab & Hb).
    + exists (x :: a), b. by rewrite Hab.
    + destruct a as [|y a]; [cbn in Hab; subst; apply matchhere_spec in Hb; congruence|].
      injection Hab as -> ->. by exists a, b.
Qed.

(** C20.  The matcher decides the regular language of its pattern: [match(re,
    text)] returns 1 exactly when a part of the text is a word of the language,
    a part that starts the text when the pattern starts with [^] and ends it
    when the pattern ends with [$]. *)
Theorem match_regular re text :
  let anchored := bool_decide (head re = Some 94) in
  let '(r, at_end) := compile (if anchored then tail re else re) in
  match_ re text = true ↔
  ∃ a w b, text = a ++ w ++ b ∧ lang r w ∧ (anchored = true → a = []) ∧ (at_end = true → b = []).
Proof.
  intros anchored. destruct (compile _) as [r e] eqn:Ec.
  assert (match_ re text = if anchored then matchhere (tail re) text else match_any re text) as ->.
  { unfold match_, anchored. destruct re as [|c re1]; [done|]. cbn.
    destruct (Z.eqb_spec c 94); case_bool_decide; congruence. }
  destruct anchored.
  - rewrite matchhere_spec. unfold here_spec. rewrite Ec. cbn [fst snd]. split.
    + intros (w & v & -> & Hl & Hv). by exists [], w, v.
    + intros (a & w & b & -> & Hl & Ha & Hb). rewrite Ha by done. by exists w, b.
  - rewrite match_any_spec. unfold here_spec. rewrite Ec. cbn [fst snd]. split.
    + intros (a & b & -> & w & v & -> & Hl & Hv). by exists a, w, v.
    + intros (a & w & b & -> & Hl & _ & Hb). exists a, (w ++ b). eauto 6.
Qed.

(** ** Lines *)

(** The complete lines of a text, without their newlines, and what follows the
    last newline. *)
Fixpoint split_lines (t : list Z) : list (list Z) * list Z :=
  match t with
  | [] => ([], [])
  | x :: t' =>
      let '(ls, r) := split_lines t' in
      if x =? 10 then ([] :: ls, r) else
      match ls with
      | [] => ([], x :: r)
      | l :: ls' => ((x :: l) :: ls', r)
      end
  end.

(** The matching lines of a text. *)
Definition selected (re t : list Z) : list Z :=
  concat ((λ l, l ++ [10]) <$> filter (λ l, match_ re l = true) (split_lines t).1).

Lemma split_lines_line l t : 10 ∉ l →
  split_lines (l ++ 10 :: t) = (l :: (split_lines t).1, (split_lines t).2).
Proof.
  induction l as [|x l IH]; intros Hl; cbn.
  - by destruct (split_lines t).
  - apply not_elem_of_cons in Hl as [Hx Hl]. rewrite IH by done. cbn.
    rewrite (proj2 (Z.eqb_neq x 10)) by done. done.
Qed.

Lemma split_lines_none l : 10 ∉ l → split_lines l = ([], l).
Proof.
  induction l as [|x l IH]; intros Hl; [done|]. apply not_elem_of_cons in Hl as [Hx Hl]. cbn.
  rewrite IH by done. by rewrite (proj2 (Z.eqb_neq x 10)) by done.
Qed.

Lemma split_at_newline (t : list Z) : 10 ∉ t ∨ ∃ l t', t = l ++ 10 :: t' ∧ 10 ∉ l.
Proof.
  destruct (decide (10 ∈ t)) as [Hin|]; [right|by left].
  induction t as [|x t IH]; [by apply not_elem_of_nil in Hin|].
  destruct (decide (x = 10)) as [->|Hx]; [exists [], t; split; [done|apply not_elem_of_nil]|].
  apply elem_of_cons in Hin as [Hx'|Hin]; [congruence|]. destruct (IH Hin) as (l & t' & -> & Hl).
  exists (x :: l), t'. split; [done|]. by apply not_elem_of_cons.
Qed.

Lemma strchr_at_newline l t : 0 ∉ l → 10 ∉ l → strchr_at 10 (l ++ 10 :: t) = Some (length l).
Proof.
  induction l as [|x l IH]; intros H0 H1; [done|]. apply not_elem_of_cons in H0 as [? H0], H1 as [? H1]. cbn.
  rewrite (proj2 (Z.eqb_neq x 0)), (proj2 (Z.eqb_neq x 10)) by done. by rewrite IH.
Qed.

Lemma strchr_at_none l : 10 ∉ l → strchr_at 10 l = None.
Proof.
  induction l as [|x l IH]; intros H1; [done|]. apply not_elem_of_cons in H1 as [? H1]. cbn.
  rewrite (proj2 (Z.eqb_neq x 10)) by done. rewrite IH by done. by destruct (x =? 0).
Qed.

Lemma selected_line re l t : 10 ∉ l →
  selected re (l ++ 10 :: t) = (if match_ re l then l ++ [10] else []) ++ selected re t.
Proof.
  intros Hl. unfold selected. rewrite split_lines_line by done. cbn [fst]. rewrite filter_cons.
  destruct (match_ re l); [rewrite decide_True by done|rewrite decide_False by done]; done.
Qed.

Lemma selected_none re l : 10 ∉ l → selected re l = [].
Proof. intros. unfold selected. by rewrite split_lines_none. Qed.

(** The part of the buffer after its last newline stays for the next turn. *)
Lemma split_lines_app re b t :
  selected re (b ++ t) = selected re b ++ selected re ((split_lines b).2 ++ t) ∧
  (split_lines (b ++ t)).1 = (split_lines b).1 ++ (split_lines ((split_lines b).2 ++ t)).1 ∧
  (split_lines (b ++ t)).2 = (split_lines ((split_lines b).2 ++ t)).2.
Proof.
  remember (length b) as n eqn:Hn. revert b Hn. induction (lt_wf n) as [n _ IH]. intros b ->.
  destruct (split_at_newline b) as [Hb|(l & b' & -> & Hl)].
  - rewrite (selected_none re b), (split_lines_none b) by done. done.
  - destruct (IH (length b')) with b' as (E1 & E2 & E3); [rewrite length_app; cbn; lia|done|].
    rewrite <- app_assoc. cbn [app]. rewrite !selected_line, !split_lines_line by done. cbn [fst snd].
    rewrite E1, E2, E3. split_and!; [by rewrite app_assoc|done..].
Qed.

Lemma grep_lines_spec re fuel : ∀ p, 0 ∉ p → (length p <= fuel)%nat →
  grep_lines fuel re p = Some (selected re p, (split_lines p).2).
Proof.
  induction fuel as [|fuel IH]; intros p H0 Hf.
  - destruct p; [done|cbn in Hf; lia].
  - destruct (split_at_newline p) as [Hp|(l & t & -> & Hl)]; cbn [grep_lines].
    + by rewrite strchr_at_none, selected_none, split_lines_none.
    + rewrite not_elem_of_app, not_elem_of_cons in H0. destruct H0 as (H0 & _ & H0').
      rewrite strchr_at_newline by done. rewrite length_app in Hf. cbn in Hf.
      rewrite take_app_length, Nat.add_1_r. replace (S (length l)) with (length (l ++ [10])) by (rewrite length_app; cbn; lia).
      change (l ++ 10 :: t) with (l ++ [10] ++ t). rewrite app_assoc, drop_app_length, take_app_length.
      rewrite IH by (done || lia). cbn [mbind option_bind]. rewrite <- app_assoc. cbn [app].
      by rewrite selected_line, split_lines_line.
Qed.

Lemma split_lines_rest b : 10 ∉ (split_lines b).2 ∧ (length (split_lines b).2 <= length b)%nat ∧
  (length (split_lines b).2 = length b → 10 ∉ b) ∧ (0 ∉ b → 0 ∉ (split_lines b).2).
Proof.
  remember (length b) as n eqn:Hn. revert b Hn. induction (lt_wf n) as [n _ IH]. intros b ->.
  destruct (split_at_newline b) as [Hb|(l & b' & -> & Hl)].
  - by rewrite split_lines_none.
  - destruct (IH (length b')) with b' as (E1 & E2 & _ & E4); [rewrite length_app; cbn; lia|done|].
    rewrite split_lines_line by done. cbn [snd]. rewrite length_app. cbn [length]. split_and!; [done|lia|lia|].
    rewrite not_elem_of_app, not_elem_of_cons. naive_solver.
Qed.

(** Every line of a text fits in the buffer. *)
Definition lines_fit (t : list Z) : Prop :=
  Forall (λ l, length l < GREPBUF - 1)%nat (split_lines t).1 ∧ (length (split_lines t).2 < GREPBUF - 1)%nat.

Definition input (t : list Z) : list (list Z) := match t with [] => [] | _ => [t] end.

Lemma read_input n t : read_chunk n (input t) = (take n t, input (drop n t)).
Proof. destruct t; [by rewrite take_nil, drop_nil|]. cbn. by destruct (drop n (z :: t)). Qed.

(** A line that starts the text and is longer than the buffer. *)
Lemma lines_fit_first b t : 10 ∉ b → lines_fit (b ++ t) → (length b < GREPBUF - 1)%nat.
Proof.
  intros Hb [H1 H2]. destruct (split_at_newline t) as [Ht|(l & t' & -> & Hl)].
  - rewrite split_lines_none in H2 by (by apply not_elem_of_app). cbn [snd] in H2. rewrite length_app in H2. lia.
  - rewrite app_assoc, split_lines_line in H1 by (by apply not_elem_of_app). cbn [fst] in H1.
    apply Forall_cons in H1 as [H1 _]. rewrite length_app in H1. lia.
Qed.

Lemma grep_loop_spec re fuel : ∀ kept t,
  (length t <= fuel)%nat → 10 ∉ kept → 0 ∉ kept ++ t → lines_fit (kept ++ t) →
  grep_loop fuel re kept (input t) = Some (selected re (kept ++ t)).
Proof.
  induction fuel as [|fuel IH]; intros kept t Hf Hk H0 Hfit; cbn [grep_loop]; rewrite read_input.
  { destruct t; [|cbn in Hf; lia]. rewrite take_nil, app_nil_r. by rewrite selected_none. }
  set (n := (GREPBUF - length kept - 1)%nat).
  assert (0 < n)%nat as Hn by (pose proof (lines_fit_first _ _ Hk Hfit); unfold n; lia).
  destruct (take n t) as [|x c] eqn:Ec.
  { destruct t; [by rewrite app_nil_r, selected_none|]. destruct n; [lia|done]. }
  rewrite <- Ec. clear x c Ec. set (b := kept ++ take n t). set (t' := drop n t).
  assert (kept ++ t = b ++ t') as Et by (unfold b, t'; by rewrite <- app_assoc, take_drop).
  rewrite Et in *. apply not_elem_of_app in H0 as [H0 H0'].
  rewrite grep_lines_spec by (done || lia). cbn [mbind option_bind].
  destruct (split_lines_rest b) as (R1 & R2 & R3 & R4). destruct (split_lines_app re b t') as (A1 & A2 & A3).
  assert ((length t' <= fuel)%nat) as Hf'.
  { unfold t'. rewrite length_drop. destruct t; cbn in *; lia. }
  destruct (Nat.eqb_spec (length (split_lines b).2) (length b)) as [El|Hne].
  - specialize (R3 El). assert (t' = []) as Ht'.
    { pose proof (lines_fit_first _ _ R3 Hfit) as Hb. unfold t'. apply drop_ge.
      unfold b in Hb. rewrite length_app, length_take in Hb. unfold n in *. lia. }
    rewrite Ht' in *. rewrite IH; [|cbn; lia|apply not_elem_of_nil..|by split; cbn; [constructor|unfold GREPBUF; lia]].
    cbn [mbind option_bind app]. by rewrite !app_nil_r, (selected_none re b) by done.
  - rewrite IH; [by rewrite A1|done|done|apply not_elem_of_app; auto|].
    unfold lines_fit in *. rewrite A2, A3 in Hfit. destruct Hfit as [[_ Hl]%Forall_app Hr]. done.
Qed.

(** C33.  [grep] prints the matching lines: on a file without NUL bytes whose
    lines fit in its buffer, it reaches the end of the file and what it has
    written is exactly the lines that match, in order, whatever the file's size;
    an unterminated last line is not printed. *)
Theorem grep_selects_lines re t :
  0 ∉ t → lines_fit t → grep re (input t) = Some (selected re t).
Proof.
  intros H0 Hfit. unfold grep. rewrite grep_loop_spec; try done; [|apply not_elem_of_nil].
  destruct t; [done|]. cbn. rewrite app_nil_r. cbn. lia.
Qed.

Lemma grep_selects_lines_witness :
  grep (97 :: [46; 98]) (input [97; 120; 98; 10; 97; 98; 10; 99; 97; 121; 98; 10; 97]) =
  Some [97; 120; 98; 10; 99; 97; 121; 98; 10].
Proof.
  rewrite grep_selects_lines; [reflexivity| |].
  - apply (bool_decide_unpack _). reflexivity.
  - split; [repeat constructor|]; unfold GREPBUF; cbn; lia.
Defined.

(** On a pipe a read returns what the writer has written so far.  A read that
    brings no newline is thrown away: a line written in two parts is not found
    although it matches, and its second part is taken for a line. *)
Theorem grep_drops_partial_line :
  let line := [97; 98; 99; 10] in
  grep [97; 98; 99] [line] = Some line ∧
  grep [97; 98; 99] [take 2 line; drop 2 line] = Some [] ∧
  grep [94; 99] [take 2 line; drop 2 line] = Some (drop 2 line).
Proof. by vm_compute. Qed.
