(* ===== verification/Sh.v ===== *)
(** * The shell's parser (sh.c)

    The input line is a buffer of characters ended by a NUL; a [char *] into it
    is a position, and [*ps], the place of the parser in the line, is the state
    of the parsing routines.  [struct cmd] and the structures behind its type
    tag are one inductive type, over the type of the strings: pairs of
    positions ([argv] and [eargv], [file] and [efile]) while parsing, character
    strings once [nulterminate] has cut the line.  [parseexec] goes on filling
    in the [execcmd] after [parseredirs] has wrapped it; the arguments are
    collected and put into the wrapped command at the end.  [panic] of the shell
    is the outcome [Panic].  [malloc] is taken to succeed, as the code does.

    The routines call each other with a bound on the depth of the calls, which
    [parse_terminates] shows is never reached. *)

From S2P Require Import Prelude.
#[local] Open Scope Z_scope.

Definition MAXARGS : nat := 10.
Definition O_RDONLY : Z := 0.
Definition O_WRONLY : Z := 1.
Definition O_CREATE : Z := 512.
Arguments MAXARGS : simpl never.

Inductive cmd {str : Type} :=
  | EXEC (argv : list str)
  | REDIR (c : cmd) (file : str) (mode fd : Z)
  | PIPE (left right : cmd)
  | LIST (left right : cmd)
  | BACK (c : cmd).
Arguments cmd : clear implicits.

(** A string of the line: where it starts and where it ends. *)
Definition ptr : Type := nat * nat.

Definition whitespace : list Z := [32; 9; 13; 10; 11].
Definition symbols : list Z := [60; 124; 62; 38; 59; 40; 41].

(** [strchr(l, c) != 0] of ulib.c: the NUL at the end is not found. *)
Definition strchr (l : list Z) (c : Z) : bool := existsb (Z.eqb c) l.

Section Parser.
Variable buf : list Z.

Definition es : nat := length buf.

(** [*s] *)
Definition at_ (p : nat) : Z := default 0 (buf !! p).

(** [while(s < es && f( *s)) s++] *)
Fixpoint scan_to (n : nat) (f : Z → bool) (p : nat) : nat :=
  match n with
  | O => p
  | S n' => if f (at_ p) then scan_to n' f (S p) else p
  end.

Definition scan (f : Z → bool) (p : nat) : nat := scan_to (es - p) f p.

Definition skip_ws : nat → nat := scan (strchr whitespace).

Definition is_word (c : Z) : bool := negb (strchr whitespace c) && negb (strchr symbols c).

(** The token, and where it starts and ends. *)
Definition gettoken : M nat (Z * ptr) :=
  p ← get;
  let s := skip_ws p in
  let c := at_ s in
  let '(ret, e) :=
    if c =? 0 then (c, s)
    else if (c =? 124) || (c =? 40) || (c =? 41) || (c =? 59) || (c =? 38) || (c =? 60) then (c, S s)
    else if c =? 62 then if at_ (S s) =? 62 then (43, S (S s)) else (c, S s)
    else (97, scan is_word s) in
  modify (λ _, skip_ws e);;
  mret (ret, (s, e)).

Definition peek (toks : list Z) : M nat bool :=
  modify skip_ws;;
  s ← get;
  mret (negb (at_ s =? 0) && strchr toks (at_ s)).

(** A redirection that the parser has read: file, mode and descriptor. *)
Definition redir : Type := ptr * Z * Z.
Definition redircmd (c : cmd ptr) (r : redir) : cmd ptr := REDIR c r.1.1 r.1.2 r.2.

Fixpoint parseredirs (fuel : nat) (rs : list redir) : M nat (list redir) :=
  more ← peek [60; 62];
  if (more : bool) then
    match fuel with
    | O => out_of_fuel
    | S fuel' =>
        '(tok, _) ← gettoken;
        '(t, q) ← gettoken;
        if negb (t =? 97) then panic "missing file for redirection" else
        parseredirs fuel' (rs ++ [if tok =? 60 then (q, O_RDONLY, 0) else (q, Z.lor O_WRONLY O_CREATE, 1)])
    end
  else mret rs.

(** [while(!peek(ps, es, "|)&;"))] of [parseexec], with the arguments and the
    redirections read so far. *)
Fixpoint parseargs (fuel : nat) (argv : list ptr) (rs : list redir) : M nat (list ptr * list redir) :=
  stop ← peek [124; 41; 38; 59];
  if (stop : bool) then mret (argv, rs) else
  match fuel with
  | O => out_of_fuel
  | S fuel' =>
      '(tok, q) ← gettoken;
      if tok =? 0 then mret (argv, rs) else
      if negb (tok =? 97) then panic "syntax" else
      if (MAXARGS <=? length (argv ++ [q]))%nat then panic "too many args" else
      rs ← parseredirs es rs;
      parseargs fuel' (argv ++ [q]) rs
  end.

(** [while(peek(ps, es, "&"))] of [parseline]. *)
Fixpoint parseback (fuel : nat) (c : cmd ptr) : M nat (cmd ptr) :=
  more ← peek [38];
  if (more : bool) then
    match fuel with
    | O => out_of_fuel
    | S fuel' => gettoken;; parseback fuel' (BACK c)
    end
  else mret c.

Fixpoint parseline (fuel : nat) : M nat (cmd ptr) :=
  match fuel with
  | O => out_of_fuel
  | S fuel' =>
      c ← parsepipe fuel';
      c ← parseback es c;
      more ← peek [59];
      if (more : bool) then
        gettoken;;
        r ← parseline fuel';
        mret (LIST c r)
      else mret c
  end

with parsepipe (fuel : nat) : M nat (cmd ptr) :=
  match fuel with
  | O => out_of_fuel
  | S fuel' =>
      c ← parseexec fuel';
      more ← peek [124];
      if (more : bool) then
        gettoken;;
        r ← parsepipe fuel';
        mret (PIPE c r)
      else mret c
  end

with parseexec (fuel : nat) : M nat (cmd ptr) :=
  match fuel with
  | O => out_of_fuel
  | S fuel' =>
      block ← peek [40];
      if (block : bool) then parseblock fuel' else
      rs ← parseredirs es [];
      '(argv, rs) ← parseargs MAXARGS [] rs;
      mret (foldl redircmd (EXEC argv) rs)
  end

with parseblock (fuel : nat) : M nat (cmd ptr) :=
  match fuel with
  | O => out_of_fuel
  | S fuel' =>
      open ← peek [40];
      if negb open then panic "parseblock" else
      gettoken;;
      c ← parseline fuel';
      close ← peek [41];
      if negb close then panic "syntax - missing )" else
      gettoken;;
      rs ← parseredirs es [];
      mret (foldl redircmd c rs)
  end.

Definition DEPTH : nat := 4 * (es + 1).

(** [parsecmd] before it calls [nulterminate].  The message that shows the rest
    of the line before the panic is not modelled. *)
Definition parse : M nat (cmd ptr) :=
  c ← parseline DEPTH;
  peek [];;
  s ← get;
  if negb (s =? es)%nat then panic "syntax" else mret c.

End Parser.

(** [nulterminate]: a NUL after each string of the command. *)
Fixpoint nulterminate (c : cmd ptr) (buf : list Z) : list Z :=
  match c with
  | EXEC argv => foldl (λ b q, <[q.2 := 0]> b) buf argv
  | REDIR c q _ _ => <[q.2 := 0]> (nulterminate c buf)
  | PIPE l r => nulterminate r (nulterminate l buf)
  | LIST l r => nulterminate r (nulterminate l buf)
  | BACK c => nulterminate c buf
  end.

(** The command and the line as [nulterminate] leaves it. *)
Definition parsecmd (line : list Z) : outcome nat (cmd ptr * list Z) :=
  (c ← parse line; mret (c, nulterminate c line)) O.

(** The C string at a position. *)
Fixpoint c_string (l : list Z) : list Z :=
  match l with
  | [] => []
  | x :: l' => if x =? 0 then [] else x :: c_string l'
  end.

Fixpoint map_cmd {A B} (f : A → B) (c : cmd A) : cmd B :=
  match c with
  | EXEC argv => EXEC (f <$> argv)
  | REDIR c q mode fd => REDIR (map_cmd f c) (f q) mode fd
  | PIPE l r => PIPE (map_cmd f l) (map_cmd f r)
  | LIST l r => LIST (map_cmd f l) (map_cmd f r)
  | BACK c => BACK (map_cmd f c)
  end.

(** The command [runcmd] sees: each string is read at its start. *)
Definition strings (line : list Z) (c : cmd ptr) : cmd (list Z) := map_cmd (λ q, c_string (drop q.1 line)) c.

(** ** Termination and well-formedness *)

(** [m], started at [p], returns a result with [Q] or stops with [panic]. *)
Definition runs {A} (m : M nat A) (p : nat) (Q : A → nat → Prop) : Prop :=
  match m p with Done a p' => Q a p' | Panic _ => True | _ => False end.

Lemma runs_bind {A B} (m : M nat A) (k : A → M nat B) p (R : A → nat → Prop) (Q : B → nat → Prop) :
  runs m p R → (∀ a p', R a p' → runs (k a) p' Q) → runs (m ≫= k) p Q.
Proof. unfold runs, mbind, M_bind. intros H Hk. destruct (m p); [by apply Hk|done..]. Qed.

Lemma runs_weaken {A} (m : M nat A) p (R Q : A → nat → Prop) :
  runs m p R → (∀ a p', R a p' → Q a p') → runs m p Q.
Proof. unfold runs. destruct (m p); auto. Qed.

Section Bounds.
Variable buf : list Z.
#[local] Notation eol := (es buf).
#[local] Notation chr := (at_ buf).

Lemma at_lt p : chr p ≠ 0 → (p < eol)%nat.
Proof.
  unfold at_, es. intros H. destruct (decide (p < length buf)%nat); [done|].
  rewrite lookup_ge_None_2 in H by lia. done.
Qed.

Lemma at_es : chr eol = 0.
Proof. unfold at_, es. by rewrite lookup_ge_None_2. Qed.

Lemma scan_to_spec f n : ∀ p,
  (p <= scan_to buf n f p <= p + n)%nat ∧ (∀ k, (p <= k < scan_to buf n f p)%nat → f (chr k) = true) ∧
  ((scan_to buf n f p < p + n)%nat → f (chr (scan_to buf n f p)) = false).
Proof.
  induction n as [|n IH]; intros p; cbn [scan_to]; [split_and!; lia|].
  destruct (f (chr p)) eqn:E; [|split_and!; [lia..|done]].
  destruct (IH (S p)) as (H1 & H2 & H3). split_and!; [lia..| |].
  - intros k Hk. destruct (decide (k = p)) as [->|]; [done|]. apply H2. lia.
  - intros Hk. apply H3. lia.
Qed.

Lemma scan_spec f p : (p <= eol)%nat →
  (p <= scan buf f p <= eol)%nat ∧ (∀ k, (p <= k < scan buf f p)%nat → f (chr k) = true) ∧
  ((scan buf f p < eol)%nat → f (chr (scan buf f p)) = false).
Proof.
  intros Hp. unfold scan. destruct (scan_to_spec f (eol - p) p) as (H1 & H2 & H3).
  split_and!; [lia..|done|]. intros Hs. apply H3. lia.
Qed.

Lemma scan_stay f p : ((p < eol)%nat → f (chr p) = false) → scan buf f p = p.
Proof.
  intros H. unfold scan. destruct (eol - p)%nat as [|n] eqn:E; [done|]. cbn. by rewrite H by lia.
Qed.

(** A word of the line: the characters of [q] are word characters and the next
    one is not. *)
Definition word_at (q : ptr) : Prop :=
  (q.1 < q.2 <= eol)%nat ∧ (∀ k, (q.1 <= k < q.2)%nat → is_word (chr k) = true) ∧
  ((q.2 < eol)%nat → is_word (chr q.2) = false).

Lemma gettoken_runs p : (p <= eol)%nat →
  runs (gettoken buf) p (λ r p', (p <= r.2.1 <= p')%nat ∧ (p' <= eol)%nat ∧
    (chr (skip_ws buf p) ≠ 0 → (p < p')%nat ∧ r.1 ≠ 0) ∧ (r.1 = 97 → word_at r.2)).
Proof.
  intros Hp. unfold runs, gettoken. munfold.
  destruct (scan_spec (strchr whitespace) p Hp) as (S1 & S2 & S3). fold (skip_ws buf) in *.
  set (s := skip_ws buf p) in *.
  assert (∀ e ret, (s <= e <= eol)%nat → (chr s ≠ 0 → (s < e)%nat ∧ ret ≠ 0) → (ret = 97 → word_at (s, e)) →
    (p <= s <= skip_ws buf e)%nat ∧ (skip_ws buf e <= eol)%nat ∧
    (chr s ≠ 0 → (p < skip_ws buf e)%nat ∧ ret ≠ 0) ∧ (ret = 97 → word_at (s, e))) as Hout.
  { intros e ret He Hn Hw. destruct (scan_spec (strchr whitespace) e ltac:(lia)) as (E1 & _). fold (skip_ws buf) in E1.
    split_and!; [lia..| |done]. intros Hs. specialize (Hn Hs). split; [lia|apply Hn]. }
  destruct (Z.eqb_spec (chr s) 0) as [E0|E0]; [cbn; apply Hout; [lia|done|rewrite E0; done]|].
  pose proof (at_lt s E0) as Hlt.
  destruct (_ || _ || _ || _ || _ || _) eqn:Esym; [cbn; apply Hout; [lia|split; [lia|done]|]|].
  { intros E. rewrite E in Esym. done. }
  destruct (Z.eqb_spec (chr s) 62) as [E2|E2].
  { destruct (Z.eqb_spec (chr (S s)) 62) as [E3|E3]; cbn; apply Hout; try done; try (rewrite E2; done); try lia.
    pose proof (at_lt (S s) ltac:(lia)). lia. }
  destruct (scan_spec is_word s ltac:(lia)) as (W1 & W2 & W3). cbn.
  assert (is_word (chr s) = true) as Hw.
  { unfold is_word. rewrite S3 by done. unfold strchr, symbols. cbn [existsb].
    apply Z.eqb_neq in E2. repeat (apply orb_false_iff in Esym as [Esym ?]).
    repeat match goal with H : _ = false |- _ => rewrite H end. done. }
  assert (s < scan buf is_word s)%nat as Hsw.
  { destruct (decide (scan buf is_word s = s)) as [E|]; [|lia]. rewrite E in W3. rewrite W3 in Hw by lia. done. }
  apply Hout; [lia|done|]. intros _. unfold word_at. cbn. split_and!; [lia..|done|done].
Qed.

Lemma peek_runs toks p : (p <= eol)%nat →
  runs (peek buf toks) p (λ b p', (p <= p' <= eol)%nat ∧ skip_ws buf p' = p' ∧
    b = negb (chr p' =? 0) && strchr toks (chr p')).
Proof.
  intros Hp. unfold runs, peek. munfold. destruct (scan_spec (strchr whitespace) p Hp) as (S1 & S2 & S3).
  split_and!; [apply S1|apply S1| |done]. apply scan_stay, S3.
Qed.

(** Take the token [peek] has found. *)
Lemma peek_gettoken toks p {A} (k1 : Z * ptr → M nat A) (k2 : M nat A) Q : (p <= eol)%nat →
  (∀ r p', (p < p' <= eol)%nat → runs (k1 r) p' Q) →
  (∀ p', (p <= p' <= eol)%nat → runs k2 p' Q) →
  runs (b ← peek buf toks; if (b : bool) then gettoken buf ≫= k1 else k2) p Q.
Proof.
  intros Hp H1 H2. eapply runs_bind; [by apply peek_runs|]. intros b p1 (Hp1 & Hs & Hb). cbn beta.
  destruct b; [|by apply H2]. symmetry in Hb. apply andb_true_iff in Hb as [Hb%negb_true_iff%Z.eqb_neq _].
  eapply runs_bind; [apply gettoken_runs; lia|]. intros r p2 (R1 & R2 & R3 & _). rewrite Hs in R3.
  apply H1. destruct (R3 Hb). lia.
Qed.

Definition redir_ok (r : redir) : Prop :=
  word_at r.1.1 ∧ ((r.1.2, r.2) = (O_RDONLY, 0) ∨ (r.1.2, r.2) = (Z.lor O_WRONLY O_CREATE, 1)).

Lemma parseredirs_runs fuel : ∀ rs p, (p <= eol)%nat → (eol - p <= fuel)%nat → Forall redir_ok rs →
  runs (parseredirs buf fuel rs) p (λ rs' p', (p <= p' <= eol)%nat ∧ Forall redir_ok rs').
Proof.
  induction fuel as [|fuel IH]; intros rs p Hp Hf Hrs; cbn [parseredirs].
  - eapply runs_bind; [by apply peek_runs|]. intros b p1 (Hp1 & _ & Hb). cbn beta.
    destruct b; [|split; [lia|done]]. assert (p1 = eol) as -> by lia. rewrite at_es in Hb. done.
  - apply peek_gettoken; [done| |intros p' Hp'; split; [lia|done]].
    intros [tok q0] p1 Hp1. eapply runs_bind; [apply gettoken_runs; lia|].
    intros [t q] p2 (R1 & R2 & R3 & R4). cbn [fst snd] in *. cbn beta iota.
    destruct (Z.eqb_spec t 97) as [->|]; [|done]. cbn [negb]. specialize (R4 eq_refl).
    eapply runs_weaken; [apply IH; [lia|lia|]|]; [|intros a p' [? ?]; split; [lia|done]].
    apply Forall_app. split; [done|]. apply Forall_singleton. destruct (tok =? 60); split; cbn; auto.
Qed.

Definition args_ok (argv : list ptr) : Prop := Forall word_at argv ∧ (length argv < MAXARGS)%nat.

Lemma parseargs_runs fuel : ∀ argv rs p, (p <= eol)%nat → (fuel + length argv = MAXARGS)%nat →
  args_ok argv → Forall redir_ok rs →
  runs (parseargs buf fuel argv rs) p (λ r p', (p <= p' <= eol)%nat ∧ args_ok r.1 ∧ Forall redir_ok r.2).
Proof.
  induction fuel as [|fuel IH]; intros argv rs p Hp Hf Ha Hrs; cbn [parseargs]; [destruct Ha; lia|].
  eapply runs_bind; [by apply peek_runs|]. intros b p1 (Hp1 & Hs & Hb). cbn beta.
  destruct b; [split; [lia|by split]|].
  eapply runs_bind; [apply gettoken_runs; lia|]. intros [t q] p2 (R1 & R2 & R3 & R4). cbn [fst snd] in *. cbn beta iota.
  destruct (t =? 0); [split; [lia|by split]|].
  destruct (Z.eqb_spec t 97) as [->|]; [|done]. cbn [negb]. specialize (R4 eq_refl).
  destruct (Nat.leb_spec MAXARGS (length (argv ++ [q]))) as [|Hlen]; [done|].
  rewrite length_app in Hlen. cbn in Hlen.
  eapply runs_bind; [apply parseredirs_runs; [lia|lia|done]|]. intros rs' p3 (Hp3 & Hrs').
  destruct Ha as [Ha _]. eapply runs_weaken; [apply IH; [lia| | |done]|].
  - rewrite length_app. cbn. lia.
  - split; [apply Forall_app; split; [done|by apply Forall_singleton]|rewrite length_app; cbn; lia].
  - intros a p' (? & ? & ?). split_and!; [lia..|done|done].
Qed.

Fixpoint cmd_ok (c : cmd ptr) : Prop :=
  match c with
  | EXEC argv => args_ok argv
  | REDIR c q mode fd => cmd_ok c ∧ redir_ok (q, mode, fd)
  | PIPE l r | LIST l r => cmd_ok l ∧ cmd_ok r
  | BACK c => cmd_ok c
  end.

Lemma redirs_ok rs : ∀ c, cmd_ok c → Forall redir_ok rs → cmd_ok (foldl redircmd c rs).
Proof.
  induction rs as [|[[q m] fd] rs IH]; intros c Hc Hrs; [done|]. apply Forall_cons in Hrs as [Hr Hrs].
  cbn [foldl]. apply IH; [|done]. by split.
Qed.

Lemma parseback_runs fuel : ∀ c p, (p <= eol)%nat → (eol - p <= fuel)%nat → cmd_ok c →
  runs (parseback buf fuel c) p (λ c' p', (p <= p' <= eol)%nat ∧ cmd_ok c').
Proof.
  induction fuel as [|fuel IH]; intros c p Hp Hf Hc; cbn [parseback].
  - eapply runs_bind; [by apply peek_runs|]. intros b p1 (Hp1 & _ & Hb). cbn beta.
    destruct b; [|split; [lia|done]]. assert (p1 = eol) as -> by lia. rewrite at_es in Hb. done.
  - apply peek_gettoken; [done| |intros p' Hp'; split; [lia|done]].
    intros r p1 Hp1. eapply runs_weaken; [apply IH; [lia|lia|done]|]. intros a p' [? ?]. split; [lia|done].
Qed.

(** The depth of the calls each routine may need, by what is left of the line. *)
Lemma parse_runs fuel : ∀ p, (p <= eol)%nat →
  ((4 * (eol - p) + 4 <= fuel)%nat → runs (parseline buf fuel) p (λ c p', (p <= p' <= eol)%nat ∧ cmd_ok c)) ∧
  ((4 * (eol - p) + 3 <= fuel)%nat → runs (parsepipe buf fuel) p (λ c p', (p <= p' <= eol)%nat ∧ cmd_ok c)) ∧
  ((4 * (eol - p) + 2 <= fuel)%nat → runs (parseexec buf fuel) p (λ c p', (p <= p' <= eol)%nat ∧ cmd_ok c)) ∧
  ((4 * (eol - p) + 1 <= fuel)%nat → runs (parseblock buf fuel) p (λ c p', (p <= p' <= eol)%nat ∧ cmd_ok c)).
Proof.
  induction fuel as [|fuel IH]; intros p Hp; [split_and!; lia|].
  assert (∀ p', (p <= p' <= eol)%nat → (4 * (eol - p) + 4 <= S fuel)%nat →
    runs (parsepipe buf fuel) p' (λ c p'', (p' <= p'' <= eol)%nat ∧ cmd_ok c)) as Hpipe.
  { intros p' Hp' Hf. destruct (IH p') as (_ & H & _); [lia|]. apply H. lia. }
  split_and!; intros Hf; cbn [parseline parsepipe parseexec parseblock].
  - eapply runs_bind; [apply Hpipe; lia|]. intros c p1 [Hp1 Hc].
    eapply runs_bind; [apply parseback_runs; [lia|lia|done]|]. intros c' p2 [Hp2 Hc'].
    apply peek_gettoken; [lia| |intros p' Hp'; split; [lia|done]].
    intros r p3 Hp3. destruct (IH p3) as (H & _); [lia|].
    eapply runs_bind; [apply H; lia|]. intros c'' p4 [Hp4 Hc'']. split; [lia|done].
  - destruct (IH p) as (_ & _ & H & _); [lia|]. eapply runs_bind; [apply H; lia|]. intros c p1 [Hp1 Hc].
    apply peek_gettoken; [lia| |intros p' Hp'; split; [lia|done]].
    intros r p2 Hp2. destruct (IH p2) as (_ & H2 & _); [lia|].
    eapply runs_bind; [apply H2; lia|]. intros c' p3 [Hp3 Hc']. split; [lia|done].
  - eapply runs_bind; [by apply peek_runs|]. intros b p1 (Hp1 & _). cbn beta. destruct b.
    + destruct (IH p1) as (_ & _ & _ & H); [lia|]. eapply runs_weaken; [apply H; lia|].
      intros a p' [? ?]. split; [lia|done].
    + eapply runs_bind; [apply parseredirs_runs; [lia|lia|done]|]. intros rs p2 [Hp2 Hrs].
      eapply runs_bind; [apply parseargs_runs; [lia|done| |done]|].
      { split; [done|]. unfold MAXARGS. cbn. lia. }
      intros [argv rs'] p3 (Hp3 & Ha & Hrs'). split; [lia|]. by apply redirs_ok.
  - eapply runs_bind; [by apply peek_runs|]. intros b p1 (Hp1 & Hs & Hb). cbn beta. destruct b; [|done].
    symmetry in Hb. apply andb_true_iff in Hb as [Hb%negb_true_iff%Z.eqb_neq _]. cbn [negb].
    eapply runs_bind; [apply gettoken_runs; lia|]. intros r p2 (R1 & R2 & R3 & _). rewrite Hs in R3. destruct (R3 Hb) as [R _].
    destruct (IH p2) as (H & _); [lia|]. eapply runs_bind; [apply H; lia|]. intros c p3 [Hp3 Hc].
    eapply runs_bind; [apply peek_runs; lia|]. intros b p4 (Hp4 & _). cbn beta. destruct b; [|done]. cbn [negb].
    eapply runs_bind; [apply gettoken_runs; lia|]. intros r' p5 (T1 & T2 & _).
    eapply runs_bind; [apply parseredirs_runs; [lia|lia|done]|]. intros rs p6 [Hp6 Hrs].
    split; [lia|]. by apply redirs_ok.
Qed.
End Bounds.

Lemma parse_ok line : runs (parse line) 0 (λ c _, cmd_ok line c).
Proof.
  unfold parse. destruct (parse_runs line (DEPTH line) 0) as (H & _); [lia|].
  eapply runs_bind; [apply H; unfold DEPTH; lia|]. intros c p [Hp Hc].
  eapply runs_bind; [apply peek_runs; lia|]. intros b p1 (Hp1 & _).
  eapply runs_bind; [by instantiate (1 := λ s p', s = p1 ∧ p' = p1)|]. intros s p2 [-> ->].
  by destruct (negb _).
Qed.

Lemma parsecmd_unfold line : parsecmd line =
  match parse line 0%nat with
  | Done c p => Done (c, nulterminate c line) p
  | Panic msg => Panic msg
  | Sleep c p => Sleep c p
  | OutOfFuel => OutOfFuel
  end.
Proof. reflexivity. Qed.

(** C19.  Parsing terminates: on every line [parsecmd] returns a command or stops
    with a syntax error; the bound on the depth of its calls, four for each
    character, is never reached. *)
Theorem parse_terminates line :
  (∃ c line' p, parsecmd line = Done (c, line') p) ∨ (∃ msg, parsecmd line = Panic msg).
Proof.
  pose proof (parse_ok line) as H. unfold runs in H. rewrite parsecmd_unfold.
  destruct (parse line 0%nat); [left; do 3 eexists; reflexivity|right; eexists; reflexivity|done..].
Qed.

(** C32.  What the parser builds is well formed: every string of a command, an
    argument or a file name, is a non-empty run of word characters of the line
    that ends at a character that is none (or at the end of the line), no
    command has [MAXARGS] arguments, so that [argv] ends with a null pointer
    inside the array, and each redirection is for reading on descriptor 0 or for
    writing on descriptor 1. *)
Theorem parse_well_formed line c line' p : parsecmd line = Done (c, line') p → cmd_ok line c.
Proof.
  pose proof (parse_ok line) as H. unfold runs in H. rewrite parsecmd_unfold.
  destruct (parse line 0%nat); [|done..]. intros E. by injection E as -> _ _.
Qed.

(** [ls -l <f | wc] *)
Definition wit_line : list Z := [108; 115; 32; 45; 108; 32; 60; 102; 32; 124; 32; 119; 99; 10].

Lemma parse_well_formed_witness :
  ∃ c line' p, parsecmd wit_line = Done (c, line') p ∧ cmd_ok wit_line c ∧ c =
    PIPE (REDIR (EXEC [(0%nat, 2%nat); (3%nat, 5%nat)]) (7%nat, 8%nat) 0 0) (EXEC [(11%nat, 13%nat)]).
Proof.
  set (c := PIPE (REDIR (EXEC [(0%nat, 2%nat); (3%nat, 5%nat)]) (7%nat, 8%nat) 0 0) (EXEC [(11%nat, 13%nat)])). exists c, (nulterminate c wit_line), 14%nat.
  assert (parsecmd wit_line = Done (c, nulterminate c wit_line) 14%nat) as E by (vm_compute; reflexivity).
  split; [exact E|]. split; [exact (parse_well_formed _ _ _ _ E)|reflexivity].
Defined.
