(* ===== verification/ShPrint.v ===== *)
(** * Printing and parsing commands (sh.c)

    [pr] prints a command with as many parentheses as the grammar of sh.c
    needs; parsing what it prints gives the command back, strings included,
    once [nulterminate] has run. *)

From S2P Require Import Prelude Sh.
#[local] Open Scope Z_scope.

(** ** A printer *)

Fixpoint words (ws : list (list Z)) : list Z :=
  match ws with
  | [] => []
  | [w] => w
  | w :: ws' => w ++ 32 :: words ws'
  end.

Definition paren (b : bool) (t : list Z) : list Z := if b then 40 :: t ++ [41] else t.

Definition redir_text (f : list Z) (fd : Z) : list Z := (if fd =? 0 then 60 else 62) :: f.

(** At level 0 a command is printed as a line, at 1 as one that [&] may follow,
    at 2 as a side of a pipe, at 3 as one that a redirection may follow. *)
Fixpoint pr (level : nat) (c : cmd (list Z)) : list Z :=
  match c with
  | EXEC argv => words argv
  | REDIR c f _ fd => pr 3 c ++ redir_text f fd
  | PIPE l r => paren (2 <? level)%nat (pr 3 l ++ 124 :: pr 2 r)
  | LIST l r => paren (0 <? level)%nat (pr 1 l ++ 59 :: pr 0 r)
  | BACK c => paren (1 <? level)%nat (pr 1 c ++ [38])
  end.

Definition print (c : cmd (list Z)) : list Z := pr 0 c.

(** Commands the shell can express. *)
Definition word_ok (w : list Z) : Prop := w ≠ [] ∧ Forall (λ x, is_word x = true ∧ x ≠ 0) w.
Definition mode_ok (mode fd : Z) : Prop :=
  (mode = O_RDONLY ∧ fd = 0) ∨ (mode = Z.lor O_WRONLY O_CREATE ∧ fd = 1).

Fixpoint wf (c : cmd (list Z)) : Prop :=
  match c with
  | EXEC argv => Forall word_ok argv ∧ (length argv < MAXARGS)%nat
  | REDIR c f mode fd => wf c ∧ word_ok f ∧ mode_ok mode fd
  | PIPE l r | LIST l r => wf l ∧ wf r
  | BACK c => wf c
  end.

(** ** Positions *)

Fixpoint dropwhile (f : Z → bool) (l : list Z) : list Z :=
  match l with
  | [] => []
  | x :: l' => if f x then dropwhile f l' else l
  end.

(** The characters of a string of the line. *)
Definition text (buf : list Z) (q : ptr) : list Z := take (q.2 - q.1) (drop q.1 buf).

Section Suffixes.
Variable buf : list Z.

(** The position at which [r] is what is left of the line. *)
Definition pos (r : list Z) : nat := (length buf - length r)%nat.
#[local] Arguments pos : simpl never.
#[local] Arguments skip_ws : simpl never.
#[local] Arguments at_ : simpl never.
#[local] Arguments scan : simpl never.

Lemma pos_length r : r `suffix_of` buf → (pos r + length r = length buf)%nat.
Proof. intros H%suffix_length. unfold pos. lia. Qed.

Lemma drop_pos r : r `suffix_of` buf → drop (pos r) buf = r.
Proof.
  intros [k Hk]. unfold pos. rewrite Hk, length_app. replace (length k + length r - length r)%nat with (length k) by lia.
  apply drop_app_length.
Qed.

Lemma at_pos r : r `suffix_of` buf → at_ buf (pos r) = hd 0 r.
Proof.
  intros H. unfold at_. rewrite <- (Nat.add_0_r (pos r)), <- lookup_drop, (drop_pos r H). by destruct r.
Qed.

Lemma suffix_tail a r : a ++ r `suffix_of` buf → r `suffix_of` buf.
Proof. intros [k Hk]. exists (k ++ a). by rewrite Hk, app_assoc. Qed.

Lemma suffix_cons x r : x :: r `suffix_of` buf → r `suffix_of` buf.
Proof. apply (suffix_tail [x]). Qed.

Lemma pos_app a r : a ++ r `suffix_of` buf → pos r = (pos (a ++ r) + length a)%nat.
Proof. intros H%suffix_length. rewrite length_app in H. unfold pos. rewrite length_app. lia. Qed.

Lemma pos_cons x r : x :: r `suffix_of` buf → pos r = S (pos (x :: r)).
Proof. intros H. rewrite (pos_app [x] r H). cbn [app length]. lia. Qed.

Lemma text_pos w r : w ++ r `suffix_of` buf → text buf (pos (w ++ r), pos r) = w.
Proof.
  intros H. unfold text. cbn [fst snd]. rewrite (drop_pos _ H), (pos_app w r H).
  replace (pos (w ++ r) + length w - pos (w ++ r))%nat with (length w) by lia. apply take_app_length.
Qed.

Lemma scan_pos f r : r `suffix_of` buf → scan buf f (pos r) = pos (dropwhile f r).
Proof.
  intros H. unfold scan, es. replace (length buf - pos r)%nat with (length r) by (pose proof (pos_length r H); lia).
  induction r as [|x r IH]; [done|]. cbn [length scan_to dropwhile]. rewrite (at_pos _ H). cbn [hd].
  destruct (f x); [|done]. rewrite <- (pos_cons x r H). apply IH. by eapply suffix_cons.
Qed.

(** Nothing is to be skipped before [r]. *)
Definition at_token (r : list Z) : Prop := strchr whitespace (hd 0 r) = false.

Lemma skip_pos r : r `suffix_of` buf → at_token r → skip_ws buf (pos r) = pos r.
Proof.
  intros H Ht. unfold skip_ws. rewrite scan_pos by done. destruct r as [|x r]; [done|].
  cbn. unfold at_token in Ht. cbn in Ht. by rewrite Ht.
Qed.

Lemma peek_pos toks r : r `suffix_of` buf → at_token r →
  peek buf toks (pos r) = Done (negb (hd 0 r =? 0) && strchr toks (hd 0 r)) (pos r).
Proof. intros H Ht. unfold peek. munfold. by rewrite skip_pos, at_pos. Qed.

(** The symbols that are tokens of one character. *)
Lemma gettoken_symbol x r : x :: r `suffix_of` buf → at_token r → x ∈ [124; 40; 41; 59; 38; 60] →
  gettoken buf (pos (x :: r)) = Done (x, (pos (x :: r), pos r)) (pos r).
Proof.
  intros H Ht Hx. unfold gettoken. munfold.
  assert (at_token (x :: r)) as Ht' by (repeat (apply elem_of_cons in Hx as [->|Hx]; [done|]); by apply not_elem_of_nil in Hx).
  rewrite skip_pos, at_pos by done. cbn [hd]. rewrite <- (pos_cons x r H).
  pose proof (suffix_cons _ _ H).
  repeat (apply elem_of_cons in Hx as [->|Hx]; [cbn; by rewrite skip_pos|]); by apply not_elem_of_nil in Hx.
Qed.

Lemma gettoken_gt r : 62 :: r `suffix_of` buf → at_token r → hd 0 r ≠ 62 →
  gettoken buf (pos (62 :: r)) = Done (62, (pos (62 :: r), pos r)) (pos r).
Proof.
  intros H Ht Hr. unfold gettoken. munfold. pose proof (suffix_cons _ _ H).
  rewrite skip_pos, at_pos by done. cbn [hd]. cbn. rewrite <- (pos_cons 62 r H), at_pos by done.
  rewrite (proj2 (Z.eqb_neq _ _) Hr). by rewrite skip_pos.
Qed.

Lemma gettoken_eol : gettoken buf (pos []) = Done (0, (pos [], pos [])) (pos []).
Proof.
  assert ([] `suffix_of` buf) by (exists buf; by rewrite app_nil_r).
  unfold gettoken. munfold. rewrite skip_pos, at_pos by done. cbn. by rewrite skip_pos.
Qed.

Definition not_word (r : list Z) : Prop := match r with [] => True | x :: _ => is_word x = false end.

Lemma is_word_cases x : is_word x = true → x ≠ 0 →
  strchr whitespace x = false ∧ strchr symbols x = false ∧ x ≠ 62 ∧
  (x =? 124) || (x =? 40) || (x =? 41) || (x =? 59) || (x =? 38) || (x =? 60) = false.
Proof.
  unfold is_word. intros [Hw%negb_true_iff Hs%negb_true_iff]%andb_true_iff Hx. split_and!; try done.
  - intros ->. done.
  - unfold strchr, symbols in Hs. cbn [existsb] in Hs.
    repeat (apply orb_false_iff in Hs as [? Hs]). repeat match goal with H : (_ =? _) = false |- _ => rewrite H end. done.
Qed.

Lemma dropwhile_word w r : Forall (λ x, is_word x = true ∧ x ≠ 0) w → not_word r → dropwhile is_word (w ++ r) = r.
Proof.
  intros Hw Hr. induction Hw as [|x w [Hx _] _ IH]; cbn.
  - destruct r as [|y r]; [done|]. cbn in *. by rewrite Hr.
  - by rewrite Hx.
Qed.

Lemma gettoken_word w r : w ++ r `suffix_of` buf → word_ok w → not_word r →
  gettoken buf (pos (w ++ r)) = Done (97, (pos (w ++ r), pos r)) (pos (dropwhile (strchr whitespace) r)).
Proof.
  intros H [Hne Hw] Hr. destruct w as [|x w]; [done|]. apply Forall_cons in Hw as Hx. destruct Hx as [[Hx Hx0] _].
  destruct (is_word_cases x Hx Hx0) as (H1 & H2 & H3 & H4).
  unfold gettoken. munfold. rewrite skip_pos, at_pos by done. cbn [hd app].
  rewrite (proj2 (Z.eqb_neq x 0)), H4, (proj2 (Z.eqb_neq x 62)) by done.
  change (x :: w ++ r) with ((x :: w) ++ r). rewrite scan_pos, dropwhile_word by done. cbn.
  unfold skip_ws. rewrite scan_pos; [done|]. by eapply suffix_tail.
Qed.
End Suffixes.

(** ** Parsing what was printed *)

(** What may follow: the end of the line or one of these symbols. *)
Definition follow (syms r : list Z) : Prop := match r with [] => True | x :: _ => x ∈ syms end.

Lemma follow_weaken syms syms' r : follow syms r → syms ⊆ syms' → follow syms' r.
Proof. destruct r; cbn; auto. Qed.

Lemma follow_token r : follow [124; 41; 38; 59] r →
  at_token r ∧ not_word r ∧ strchr [60; 62] (hd 0 r) = false ∧ strchr [40] (hd 0 r) = false.
Proof.
  destruct r as [|x r]; [done|]. cbn. intros Hx.
  repeat (apply elem_of_cons in Hx as [->|Hx]; [done|]); by apply not_elem_of_nil in Hx.
Qed.

Lemma follow_symbol syms r : syms ⊆ [124; 41; 38; 59] → follow syms r →
  negb (hd 0 r =? 0) && strchr syms (hd 0 r) = negb (bool_decide (r = [])).
Proof.
  intros Hs. destruct r as [|x r]; [done|]. cbn [follow hd]. intros Hx. rewrite bool_decide_false by done.
  apply andb_true_iff. split.
  - apply Hs in Hx. repeat (apply elem_of_cons in Hx as [->|Hx]; [done|]); by apply not_elem_of_nil in Hx.
  - unfold strchr. apply existsb_exists. exists x. split; [by apply list_elem_of_In|apply Z.eqb_refl].
Qed.

Lemma not_follow syms syms' r : follow syms r → (∀ x, x ∈ syms → x ∉ syms') → strchr syms' (hd 0 r) = false ∨ r = [].
Proof.
  intros Hf Hd. destruct r as [|x r]; [by right|left]. cbn [hd]. apply not_true_iff_false. intros H.
  unfold strchr in H. apply existsb_exists in H as (y & Hy & ->%Z.eqb_eq). apply list_elem_of_In in Hy. by eapply Hd.
Qed.

(** A redirection with its file name. *)
Definition wredir : Type := list Z * Z * Z.
Definition wredir_ok (r : wredir) : Prop := word_ok r.1.1 ∧ mode_ok r.1.2 r.2.
Definition rtext (rs : list wredir) : list Z := concat ((λ r : wredir, redir_text r.1.1 r.2) <$> rs).
Definition redirs (d : cmd (list Z)) (rs : list wredir) : cmd (list Z) := foldl (λ d r, REDIR d r.1.1 r.1.2 r.2) d rs.

Lemma word_hd w r : word_ok w →
  at_token (w ++ r) ∧ hd 0 (w ++ r) ≠ 62 ∧ hd 0 (w ++ r) ≠ 0 ∧ strchr symbols (hd 0 (w ++ r)) = false.
Proof.
  intros [Hne Hw]. destruct w as [|x w]; [done|]. apply Forall_cons in Hw as [[Hx H0] _]. unfold at_token. cbn [hd app].
  destruct (is_word_cases x Hx H0) as (H1 & H2 & H3 & _). done.
Qed.

Lemma strchr_sub l l' x : strchr l' x = false → l ⊆ l' → strchr l x = false.
Proof.
  unfold strchr. intros H Hs. apply not_true_iff_false. intros (y & Hy & E)%existsb_exists.
  apply not_true_iff_false in H. apply H, existsb_exists. exists y. split; [|done]. apply list_elem_of_In, Hs, list_elem_of_In, Hy.
Qed.

Lemma rtext_token rs post : at_token post → at_token (rtext rs ++ post).
Proof. destruct rs as [|[[f m] fd] rs]; [done|]. unfold rtext, redir_text. cbn. by destruct (fd =? 0). Qed.

Lemma rtext_not_word rs post : (rs = [] → not_word post) → not_word (rtext rs ++ post).
Proof. destruct rs as [|[[f m] fd] rs]; [auto|]. intros _. unfold rtext, redir_text. cbn. by destruct (fd =? 0). Qed.

Lemma dropwhile_token r : at_token r → dropwhile (strchr whitespace) r = r.
Proof. unfold at_token. destruct r as [|x r]; [done|]. cbn [hd dropwhile]. by intros ->. Qed.

Lemma words_hd w ws r : word_ok w →
  at_token (words (w :: ws) ++ r) ∧ hd 0 (words (w :: ws) ++ r) ≠ 0 ∧
  strchr symbols (hd 0 (words (w :: ws) ++ r)) = false.
Proof.
  intros Hw. destruct ws as [|w2 ws]; cbn [words]; [|rewrite <- app_assoc];
    edestruct (word_hd w) as (? & _ & ? & ?); eauto.
Qed.

Section RoundTrip.
Variable buf : list Z.
#[local] Notation pos := (pos buf).

Definition ptr_redir (r : redir) : wredir := (text buf r.1.1, r.1.2, r.2).

Lemma parseredirs_pos rs : ∀ acc post fuel,
  rtext rs ++ post `suffix_of` buf → Forall wredir_ok rs → at_token post → strchr [60; 62] (hd 0 post) = false →
  (rs ≠ [] → not_word post) → (length (rtext rs) <= fuel)%nat →
  ∃ rs', parseredirs buf fuel acc (pos (rtext rs ++ post)) = Done (acc ++ rs') (pos post) ∧ ptr_redir <$> rs' = rs.
Proof.
  induction rs as [|[[f m] fd] rs IH]; intros acc post fuel Hs Hok Ht Hn Hw Hf.
  - exists []. rewrite app_nil_r. cbn [rtext concat fmap list_fmap app] in *.
    destruct fuel; cbn [parseredirs]; rewrite (bind_Done _ _ _ _ _ (peek_pos buf [60; 62] post Hs Ht)), Hn, andb_false_r; done.
  - apply Forall_cons in Hok as [[Hf1 Hm] Hok]. cbn [fst snd] in *.
    change (rtext ((f, m, fd) :: rs)) with (redir_text f fd ++ rtext rs) in *. rewrite <- app_assoc in *.
    set (x := if fd =? 0 then 60 else 62). change (redir_text f fd) with (x :: f) in *. cbn [app length] in *.
    destruct fuel as [|fuel]; [cbn in Hf; lia|]. cbn [parseredirs].
    destruct (word_hd f (rtext rs ++ post) Hf1) as (F1 & F2 & _).
    pose proof (suffix_cons _ _ _ Hs) as Hs1. pose proof (suffix_tail _ _ _ Hs1) as Hs2.
    assert (peek buf [60; 62] (pos (x :: f ++ rtext rs ++ post)) = Done true (pos (x :: f ++ rtext rs ++ post))) as Ep.
    { rewrite peek_pos; [|done|]; unfold at_token, x; by destruct (fd =? 0). }
    rewrite (bind_Done _ _ _ _ _ Ep).
    assert (gettoken buf (pos (x :: f ++ rtext rs ++ post)) =
      Done (x, (pos (x :: f ++ rtext rs ++ post), pos (f ++ rtext rs ++ post))) (pos (f ++ rtext rs ++ post))) as Eg.
    { unfold x in *. destruct (fd =? 0); [apply gettoken_symbol; [done..|set_solver]|by apply gettoken_gt]. }
    rewrite (bind_Done _ _ _ _ _ Eg). cbn beta iota.
    assert (not_word (rtext rs ++ post)) as Hnw by (apply rtext_not_word; intros _; apply Hw; done).
    rewrite (bind_Done _ _ _ _ _ (gettoken_word buf f (rtext rs ++ post) Hs1 Hf1 Hnw)). cbn beta iota.
    rewrite (dropwhile_token _ (rtext_token rs post Ht)).
    set (q := (pos (f ++ rtext rs ++ post), pos (rtext rs ++ post))). change (negb (97 =? 97)) with false. cbn iota.
    match goal with |- context [acc ++ [?e]] => assert (e = (q, m, fd)) as -> end.
    { unfold x. by destruct Hm as [[-> ->]|[-> ->]]. }
    rewrite length_app in Hf.
    destruct (IH (acc ++ [(q, m, fd)]) post fuel) as (rs' & E & Er); try done; [auto|lia|].
    exists ((q, m, fd) :: rs'). split; [etrans; [exact E|by rewrite <- app_assoc]|]. cbn [fmap list_fmap]. rewrite Er. f_equal.
    unfold ptr_redir. cbn [fst snd]. unfold q. by rewrite text_pos.
Qed.

Lemma parseargs_stop argv rs post fuel :
  post `suffix_of` buf → follow [124; 41; 38; 59] post → (1 <= fuel)%nat →
  parseargs buf fuel argv rs (pos post) = Done (argv, rs) (pos post).
Proof.
  intros Hs Hp Hf. destruct (follow_token post Hp) as (Ht & _). destruct fuel; [lia|]. cbn [parseargs].
  rewrite (bind_Done _ _ _ _ _ (peek_pos buf _ post Hs Ht)).
  destruct post as [|x post]; [|by rewrite (follow_symbol [124; 41; 38; 59])].
  cbn [hd Z.eqb negb andb]. by rewrite (bind_Done _ _ _ _ _ (gettoken_eol buf)).
Qed.

Lemma parseargs_pos ws : ∀ argv rs post fuel,
  words ws ++ rtext rs ++ post `suffix_of` buf → Forall word_ok ws → Forall wredir_ok rs → ws ≠ [] →
  follow [124; 41; 38; 59] post → (length argv + length ws < MAXARGS)%nat → (length ws < fuel)%nat →
  ∃ qs rs', parseargs buf fuel argv [] (pos (words ws ++ rtext rs ++ post)) = Done (argv ++ qs, rs') (pos post) ∧
    text buf <$> qs = ws ∧ ptr_redir <$> rs' = rs.
Proof.
  induction ws as [|w ws IH]; intros argv rs post fuel Hs Hws Hrs Hne Hp Hlen Hf; [done|].
  apply Forall_cons in Hws as [Hw Hws]. destruct (follow_token post Hp) as (Ht & Hnw & Hsym & _).
  set (R := match ws with [] => rtext rs ++ post | _ => 32 :: words ws ++ rtext rs ++ post end).
  set (R' := match ws with [] => rtext rs ++ post | _ => words ws ++ rtext rs ++ post end).
  assert (words (w :: ws) ++ rtext rs ++ post = w ++ R) as EW.
  { unfold R. cbn [words]. destruct ws; [done|]. by rewrite <- app_assoc. }
  rewrite EW in *. destruct fuel as [|fuel]; [lia|]. cbn [parseargs].
  assert (dropwhile (strchr whitespace) R = R') as ER.
  { unfold R, R'. destruct ws as [|w2 ws]; [by apply dropwhile_token, rtext_token|].
    cbn [dropwhile]. apply dropwhile_token. apply Forall_cons in Hws as [Hw2 _]. by apply words_hd. }
  destruct (word_hd w R Hw) as (W1 & W2 & W3 & W4).
  rewrite (bind_Done _ _ _ _ _ (peek_pos buf [124; 41; 38; 59] (w ++ R) Hs W1)).
  rewrite (strchr_sub [124; 41; 38; 59] symbols) by (done || unfold symbols; set_solver). rewrite andb_false_r.
  assert (not_word R) as HR by (unfold R; destruct ws; [by apply rtext_not_word|done]).
  rewrite (bind_Done _ _ _ _ _ (gettoken_word buf w R Hs Hw HR)), ER. cbn beta iota. change (97 =? 0) with false. change (negb (97 =? 97)) with false. cbn iota.
  set (q := (pos (w ++ R), pos R)).
  rewrite (proj2 (Nat.leb_gt MAXARGS _)) by (rewrite length_app; cbn in *; lia).
  pose proof (suffix_tail _ _ _ Hs) as HsR.
  assert (text buf q = w) as Eq by (by apply text_pos).
  destruct ws as [|w2 ws].
  - unfold R, R' in *. cbn iota in *. destruct (parseredirs_pos rs [] post (es buf)) as (rs' & E & Er); try done.
    { apply suffix_length in HsR. rewrite length_app in HsR. unfold es. lia. }
    rewrite (bind_Done _ _ _ _ _ E). cbn [app]. exists [q], rs'.
    rewrite parseargs_stop; [|by eapply suffix_tail|done|cbn in Hf; lia].
    split_and!; [done| |done]. cbn [fmap list_fmap]. by rewrite Eq.
  - unfold R, R' in *. cbn iota in *. apply suffix_cons in HsR. cbn [rtext] in *.
    apply Forall_cons in Hws as Hw2. destruct Hw2 as [Hw2 _].
    destruct (words_hd w2 ws (rtext rs ++ post) Hw2) as (T1 & _ & T2).
    destruct (parseredirs_pos [] [] (words (w2 :: ws) ++ rtext rs ++ post) (es buf)) as (rs0 & E & E0); try done.
    { apply (strchr_sub _ symbols); [done|unfold symbols; set_solver]. }
    { cbn. lia. }
    apply fmap_nil_inv in E0. subst rs0. cbn [rtext fmap list_fmap concat app] in E.
    rewrite (bind_Done _ _ _ _ _ E).
    destruct (IH (argv ++ [q]) rs post fuel) as (qs & rs' & E' & Eqs & Er); try done.
    { rewrite length_app. cbn [length] in *. lia. } { cbn [length] in *. lia. }
    exists (q :: qs), rs'. split_and!; [etrans; [exact E'|by rewrite <- app_assoc]| |done]. cbn [fmap list_fmap]. by rewrite Eq, <- Eqs.
Qed.

(** ** The levels of the grammar *)

Definition reads (c : cmd ptr) (d : cmd (list Z)) : Prop := map_cmd (text buf) c = d.

Lemma reads_redirs rs : ∀ c d, reads c d → reads (foldl redircmd c rs) (redirs d (ptr_redir <$> rs)).
Proof. induction rs as [|r rs IH]; intros c d Hc; [done|]. apply IH. unfold reads in *. cbn. by rewrite Hc. Qed.

Definition exec_reads (d : cmd (list Z)) : Prop := ∀ rs post fuel,
  Forall wredir_ok rs → follow [124; 41; 38; 59] post → pr 3 d ++ rtext rs ++ post `suffix_of` buf →
  (4 * length (pr 3 d ++ rtext rs ++ post) + 2 <= fuel)%nat →
  ∃ c, parseexec buf fuel (pos (pr 3 d ++ rtext rs ++ post)) = Done c (pos post) ∧ reads c (redirs d rs).

Definition pipe_reads (d : cmd (list Z)) : Prop := ∀ post fuel,
  follow [41; 38; 59] post → pr 2 d ++ post `suffix_of` buf → (4 * length (pr 2 d ++ post) + 3 <= fuel)%nat →
  ∃ c, parsepipe buf fuel (pos (pr 2 d ++ post)) = Done c (pos post) ∧ reads c d.

Definition back_reads (d : cmd (list Z)) : Prop := ∀ post fuel n,
  follow [41; 38; 59] post → pr 1 d ++ post `suffix_of` buf → (4 * length (pr 1 d ++ post) + 3 <= fuel)%nat →
  (length (pr 1 d ++ post) <= n)%nat →
  ∃ c m, (length post <= m)%nat ∧ reads c d ∧
    (parsepipe buf fuel ≫= parseback buf n) (pos (pr 1 d ++ post)) = parseback buf m c (pos post).

Definition line_reads (d : cmd (list Z)) : Prop := ∀ post fuel,
  follow [41] post → pr 0 d ++ post `suffix_of` buf → (4 * length (pr 0 d ++ post) + 4 <= fuel)%nat →
  ∃ c, parseline buf fuel (pos (pr 0 d ++ post)) = Done c (pos post) ∧ reads c d.

(** A token that [peek] does not find. *)
Lemma peek_other syms toks r : r `suffix_of` buf → follow syms r → syms ⊆ [124; 41; 38; 59] → (∀ x, x ∈ syms → x ∉ toks) →
  peek buf toks (pos r) = Done false (pos r).
Proof.
  intros Hs Hf Hsub Hd. rewrite peek_pos; [|done|by apply follow_token, (follow_weaken syms)].
  destruct (not_follow syms toks r Hf Hd) as [->| ->]; [by rewrite andb_false_r|done].
Qed.

Lemma exec_words argv : wf (EXEC argv) → exec_reads (EXEC argv).
Proof.
  intros [Hw Hlen] rs post fuel Hrs Hp Hs Hf. cbn [pr] in *. destruct (follow_token post Hp) as (Ht & Hnw & Hsym & Hblk).
  destruct fuel as [|fuel]; [lia|]. cbn [parseexec].
  assert (length (rtext rs) <= es buf)%nat as Hl.
  { apply suffix_length in Hs. rewrite !length_app in Hs. unfold es. lia. }
  destruct argv as [|w ws].
  - cbn [words app] in *. rewrite (bind_Done _ _ _ false (pos (rtext rs ++ post))).
    2: { rewrite peek_pos by (done || by apply rtext_token). destruct rs as [|[[f m] fd] rs]; [cbn [rtext fmap list_fmap concat app]; by rewrite Hblk, andb_false_r|].
         unfold rtext, redir_text. cbn. by destruct (fd =? 0). }
    destruct (parseredirs_pos rs [] post (es buf)) as (rs' & E & <-); try done.
    rewrite (bind_Done _ _ _ _ _ E). cbn [app].
    rewrite (bind_Done _ _ _ _ _ (parseargs_stop [] rs' post MAXARGS (suffix_tail _ _ _ Hs) Hp ltac:(unfold MAXARGS; lia))).
    eexists. split; [done|]. by apply reads_redirs.
  - apply Forall_cons in Hw as Hw1. destruct Hw1 as [Hw1 _]. destruct (words_hd w ws (rtext rs ++ post) Hw1) as (T1 & _ & T2).
    rewrite (bind_Done _ _ _ false (pos (words (w :: ws) ++ rtext rs ++ post))).
    2: { rewrite peek_pos by done. rewrite (strchr_sub [40] symbols), andb_false_r; [done|done|unfold symbols; set_solver]. }
    destruct (parseredirs_pos [] [] (words (w :: ws) ++ rtext rs ++ post) (es buf)) as (rs0 & E & E0); try done.
    { apply (strchr_sub _ symbols); [done|unfold symbols; set_solver]. }
    { cbn. lia. }
    apply fmap_nil_inv in E0. subst rs0. cbn [rtext fmap list_fmap concat app] in E. rewrite (bind_Done _ _ _ _ _ E).
    destruct (parseargs_pos (w :: ws) [] rs post MAXARGS) as (qs & rs' & E' & Eq & <-); try done.
    rewrite (bind_Done _ _ _ _ _ E'). eexists. split; [done|]. apply reads_redirs. unfold reads. cbn [app map_cmd]. by rewrite Eq.
Qed.

Lemma pr_token d : ∀ level post, wf d → at_token post → at_token (pr level d ++ post).
Proof.
  induction d as [argv|d IH f m fd|l IHl r IHr|l IHl r IHr|d IH]; intros level post Hw Hp; cbn [pr].
  - destruct Hw as [Hw _]. destruct argv as [|w ws]; [done|]. apply Forall_cons in Hw as [Hw _]. by apply words_hd.
  - destruct Hw as [Hw _]. rewrite <- app_assoc. apply IH; [done|]. unfold redir_text, at_token. cbn. by destruct (fd =? 0).
  - destruct Hw as [Hl _]. unfold paren. destruct (_ <? _)%nat; [done|]. rewrite <- app_assoc. by apply IHl.
  - destruct Hw as [Hl _]. unfold paren. destruct (_ <? _)%nat; [done|]. rewrite <- app_assoc. by apply IHl.
  - unfold paren. destruct (_ <? _)%nat; [done|]. rewrite <- app_assoc. by apply IH.
Qed.

(** A command in parentheses. *)
Lemma exec_block d : wf d → pr 3 d = paren true (pr 0 d) → line_reads d → exec_reads d.
Proof.
  intros Hw E Hl rs post fuel Hrs Hp Hs Hf. rewrite E in *. unfold paren in *.
  destruct (follow_token post Hp) as (Ht & Hnw & Hsym & Hblk). pose proof (rtext_token rs post Ht) as Htr.
  replace ((40 :: pr 0 d ++ [41]) ++ rtext rs ++ post) with (40 :: pr 0 d ++ 41 :: rtext rs ++ post) in *
    by (cbn; by rewrite <- app_assoc).
  destruct fuel as [|[|fuel]]; [lia..|]. cbn [parseexec]. rewrite (bind_Done _ _ _ _ _ (peek_pos buf [40] _ Hs eq_refl)).
  cbn [hd]. change (negb (40 =? 0) && strchr [40] 40) with true. cbn iota. cbn [parseblock].
  rewrite (bind_Done _ _ _ _ _ (peek_pos buf [40] _ Hs eq_refl)). cbn [hd].
  change (negb (negb (40 =? 0) && strchr [40] 40)) with false. cbn iota.
  pose proof (suffix_cons _ _ _ Hs) as Hs1. pose proof (suffix_tail _ _ _ Hs1) as Hs2. pose proof (suffix_cons _ _ _ Hs2) as Hs3.
  rewrite (bind_Done _ _ _ _ _ (gettoken_symbol buf 40 _ Hs ltac:(by apply pr_token) ltac:(set_solver))).
  cbn [length] in Hf.
  destruct (Hl (41 :: rtext rs ++ post) fuel) as (c & Ec & Hc); [cbn; set_solver|done|lia|].
  rewrite (bind_Done _ _ _ _ _ Ec), (bind_Done _ _ _ _ _ (peek_pos buf [41] _ Hs2 eq_refl)). cbn [hd].
  change (negb (negb (41 =? 0) && strchr [41] 41)) with false. cbn iota.
  rewrite (bind_Done _ _ _ _ _ (gettoken_symbol buf 41 _ Hs2 Htr ltac:(set_solver))).
  destruct (parseredirs_pos rs [] post (es buf)) as (rs' & E' & <-); try done.
  { apply suffix_length in Hs3. rewrite length_app in Hs3. unfold es. lia. }
  rewrite (bind_Done _ _ _ _ _ E'). eexists. split; [done|]. by apply reads_redirs.
Qed.

Lemma pipe_of_exec d : pr 2 d = pr 3 d → exec_reads d → pipe_reads d.
Proof.
  intros E He post fuel Hp Hs Hf. rewrite E in *. destruct fuel as [|fuel]; [lia|]. cbn [parsepipe].
  destruct (He [] post fuel) as (c & Ec & Hc); [done|apply (follow_weaken [41; 38; 59]); [done|set_solver]|done|cbn [rtext fmap list_fmap concat app]; lia|].
  cbn [rtext fmap list_fmap concat app] in Ec. rewrite (bind_Done _ _ _ _ _ Ec).
  rewrite (bind_Done _ _ _ _ _ (peek_other _ [124] post (suffix_tail _ _ _ Hs) Hp ltac:(set_solver) ltac:(set_solver))).
  by exists c.
Qed.

Lemma back_of_pipe d : pr 1 d = pr 2 d → pipe_reads d → back_reads d.
Proof.
  intros E Hd post fuel n Hp Hs Hf Hn. rewrite E in *. destruct (Hd post fuel) as (c & Ec & Hc); [done..|].
  exists c, n. rewrite (bind_Done _ _ _ _ _ Ec). rewrite length_app in Hn. split_and!; [lia|done|done].
Qed.

Lemma parseback_stop syms c post n : post `suffix_of` buf → follow syms post → syms ⊆ [41; 59] →
  parseback buf n c (pos post) = Done c (pos post).
Proof.
  intros Hs Hp Hsub.
  assert (peek buf [38] (pos post) = Done false (pos post)) as E by (apply (peek_other syms); [done..|set_solver|set_solver]).
  destruct n; cbn [parseback]; by rewrite (bind_Done _ _ _ _ _ E).
Qed.

Lemma line_of_back d : pr 0 d = pr 1 d → back_reads d → line_reads d.
Proof.
  intros E Hd post fuel Hp Hs Hf. rewrite E in *. destruct fuel as [|fuel]; [lia|]. cbn [parseline].
  pose proof (suffix_tail _ _ _ Hs) as Hs1.
  destruct (Hd post fuel (es buf)) as (c & m & Hm & Hc & Ec); [apply (follow_weaken [41]); [done|set_solver]|done|lia|by apply suffix_length in Hs|].
  rewrite <- bind_assoc, (bind_Done _ _ _ c (pos post)) by (rewrite Ec; apply (parseback_stop [41]); [done..|set_solver]).
  rewrite (bind_Done _ _ _ _ _ (peek_other [41] [59] post Hs1 Hp ltac:(set_solver) ltac:(set_solver))). by exists c.
Qed.

Lemma pipe_pipe l r : wf r → exec_reads l → pipe_reads r → pipe_reads (PIPE l r).
Proof.
  intros Hw Hl Hr post fuel Hp Hs Hf. cbn [pr paren Nat.ltb Nat.leb] in *. rewrite <- app_assoc in *. cbn [app] in *.
  destruct fuel as [|fuel]; [lia|]. cbn [parsepipe].
  destruct (Hl [] (124 :: pr 2 r ++ post) fuel) as (c & Ec & Hc); [done|cbn; set_solver|done|cbn [rtext fmap list_fmap concat app]; lia|].
  cbn [rtext fmap list_fmap concat app] in Ec. rewrite (bind_Done _ _ _ _ _ Ec).
  pose proof (suffix_tail _ _ _ Hs) as Hs1. pose proof (suffix_cons _ _ _ Hs1) as Hs2.
  rewrite (bind_Done _ _ _ _ _ (peek_pos buf [124] _ Hs1 eq_refl)). cbn [hd].
  change (negb (124 =? 0) && strchr [124] 124) with true. cbn iota.
  assert (at_token post) by (apply follow_token, (follow_weaken [41; 38; 59]); [done|set_solver]).
  rewrite (bind_Done _ _ _ _ _ (gettoken_symbol buf 124 _ Hs1 ltac:(by apply pr_token) ltac:(set_solver))).
  rewrite length_app in Hf. cbn [length] in Hf.
  destruct (Hr post fuel) as (c' & Ec' & Hc'); [done|done|lia|]. rewrite (bind_Done _ _ _ _ _ Ec').
  exists (PIPE c c'). split; [done|]. unfold reads in *. cbn. by rewrite Hc, Hc'.
Qed.

Lemma back_back d : back_reads d → back_reads (BACK d).
Proof.
  intros Hd post fuel n Hp Hs Hf Hn. cbn [pr paren Nat.ltb Nat.leb] in *. rewrite <- app_assoc in *. cbn [app] in *.
  destruct (Hd (38 :: post) fuel n) as (c & m & Hm & Hc & Ec); [cbn; set_solver|done..|].
  pose proof (suffix_tail _ _ _ Hs) as Hs1. destruct m as [|m]; [cbn in Hm; lia|].
  exists (BACK c), m. split_and!; [cbn in Hm; lia|unfold reads in *; cbn; by rewrite Hc|].
  rewrite Ec. cbn [parseback]. rewrite (bind_Done _ _ _ _ _ (peek_pos buf [38] _ Hs1 eq_refl)). cbn [hd].
  change (negb (38 =? 0) && strchr [38] 38) with true. cbn iota.
  assert (at_token post) by (apply follow_token, (follow_weaken [41; 38; 59]); [done|set_solver]).
  by rewrite (bind_Done _ _ _ _ _ (gettoken_symbol buf 38 _ Hs1 ltac:(done) ltac:(set_solver))).
Qed.

Lemma line_list l r : wf r → back_reads l → line_reads r → line_reads (LIST l r).
Proof.
  intros Hw Hl Hr post fuel Hp Hs Hf. cbn [pr paren Nat.ltb Nat.leb] in *. rewrite <- app_assoc in *. cbn [app] in *.
  destruct fuel as [|fuel]; [lia|]. cbn [parseline]. pose proof (suffix_tail _ _ _ Hs) as Hs1. pose proof (suffix_cons _ _ _ Hs1) as Hs2.
  destruct (Hl (59 :: pr 0 r ++ post) fuel (es buf)) as (c & m & Hm & Hc & Ec); [cbn; set_solver|done|lia|by apply suffix_length in Hs|].
  rewrite <- bind_assoc, (bind_Done _ _ _ c (pos (59 :: pr 0 r ++ post)))
    by (rewrite Ec; apply (parseback_stop [59]); [done|cbn; set_solver|set_solver]).
  rewrite (bind_Done _ _ _ _ _ (peek_pos buf [59] _ Hs1 eq_refl)). cbn [hd].
  change (negb (59 =? 0) && strchr [59] 59) with true. cbn iota.
  assert (at_token post) by (apply follow_token, (follow_weaken [41]); [done|set_solver]).
  rewrite (bind_Done _ _ _ _ _ (gettoken_symbol buf 59 _ Hs1 ltac:(by apply pr_token) ltac:(set_solver))).
  rewrite length_app in Hf. cbn [length] in Hf.
  destruct (Hr post fuel) as (c' & Ec' & Hc'); [done|done|lia|]. rewrite (bind_Done _ _ _ _ _ Ec').
  exists (LIST c c'). split; [done|]. unfold reads in *. cbn. by rewrite Hc, Hc'.
Qed.

Lemma reads_all d : wf d → exec_reads d ∧ pipe_reads d ∧ back_reads d ∧ line_reads d.
Proof.
  induction d as [argv|d IH f m fd|l IHl r IHr|l IHl r IHr|d IH]; intros Hw.
  - pose proof (exec_words argv Hw). assert (pipe_reads (EXEC argv)) by by apply pipe_of_exec.
    assert (back_reads (EXEC argv)) by by apply back_of_pipe. split_and!; try done. by apply line_of_back.
  - destruct Hw as (Hw & Hf & Hm). destruct (IH Hw) as (He & _). assert (exec_reads (REDIR d f m fd)).
    { intros rs post fuel Hrs Hp Hs Hfu. cbn [pr] in *. rewrite <- app_assoc in *.
      assert (redir_text f fd ++ rtext rs ++ post = rtext ((f, m, fd) :: rs) ++ post) as E
        by (unfold rtext; cbn [fmap list_fmap concat]; by rewrite <- app_assoc).
      rewrite E in *. apply (He ((f, m, fd) :: rs) post fuel); [by apply Forall_cons|done..]. }
    assert (pipe_reads (REDIR d f m fd)) by by apply pipe_of_exec.
    assert (back_reads (REDIR d f m fd)) by by apply back_of_pipe. split_and!; try done. by apply line_of_back.
  - destruct Hw as [Hl Hr]. destruct (IHl Hl) as (He & _), (IHr Hr) as (_ & Hp & _).
    assert (pipe_reads (PIPE l r)) by by apply pipe_pipe. assert (back_reads (PIPE l r)) by by apply back_of_pipe.
    assert (line_reads (PIPE l r)) by by apply line_of_back. split_and!; try done. by apply exec_block.
  - destruct Hw as [Hl Hr]. destruct (IHl Hl) as (_ & _ & Hb & _), (IHr Hr) as (_ & _ & _ & Hln).
    assert (line_reads (LIST l r)) by by apply line_list. assert (exec_reads (LIST l r)) by by apply exec_block.
    assert (pipe_reads (LIST l r)) by by apply pipe_of_exec. split_and!; try done. by apply back_of_pipe.
  - destruct (IH Hw) as (_ & _ & Hb & _). assert (back_reads (BACK d)) by by apply back_back.
    assert (line_reads (BACK d)) by by apply line_of_back. assert (exec_reads (BACK d)) by by apply exec_block.
    split_and!; try done. by apply pipe_of_exec.
Qed.
End RoundTrip.

Lemma parse_print d : wf d → ∃ c p, parse (print d) 0%nat = Done c p ∧ reads (print d) c d.
Proof.
  intros Hw. destruct (reads_all (print d) d Hw) as (_ & _ & _ & Hl).
  assert (pos (print d) (print d) = 0%nat) as E0 by (unfold pos; lia).
  destruct (Hl [] (DEPTH (print d))) as (c & Ec & Hc); [done|by rewrite app_nil_r|rewrite app_nil_r; unfold DEPTH, es, print; lia|].
  rewrite app_nil_r in Ec. fold (print d) in Ec. rewrite E0 in Ec.
  assert ([] `suffix_of` print d) as Hs by (exists (print d); by rewrite app_nil_r).
  exists c, (pos (print d) []). split; [|done]. unfold parse.
  rewrite (bind_Done _ _ _ _ _ Ec), (bind_Done _ _ _ _ _ (peek_pos (print d) [] [] Hs eq_refl)). munfold.
  assert (pos (print d) [] = es (print d)) as -> by (unfold pos, es; cbn; lia). by rewrite Nat.eqb_refl.
Qed.

(** ** NUL termination *)

(** The positions [nulterminate] writes to. *)
Fixpoint ends (c : cmd ptr) : list nat :=
  match c with
  | EXEC argv => argv.*2
  | REDIR c q _ _ => q.2 :: ends c
  | PIPE l r | LIST l r => ends l ++ ends r
  | BACK c => ends c
  end.

Lemma insert_zero_lookup (b : list Z) e k :
  <[e := 0]> b !! k = if decide (k = e ∧ (k < length b)%nat) then Some 0 else b !! k.
Proof.
  rewrite list_lookup_insert. repeat case_decide; naive_solver.
Qed.

Lemma length_nulterminate c : ∀ b, length (nulterminate c b) = length b.
Proof.
  induction c as [argv|c IH q m fd|l IHl r IHr|l IHl r IHr|c IH]; intros b; cbn [nulterminate].
  - revert b. induction argv as [|q argv IH]; intros b; [done|]. cbn. by rewrite IH, length_insert.
  - by rewrite length_insert.
  - by rewrite IHr.
  - by rewrite IHr.
  - done.
Qed.

Lemma nulterminate_lookup c : ∀ b k,
  nulterminate c b !! k = if decide (k ∈ ends c ∧ (k < length b)%nat) then Some 0 else b !! k.
Proof.
  induction c as [argv|c IH q m fd|l IHl r IHr|l IHl r IHr|c IH]; intros b k; cbn [nulterminate ends].
  - revert b. induction argv as [|q argv IH]; intros b; cbn [foldl fmap list_fmap].
    + rewrite decide_False; [done|]. intros [H%elem_of_nil _]. done.
    + rewrite IH, length_insert, insert_zero_lookup. repeat case_decide; rewrite ?elem_of_cons in *; naive_solver.
  - rewrite insert_zero_lookup, IH, length_nulterminate. repeat case_decide; rewrite ?elem_of_cons in *; naive_solver.
  - rewrite IHr, IHl, length_nulterminate. repeat case_decide; rewrite ?elem_of_app in *; naive_solver.
  - rewrite IHr, IHl, length_nulterminate. repeat case_decide; rewrite ?elem_of_app in *; naive_solver.
  - apply IH.
Qed.

(** Every string of a command is one of [ptrs]. *)
Fixpoint ptrs (c : cmd ptr) : list ptr :=
  match c with
  | EXEC argv => argv
  | REDIR c q _ _ => q :: ptrs c
  | PIPE l r | LIST l r => ptrs l ++ ptrs r
  | BACK c => ptrs c
  end.

Lemma ends_ptrs c : ends c = (ptrs c).*2.
Proof. induction c; cbn [ends ptrs]; rewrite ?fmap_app; cbn; congruence. Qed.

Lemma ptrs_words line c : cmd_ok line c → Forall (word_at line) (ptrs c).
Proof.
  induction c as [argv|c IH q m fd|l IHl r IHr|l IHl r IHr|c IH]; cbn [cmd_ok ptrs].
  - by intros [? _].
  - intros [? [? _]]. apply Forall_cons. auto.
  - intros [? ?]. apply Forall_app. auto.
  - intros [? ?]. apply Forall_app. auto.
  - auto.
Qed.

Lemma map_cmd_ext {A} (f g : ptr → A) c : (∀ q, q ∈ ptrs c → f q = g q) → map_cmd f c = map_cmd g c.
Proof.
  induction c as [argv|c IH q m fd|l IHl r IHr|l IHl r IHr|c IH]; cbn [map_cmd ptrs]; intros H.
  - f_equal. apply list_fmap_ext. intros i q Hq. apply H. by eapply list_elem_of_lookup_2.
  - rewrite IH, (H q); [done|set_solver..].
  - rewrite IHl, IHr; [done|set_solver..].
  - rewrite IHl, IHr; [done|set_solver..].
  - rewrite IH; done.
Qed.

Lemma c_string_take n : ∀ l, (∀ k, (k < n)%nat → ∃ x, l !! k = Some x ∧ x ≠ 0) → (l !! n = None ∨ l !! n = Some 0) →
  c_string l = take n l.
Proof.
  induction n as [|n IH]; intros l H Hn.
  - destruct l as [|x l]; [done|]. destruct Hn as [|Hn]; [done|]. cbn in Hn. injection Hn as ->. done.
  - destruct (H 0%nat) as (x & Hx & H0); [lia|]. destruct l as [|y l]; [done|]. injection Hx as ->. cbn.
    rewrite (proj2 (Z.eqb_neq x 0)) by done. f_equal. apply IH; [|done]. intros k Hk. apply (H (S k)). lia.
Qed.

(** After [nulterminate] every string ends where its word ends. *)
Lemma string_of_word line c q : 0 ∉ line → cmd_ok line c → q ∈ ptrs c →
  c_string (drop q.1 (nulterminate c line)) = text line q.
Proof.
  intros H0 Hc Hq. pose proof (ptrs_words _ _ Hc) as Hw. rewrite Forall_forall in Hw.
  destruct (Hw q Hq) as ((Hlt & Hle) & Hin & _). unfold es in Hle.
  assert (∀ k, (q.1 <= k < q.2)%nat → k ∉ ends c) as Hne.
  { intros k Hk Hk'. rewrite ends_ptrs in Hk'. apply list_elem_of_fmap in Hk' as (q' & -> & Hq').
    destruct (Hw q' Hq') as (_ & _ & He). rewrite Hin in He by done. unfold es in He. by specialize (He ltac:(lia)). }
  assert (∀ k, (q.1 <= k < q.2)%nat → nulterminate c line !! k = line !! k) as Hk.
  { intros k Hk. rewrite nulterminate_lookup, decide_False; [done|]. intros [? _]. by eapply Hne. }
  rewrite (c_string_take (q.2 - q.1)).
  - unfold text. apply list_eq. intros k. destruct (decide (k < q.2 - q.1)%nat).
    + rewrite !lookup_take_lt, !lookup_drop by done. apply Hk. lia.
    + rewrite !lookup_take_ge by lia. done.
  - intros k Hk'. rewrite lookup_drop, Hk by lia. destruct (lookup_lt_is_Some_2 line (q.1 + k)) as [x Hx]; [lia|].
    exists x. split; [done|]. intros ->. apply H0. by eapply list_elem_of_lookup_2.
  - rewrite lookup_drop. replace (q.1 + (q.2 - q.1))%nat with q.2 by lia.
    destruct (decide (q.2 < length line)%nat) as [Hl|Hl].
    + right. rewrite nulterminate_lookup, decide_True; [done|]. split; [|done]. rewrite ends_ptrs. apply list_elem_of_fmap. eauto.
    + left. apply lookup_ge_None_2. rewrite length_nulterminate. lia.
Qed.

Lemma pr_no_nul d : ∀ level, wf d → 0 ∉ pr level d.
Proof.
  assert (∀ w, word_ok w → 0 ∉ w) as Hw0.
  { intros w [_ Hw] H0. rewrite Forall_forall in Hw. by destruct (Hw 0 H0). }
  assert (∀ b t, 0 ∉ t → 0 ∉ paren b t) as Hp0.
  { intros [] t Ht; cbn; [|done]. rewrite not_elem_of_cons, not_elem_of_app, not_elem_of_cons.
    split_and!; [done|done|done|apply not_elem_of_nil]. }
  induction d as [argv|d IH f m fd|l IHl r IHr|l IHl r IHr|d IH]; intros level Hw; cbn [pr].
  - destruct Hw as [Hw _]. induction Hw as [|w ws Hw _ IH]; [apply not_elem_of_nil|].
    destruct ws; [by apply Hw0|]. cbn [words] in *. rewrite not_elem_of_app, not_elem_of_cons. auto.
  - destruct Hw as (Hw & Hf & _). apply not_elem_of_app. split; [auto|]. unfold redir_text. apply not_elem_of_cons.
    split; [by destruct (fd =? 0)|auto].
  - destruct Hw. apply Hp0. rewrite not_elem_of_app, not_elem_of_cons. auto.
  - destruct Hw. apply Hp0. rewrite not_elem_of_app, not_elem_of_cons. auto.
  - apply Hp0. rewrite not_elem_of_app, not_elem_of_cons. split_and!; [auto|done|apply not_elem_of_nil].
Qed.

Lemma parsed_print d : wf d →
  ∃ c line p, parsecmd (print d) = Done (c, line) p ∧ strings line c = d.
Proof.
  intros Hw. destruct (parse_print d Hw) as (c & p & Ec & Hc). rewrite parsecmd_unfold, Ec.
  pose proof (parse_ok (print d)) as Hok. unfold runs in Hok. rewrite Ec in Hok.
  eexists _, _, p. split; [done|]. etrans; [|exact Hc]. apply map_cmd_ext. intros q Hq.
  by apply string_of_word; [apply pr_no_nul|..].
Qed.

(** C18.  Parsing undoes printing: for every command the shell can express (with
    arguments, redirections, pipes, sequences, background commands, nested as
    one likes), [parsecmd] of its printed form returns, and the command it
    returns, its strings read in the NUL-terminated line as [runcmd] and [exec]
    read them, is the command that was printed. *)
Theorem parsecmd_print d : wf d →
  ∃ c line p, parsecmd (print d) = Done (c, line) p ∧ strings line c = d.
Proof. exact (parsed_print d). Qed.

Lemma word_okb w : forallb (λ x, is_word x && negb (x =? 0)) w && negb (bool_decide (w = [])) = true → word_ok w.
Proof.
  intros [H Hne%negb_true_iff%bool_decide_eq_false]%andb_true_iff. split; [done|]. apply Forall_forall. intros x Hx.
  rewrite forallb_forall in H. specialize (H x (proj1 (list_elem_of_In _ _) Hx)).
  apply andb_true_iff in H as [? ?%negb_true_iff%Z.eqb_neq]. done.
Qed.

(** [(echo hi; cat <f) | wc >g &] *)
Definition wit_cmd : cmd (list Z) :=
  BACK (PIPE (LIST (EXEC [[101; 99; 104; 111]; [104; 105]]) (REDIR (EXEC [[99; 97; 116]]) [102] 0 0))
             (REDIR (EXEC [[119; 99]]) [103] (Z.lor O_WRONLY O_CREATE) 1)).

Lemma parsecmd_print_witness :
  ∃ c line p, parsecmd (print wit_cmd) = Done (c, line) p ∧ strings line c = wit_cmd.
Proof.
  apply (parsecmd_print wit_cmd).
  cbn. unfold mode_ok, MAXARGS. repeat split; repeat constructor; try (apply word_okb; reflexivity); auto; lia.
Defined.
