(* ===== verification/ShProc.v ===== *)
(** * Processes that make system calls (proc.c, sysfile.c as user programs see them)

    A user program is the tree of the system calls it makes: [prog] has one
    constructor for each call of the shell, with what the program does next for
    each result.  [act] gives the calls their effect on the process that makes
    them ([open], [pipe] and [dup] take the lowest free descriptors, as sysfile.c
    has it, [fork] copies the table); [step] lets any process be next, and a
    process in [wait] goes on when a child has exited.  [plan] predicts a program
    from its text alone, and [runs_plan] shows that every interleaving keeps to
    it: nothing is started twice or too early, no run gets stuck, none goes on
    for ever. *)

From S2P Require Import Prelude.
#[local] Open Scope Z_scope.

Inductive prog :=
  | Exit (status : Z)
  | Exec (path : list Z) (argv : list (list Z)) (failed : prog)
  | Open (path : list Z) (mode : Z) (k : Z → prog)
  | Close (fd : Z) (k : prog)
  | Dup (fd : Z) (k : prog)
  | Pipe (k : Z → Z * Z → prog)
  | Fork (k : Z → prog)
  | Wait (k : prog)
  | Chdir (path : list Z) (k : Z → prog)
  | Printf (fd : Z) (text : list Z) (k : prog).

Definition NOFILE : nat := 16.

(** ** Processes

    A process is named by the path of forks that leads to it: its [k]th child is
    its own name with [k] behind.  A pipe is named by the process that made it
    and a number. *)

Inductive obj :=
  | Console
  | OpenFile (path : list Z) (mode : Z)
  | PipeRead (maker : list nat) (k : nat)
  | PipeWrite (maker : list nat) (k : nat).

Notation fdtable := (gmap Z obj).

(** [fdalloc]: the lowest free descriptor. *)
Definition fdalloc (fds : fdtable) : option Z := head (filter (λ fd, fds !! fd = None) (Z.of_nat <$> seq 0 NOFILE)).

(** A program started by [exec]. *)
Record launch := Launch {
  l_path : list Z;
  l_argv : list (list Z);
  l_fds : fdtable;
}.

(** A process runs the shell's code, or a program it has started with [exec], or
    has exited, and then may have been waited for. *)
Inductive status :=
  | Run (p : prog)
  | Running (l : launch)
  | Zombie
  | Reaped.

Record uproc := mkProc {
  name : list nat;
  st : status;
  tab : fdtable;
  npipe : nat;
  nkid : nat;
}.

Definition dead (p : uproc) : Prop := st p = Zombie ∨ st p = Reaped.

(** [n] is the name of a child of [me]. *)
Definition child_of (me n : list nat) : bool := match n with [] => false | _ => bool_decide (removelast n = me) end.

Inductive event :=
  | Start (who : list nat) (l : launch)
  | Ended (who : list nat).

Section Run.
(** Whether [open(path, mode)] and [exec(path)] succeed. *)
Variable open_ok : list Z → Z → bool.
Variable exec_ok : list Z → bool.

Definition do_open (path : list Z) (mode : Z) (fds : fdtable) : Z * fdtable :=
  match fdalloc fds with
  | Some fd => if open_ok path mode then (fd, <[fd := OpenFile path mode]> fds) else (-1, fds)
  | None => (-1, fds)
  end.

Definition do_dup (fd : Z) (fds : fdtable) : fdtable :=
  match fds !! fd, fdalloc fds with
  | Some o, Some fd' => <[fd' := o]> fds
  | _, _ => fds
  end.

Definition do_pipe (me : list nat) (k : nat) (fds : fdtable) : Z * (Z * Z) * fdtable :=
  match fdalloc fds with
  | Some fd0 =>
      let fds1 := <[fd0 := PipeRead me k]> fds in
      match fdalloc fds1 with
      | Some fd1 => (0, (fd0, fd1), <[fd1 := PipeWrite me k]> fds1)
      | None => (-1, (0, 0), fds)
      end
  | None => (-1, (0, 0), fds)
  end.

(** What a process does next on its own: itself after the step, the processes it
    makes and what can be seen of it.  [fork] succeeds, with a pid that is not 0
    for the parent; a program started with [exec] runs until it exits. *)
Definition act (p : uproc) : option (uproc * list uproc * list event) :=
  let run := λ q fds, mkProc (name p) (Run q) fds (npipe p) (nkid p) in
  let become := λ x, mkProc (name p) x (tab p) (npipe p) (nkid p) in
  match st p with
  | Run (Exit _) => Some (become Zombie, [], [])
  | Run (Exec path argv failed) =>
      let l := Launch path argv (tab p) in
      if exec_ok path then Some (become (Running l), [], [Start (name p) l]) else Some (run failed (tab p), [], [])
  | Run (Open path mode k) => let '(r, fds) := do_open path mode (tab p) in Some (run (k r) fds, [], [])
  | Run (Close fd k) => Some (run k (delete fd (tab p)), [], [])
  | Run (Dup fd k) => Some (run k (do_dup fd (tab p)), [], [])
  | Run (Pipe k) =>
      let '(r, fd, fds) := do_pipe (name p) (npipe p) (tab p) in
      Some (mkProc (name p) (Run (k r fd)) fds (S (npipe p)) (nkid p), [], [])
  | Run (Fork k) =>
      Some (mkProc (name p) (Run (k 1)) (tab p) (npipe p) (S (nkid p)),
            [mkProc (name p ++ [nkid p]) (Run (k 0)) (tab p) 0 0], [])
  | Run (Wait _) => None
  | Run (Chdir _ k) => Some (run (k 0) (tab p), [], [])
  | Run (Printf _ _ k) => Some (run k (tab p), [], [])
  | Running l => Some (become Zombie, [], [Ended (name p)])
  | Zombie | Reaped => None
  end.

Definition resume (p : uproc) (k : prog) : uproc := mkProc (name p) (Run k) (tab p) (npipe p) (nkid p).
Definition bury (q : uproc) : uproc := mkProc (name q) Reaped (tab q) (npipe q) (nkid q).

(** Any process may be next; the order in the list means nothing.  [wait] returns
    when a child has exited, or when there is none to wait for. *)
Inductive step : list uproc → list event → list uproc → Prop :=
  | step_act cfg p rest p' new ev :
      cfg ≡ₚ p :: rest → act p = Some (p', new, ev) → step cfg ev (p' :: new ++ rest)
  | step_reap cfg p q rest k :
      cfg ≡ₚ p :: q :: rest → st p = Run (Wait k) → child_of (name p) (name q) = true → st q = Zombie →
      step cfg [] (resume p k :: bury q :: rest)
  | step_none cfg p rest k :
      cfg ≡ₚ p :: rest → st p = Run (Wait k) → (∀ q, q ∈ rest → child_of (name p) (name q) = true → st q = Reaped) →
      step cfg [] (resume p k :: rest).

(** [n] steps, and what has been seen. *)
Inductive runs (cfg : list uproc) : nat → list event → list uproc → Prop :=
  | runs_nil : runs cfg 0 [] cfg
  | runs_snoc n tr cfg1 ev cfg2 : runs cfg n tr cfg1 → step cfg1 ev cfg2 → runs cfg (S n) (tr ++ ev) cfg2.

(** ** What happens in a run *)

(** A program to start, and the processes whose programs must have ended by
    then. *)
Record job := Job {
  j_name : list nat;
  j_launch : launch;
  j_after : list (list nat);
}.

Definition starts (tr : list event) : list (list nat * launch) :=
  omap (λ e, match e with Start n l => Some (n, l) | Ended _ => None end) tr.
Definition planned (js : list job) : list (list nat * launch) := (λ j, (j_name j, j_launch j)) <$> js.

(** Everything started is a job of [js], and what has to end before it has
    ended. *)
Definition in_order (js : list job) (tr : list event) : Prop :=
  ∀ tr1 n l tr2, tr = tr1 ++ Start n l :: tr2 → ∃ after, Job n l after ∈ js ∧ ∀ x, x ∈ after → Ended x ∈ tr1.

(** *** What a program of system calls will do

    [plan] follows a process and those it forks: the programs they start, each
    with those that are known to have ended by then, the programs that have
    ended when the process exits, and the number of steps.  The process has [nk]
    children, [u] of which have not been waited for; when these have exited, the
    programs of [batch] have ended; those of [inh] and [acc] have ended
    already. *)
Record outlook := mkOut {
  o_jobs : list job;
  o_fg : list (list nat);
  o_steps : nat;
}.

Definition tick (o : outlook) : outlook := mkOut (o_jobs o) (o_fg o) (S (o_steps o)).

Fixpoint plan (p : prog) (me : list nat) (fds : fdtable) (np nk u : nat) (batch inh acc : list (list nat)) : outlook :=
  match p with
  | Exit _ => mkOut [] acc 1
  | Exec path argv failed =>
      if exec_ok path then mkOut [Job me (Launch path argv fds) (inh ++ acc)] (acc ++ [me]) 2
      else tick (plan failed me fds np nk u batch inh acc)
  | Open path mode k => let '(r, fds) := do_open path mode fds in tick (plan (k r) me fds np nk u batch inh acc)
  | Close fd k => tick (plan k me (delete fd fds) np nk u batch inh acc)
  | Dup fd k => tick (plan k me (do_dup fd fds) np nk u batch inh acc)
  | Pipe k => let '(r, fd, fds) := do_pipe me np fds in tick (plan (k r fd) me fds (S np) nk u batch inh acc)
  | Fork k =>
      let c := plan (k 0) (me ++ [nk]) fds 0 0 0 [] (inh ++ acc) [] in
      let r := plan (k 1) me fds np (S nk) (S u) (batch ++ o_fg c) inh acc in
      mkOut (o_jobs c ++ o_jobs r) (o_fg r) (S (o_steps c + o_steps r))
  | Wait k =>
      match u with
      | O => tick (plan k me fds np nk 0 batch inh acc)
      | S O => tick (plan k me fds np nk 0 [] inh (acc ++ batch))
      | S u' => tick (plan k me fds np nk u' batch inh acc)
      end
  | Chdir _ k => tick (plan (k 0) me fds np nk u batch inh acc)
  | Printf _ _ k => tick (plan k me fds np nk u batch inh acc)
  end.

(** *** Every run keeps to the plan *)

(** What is known of a process beside its state: the arguments of [plan], and the
    programs that have ended when it exits. *)
Record ghost := mkGhost {
  g_batch : list (list nat);
  g_inh : list (list nat);
  g_acc : list (list nat);
  g_fg : list (list nat);
}.

Definition waiting (me : list nat) (q : uproc) : Prop := child_of me (name q) = true ∧ st q ≠ Reaped.

#[local] Instance reaped_dec q : Decision (st q = Reaped).
Proof. destruct (st q); first [by left|by right]. Defined.

#[local] Instance waiting_dec me q : Decision (waiting me q).
Proof. unfold waiting. apply _. Defined.

Definition unreaped (me : list nat) (cfg : list uproc) : nat := length (filter (waiting me) cfg).

Definition look (cfg : list uproc) (G : list nat → ghost) (p : uproc) : outlook :=
  let g := G (name p) in
  match st p with
  | Run q => plan q (name p) (tab p) (npipe p) (nkid p) (unreaped (name p) cfg) (g_batch g) (g_inh g) (g_acc g)
  | Running _ => mkOut [] (g_acc g ++ [name p]) 1
  | Zombie | Reaped => mkOut [] (g_fg g) 0
  end.

(** After [n] steps that showed [tr], in a run planned to start [js] in [N]
    steps. *)
Record inv (js : list job) (N n : nat) (tr : list event) (G : list nat → ghost) (cfg : list uproc) : Prop := mk_inv {
  inv_names : NoDup (name <$> cfg);
  inv_parent : ∀ q, q ∈ cfg → ∀ me i, name q = me ++ [i] → ∃ p, p ∈ cfg ∧ name p = me ∧ (i < nkid p)%nat;
  inv_fg : ∀ p, p ∈ cfg → o_fg (look cfg G p) = g_fg (G (name p));
  inv_acc : ∀ p, p ∈ cfg → ∀ x, x ∈ g_inh (G (name p)) ++ g_acc (G (name p)) → Ended x ∈ tr;
  inv_dead : ∀ p, p ∈ cfg → dead p → ∀ x, x ∈ g_fg (G (name p)) → Ended x ∈ tr;
  inv_batch : ∀ p, p ∈ cfg → ∀ x, x ∈ g_batch (G (name p)) →
    Ended x ∈ tr ∨ ∃ q, q ∈ cfg ∧ waiting (name p) q ∧ x ∈ g_fg (G (name q));
  inv_jobs : ∃ done, starts tr = planned done ∧ done ++ (cfg ≫= λ p, o_jobs (look cfg G p)) ≡ₚ js;
  inv_order : in_order js tr;
  inv_ended : ∀ x l, (x, l) ∈ starts tr → Ended x ∈ tr ∨ ∃ p, p ∈ cfg ∧ name p = x ∧ ∃ l', st p = Running l';
  inv_steps : (sum_list ((λ p, o_steps (look cfg G p)) <$> cfg) + n = N)%nat;
}.

Lemma child_of_spec me n : child_of me n = true ↔ ∃ i, n = me ++ [i].
Proof.
  destruct n as [|a n]; cbn [child_of].
  - split; [done|]. intros [i E]. by destruct me.
  - rewrite bool_decide_eq_true. split.
    + intros <-. exists (List.last (a :: n) 0%nat). by apply app_removelast_last.
    + intros [i ->]. apply removelast_last.
Qed.

Lemma unreaped_perm me cfg cfg' : cfg ≡ₚ cfg' → unreaped me cfg = unreaped me cfg'.
Proof. intros H. unfold unreaped. by rewrite H. Qed.

Lemma unreaped_cons me q cfg : unreaped me (q :: cfg) = ((if decide (waiting me q) then 1 else 0) + unreaped me cfg)%nat.
Proof. unfold unreaped. rewrite filter_cons. by destruct (decide (waiting me q)). Qed.

Lemma look_ext cfg cfg' G G' p : unreaped (name p) cfg = unreaped (name p) cfg' → G (name p) = G' (name p) →
  look cfg G p = look cfg' G' p.
Proof. unfold look. by intros -> ->. Qed.

Lemma look_rest rest cfg cfg' G G' : (∀ r, r ∈ rest → look cfg' G' r = look cfg G r) →
  (rest ≫= λ p, o_jobs (look cfg' G' p)) = (rest ≫= λ p, o_jobs (look cfg G p)) ∧
  sum_list ((λ p, o_steps (look cfg' G' p)) <$> rest) = sum_list ((λ p, o_steps (look cfg G p)) <$> rest).
Proof.
  induction rest as [|r rest IH]; intros H; [done|]. destruct IH as [E1 E2]; [set_solver|].
  rewrite !bind_cons, !fmap_cons, (H r) by set_solver. cbn [sum_list sum_list_with]. by rewrite E1, E2.
Qed.

Lemma inv_perm js N n tr G cfg cfg' : cfg ≡ₚ cfg' → inv js N n tr G cfg → inv js N n tr G cfg'.
Proof.
  intros HP H. assert (∀ p, look cfg' G p = look cfg G p) as Hl by (intros p; apply look_ext; [by apply unreaped_perm|done]).
  destruct H. constructor; try done.
  - by rewrite <-HP.
  - intros q Hq me i E. rewrite <-HP in Hq. destruct (inv_parent0 q Hq me i E) as (p & Hp & ?). exists p. by rewrite <-HP.
  - intros p Hp. rewrite <-HP in Hp. rewrite Hl. auto.
  - intros p Hp. rewrite <-HP in Hp. exact (inv_acc0 p Hp).
  - intros p Hp. rewrite <-HP in Hp. exact (inv_dead0 p Hp).
  - intros p Hp x Hx. rewrite <-HP in Hp. destruct (inv_batch0 p Hp x Hx) as [?|(q & Hq & ?)]; [by left|right].
    exists q. by rewrite <-HP.
  - destruct inv_jobs0 as (d & E & Ed). exists d. split; [done|]. rewrite <-Ed, HP.
    by rewrite (proj1 (look_rest cfg' cfg cfg' G G (λ r _, Hl r))).
  - intros x l Hx. destruct (inv_ended0 x l Hx) as [?|(p & Hp & ?)]; [by left|right]. exists p. by rewrite <-HP.
  - rewrite <-inv_steps0, HP, (proj2 (look_rest cfg' cfg cfg' G G (λ r _, Hl r))). done.
Qed.

(** A process in the middle of a list of them. *)
Lemma unreaped_same me p p' rest : name p' = name p → (st p = Reaped ↔ st p' = Reaped) →
  unreaped me (p' :: rest) = unreaped me (p :: rest).
Proof.
  intros En Es. rewrite !unreaped_cons. f_equal.
  assert (waiting me p' ↔ waiting me p) by (unfold waiting; rewrite En; naive_solver). repeat case_decide; naive_solver.
Qed.

Lemma inv_other js N n tr G p rest r : inv js N n tr G (p :: rest) → r ∈ rest → name r ≠ name p.
Proof.
  intros H Hr E. pose proof (inv_names _ _ _ _ _ _ H) as Hn. rewrite fmap_cons, NoDup_cons in Hn.
  apply (proj1 Hn). rewrite <-E. by apply list_elem_of_fmap_2.
Qed.

(** A step of one process that makes no other and does not wait. *)
Lemma inv_local js N n tr G p p' rest ev js' :
  inv js N n tr G (p :: rest) → name p' = name p → nkid p' = nkid p → st p ≠ Reaped → st p' ≠ Reaped →
  o_fg (look (p' :: rest) G p') = o_fg (look (p :: rest) G p) →
  (dead p' → ∀ x, x ∈ g_fg (G (name p)) → Ended x ∈ tr ++ ev) →
  starts ev = planned js' → js' ++ o_jobs (look (p' :: rest) G p') = o_jobs (look (p :: rest) G p) →
  in_order js (tr ++ ev) →
  (∀ x l, (x, l) ∈ starts ev → x = name p ∧ ∃ l', st p' = Running l') →
  (∀ l, st p = Running l → Ended (name p) ∈ ev) →
  S (o_steps (look (p' :: rest) G p')) = o_steps (look (p :: rest) G p) →
  inv js N (S n) (tr ++ ev) G (p' :: rest).
Proof.
  intros H En Ek Hr Hr' Hfg Hdead Hs Hj Hord Hst Hrun Hc.
  assert (∀ r, r ∈ rest → look (p' :: rest) G r = look (p :: rest) G r) as Hl.
  { intros r _. apply look_ext; [apply unreaped_same; [done|naive_solver]|done]. }
  destruct (look_rest _ _ _ _ _ Hl) as [Ej Es]. destruct H.
  assert (∀ r, r ∈ p' :: rest → ∃ r0, r0 ∈ p :: rest ∧ name r0 = name r) as Hold.
  { intros r [->|Hr1]%elem_of_cons; [exists p|exists r]; set_solver. }
  assert (∀ r, r ∈ p :: rest → ∃ r1, r1 ∈ p' :: rest ∧ name r1 = name r ∧ nkid r1 = nkid r ∧ (st r ≠ Reaped → st r1 ≠ Reaped)) as Hnew.
  { intros r [->|Hr1]%elem_of_cons; [exists p'|exists r]; set_solver. }
  constructor.
  - by rewrite fmap_cons, En.
  - intros q (q0 & Hq & Eq)%Hold me i E. rewrite <-Eq in E. destruct (inv_parent0 q0 Hq me i E) as (r & (r1 & ? & ? & ? & _)%Hnew & ? & ?).
    exists r1. split; [done|]. split; [congruence|lia].
  - intros r [->|Hr1]%elem_of_cons; [|rewrite Hl by done; apply inv_fg0; set_solver].
    rewrite Hfg, En. apply inv_fg0. set_solver.
  - intros r (r0 & Hr0 & <-)%Hold x Hx. apply elem_of_app. left. by apply (inv_acc0 r0).
  - intros r [->|Hr1]%elem_of_cons Hd x Hx; [apply Hdead; [done|by rewrite <-En]|].
    apply elem_of_app. left. apply (inv_dead0 r); [set_solver|done|done].
  - intros r (r0 & Hr0 & <-)%Hold x Hx. destruct (inv_batch0 r0 Hr0 x Hx) as [Hin|(q & Hq & Hw & Hx')]; [left; set_solver|right].
    destruct (Hnew q Hq) as (q1 & Hq1 & E1 & _ & Hs1). exists q1. unfold waiting in *. rewrite E1. naive_solver.
  - destruct inv_jobs0 as (d & E & Ed). exists (d ++ js'). unfold starts, planned in *. rewrite omap_app, fmap_app, E, Hs. split; [done|].
    rewrite <-Ed, !bind_cons, Ej, <-Hj. by rewrite <-!app_assoc.
  - done.
  - intros x l Hx. unfold starts in Hx. rewrite omap_app, elem_of_app in Hx. destruct Hx as [Hx|Hx].
    + destruct (inv_ended0 x l Hx) as [?|(q & Hq & Eq & l' & El)]; [left; set_solver|].
      apply elem_of_cons in Hq as [->|Hq]; [left; rewrite <-Eq; apply elem_of_app; right; by eapply Hrun|].
      right. exists q. split; [set_solver|eauto].
    + destruct (Hst x l Hx) as (-> & l' & El). right. exists p'. split; [set_solver|eauto].
  - rewrite fmap_cons in *. cbn [sum_list_with id] in *. rewrite Es. lia.
Qed.

Lemma in_order_snoc js tr e : in_order js tr →
  (∀ n l, e = Start n l → ∃ after, Job n l after ∈ js ∧ ∀ x, x ∈ after → Ended x ∈ tr) → in_order js (tr ++ [e]).
Proof.
  intros H He tr1 n l tr2 E. destruct tr2 as [|e' tr2 _] using rev_ind.
  - apply app_inj_tail in E as [<- ->]. by apply He.
  - rewrite app_comm_cons, app_assoc in E. apply app_inj_tail in E as [-> ->]. by eapply H.
Qed.

(** A call that only changes what the process will do. *)
Lemma inv_tick js N n tr G p p' rest q q' : inv js N n tr G (p :: rest) → st p = Run q → st p' = Run q' →
  name p' = name p → nkid p' = nkid p → look (p :: rest) G p = tick (look (p :: rest) G p') →
  inv js N (S n) (tr ++ []) G (p' :: rest).
Proof.
  intros H E E' En Ek Hl.
  assert (look (p' :: rest) G p' = look (p :: rest) G p') as El.
  { apply look_ext; [|done]. apply unreaped_same; [done|]. rewrite E, E'. done. }
  eapply (inv_local _ _ _ _ _ p p' rest [] []); rewrite ?El, ?Hl, ?E, ?E'; try done.
  - intros [?|?]; congruence.
  - rewrite app_nil_r. by destruct H.
  - intros x l Hx. by apply not_elem_of_nil in Hx.
Qed.

(** A process that starts a program. *)
Lemma inv_exec js N n tr G p rest path argv failed : inv js N n tr G (p :: rest) → st p = Run (Exec path argv failed) →
  exec_ok path = true → let l := Launch path argv (tab p) in
  inv js N (S n) (tr ++ [Start (name p) l]) G (mkProc (name p) (Running l) (tab p) (npipe p) (nkid p) :: rest).
Proof.
  intros H E Ex l. set (g := G (name p)).
  assert (look (p :: rest) G p = mkOut [Job (name p) l (g_inh g ++ g_acc g)] (g_acc g ++ [name p]) 2) as El
    by (unfold look; rewrite E; cbn; by rewrite Ex).
  eapply (inv_local _ _ _ _ _ p _ rest _ [Job (name p) l (g_inh g ++ g_acc g)]); rewrite ?El, ?E; try done.
  - by intros [?|?].
  - apply in_order_snoc; [by destruct H|]. intros n' l' [= <- <-]. exists (g_inh g ++ g_acc g). split.
    + destruct (inv_jobs _ _ _ _ _ _ H) as (d & _ & <-). rewrite bind_cons, El. apply elem_of_app. right. by left.
    + intros x Hx. apply (inv_acc _ _ _ _ _ _ H p); [set_solver|done].
  - intros x l' Hx. apply list_elem_of_singleton in Hx as [= -> ->]. eauto.
Qed.

(** The program ends, or the process exits. *)
Lemma inv_end js N n tr G p rest l : inv js N n tr G (p :: rest) → st p = Running l →
  inv js N (S n) (tr ++ [Ended (name p)]) G (mkProc (name p) Zombie (tab p) (npipe p) (nkid p) :: rest).
Proof.
  intros H E. set (g := G (name p)).
  assert (look (p :: rest) G p = mkOut [] (g_acc g ++ [name p]) 1) as El by (unfold look; by rewrite E).
  pose proof (inv_fg _ _ _ _ _ _ H p ltac:(set_solver)) as Hfg. rewrite El in Hfg. cbn in Hfg.
  eapply (inv_local _ _ _ _ _ p _ rest _ []); rewrite ?El, ?E; try done.
  - intros _ x. fold g in Hfg |- *. rewrite <-Hfg, elem_of_app, list_elem_of_singleton, elem_of_app.
    intros [Hx| ->]; [left|set_solver]. apply (inv_acc _ _ _ _ _ _ H p); set_solver.
  - apply in_order_snoc; [by destruct H|done].
  - intros x l' Hx. by apply not_elem_of_nil in Hx.
  - set_solver.
Qed.

Lemma inv_exit js N n tr G p rest c : inv js N n tr G (p :: rest) → st p = Run (Exit c) →
  inv js N (S n) (tr ++ []) G (mkProc (name p) Zombie (tab p) (npipe p) (nkid p) :: rest).
Proof.
  intros H E. set (g := G (name p)).
  assert (look (p :: rest) G p = mkOut [] (g_acc g) 1) as El by (unfold look; by rewrite E).
  pose proof (inv_fg _ _ _ _ _ _ H p ltac:(set_solver)) as Hfg. rewrite El in Hfg. cbn in Hfg.
  eapply (inv_local _ _ _ _ _ p _ rest _ []); rewrite ?El, ?E, ?app_nil_r; try done.
  - intros _ x. fold g in Hfg |- *. rewrite <-Hfg. intros Hx. apply (inv_acc _ _ _ _ _ _ H p); set_solver.
  - by destruct H.
  - intros x l' Hx. by apply not_elem_of_nil in Hx.
Qed.

Definition upd (G : list nat → ghost) (n : list nat) (g : ghost) : list nat → ghost := λ m, if decide (m = n) then g else G m.

Lemma upd_eq G n g : upd G n g n = g.
Proof. unfold upd. by rewrite decide_True. Qed.

Lemma upd_ne G n g m : m ≠ n → upd G n g m = G m.
Proof. intros H. unfold upd. by rewrite decide_False. Qed.

Lemma unreaped_0 me cfg : (∀ q, q ∈ cfg → ¬ waiting me q) → unreaped me cfg = 0%nat.
Proof. intros H. unfold unreaped. by rewrite filter_none. Qed.

Lemma child_of_app me i : child_of me (me ++ [i]) = true.
Proof. apply child_of_spec. eauto. Qed.

Lemma child_of_unique me me' n : child_of me n = true → child_of me' n = true → me = me'.
Proof. rewrite !child_of_spec. intros [i ->] [j E]. by apply app_inj_tail in E as [-> _]. Qed.

(** A new child has a new name, and no children. *)
Lemma inv_fresh js N n tr G p rest : inv js N n tr G (p :: rest) → ∀ q, q ∈ p :: rest → name q ≠ name p ++ [nkid p].
Proof.
  intros H q Hq E. destruct (inv_parent _ _ _ _ _ _ H q Hq _ _ E) as (p1 & Hp1 & E1 & Hlt).
  apply elem_of_cons in Hp1 as [->|Hp1]; [lia|]. by apply (inv_other _ _ _ _ _ _ _ _ H Hp1).
Qed.

Lemma inv_childless js N n tr G p rest : inv js N n tr G (p :: rest) → unreaped (name p ++ [nkid p]) (p :: rest) = 0%nat.
Proof.
  intros H. apply unreaped_0. intros q Hq [(i & E)%child_of_spec _].
  destruct (inv_parent _ _ _ _ _ _ H q Hq _ _ E) as (p1 & Hp1 & E1 & _). by apply (inv_fresh _ _ _ _ _ _ _ H p1).
Qed.

(** *** fork *)

Definition fork_parent (p : uproc) (k : Z → prog) : uproc := mkProc (name p) (Run (k 1)) (tab p) (npipe p) (S (nkid p)).
Definition fork_child (p : uproc) (k : Z → prog) : uproc := mkProc (name p ++ [nkid p]) (Run (k 0)) (tab p) 0 0.

Definition fork_fg (G : list nat → ghost) (p : uproc) (k : Z → prog) : list (list nat) :=
  let g := G (name p) in o_fg (plan (k 0) (name p ++ [nkid p]) (tab p) 0 0 0 [] (g_inh g ++ g_acc g) []).

Definition fork_ghost (G : list nat → ghost) (p : uproc) (k : Z → prog) : list nat → ghost :=
  let g := G (name p) in
  upd (upd G (name p) (mkGhost (g_batch g ++ fork_fg G p k) (g_inh g) (g_acc g) (g_fg g)))
      (name p ++ [nkid p]) (mkGhost [] (g_inh g ++ g_acc g) [] (fork_fg G p k)).

Lemma name_not_child (me : list nat) i : me ≠ me ++ [i].
Proof. intros E. apply (f_equal length) in E. rewrite length_app in E. cbn in E. lia. Qed.

Lemma fork_ghost_parent G p k : fork_ghost G p k (name p) =
  mkGhost (g_batch (G (name p)) ++ fork_fg G p k) (g_inh (G (name p))) (g_acc (G (name p))) (g_fg (G (name p))).
Proof. unfold fork_ghost. rewrite upd_ne by apply name_not_child. apply upd_eq. Qed.

Lemma fork_ghost_child G p k : fork_ghost G p k (name p ++ [nkid p]) =
  mkGhost [] (g_inh (G (name p)) ++ g_acc (G (name p))) [] (fork_fg G p k).
Proof. apply upd_eq. Qed.

Lemma fork_ghost_rest js N n tr G p k rest r : inv js N n tr G (p :: rest) → r ∈ rest → fork_ghost G p k (name r) = G (name r).
Proof.
  intros H Hr. unfold fork_ghost. rewrite upd_ne by (apply (inv_fresh _ _ _ _ _ _ _ H); set_solver).
  apply upd_ne. by apply (inv_other _ _ _ _ _ _ _ _ H).
Qed.

Lemma fork_unreaped p k q rest me : st p = Run q → unreaped me (fork_parent p k :: fork_child p k :: rest) =
  ((if decide (me = name p) then 1 else 0) + unreaped me (p :: rest))%nat.
Proof.
  intros E. rewrite !unreaped_cons.
  assert (waiting me (fork_parent p k) ↔ waiting me p) by (unfold waiting; cbn; rewrite E; naive_solver).
  assert (waiting me (fork_child p k) ↔ me = name p).
  { unfold waiting. cbn. split; [|intros ->; split; [apply child_of_app|done]].
    intros [Hc _]. eapply child_of_unique; [done|apply child_of_app]. }
  repeat case_decide; naive_solver lia.
Qed.

Lemma fork_looks js N n tr G p k rest : inv js N n tr G (p :: rest) → st p = Run (Fork k) →
  let cfg' := fork_parent p k :: fork_child p k :: rest in let G' := fork_ghost G p k in
  let c := look cfg' G' (fork_child p k) in let r := look cfg' G' (fork_parent p k) in
  o_fg c = fork_fg G p k ∧
  look (p :: rest) G p = mkOut (o_jobs c ++ o_jobs r) (o_fg r) (S (o_steps c + o_steps r)) ∧
  ∀ r, r ∈ rest → look cfg' G' r = look (p :: rest) G r.
Proof.
  intros H E cfg' G' c r.
  assert (c = plan (k 0) (name p ++ [nkid p]) (tab p) 0 0 0 [] (g_inh (G (name p)) ++ g_acc (G (name p))) []) as ->.
  { unfold c, look, cfg', G'. cbn [st fork_child name tab npipe nkid]. rewrite fork_ghost_child.
    rewrite (fork_unreaped _ _ (Fork k)), decide_False, (inv_childless _ _ _ _ _ _ _ H) by (done || apply not_eq_sym, name_not_child). done. }
  split; [done|]. split.
  - unfold r, look, cfg', G'. cbn [st fork_parent name tab npipe nkid]. rewrite fork_ghost_parent.
    rewrite (fork_unreaped _ _ (Fork k)), decide_True by done. by rewrite E.
  - intros q Hq. apply look_ext; [|by eapply fork_ghost_rest]. unfold cfg'.
    rewrite (fork_unreaped _ _ (Fork k)), decide_False; [done|by eapply inv_other|done].
Qed.

Lemma inv_fork js N n tr G p k rest : inv js N n tr G (p :: rest) → st p = Run (Fork k) →
  inv js N (S n) (tr ++ []) (fork_ghost G p k) (fork_parent p k :: fork_child p k :: rest).
Proof.
  intros H E. rewrite app_nil_r. destruct (fork_looks _ _ _ _ _ _ k _ H E) as (Hfc & Hlp & Hlr).
  assert (∀ r, r ∈ rest → fork_ghost G p k (name r) = G (name r)) as HG by (intros r Hr; by eapply fork_ghost_rest).
  pose proof (fork_ghost_parent G p k) as Hgp. pose proof (fork_ghost_child G p k) as Hgc.
  pose proof (inv_fresh _ _ _ _ _ _ _ H) as Hfr.
  destruct (look_rest _ _ _ _ _ Hlr) as [Ej Es]. destruct H.
  assert (∀ r, r ∈ p :: rest → ∃ r1, r1 ∈ fork_parent p k :: fork_child p k :: rest ∧ name r1 = name r ∧ (nkid r <= nkid r1)%nat ∧
    (st r ≠ Reaped → st r1 ≠ Reaped) ∧ g_fg (fork_ghost G p k (name r1)) = g_fg (G (name r))) as Hnew.
  { intros r [->|Hr1]%elem_of_cons; [exists (fork_parent p k)|exists r]; (split; [set_solver|]); (split; [done|]).
    - cbn. rewrite Hgp. split; [lia|done].
    - split; [lia|]. by rewrite HG. }
  constructor.
  - cbn. rewrite !NoDup_cons, elem_of_cons. rewrite fmap_cons, NoDup_cons in inv_names0.
    destruct inv_names0 as [Hn1 Hn2]. split_and!; [|intros (q & Eq & Hq)%list_elem_of_fmap; by apply (Hfr q); [set_solver|]|done].
    intros [E1|?]; [by apply name_not_child in E1|done].
  - intros q Hq me i Eq. apply elem_of_cons in Hq as [->|[->|Hq]%elem_of_cons].
    + destruct (inv_parent0 p ltac:(set_solver) me i Eq) as (r & (r1 & ? & ? & ? & _)%Hnew & ? & ?).
      exists r1. split; [done|]. split; [congruence|lia].
    + apply app_inj_tail in Eq as [<- <-]. exists (fork_parent p k). split; [set_solver|]. split; [done|]. cbn. lia.
    + destruct (inv_parent0 q ltac:(set_solver) me i Eq) as (r & (r1 & ? & ? & ? & _)%Hnew & ? & ?).
      exists r1. split; [done|]. split; [congruence|lia].
  - intros q [->|[->|Hq]%elem_of_cons]%elem_of_cons; [|by rewrite Hfc; cbn; rewrite Hgc|rewrite Hlr, HG by done; apply inv_fg0; set_solver].
    cbn [name fork_parent]. rewrite Hgp. cbn [g_fg]. rewrite <-(inv_fg0 p), Hlp by set_solver. done.
  - intros q [->|[->|Hq]%elem_of_cons]%elem_of_cons x; [| |rewrite HG by done; apply inv_acc0; set_solver];
      cbn [name fork_parent fork_child]; rewrite ?Hgp, ?Hgc; cbn [g_inh g_acc]; rewrite ?app_nil_r; apply inv_acc0; set_solver.
  - intros q [->|[->|Hq]%elem_of_cons]%elem_of_cons Hd x; [by destruct Hd|by destruct Hd|].
    rewrite HG by done. apply inv_dead0; set_solver.
  - assert (∀ r, r ∈ p :: rest → ∀ x, x ∈ g_batch (G (name r)) → Ended x ∈ tr ∨ ∃ q, q ∈ fork_parent p k :: fork_child p k :: rest ∧
      waiting (name r) q ∧ x ∈ g_fg (fork_ghost G p k (name q))) as Hb.
    { intros r Hr x Hx. destruct (inv_batch0 r Hr x Hx) as [?|(q & (q1 & ? & Eq & _ & Hs & Hf)%Hnew & [Hc Hw] & ?)]; [by left|right].
      exists q1. split; [done|]. rewrite Hf. split; [|done]. split; [by rewrite Eq|auto]. }
    intros q [->|[->|Hq]%elem_of_cons]%elem_of_cons x; cbn [name fork_parent fork_child].
    + rewrite Hgp. cbn [g_batch]. intros [Hx|Hx]%elem_of_app; [apply Hb; [set_solver|done]|right].
      exists (fork_child p k). split; [set_solver|]. cbn. rewrite Hgc. split; [split; [apply child_of_app|done]|done].
    + rewrite Hgc. intros Hx. by apply not_elem_of_nil in Hx.
    + rewrite HG by done. apply Hb. set_solver.
  - destruct inv_jobs0 as (d & E1 & Ed). exists d. split; [done|]. rewrite <-Ed, !bind_cons, Ej, Hlp. cbn [o_jobs].
    solve_Permutation.
  - done.
  - intros x l Hx. destruct (inv_ended0 x l Hx) as [?|(q & Hq & Eq & l' & El)]; [by left|right].
    apply elem_of_cons in Hq as [->|Hq]; [congruence|]. exists q. split; [set_solver|eauto].
  - rewrite !fmap_cons in *. rewrite Hlp in inv_steps0. cbn [sum_list_with id o_steps] in *. rewrite Es. lia.
Qed.

(** *** wait *)

(** When the last child is reaped the programs of the batch have ended. *)
Definition reap_ghost (G : list nat → ghost) (p : uproc) (u : nat) : list nat → ghost :=
  let g := G (name p) in
  upd G (name p) (match u with O => mkGhost [] (g_inh g) (g_acc g ++ g_batch g) (g_fg g) | _ => g end).

Lemma reap_ghost_fg G p u me : g_fg (reap_ghost G p u me) = g_fg (G me).
Proof. unfold reap_ghost, upd. case_decide; [|done]. subst. by destruct u. Qed.

Lemma reap_ghost_batch G p u me x : x ∈ g_batch (reap_ghost G p u me) → x ∈ g_batch (G me) ∧ (me = name p → u ≠ 0%nat).
Proof.
  unfold reap_ghost, upd. case_decide; [subst; destruct u|]; cbn; [|done|done].
  intros Hx. by apply not_elem_of_nil in Hx.
Qed.

Lemma reap_unreaped p q rest k me : st p = Run (Wait k) → child_of (name p) (name q) = true → st q = Zombie →
  unreaped me (p :: q :: rest) = ((if decide (me = name p) then 1 else 0) + unreaped me (resume p k :: bury q :: rest))%nat.
Proof.
  intros Ep Hc Eq. rewrite !unreaped_cons.
  assert (waiting me (resume p k) ↔ waiting me p) by (unfold waiting; cbn; rewrite Ep; naive_solver).
  assert (¬ waiting me (bury q)) by (unfold waiting; cbn; naive_solver).
  assert (waiting me q ↔ me = name p).
  { unfold waiting. rewrite Eq. split; [|by intros ->]. intros [Hc' _]. by eapply child_of_unique. }
  repeat case_decide; naive_solver lia.
Qed.

Lemma reap_looks js N n tr G p q k rest : inv js N n tr G (p :: q :: rest) → st p = Run (Wait k) →
  child_of (name p) (name q) = true → st q = Zombie →
  let cfg' := resume p k :: bury q :: rest in let G' := reap_ghost G p (unreaped (name p) cfg') in
  look (p :: q :: rest) G p = tick (look cfg' G' (resume p k)) ∧
  (∀ r, r ∈ rest → look cfg' G' r = look (p :: q :: rest) G r).
Proof.
  intros H Ep Hc Eq cfg' G'. split.
  - unfold look, G', reap_ghost. cbn [name st resume tab npipe nkid]. rewrite upd_eq, Ep. cbn [plan].
    rewrite (reap_unreaped _ _ _ k), decide_True by done. fold cfg'. by destruct (unreaped (name p) cfg').
  - intros r Hr. assert (name r ≠ name p) by (apply (inv_other _ _ _ _ _ _ _ r H); set_solver).
    apply look_ext; [|unfold G', reap_ghost; by rewrite upd_ne].
    unfold cfg'. by rewrite (reap_unreaped p q rest k), decide_False.
Qed.

(** The batch of the process that waits, when the last child is reaped. *)
Lemma reap_last js N n tr G p q k rest x : inv js N n tr G (p :: q :: rest) → st p = Run (Wait k) →
  child_of (name p) (name q) = true → st q = Zombie → unreaped (name p) (resume p k :: bury q :: rest) = 0%nat →
  x ∈ g_batch (G (name p)) → Ended x ∈ tr.
Proof.
  intros H Ep Hc Eq Hu Hx. destruct (inv_batch _ _ _ _ _ _ H p ltac:(set_solver) x Hx) as [?|(w & Hw & [Hwc Hwr] & Hxw)]; [done|].
  apply (inv_dead _ _ _ _ _ _ H w Hw); [|done]. apply elem_of_cons in Hw as [->|[->|Hw]%elem_of_cons]; [|by left|].
  - apply child_of_spec in Hwc as [i E]. by apply name_not_child in E.
  - exfalso. unfold unreaped in Hu. apply nil_length_inv in Hu. apply (not_elem_of_nil w). rewrite <-Hu.
    apply list_elem_of_filter. split; [done|set_solver].
Qed.

Lemma inv_reap js N n tr G p q k rest : inv js N n tr G (p :: q :: rest) → st p = Run (Wait k) →
  child_of (name p) (name q) = true → st q = Zombie →
  ∃ G', inv js N (S n) (tr ++ []) G' (resume p k :: bury q :: rest).
Proof.
  intros H Ep Hc Eq. rewrite app_nil_r. destruct (reap_looks _ _ _ _ _ _ _ k _ H Ep Hc Eq) as [Hlp Hlr].
  set (cfg' := resume p k :: bury q :: rest) in *. set (u := unreaped (name p) cfg') in *. exists (reap_ghost G p u).
  destruct (look_rest _ _ _ _ _ Hlr) as [Ej Es].
  assert (∀ cfg G, look cfg G q = mkOut [] (g_fg (G (name q))) 0) as Hq0 by (intros; unfold look; by rewrite Eq).
  assert (∀ cfg G, look cfg G (bury q) = mkOut [] (g_fg (G (name q))) 0) as Hq1 by done.
  assert (∀ x, u = 0%nat → x ∈ g_batch (G (name p)) → Ended x ∈ tr) as Hlast by (intros x ?; by eapply reap_last).
  assert (∀ r, r ∈ cfg' → ∃ r0, r0 ∈ p :: q :: rest ∧ name r0 = name r ∧ (dead r → dead r0) ∧
    o_fg (look cfg' (reap_ghost G p u) r) = o_fg (look (p :: q :: rest) G r0)) as Hold.
  { intros r [->|[->|Hr]%elem_of_cons]%elem_of_cons; [exists p|exists q|exists r]; (split; [set_solver|]); (split; [done|]).
    - split; [by intros [?|?]|]. by rewrite Hlp.
    - split; [by left|]. rewrite Hq0, Hq1. apply reap_ghost_fg.
    - split; [done|]. by rewrite Hlr. }
  assert (∀ r, r ∈ p :: q :: rest → ∃ r1, r1 ∈ cfg' ∧ name r1 = name r ∧ nkid r1 = nkid r ∧
    (st r ≠ Reaped → st r1 = Reaped → st r = Zombie) ∧ (∀ l, st r = Running l → st r1 = Running l)) as Hnew.
  { intros r [->|[->|Hr]%elem_of_cons]%elem_of_cons; [exists (resume p k)|exists (bury q)|exists r];
      (split; [set_solver|]); cbn; rewrite ?Ep, ?Eq; split_and!; done. }
  destruct H. constructor.
  - done.
  - intros r (r0 & Hr & E & _)%Hold me i Er. rewrite <-E in Er.
    destruct (inv_parent0 r0 Hr me i Er) as (s & (s1 & ? & ? & ? & _)%Hnew & ? & ?). exists s1. split; [done|]. split; [congruence|lia].
  - intros r (r0 & Hr & E & _ & ->)%Hold. rewrite reap_ghost_fg, <-E. by apply inv_fg0.
  - intros r (r0 & Hr & <- & _)%Hold x. unfold reap_ghost, upd. case_decide as Hd; [|by apply inv_acc0].
    destruct u; [|rewrite <-Hd; by apply inv_acc0]. cbn [g_inh g_acc].
    rewrite app_assoc, elem_of_app. intros [Hx|Hx]; [rewrite <-Hd in Hx; by apply (inv_acc0 r0)|by apply Hlast].
  - intros r (r0 & Hr & <- & Hd & _)%Hold Hd' x. rewrite reap_ghost_fg. apply inv_dead0; auto.
  - intros r (r0 & Hr & <- & _)%Hold x [Hx _]%reap_ghost_batch.
    destruct (inv_batch0 r0 Hr x Hx) as [?|(w & Hw & [Hwc Hwr] & Hxw)]; [by left|].
    destruct (Hnew w Hw) as (w1 & ? & En & _ & Hs & _). destruct (decide (st w1 = Reaped)) as [Hr1|Hr1].
    + left. apply (inv_dead0 w Hw); [left; auto|done].
    + right. exists w1. rewrite reap_ghost_fg, En. split; [done|]. split; [|done]. split; [by rewrite En|done].
  - destruct inv_jobs0 as (d & E1 & Ed). exists d. split; [done|]. rewrite <-Ed. unfold cfg' at 2. rewrite !bind_cons, Ej, Hlp.
    by rewrite Hq0, Hq1.
  - done.
  - intros x l Hx. destruct (inv_ended0 x l Hx) as [?|(w & (w1 & ? & ? & _ & _ & Hr)%Hnew & Ew & l' & El)]; [by left|right].
    exists w1. split; [done|]. split; [congruence|eauto].
  - unfold cfg' at 2. rewrite !fmap_cons in *. rewrite Hlp, Hq0 in inv_steps0. rewrite Hq1.
    cbn [sum_list_with id o_steps tick] in *. rewrite Es. lia.
Qed.

(** *** All steps *)

Lemma inv_act js N n tr G p p' new ev rest : inv js N n tr G (p :: rest) → act p = Some (p', new, ev) →
  ∃ G', inv js N (S n) (tr ++ ev) G' (p' :: new ++ rest).
Proof.
  intros H Ha. unfold act in Ha. destruct (st p) as [q|l| |] eqn:E; [|injection Ha as <- <- <-; exists G; by eapply inv_end|done|done].
  assert (∀ q' fds np, new = [] → ev = [] → p' = mkProc (name p) (Run q') fds np (nkid p) →
    (∀ u b i a, plan q (name p) (tab p) (npipe p) (nkid p) u b i a = tick (plan q' (name p) fds np (nkid p) u b i a)) →
    ∃ G', inv js N (S n) (tr ++ ev) G' (p' :: new ++ rest)) as Htick.
  { intros q' fds np -> -> -> Hp. exists G. apply (inv_tick _ _ _ _ _ p _ _ q q'); [done..|].
    unfold look. rewrite E. apply Hp. }
  destruct q as [c|path argv failed|path mode k|fd k|fd k|k|k|k|path k|fd text k]; try discriminate Ha.
  - injection Ha as <- <- <-. exists G. by eapply inv_exit.
  - destruct (exec_ok path) eqn:Ex; injection Ha as <- <- <-; [exists G; by eapply inv_exec|].
    eapply Htick; [done..|]. intros. cbn. by rewrite Ex.
  - destruct (do_open path mode (tab p)) as [r fds] eqn:Eo. injection Ha as <- <- <-.
    eapply Htick; [done..|]. intros. cbn. by rewrite Eo.
  - injection Ha as <- <- <-. by eapply Htick.
  - injection Ha as <- <- <-. by eapply Htick.
  - destruct (do_pipe (name p) (npipe p) (tab p)) as [[r fd] fds] eqn:Eo. injection Ha as <- <- <-.
    eapply Htick; [done..|]. intros. cbn. by rewrite Eo.
  - injection Ha as <- <- <-. exists (fork_ghost G p k). by apply inv_fork.
  - injection Ha as <- <- <-. by eapply Htick.
  - injection Ha as <- <- <-. by eapply Htick.
Qed.

Lemma inv_step js N n tr G cfg ev cfg' : inv js N n tr G cfg → step cfg ev cfg' → ∃ G', inv js N (S n) (tr ++ ev) G' cfg'.
Proof.
  intros H Hs. destruct Hs as [cfg p rest p' new ev HP Ha|cfg p q rest k HP Ep Hc Eq|cfg p rest k HP Ep Hn].
  - eapply inv_act; [by eapply inv_perm|done].
  - eapply inv_reap; [by eapply inv_perm|done..].
  - exists G. apply (inv_tick _ _ _ _ _ p _ _ (Wait k) k); [by eapply inv_perm|done..|].
    unfold look. cbn [name st resume tab npipe nkid]. rewrite Ep. cbn [plan]. rewrite unreaped_0; [done|].
    intros q [->|Hq]%elem_of_cons [Hc Hr]; [|by apply Hr, Hn].
    apply child_of_spec in Hc as [i E]. by apply name_not_child in E.
Qed.

Definition start (p : prog) (fds : fdtable) : list uproc := [mkProc [] (Run p) fds 0 0].

Lemma inv_runs p fds n tr cfg : runs (start p fds) n tr cfg →
  let o := plan p [] fds 0 0 0 [] [] [] in ∃ G, inv (o_jobs o) (o_steps o) n tr G cfg.
Proof.
  intros Hr o. induction Hr as [|n tr cfg1 ev cfg2 Hr [G IH] Hs]; [|by eapply inv_step].
  exists (λ _, mkGhost [] [] [] (o_fg o)).
  assert (∀ q, q ∈ start p fds → q = mkProc [] (Run p) fds 0 0) as Hq by (intros q; apply list_elem_of_singleton).
  constructor; try (intros q ->%Hq; cbn).
  - apply NoDup_singleton.
  - intros me i E. by destruct me.
  - done.
  - intros x Hx. by apply not_elem_of_nil in Hx.
  - by intros [?|?].
  - intros x Hx. by apply not_elem_of_nil in Hx.
  - exists []. split; [done|]. cbn. by rewrite app_nil_r.
  - intros tr1 x l tr2 E. by destruct tr1.
  - intros x l Hx. by apply not_elem_of_nil in Hx.
  - change (o_steps o + 0 + 0 = o_steps o)%nat. lia.
Qed.

(** The children of a process. *)
Lemma children_cases me (rest : list uproc) : (∃ q, q ∈ rest ∧ child_of me (name q) = true ∧ st q = Zombie) ∨
  (∃ q, q ∈ rest ∧ child_of me (name q) = true ∧ ¬ dead q) ∨
  (∀ q, q ∈ rest → child_of me (name q) = true → st q = Reaped).
Proof.
  induction rest as [|q rest IH]; [right; right; intros q Hq; by apply not_elem_of_nil in Hq|].
  assert (st q = Zombie ∨ st q = Reaped ∨ ¬ dead q) as Hq by (unfold dead; destruct (st q); naive_solver).
  destruct IH as [(r & ? & ?)|[(r & ? & ?)|IH]]; [left; exists r; set_solver|right; left; exists r; set_solver|].
  destruct (child_of me (name q)) eqn:Ec; [destruct Hq as [Hq|[Hq|Hq]]|].
  - left. exists q. set_solver.
  - right; right. intros r [->|Hr]%elem_of_cons; auto.
  - right; left. exists q. set_solver.
  - right; right. intros r [->|Hr]%elem_of_cons; [congruence|auto].
Qed.

(** A process that can not go on has a child that is not dead. *)
Lemma stuck_child (cfg : list uproc) p : p ∈ cfg → ¬ dead p →
  (∃ ev cfg', step cfg ev cfg') ∨ ∃ q, q ∈ cfg ∧ child_of (name p) (name q) = true ∧ ¬ dead q.
Proof.
  intros [rest HP]%elem_of_Permutation Hd. destruct (act p) as [[[p' new] ev]|] eqn:Ea; [left; eauto using step|].
  assert (∃ k, st p = Run (Wait k)) as [k Ek].
  { unfold act in Ea. unfold dead in Hd. destruct (st p) as [q|l| |]; [|done|naive_solver|naive_solver].
    destruct q as [c|path argv failed|path mode k|fd k|fd k|k|k|k|path k|fd text k]; try discriminate Ea; [| | |by eauto].
    - by destruct (exec_ok path).
    - by destruct (do_open path mode (tab p)).
    - by destruct (do_pipe (name p) (npipe p) (tab p)) as [[? ?] ?]. }
  destruct (children_cases (name p) rest) as [(q & Hq & Hc & Eq)|[(q & Hq & ?)|Hn]].
  - left. apply elem_of_Permutation in Hq as [rest' HP']. do 2 eexists. eapply step_reap; [|done..]. by rewrite HP, HP'.
  - right. exists q. split; [rewrite HP; set_solver|done].
  - left. do 2 eexists. by eapply step_none.
Qed.

(** As long as a process is not dead something can happen. *)
Lemma step_progress (cfg : list uproc) p : p ∈ cfg → ¬ dead p → ∃ ev cfg', step cfg ev cfg'.
Proof.
  assert (∀ d p, p ∈ cfg → ¬ dead p → (max_list (length ∘ name <$> cfg) < length (name p) + d)%nat → ∃ ev cfg', step cfg ev cfg') as Hd.
  { induction d as [|d IH]; intros q Hq Hl Hm.
    - assert (length (name q) <= max_list (length ∘ name <$> cfg))%nat; [|lia].
      apply max_list_elem_of_le, list_elem_of_fmap. eauto.
    - destruct (stuck_child cfg q Hq Hl) as [?|(r & Hr & [i E]%child_of_spec & Hrl)]; [done|].
      apply (IH r); [done|done|]. rewrite E, length_app. cbn. lia. }
  intros Hp Hl. apply (Hd (S (max_list (length ∘ name <$> cfg))) p); [done|done|lia].
Qed.

(** Everything has been started, once, and has ended. *)
Definition complete (js : list job) (tr : list event) : Prop :=
  starts tr ≡ₚ planned js ∧ ∀ j, j ∈ js → Ended (j_name j) ∈ tr.

Lemma inv_complete js N n tr G cfg : inv js N n tr G cfg → Forall dead cfg → complete js tr.
Proof.
  intros H Hd. assert (∀ l, Forall dead l → (l ≫= λ p, o_jobs (look cfg G p)) = []) as E.
  { intros l. induction 1 as [|p l [E|E] Hl IH]; [done| |]; rewrite bind_cons, IH; unfold look; by rewrite E. }
  destruct (inv_jobs _ _ _ _ _ _ H) as (d & Es & Ed). rewrite E, app_nil_r in Ed by done. split.
  - rewrite Es. unfold planned. by rewrite Ed.
  - intros j Hj. destruct (inv_ended _ _ _ _ _ _ H (j_name j) (j_launch j)) as [?|(p & Hp & _ & l & El)]; [|done|].
    + rewrite Es. apply list_elem_of_fmap. exists j. by rewrite Ed.
    + rewrite Forall_forall in Hd. destruct (Hd p Hp); congruence.
Qed.

(** Every run of a program keeps to its plan, ends, and has then done all of
    it. *)
Theorem runs_plan p fds n tr cfg : runs (start p fds) n tr cfg →
  let o := plan p [] fds 0 0 0 [] [] [] in
  (n <= o_steps o)%nat ∧ in_order (o_jobs o) tr ∧ starts tr ⊆+ planned (o_jobs o) ∧
  ((∃ ev cfg', step cfg ev cfg') ∨ Forall dead cfg ∧ complete (o_jobs o) tr).
Proof.
  intros Hr o. destruct (inv_runs _ _ _ _ _ Hr) as [G H]. fold o in H. split_and!.
  - pose proof (inv_steps _ _ _ _ _ _ H). lia.
  - by destruct H.
  - destruct (inv_jobs _ _ _ _ _ _ H) as (d & -> & Ed). unfold planned. rewrite <-Ed, fmap_app. by apply submseteq_inserts_r.
  - assert ((∃ q, q ∈ cfg ∧ ¬ dead q) ∨ Forall dead cfg) as [(q & Hq & Hl)|Hd].
    { clear. induction cfg as [|q cfg IH]; [by right|].
      assert (dead q ∨ ¬ dead q) as Hq by (unfold dead; destruct (st q); naive_solver).
      setoid_rewrite elem_of_cons. rewrite Forall_cons. naive_solver. }
    + left. by eapply step_progress.
    + right. split; [done|]. by eapply inv_complete.
Qed.
End Run.
