(* ===== verification/ShRun.v ===== *)
(** * Running commands (runcmd, getcmd and main of sh.c)

    The shell as a program of system calls.  [jobs] says what a command should
    start: the programs, with their arguments, their descriptors and the programs
    that have to end first; the shell's child does just that, however the
    processes interleave. *)

From S2P Require Import Prelude Sh ShPrint ShProc.
#[local] Open Scope Z_scope.

Definition str (s : string) : list Z := (λ a, Z.of_N (Ascii.N_of_ascii a)) <$> String.list_ascii_of_string s.

(** [panic] of sh.c *)
Definition sh_panic (s : list Z) : prog := Printf 2 (s ++ [10]) (Exit 0).

Definition fork1 (k : Z → prog) : prog := Fork (λ pid, if pid =? -1 then sh_panic (str "fork") else k pid).

(** [runcmd] on a command whose strings are in place.  [cmd] has no constructor
    for the null pointer or for a wrong type tag. *)
Fixpoint runcmd (c : cmd (list Z)) : prog :=
  match c with
  | EXEC argv =>
      match argv with
      | [] => Exit 0
      | path :: _ => Exec path argv (Printf 2 (str "exec " ++ path ++ str " failed" ++ [10]) (Exit 0))
      end
  | REDIR c file mode fd =>
      Close fd (Open file mode (λ r,
        if r <? 0 then Printf 2 (str "open " ++ file ++ str " failed" ++ [10]) (Exit 0)
        else runcmd c))
  | LIST l r =>
      fork1 (λ pid, if pid =? 0 then runcmd l else Wait (runcmd r))
  | PIPE l r =>
      Pipe (λ ret p,
        if ret <? 0 then sh_panic (str "pipe") else
        fork1 (λ pid, if pid =? 0 then Close 1 (Dup p.2 (Close p.1 (Close p.2 (runcmd l)))) else
        fork1 (λ pid, if pid =? 0 then Close 0 (Dup p.1 (Close p.1 (Close p.2 (runcmd r)))) else
        Close p.1 (Close p.2 (Wait (Wait (Exit 0)))))))
  | BACK c => fork1 (λ pid, if pid =? 0 then runcmd c else Exit 0)
  end.

(** ** The main loop *)

(** [gets] of ulib.c on the characters of descriptor 0: the line and the rest. *)
Fixpoint gets_chars (max : nat) (input : list Z) : list Z * list Z :=
  match max, input with
  | S (S n), c :: input' =>
      if (c =? 10) || (c =? 13) then ([c], input') else
      let '(l, rest) := gets_chars (S n) input' in (c :: l, rest)
  | _, _ => ([], input)
  end.

(** [None] at the end of the input. *)
Definition getcmd (nbuf : nat) (input : list Z) : option (list Z * list Z) :=
  let '(l, rest) := gets_chars nbuf input in
  let buf := c_string l in
  match buf with [] => None | _ => Some (buf, rest) end.

(** The child: parse and run, or report the syntax error. *)
Definition sh_child (buf : list Z) : prog :=
  match parsecmd buf with
  | Done (c, line) _ => runcmd (strings line c)
  | Panic msg => sh_panic (str msg)
  | _ => Exit 0
  end.

Definition SHBUF : nat := 100.

(** [while((fd = open("console", O_RDWR)) >= 0)], at most once for each
    descriptor. *)
Fixpoint sh_console (n : nat) (k : prog) : prog :=
  match n with
  | O => k
  | S n' => Open (str "console") 2 (λ fd, if fd <? 0 then k else if 3 <=? fd then Close fd k else sh_console n' k)
  end.

(** [while(getcmd(buf, sizeof(buf)) >= 0)]: every turn takes at least one
    character; [None] when [fuel] turns do not suffice. *)
Fixpoint sh_loop (fuel : nat) (input : list Z) : option prog :=
  match getcmd SHBUF input with
  | None => Some (Printf 2 (str "$ ") (Exit 0))
  | Some (buf, rest) =>
      match fuel with
      | O => None
      | S fuel' =>
          next ← sh_loop fuel' rest;
          Some (Printf 2 (str "$ ")
            (if bool_decide (take 3 buf = str "cd ") then
               let dir := c_string (drop 3 (removelast buf)) in
               Chdir dir (λ r, if r <? 0 then Printf 2 (str "cannot cd " ++ dir ++ [10]) next else next)
             else fork1 (λ pid, if pid =? 0 then sh_child buf else Wait next)))
      end
  end.

Definition sh (input : list Z) : option prog :=
  k ← sh_loop (length input) input;
  Some (sh_console NOFILE k).

Section Run.
(** Whether [open(path, mode)] and [exec(path)] succeed. *)
Variable open_ok : list Z → Z → bool.
Variable exec_ok : list Z → bool.

(** ** What a command should start *)

#[local] Notation plan := (ShProc.plan open_ok exec_ok).
#[local] Notation do_open := (ShProc.do_open open_ok).

(** The programs the command waits for, when it is run by process [me], which has
    [nk] children already. *)
Fixpoint foreground (c : cmd (list Z)) (me : list nat) (nk : nat) : list (list nat) :=
  match c with
  | EXEC argv => match argv with path :: _ => if exec_ok path then [me] else [] | [] => [] end
  | REDIR c file mode _ => if open_ok file mode then foreground c me nk else []
  | LIST l r => foreground l (me ++ [nk]) 0 ++ foreground r me (S nk)
  | PIPE l r => foreground l (me ++ [nk]) 0 ++ foreground r (me ++ [S nk]) 0
  | BACK _ => []
  end.

(** All its programs, to be started after those of [after] have ended. *)
Fixpoint jobs (c : cmd (list Z)) (me : list nat) (nk : nat) (fds : fdtable) (after : list (list nat)) : list job :=
  match c with
  | EXEC argv => match argv with path :: _ => if exec_ok path then [Job me (Launch path argv fds) after] else [] | [] => [] end
  | REDIR c file mode fd => if open_ok file mode then jobs c me nk (<[fd := OpenFile file mode]> fds) after else []
  | LIST l r => jobs l (me ++ [nk]) 0 fds after ++ jobs r me (S nk) fds (after ++ foreground l (me ++ [nk]) 0)
  | PIPE l r => jobs l (me ++ [nk]) 0 (<[1 := PipeWrite me 0]> fds) after ++ jobs r (me ++ [S nk]) 0 (<[0 := PipeRead me 0]> fds) after
  | BACK c => jobs c (me ++ [nk]) 0 fds after
  end.

(** The shell's descriptors 0, 1 and 2 are open, and no others. *)
Definition std (fds : fdtable) : Prop := ∀ fd, is_Some (fds !! fd) ↔ 0 <= fd < 3.

Lemma fdalloc_lowest fds fd : 0 <= fd < Z.of_nat NOFILE → fds !! fd = None →
  (∀ i, 0 <= i < fd → is_Some (fds !! i)) → fdalloc fds = Some fd.
Proof.
  intros Hfd Hn Hl. unfold fdalloc. replace NOFILE with (Z.to_nat fd + S (NOFILE - Z.to_nat fd - 1))%nat by lia.
  rewrite seq_app, fmap_app, filter_app, filter_none.
  - cbn [seq fmap list_fmap app]. rewrite filter_cons, decide_True; [cbn; f_equal; lia|].
    by replace (Z.of_nat (0 + Z.to_nat fd)) with fd by lia.
  - intros x (k & -> & Hk%elem_of_seq)%list_elem_of_fmap E. destruct (Hl (Z.of_nat k) ltac:(lia)) as [? E']. congruence.
Qed.

Lemma std_insert fds fd o : std fds → 0 <= fd < 3 → std (<[fd := o]> fds).
Proof.
  intros Hs Hfd i. destruct (decide (i = fd)) as [->|Hne].
  - rewrite lookup_insert_eq. split; [done|eauto].
  - rewrite lookup_insert_ne by done. apply Hs.
Qed.

(** Close a descriptor and take it again for [o]. *)
Lemma reopen fds ext fd o : std fds → 0 <= fd < 3 → (∀ i, 0 <= i < 3 → ext !! i = fds !! i) →
  fdalloc (delete fd ext) = Some fd ∧ ∀ i, <[fd := o]> (delete fd ext) !! i = <[fd := o]> ext !! i.
Proof.
  intros Hs Hfd He. split.
  - apply fdalloc_lowest; [unfold NOFILE; lia|apply lookup_delete_eq|].
    intros i Hi. rewrite lookup_delete_ne, He by lia. apply Hs. lia.
  - intros i. destruct (decide (i = fd)) as [->|]; [by rewrite !lookup_insert_eq|].
    by rewrite !lookup_insert_ne, lookup_delete_ne.
Qed.

(** Redirections of the commands the shell can express. *)
Fixpoint std_redirs (c : cmd (list Z)) : Prop :=
  match c with
  | EXEC _ => True
  | REDIR c _ _ fd => std_redirs c ∧ (fd = 0 ∨ fd = 1)
  | PIPE l r | LIST l r => std_redirs l ∧ std_redirs r
  | BACK c => std_redirs c
  end.

Lemma std_free fds fd : std fds → 3 <= fd → fds !! fd = None.
Proof.
  intros Hs Hfd. destruct (fds !! fd) eqn:E; [|done]. destruct (Hs fd) as [H _]. rewrite E in H.
  specialize (H ltac:(eauto)). lia.
Qed.

(** The table of a process of a pipeline, after it has closed the descriptors of
    the pipe. *)
Lemma pipe_end fds fd o r w : std fds → 0 <= fd < 3 →
  delete 4 (delete 3 (<[fd := o]> (delete fd (<[4 := w]> (<[3 := r]> fds))))) = <[fd := o]> fds.
Proof.
  intros Hs Hfd. apply map_eq. intros i.
  destruct (decide (i = 4)) as [->|]; [rewrite lookup_delete_eq, lookup_insert_ne, std_free by (done || lia); done|].
  rewrite lookup_delete_ne by done.
  destruct (decide (i = 3)) as [->|]; [rewrite lookup_delete_eq, lookup_insert_ne, std_free by (done || lia); done|].
  rewrite lookup_delete_ne by done. destruct (decide (i = fd)) as [->|]; [by rewrite !lookup_insert_eq|].
  rewrite !lookup_insert_ne, lookup_delete_ne, !lookup_insert_ne by done. done.
Qed.

Lemma plan_fork1 k me fds np nk u batch inh acc : plan (fork1 k) me fds np nk u batch inh acc =
  let c := plan (k 0) (me ++ [nk]) fds 0 0 0 [] (inh ++ acc) [] in
  let r := plan (k 1) me fds np (S nk) (S u) (batch ++ o_fg c) inh acc in
  mkOut (o_jobs c ++ o_jobs r) (o_fg r) (S (o_steps c + o_steps r)).
Proof. done. Qed.

(** The two sides of a pipeline. *)
Lemma do_pipe_std me k fds : std fds → do_pipe me k fds = (0, (3, 4), <[4 := PipeWrite me k]> (<[3 := PipeRead me k]> fds)).
Proof.
  intros Hs. unfold do_pipe. assert (fdalloc fds = Some 3) as ->.
  { apply fdalloc_lowest; [unfold NOFILE; lia|by apply std_free|]. intros i Hi. by apply Hs. }
  assert (fdalloc (<[3 := PipeRead me k]> fds) = Some 4) as ->; [|done].
  apply fdalloc_lowest; [unfold NOFILE; lia|rewrite lookup_insert_ne by lia; by apply std_free|].
  intros i Hi. destruct (decide (i = 3)) as [->|]; [rewrite lookup_insert_eq; eauto|].
  rewrite lookup_insert_ne by done. apply Hs. lia.
Qed.

Lemma pipe_side me k fds fd src o : std fds → fd = 0 ∨ fd = 1 → src = 3 ∨ src = 4 →
  let t := <[4 := PipeWrite me k]> (<[3 := PipeRead me k]> fds) in
  t !! src = Some o → delete 4 (delete 3 (do_dup src (delete fd t))) = <[fd := o]> fds.
Proof.
  intros Hs Hfd Hsrc t Ho. unfold do_dup. rewrite lookup_delete_ne, Ho by lia.
  destruct (reopen fds t fd o) as [-> _]; [done|lia|intros i Hi; unfold t; by rewrite !lookup_insert_ne by lia|].
  apply pipe_end; [done|lia].
Qed.

(** A redirection. *)
Lemma do_open_std fds fd f m : std fds → fd = 0 ∨ fd = 1 →
  do_open f m (delete fd fds) = if open_ok f m then (fd, <[fd := OpenFile f m]> fds) else (-1, delete fd fds).
Proof.
  intros Hs Hfd. unfold ShProc.do_open.
  destruct (reopen fds fds fd (OpenFile f m)) as [-> He]; [done|lia|done|]. by rewrite (map_eq _ _ He).
Qed.

(** What [runcmd] does is what the command says. *)
Lemma plan_runcmd c : ∀ me fds nk inh acc, std_redirs c → std fds →
  let o := plan (runcmd c) me fds 0 nk 0 [] inh acc in
  o_jobs o = jobs c me nk fds (inh ++ acc) ∧ o_fg o = acc ++ foreground c me nk.
Proof.
  induction c as [argv|c IH f m fd|l IHl r IHr|l IHl r IHr|c IH]; intros me fds nk inh acc Hc Hs.
  - destruct argv as [|path argv]; [by rewrite app_nil_r|]. cbn. destruct (exec_ok path); cbn; by rewrite ?app_nil_r.
  - destruct Hc as [Hc Hfd]. cbn [runcmd ShProc.plan jobs foreground]. rewrite do_open_std by done.
    destruct (open_ok f m); [|cbn; by rewrite app_nil_r].
    rewrite (proj2 (Z.ltb_ge fd 0)) by lia. apply IH; [done|]. apply std_insert; [done|lia].
  - destruct Hc as [Hl Hr]. cbn [runcmd]. cbn [ShProc.plan]. rewrite do_pipe_std by done.
    change (0 <? 0) with false. cbn iota. rewrite plan_fork1. change (0 =? 0) with true. change (1 =? 0) with false. cbv zeta. cbn iota.
    rewrite plan_fork1. change (0 =? 0) with true. change (1 =? 0) with false. cbv zeta. cbn iota.
    cbn [ShProc.plan fst snd tick o_jobs o_fg].
    rewrite !(pipe_side me 0 fds 1 4 (PipeWrite me 0)) by (auto || by rewrite lookup_insert_eq).
    rewrite !(pipe_side me 0 fds 0 3 (PipeRead me 0)) by (auto || by rewrite lookup_insert_ne, lookup_insert_eq).
    destruct (IHl (me ++ [nk]) (<[1 := PipeWrite me 0]> fds) 0%nat (inh ++ acc) []) as [-> ->]; [done|apply std_insert; [done|lia]|].
    destruct (IHr (me ++ [S nk]) (<[0 := PipeRead me 0]> fds) 0%nat (inh ++ acc) []) as [-> ->]; [done|apply std_insert; [done|lia]|].
    cbn [jobs foreground app]. by rewrite !app_nil_r.
  - destruct Hc as [Hl Hr]. cbn [runcmd]. rewrite plan_fork1. change (0 =? 0) with true. change (1 =? 0) with false. cbv zeta. cbn iota.
    cbn [ShProc.plan tick o_jobs o_fg jobs foreground app].
    destruct (IHl (me ++ [nk]) fds 0%nat (inh ++ acc) []) as [-> ->]; [done|done|].
    destruct (IHr me fds (S nk) inh (acc ++ ([] ++ foreground l (me ++ [nk]) 0))) as [-> ->]; [done|done|].
    by rewrite !app_nil_r, !app_nil_l, !app_assoc.
  - cbn [runcmd]. rewrite plan_fork1. change (0 =? 0) with true. change (1 =? 0) with false. cbv zeta. cbn iota.
    cbn [ShProc.plan o_jobs o_fg jobs foreground app].
    destruct (IH (me ++ [nk]) fds 0%nat (inh ++ acc) []) as [-> _]; [done|done|]. by rewrite !app_nil_r.
Qed.

Lemma wf_std_redirs d : wf d → std_redirs d.
Proof.
  induction d as [argv|d IH f m fd|l IHl r IHr|l IHl r IHr|d IH]; cbn; try naive_solver.
  intros (Hw & _ & Hm). split; [auto|]. destruct Hm as [[_ ->]|[_ ->]]; auto.
Qed.

(** C14.  The shell does what its input line says.  Take a command the shell can
    express and the child it forks for the printed form of the command, with
    descriptors 0, 1 and 2 open; suppose fork and pipe succeed, open and exec
    succeed or fail as their arguments say, and a program that is started ends
    some time.  However the processes interleave, whatever is started is a
    program of the command, with its arguments and its descriptors: in a pipeline
    the left side writes to the pipe the right side reads from, a redirection
    replaces descriptor 0 or 1, and every other descriptor is the shell's, with
    none left of a pipe.  Nothing is started twice.  For [l ; r] no program of
    [r] is started before every program of [l] has ended, those in the background
    excepted; the sides of a pipeline and background commands are not ordered.
    There is a bound on the steps, something can always happen until all
    processes have exited, and then all programs of the command have been started
    and have ended. *)
Theorem shell_runs_line d fds : wf d → std fds →
  let js := jobs d [] 0 fds [] in
  ∃ N, ∀ n tr cfg, runs open_ok exec_ok (start (sh_child (print d)) fds) n tr cfg →
  (n <= N)%nat ∧ in_order js tr ∧ starts tr ⊆+ planned js ∧
  ((∃ ev cfg', step open_ok exec_ok cfg ev cfg') ∨ Forall dead cfg ∧ complete js tr).
Proof.
  intros Hw Hs js. destruct (parsed_print d Hw) as (c & line & p & Ep & Ed).
  assert (sh_child (print d) = runcmd d) as -> by (unfold sh_child; by rewrite Ep, Ed).
  destruct (plan_runcmd d [] fds 0 [] []) as [Ej _]; [by apply wf_std_redirs|done|]. cbn [app] in Ej.
  exists (o_steps (plan (runcmd d) [] fds 0 0 0 [] [] [])). intros n tr cfg Hr.
  pose proof (runs_plan _ _ _ _ _ _ _ Hr) as H. cbv zeta in H. by rewrite Ej in H.
Qed.
End Run.

(** The loop of [main] comes to the end of the input. *)
Lemma gets_chars_length input : ∀ max l rest, gets_chars max input = (l, rest) → (length l + length rest = length input)%nat.
Proof.
  induction input as [|c input IH]; intros [|[|max]] l rest; cbn; try (intros ?; simplify_eq; done).
  destruct (_ || _); [intros ?; simplify_eq; done|]. destruct (gets_chars (S max) input) as [l' rest'] eqn:E.
  intros ?; simplify_eq. apply IH in E. cbn. lia.
Qed.

Lemma getcmd_shorter nbuf input buf rest : getcmd nbuf input = Some (buf, rest) → (length rest < length input)%nat.
Proof.
  unfold getcmd. destruct (gets_chars nbuf input) as [l r] eqn:E. apply gets_chars_length in E.
  destruct l as [|c l]; [done|]. cbn [length] in E. destruct (c_string (c :: l)); [done|]. intros ?; simplify_eq. lia.
Qed.

Lemma sh_total input : is_Some (sh input).
Proof.
  assert (∀ fuel inp, (length inp <= fuel)%nat → is_Some (sh_loop fuel inp)) as H.
  { induction fuel as [|fuel IH]; intros inp Hf; cbn [sh_loop]; destruct (getcmd SHBUF inp) as [[buf rest]|] eqn:E; try by eauto.
    - apply getcmd_shorter in E. lia.
    - apply getcmd_shorter in E. destruct (IH rest) as [next ->]; [lia|]. cbn. eauto. }
  unfold sh. destruct (H (length input) input) as [k ->]; [lia|]. cbn. eauto.
Qed.

(** [cat <f | wc ; ls] from a shell on the console. *)
Definition wit_fds : fdtable := <[0 := Console]> (<[1 := Console]> (<[2 := Console]> ∅)).

Definition wit_line : cmd (list Z) :=
  LIST (PIPE (REDIR (EXEC [str "cat"]) (str "f") 0 0) (EXEC [str "wc"])) (EXEC [str "ls"]).

Lemma shell_runs_line_witness :
  let js := [Job [0; 0]%nat (Launch (str "cat") [str "cat"] (<[0 := OpenFile (str "f") 0]> (<[1 := PipeWrite [0%nat] 0]> wit_fds))) [];
             Job [0; 1]%nat (Launch (str "wc") [str "wc"] (<[0 := PipeRead [0%nat] 0]> wit_fds)) [];
             Job [] (Launch (str "ls") [str "ls"] wit_fds) [[0; 0]%nat; [0; 1]%nat]] in
  ∃ N, ∀ n tr cfg, runs (λ _ _, true) (λ _, true) (start (sh_child (print wit_line)) wit_fds) n tr cfg →
  (n <= N)%nat ∧ in_order js tr ∧ starts tr ⊆+ planned js ∧
  ((∃ ev cfg', step (λ _ _, true) (λ _, true) cfg ev cfg') ∨ Forall dead cfg ∧ complete js tr).
Proof.
  apply (shell_runs_line (λ _ _, true) (λ _, true) wit_line wit_fds).
  - cbn. unfold mode_ok, MAXARGS. repeat split; repeat constructor; try (apply word_okb; reflexivity); auto; lia.
  - intros fd. unfold wit_fds. destruct (decide (fd = 0)) as [->|]; [rewrite lookup_insert_eq; split; [lia|eauto]|].
    rewrite lookup_insert_ne by done. destruct (decide (fd = 1)) as [->|]; [rewrite lookup_insert_eq; split; [lia|eauto]|].
    rewrite lookup_insert_ne by done. destruct (decide (fd = 2)) as [->|]; [rewrite lookup_insert_eq; split; [lia|eauto]|].
    rewrite lookup_insert_ne, lookup_empty by done. split; [intros [? ?]; done|lia].
Defined.
