(* ===== verification/Umalloc.v ===== *)
(** * The user-level allocator (umalloc.c)

    Memory is read and written by words: [mem a] is the word at address [a].  A
    [Header *] is an address; the word there is [s.ptr] and the word after it
    [s.size], in units of a header (8 bytes).  [freep] is 0 before the first
    call.  The heap grows by [sbrk], up to [lim]; [brk] is its end.

    The invariant reads the circular list as the sorted list of the free blocks
    after [base]; the theorems are about any sequence of [malloc] and [free] and
    of the program's own writes to the memory it was given. *)

From S2P Require Import Prelude.
#[local] Open Scope Z_scope.

Record ust := mkU {
  mem : Z → Z;
  freep : Z;
  brk : Z;
  lim : Z;
}.

Definition set_mem (m : Z → Z) (s : ust) : ust := mkU m (freep s) (brk s) (lim s).
Definition set_freep (p : Z) (s : ust) : ust := mkU (mem s) p (brk s) (lim s).
Definition set_brk (b : Z) (s : ust) : ust := mkU (mem s) (freep s) b (lim s).

(** [p->s.ptr], [p->s.size] and the assignments to them. *)
Definition ptr (p : Z) : M ust Z := gets (λ s, mem s p).
Definition size (p : Z) : M ust Z := gets (λ s, mem s (p + 4)).
Definition set_ptr (p v : Z) : M ust unit := modify (λ s, set_mem (<[p := v]> (mem s)) s).
Definition set_size (p v : Z) : M ust unit := modify (λ s, set_mem (<[p + 4 := v]> (mem s)) s).

Section Umalloc.
(** The address of [base], in the data segment. *)
Variable base : Z.

(** The loop of [free] that looks for the place of [bp]; [fuel] bounds its
    turns. *)
Fixpoint free_search (fuel : nat) (bp p : Z) : M ust Z :=
  q ← ptr p;
  if (p <? bp) && (bp <? q) then mret p else
  if (q <=? p) && ((p <? bp) || (bp <? q)) then mret p else
  match fuel with
  | O => out_of_fuel
  | S fuel' => free_search fuel' bp q
  end.

(** The list has fewer elements than the heap has units. *)
Definition UNITS (s : ust) : nat := Z.to_nat (lim s).

(** Joining [bp] to the block after it, and the block before it to [bp]. *)
Definition free_up (p bp : Z) : M ust unit :=
  n ← size bp;
  q ← ptr p;
  if bp + 8 * n =? q then
    n' ← size q;
    set_size bp (u32 (n + n'));;
    q' ← ptr q;
    set_ptr bp q'
  else set_ptr bp q.

Definition free_down (p bp : Z) : M ust unit :=
  k ← size p;
  if p + 8 * k =? bp then
    n ← size bp;
    set_size p (u32 (k + n));;
    q ← ptr bp;
    set_ptr p q
  else set_ptr p bp.

Definition free (ap : Z) : M ust unit :=
  let bp := ap - 8 in
  s ← get;
  p ← free_search (UNITS s) bp (freep s);
  free_up p bp;;
  free_down p bp;;
  modify (set_freep p).

(** The system call: the old end of the heap, or -1. *)
Definition sbrk (n : Z) : M ust Z :=
  s ← get;
  if brk s + n <=? lim s then modify (set_brk (brk s + n));; mret (brk s) else mret (-1).

Definition morecore (nu : Z) : M ust Z :=
  let nu := if nu <? 4096 then 4096 else nu in
  p ← sbrk (s32 (u32 (nu * 8)));
  if p =? -1 then mret 0 else
  set_size p nu;;
  free (p + 8);;
  gets freep.

(** The block [p] of [n] units is large enough: all of it, or its tail. *)
Definition malloc_take (nunits prevp p n : Z) : M ust Z :=
  p ← (if n =? nunits then q ← ptr p; set_ptr prevp q;; mret p
       else set_size p (n - nunits);;
            let p := p + 8 * (n - nunits) in
            set_size p nunits;; mret p);
  modify (set_freep prevp);;
  mret (p + 8).

(** The loop of [malloc] at [p] with the block before it. *)
Fixpoint malloc_loop (fuel : nat) (nunits prevp p : Z) : M ust Z :=
  n ← size p;
  if nunits <=? n then malloc_take nunits prevp p n else
  let next := λ p,
    q ← ptr p;
    match fuel with
    | O => out_of_fuel
    | S fuel' => malloc_loop fuel' nunits p q
    end in
  f ← gets freep;
  if p =? f then
    p ← morecore nunits;
    if p =? 0 then mret 0 else next p
  else next p.

Definition malloc (nbytes : Z) : M ust Z :=
  let nunits := u32 (u32 (nbytes + 8 - 1) / 8 + 1) in
  f ← gets freep;
  (if f =? 0 then set_ptr base base;; modify (set_freep base);; set_size base 0 else mret tt);;
  s ← get;
  p ← ptr (freep s);
  malloc_loop (2 * UNITS s) nunits (freep s) p.

(** ** The free list *)

Definition block : Type := Z * Z.

(** The address of the first block of [L], or [e]. *)
Definition first (L : list block) (e : Z) : Z := match L with [] => e | (a, _) :: _ => a end.

(** The headers of the blocks of [L] are linked in order, the last to [e]. *)
Fixpoint seg (m : Z → Z) (L : list block) (e : Z) : Prop :=
  match L with
  | [] => True
  | (a, n) :: L' => m a = first L' e ∧ m (a + 4) = n ∧ seg m L' e
  end.

(** Ascending blocks above [lo], no two of them adjacent. *)
Fixpoint ordered (lo : Z) (F : list block) : Prop :=
  match F with
  | [] => True
  | (a, n) :: F' => lo < a ∧ 0 <= n ∧ ordered (a + 8 * n) F'
  end.

Fixpoint end_of (lo : Z) (F : list block) : Z :=
  match F with
  | [] => lo
  | (a, n) :: F' => end_of (a + 8 * n) F'
  end.

Lemma first_app L1 L2 e : first (L1 ++ L2) e = first L1 (first L2 e).
Proof. by destruct L1 as [|[a n] L1]. Qed.

Lemma seg_app m L1 L2 e : seg m (L1 ++ L2) e ↔ seg m L1 (first L2 e) ∧ seg m L2 e.
Proof.
  induction L1 as [|[a n] L1 IH]; cbn; [naive_solver|]. rewrite IH, first_app. naive_solver.
Qed.

Lemma seg_ext m m' L e : seg m L e → (∀ a n, (a, n) ∈ L → m' a = m a ∧ m' (a + 4) = m (a + 4)) → seg m' L e.
Proof.
  induction L as [|[a n] L IH]; [done|]. intros (H1 & H2 & H3) Hext. destruct (Hext a n) as [E1 E2]; [set_solver|].
  cbn. rewrite E1, E2. split_and!; [done..|]. apply IH; [done|]. intros b k Hb. apply (Hext b k). set_solver.
Qed.

Lemma seg_lookup m L e a n : seg m L e → (a, n) ∈ L → m (a + 4) = n.
Proof.
  induction L as [|[b k] L IH]; [by intros _ H%elem_of_nil|]. intros (_ & H2 & H3) [E|Hin]%elem_of_cons; [by injection E as -> ->|auto].
Qed.

Lemma ordered_app lo F1 F2 : ordered lo (F1 ++ F2) ↔ ordered lo F1 ∧ ordered (end_of lo F1) F2.
Proof. revert lo. induction F1 as [|[a n] F1 IH]; intros lo; cbn; [naive_solver|]. rewrite IH. naive_solver. Qed.

Lemma ordered_weaken lo lo' F : ordered lo F → lo' <= lo → ordered lo' F.
Proof. destruct F as [|[a n] F]; [done|]. cbn. intros (? & ? & ?) ?. split_and!; [lia|done..]. Qed.

Lemma end_of_le lo F : ordered lo F → lo <= end_of lo F.
Proof.
  revert lo. induction F as [|[a n] F IH]; intros lo; cbn; [lia|]. intros (? & ? & H%IH). lia.
Qed.

Lemma ordered_elem lo F a n : ordered lo F → (a, n) ∈ F → lo < a ∧ 0 <= n ∧ a + 8 * n <= end_of lo F.
Proof.
  revert lo. induction F as [|[b k] F IH]; intros lo; [by intros _ H%elem_of_nil|].
  intros (H1 & H2 & H3) [E|Hin]%elem_of_cons; cbn [end_of].
  - injection E as -> ->. pose proof (end_of_le _ _ H3). lia.
  - destruct (IH _ H3 Hin) as (? & ? & ?). lia.
Qed.

(** Regions that do not overlap. *)
Definition apart (x y : block) : Prop := x.1 + 8 * x.2 <= y.1 ∨ y.1 + 8 * y.2 <= x.1.

Lemma apart_sym x y : apart x y → apart y x.
Proof. unfold apart. tauto. Qed.

(** Where a block that overlaps none belongs. *)
Lemma split_at F b : ∀ lo, ordered lo F → 1 <= b.2 → Forall (apart b) F →
  ∃ F1 F2, F = F1 ++ F2 ∧ Forall (λ x, x.1 + 8 * x.2 <= b.1) F1 ∧ Forall (λ x, b.1 + 8 * b.2 <= x.1) F2.
Proof.
  induction F as [|[a n] F IH]; intros lo Ho Hb Hap; [by exists [], []|].
  destruct Ho as (H1 & H2 & H3). apply Forall_cons in Hap as [Ha Hap]. unfold apart in Ha. cbn in Ha.
  destruct (decide (a + 8 * n <= b.1)) as [Hle|Hle].
  - destruct (IH _ H3 Hb Hap) as (F1 & F2 & -> & HF1 & HF2). exists ((a, n) :: F1), F2.
    split_and!; [done|by apply Forall_cons|done].
  - exists [], ((a, n) :: F). split_and!; [done|done|]. apply Forall_cons. split; [cbn; lia|].
    apply Forall_forall. intros [c k] Hc. destruct (ordered_elem _ _ _ _ H3 Hc). cbn. lia.
Qed.

(** ** The search of [free] *)

Definition skip (bp a q : Z) : Prop :=
  (a <? bp) && (bp <? q) = false ∧ (q <=? a) && ((a <? bp) || (bp <? q)) = false.

Fixpoint skips (bp : Z) (X : list block) (e : Z) : Prop :=
  match X with
  | [] => True
  | (a, _) :: X' => skip bp a (first X' e) ∧ skips bp X' e
  end.

Lemma search_skip X : ∀ e fuel s bp, seg (mem s) X e → skips bp X e →
  free_search (length X + fuel) bp (first X e) s = free_search fuel bp e s.
Proof.
  induction X as [|[a n] X IH]; intros e fuel s bp Hs Hk; [done|]. destruct Hs as (H1 & _ & H3), Hk as ([K1 K2] & K3).
  cbn [length plus free_search first]. unfold ptr. mgo. rewrite H1, K1, K2. by apply IH.
Qed.

Lemma skips_app bp X Y e : skips bp (X ++ Y) e ↔ skips bp X (first Y e) ∧ skips bp Y e.
Proof. induction X as [|[a n] X IH]; cbn; [naive_solver|]. rewrite IH, first_app. naive_solver. Qed.

(** Addresses below [e], ascending. *)
Fixpoint rising (X : list block) (e : Z) : Prop :=
  match X with
  | [] => True
  | (a, _) :: X' => a < first X' e ∧ rising X' e
  end.

Lemma rising_first X e : rising X e → first X e <= e.
Proof. induction X as [|[a n] X IH]; cbn; [lia|]. intros [? ?%IH]. lia. Qed.

Lemma skips_low bp X e : rising X e → e < bp → skips bp X e.
Proof.
  induction X as [|[a n] X IH]; intros Hr He; [done|]. destruct Hr as [Ha Hr]. pose proof (rising_first _ _ Hr).
  split; [|auto]. unfold skip. lia.
Qed.

Lemma skips_high bp lo X : ordered lo X → Forall (λ x, bp < x.1) X → base < bp → skips bp X base.
Proof.
  revert lo. induction X as [|[a n] X IH]; intros lo Ho Hb Hbase; [done|]. destruct Ho as (_ & Hn & Ho).
  apply Forall_cons in Hb as [Ha Hb]. cbn in Ha. split; [|by eapply IH].
  unfold skip. destruct X as [|[c k] X]; cbn; [lia|]. destruct Ho as (Hc & _). lia.
Qed.

Lemma ordered_rising lo F e : ordered lo F → end_of lo F < e → rising F e ∧ lo < first F e.
Proof.
  revert lo. induction F as [|[a n] F IH]; intros lo Ho He; [done|]. destruct Ho as (Ha & Hn & Ho). cbn [end_of] in He.
  destruct (IH _ Ho He) as [H1 H2]. cbn. split_and!; [lia|done|lia].
Qed.

(** The list as the search sees it: the blocks [X] and the last block [(p, k)]
    before the place of [bp], and those after it. *)
Record placed (bp : Z) (X : list block) (p : Z) (F2 : list block) : Prop := {
  pl_first : first X p = base;
  pl_rising : rising X p;
  pl_lt : p < bp;
  pl_high : Forall (λ x, bp < x.1) F2;
  pl_order : ordered p F2;
}.

Lemma search_here bp X p k F2 fuel s :
  placed bp X p F2 → seg (mem s) ((p, k) :: F2) base → free_search fuel bp p s = Done p s.
Proof.
  intros [Hf Hr Hp Hh _] (H1 & _). pose proof (rising_first X p Hr).
  assert (Hq : (p <? bp) && (bp <? mem s p) = true ∨ (mem s p <=? p) && ((p <? bp) || (bp <? mem s p)) = true).
  { rewrite H1. destruct F2 as [|[c j] F2]; cbn; [lia|]. apply Forall_cons in Hh as [Hc _]. cbn in Hc. lia. }
  destruct fuel; cbn [free_search]; unfold ptr; mgo; destruct (_ && (bp <? _)); try done; (destruct Hq as [Hq|Hq]; [done|by rewrite Hq]).
Qed.

(** Wherever on the ring it starts, the search ends at [p]. *)
Lemma search_from bp X p k F2 L f fuel s :
  placed bp X p F2 → L = X ++ (p, k) :: F2 → seg (mem s) L base → f ∈ L.*1 → (length L <= fuel)%nat →
  free_search fuel bp f s = Done p s.
Proof.
  intros Hpl -> Hs Hin Hfu. pose proof Hpl as [Hf Hr Hp Hh Ho]. apply seg_app in Hs as [Hs1 Hs2].
  assert (Hlow : ∀ Y Z fu, X = Y ++ Z → (length X <= fu)%nat → free_search fu bp (first Z p) s = Done p s).
  { intros Y Z fu -> Hl. apply seg_app in Hs1 as [_ Hs1]. rewrite length_app in Hl.
    replace fu with (length Z + (fu - length Z))%nat by lia. rewrite search_skip; [exact (search_here _ _ _ _ _ _ _ Hpl Hs2)|done|].
    pose proof (skips_low bp _ _ Hr Hp) as Hk. apply skips_app in Hk as [_ Hk]. exact Hk. }
  rewrite length_app in Hfu. cbn in Hfu.
  rewrite fmap_app, fmap_cons in Hin. apply elem_of_app in Hin as [Hin|Hin]; [|apply elem_of_cons in Hin as [->|Hin]].
  - apply list_elem_of_fmap in Hin as ([a n] & -> & (Y & Z & HX)%list_elem_of_split). by apply (Hlow Y ((a, n) :: Z)); [|lia].
  - exact (search_here _ _ _ _ _ _ _ Hpl Hs2).
  - apply list_elem_of_fmap in Hin as ([a n] & -> & (Y & Z & ->)%list_elem_of_split). rewrite length_app in Hfu. cbn in Hfu.
    destruct Hs2 as (_ & _ & [_ Hs2]%seg_app).
    apply ordered_app in Ho as [_ Ho]. apply Forall_app in Hh as [_ Hh].
    replace fuel with (length ((a, n) :: Z) + (fuel - length ((a, n) :: Z)))%nat by (cbn; lia).
    change (a, n).1 with (first ((a, n) :: Z) base).
    rewrite search_skip; [rewrite <- Hf; apply (Hlow []); [done|cbn; lia]|done|].
    eapply skips_high; [done|done|]. pose proof (rising_first X p Hr). lia.
Qed.

(** ** What [free] does to the list *)

(** The headers of the ring: [base], with no memory of its own, and blocks of
    one unit or more. *)
Definition hdr (x : block) : Prop := x = (base, 0) ∨ base + 8 <= x.1 ∧ 1 <= x.2.

Definition far (a b : Z) : Prop := a + 8 <= b ∨ b + 8 <= a.

Lemma hdr_far x y : hdr x → hdr y → x.1 < y.1 → x.1 + 8 * x.2 <= y.1 → far x.1 y.1.
Proof. intros [->|[??]] [->|[??]] ??; unfold far; cbn in *; lia. Qed.

(** The block [(bp, n)] put after [(p, k)], joined to its neighbours. *)
Definition join (bp n : Z) (F2 : list block) : block * list block :=
  match F2 with
  | (q, m) :: F2' => if bp + 8 * n =? q then ((bp, n + m), F2') else ((bp, n), F2)
  | [] => ((bp, n), [])
  end.

Definition joined (p k bp n : Z) (F2 : list block) : list block :=
  let '((_, n'), F2') := join bp n F2 in
  if p + 8 * k =? bp then (p, k + n') :: F2' else (p, k) :: (bp, n') :: F2'.

Definition size_ok (n : Z) : Prop := 0 <= n < 2 ^ 31.

Lemma u32_size_ok a b : size_ok a → size_ok b → u32 (a + b) = a + b.
Proof. unfold size_ok. intros. apply u32_id. unfold is_u32. lia. Qed.

Lemma insert_frame (m : Z → Z) i v (P : list Z) : i ∈ P → ∀ a, a ∉ P → (<[i := v]> m) a = m a.
Proof. intros Hi a Ha. apply fn_lookup_insert_ne. by intros ->. Qed.

Lemma free_up_links s p F2 bp n b F2' :
  seg (mem s) F2 base → mem s p = first F2 base → mem s (bp + 4) = n → join bp n F2 = (b, F2') →
  Forall (λ x, far x.1 bp) F2 → far p bp → size_ok n → Forall (λ x, size_ok x.2) F2 → base < bp →
  ∃ m, free_up p bp s = Done tt (set_mem m s) ∧ m bp = first F2' base ∧ m (bp + 4) = b.2 ∧
    ∀ a, a ∉ [bp; bp + 4] → m a = mem s a.
Proof.
  intros Hs Hp Hn Hj Hfar Hpb Hok HF2 Hb. unfold free_up, size, ptr, set_size, set_ptr. mgo. mgo. rewrite Hp, Hn.
  destruct F2 as [|[q m] F2]; cbn [first join] in *.
  { injection Hj as <- <-. rewrite (proj2 (Z.eqb_neq _ _)) by (unfold size_ok in Hok; lia).
    eexists. split; [done|]. rewrite fn_lookup_insert, fn_lookup_insert_ne by lia. split_and!; [done..|].
    apply insert_frame. set_solver. }
  destruct Hs as (Hq & Hm & Hs). apply Forall_cons in Hfar as [Hqb _], HF2 as [Hmk _]. cbn in Hqb, Hmk. unfold far in *.
  destruct (bp + 8 * n =? q); injection Hj as <- <-.
  - mgo. mgo. mgo. eexists. split; [done|]. cbn [mem set_mem]. rewrite Hm, u32_size_ok by done.
    rewrite fn_lookup_insert, !fn_lookup_insert_ne, fn_lookup_insert by lia.
    split_and!; [done..|]. intros a Ha. rewrite (insert_frame _ _ _ [bp; bp + 4]), (insert_frame _ _ _ [bp; bp + 4]); set_solver.
  - eexists. split; [done|]. rewrite fn_lookup_insert, fn_lookup_insert_ne by lia. split_and!; [done..|].
    apply insert_frame. set_solver.
Qed.

Lemma free_down_links s p k bp n q :
  mem s (p + 4) = k → mem s bp = q → mem s (bp + 4) = n → far p bp → size_ok k → size_ok n →
  ∃ m, free_down p bp s = Done tt (set_mem m s) ∧
    (∀ L e, first L e = q → seg m L e →
      seg m (if p + 8 * k =? bp then (p, k + n) :: L else (p, k) :: (bp, n) :: L) e) ∧
    ∀ a, a ∉ [p; p + 4] → m a = mem s a.
Proof.
  intros Hk Hq Hn Hpb Hko Hno. unfold free_down, size, ptr, set_size, set_ptr. mgo. rewrite Hk. unfold far in Hpb.
  destruct (p + 8 * k =? bp).
  - mgo. mgo. mgo. eexists. split; [done|]. cbn [mem set_mem]. rewrite Hn, u32_size_ok by done. split.
    + intros L e HL HS. cbn [seg]. split_and!; [|by rewrite fn_lookup_insert_ne, fn_lookup_insert by lia|done].
      rewrite fn_lookup_insert, fn_lookup_insert_ne by lia. congruence.
    + intros a Ha. rewrite (insert_frame _ _ _ [p; p + 4]), (insert_frame _ _ _ [p; p + 4]); set_solver.
  - eexists. split; [done|]. cbn [mem set_mem]. split.
    + intros L e HL HS. cbn [seg first]. rewrite fn_lookup_insert, !fn_lookup_insert_ne by lia. split_and!; congruence || done.
    + apply insert_frame. set_solver.
Qed.

Lemma far_notin a b : far a b → a ∉ [b; b + 4] ∧ a + 4 ∉ [b; b + 4].
Proof. unfold far. rewrite !elem_of_cons, !elem_of_nil. lia. Qed.

Lemma seg_frame m m' L e (p bp : Z) : seg m L e → (∀ a, a ∉ [p; p + 4; bp; bp + 4] → m' a = m a) →
  Forall (λ x, far x.1 p ∧ far x.1 bp) L → seg m' L e.
Proof.
  intros Hs Hf HL. eapply seg_ext; [done|]. intros a n Ha. rewrite Forall_forall in HL.
  destruct (HL _ Ha) as [[A1 A2]%far_notin [B1 B2]%far_notin]. cbn [fst] in *. split; apply Hf; set_solver.
Qed.

Lemma free_links s X p k F2 bp n :
  placed bp X p F2 → seg (mem s) (X ++ (p, k) :: F2) base → mem s (bp + 4) = n →
  freep s ∈ (X ++ (p, k) :: F2).*1 → (length (X ++ (p, k) :: F2) <= UNITS s)%nat →
  far p bp → Forall (λ x, far x.1 p ∧ far x.1 bp) (X ++ F2) →
  size_ok k → size_ok n → Forall (λ x, size_ok x.2 ∧ size_ok (n + x.2)) F2 → base < bp →
  ∃ m, free (bp + 8) s = Done tt (mkU m p (brk s) (lim s)) ∧ seg m (X ++ joined p k bp n F2) base ∧
    ∀ a, a ∉ [p; p + 4; bp; bp + 4] → m a = mem s a.
Proof.
  intros Hpl Hs Hn Hf Hl Hpb Hfar Hk Hno HF2 Hb. unfold free. replace (bp + 8 - 8) with bp by lia.
  apply seg_app in Hs as Hs'. destruct Hs' as [Hs1 (Hp & Hpk & Hs2)]. apply Forall_app in Hfar as [HfX HfF].
  mgo. rewrite (bind_Done _ _ _ _ _ (search_from _ _ _ _ _ _ _ _ _ Hpl eq_refl Hs Hf Hl)).
  destruct (join bp n F2) as [[b n'] F2'] eqn:Hj.
  destruct (free_up_links s p F2 bp n (b, n') F2') as (m1 & Hup & U1 & U2 & Ufr); try done.
  { eapply Forall_impl; [exact HfF|]. naive_solver. }
  { eapply Forall_impl; [exact HF2|]. naive_solver. }
  destruct (far_notin _ _ Hpb) as [N1 N2].
  assert (Hn' : size_ok n' ∧ Forall (λ x, far x.1 p ∧ far x.1 bp) F2' ∧ seg (mem s) F2' base).
  { unfold join in Hj. destruct F2 as [|[q j] F2]; [by injection Hj as <- <- <-|].
    apply Forall_cons in HF2 as [HF2 _]. destruct (_ =? _); injection Hj as <- <- <-; [|done].
    apply Forall_cons in HfF as [_ HfF]. naive_solver. }
  destruct Hn' as (Hn' & HfF' & Hs2').
  destruct (free_down_links (set_mem m1 s) p k bp n' (first F2' base)) as (m2 & Hdn & D1 & Dfr); try done.
  { cbn [mem set_mem]. by rewrite Ufr. }
  assert (Hfr : ∀ a, a ∉ [p; p + 4; bp; bp + 4] → m2 a = mem s a).
  { intros a Ha. rewrite Dfr by set_solver. cbn [mem set_mem]. apply Ufr. set_solver. }
  exists m2. mgo. mgo. split_and!; [done| |done]. apply seg_app. split.
  - assert (first (joined p k bp n F2) base = p) as ->. { unfold joined. rewrite Hj. by destruct (_ =? _). }
    by eapply seg_frame.
  - unfold joined. rewrite Hj. apply D1; [done|]. by eapply seg_frame.
Qed.

(** ** The heap *)

(** The ring that starts at [base]. *)
#[local] Notation ring F := (@cons block (base, 0) F).

Record heap (s : ust) (F : list block) (A : gmap Z Z) : Prop := {
  h_seg : seg (mem s) (ring F) base;
  h_order : ordered (base - 1) (ring F);
  h_hdr : Forall (λ x, base + 8 <= x.1 ∧ 1 <= x.2 ∧ x.1 + 8 * x.2 <= brk s) F;
  h_freep : freep s ∈ (ring F).*1;
  h_held a n : A !! a = Some n → base + 8 <= a ∧ 1 <= n ∧ a + 8 * n <= brk s ∧ mem s (a + 4) = n;
  h_apart a n : A !! a = Some n → Forall (apart (a, n)) F;
  h_pair a n b k : A !! a = Some n → A !! b = Some k → a ≠ b → apart (a, n) (b, k);
  h_lim : 0 < base ∧ base + 8 <= brk s <= lim s ∧ lim s < 2 ^ 31;
}.

(** The blocks held, with their headers, keep their contents. *)
Definition keeps (A : gmap Z Z) (s s' : ust) : Prop :=
  ∀ a n i, A !! a = Some n → a + 4 <= i < a + 8 * n → mem s' i = mem s i.

Lemma ordered_length lo F : ordered lo F → Z.of_nat (length F) <= end_of lo F - lo.
Proof. revert lo. induction F as [|[a n] F IH]; intros lo; cbn; [lia|]. intros (? & ? & H%IH). lia. Qed.

Lemma end_of_bound lo hi F : Forall (λ x, x.1 + 8 * x.2 <= hi) F → lo <= hi → end_of lo F <= hi.
Proof. revert lo. induction F as [|[a n] F IH]; intros lo HF Hl; cbn; [done|]. apply Forall_cons in HF as [? ?]. apply IH; done. Qed.

Lemma heap_length s F A : heap s F A → (length (ring F) <= UNITS s)%nat.
Proof.
  intros H. pose proof (ordered_length _ _ (h_order _ _ _ H)) as Hl.
  pose proof (h_lim _ _ _ H). assert (end_of (base - 1) (ring F) <= brk s).
  { cbn [end_of]. apply end_of_bound; [|lia]. eapply Forall_impl; [exact (h_hdr _ _ _ H)|]. cbn. lia. }
  unfold UNITS. lia.
Qed.

(** The place of a block that overlaps no free one. *)
Lemma heap_place s F A bp n :
  heap s F A → base + 8 <= bp → 1 <= n → Forall (apart (bp, n)) F →
  ∃ X p k F2, ring F = X ++ (p, k) :: F2 ∧ placed bp X p F2 ∧ p + 8 * k <= bp ∧
    Forall (λ x, bp + 8 * n <= x.1) F2.
Proof.
  intros H Hb Hn Hap. destruct (h_order _ _ _ H) as (_ & _ & Ho).
  destruct (split_at (ring F) (bp, n) (base - 1)) as (F1 & F2 & HF & HF1 & HF2); [exact (h_order _ _ _ H)|done| |].
  { apply Forall_cons. split; [|done]. unfold apart. cbn. lia. }
  destruct F1 as [|x1 F1' _] using rev_ind.
  { destruct F2 as [|? F2]; [done|]. injection HF as <- <-. apply Forall_cons in HF2 as [HF2 _]. cbn [fst snd] in HF2. lia. }
  destruct x1 as [p k]. rewrite <- app_assoc in HF. cbn in HF. exists F1', p, k, F2.
  pose proof (h_order _ _ _ H) as Hord. rewrite HF in Hord. apply ordered_app in Hord as [O1 (O2 & O3 & O4)].
  apply Forall_app in HF1 as [HF1 Hp]. apply Forall_cons in Hp as [Hp _]. cbn [fst snd] in Hp.
  split_and!; [done| |lia|done]. split.
  - destruct F1' as [|[b j] F1']; injection HF as E1 E2 E3; exact (eq_sym E1).
  - by destruct (ordered_rising _ _ p O1).
  - pose proof (h_hdr _ _ _ H) as Hh. destruct F1' as [|[b j] F1']; injection HF as E1 E2 E3; [lia|].
    rewrite E3 in Hh. apply Forall_app in Hh as [_ Hh]. apply Forall_cons in Hh as [Hh _]. cbn [fst snd] in Hh. lia.
  - eapply Forall_impl; [exact HF2|]. cbn. lia.
  - eapply ordered_weaken; [exact O4|lia].
Qed.

Lemma joined_Forall (P : block → Prop) p k bp n F2 :
  (∀ a i j, P (a, i) → P (a + 8 * i, j) → P (a, i + j)) → P (p, k) → P (bp, n) → Forall P F2 →
  Forall P (joined p k bp n F2).
Proof.
  intros Hj Hp Hb HF. assert (∃ n' F2', join bp n F2 = ((bp, n'), F2') ∧ P (bp, n') ∧ Forall P F2') as (n' & F2' & E & Hn' & HF').
  { destruct F2 as [|[q m] F2]; cbn; [by exists n, []|]. apply Forall_cons in HF as HF'. destruct HF' as [Hq HF'].
    destruct (Z.eqb_spec (bp + 8 * n) q) as [<-|]; [by exists (n + m), F2; auto|by exists n, ((q, m) :: F2)]. }
  unfold joined. rewrite E. destruct (Z.eqb_spec (p + 8 * k) bp) as [<-|]; rewrite ?Forall_cons; auto.
Qed.

Lemma joined_ordered lo p k bp n F2 :
  lo < p → 0 <= k → p + 8 * k <= bp → 0 <= n → Forall (λ x, bp + 8 * n <= x.1) F2 → ordered (p + 8 * k) F2 →
  ordered lo (joined p k bp n F2).
Proof.
  intros Hlo Hk Hp Hn HF Ho.
  assert (∃ n' F2', join bp n F2 = ((bp, n'), F2') ∧ 0 <= n' ∧ ordered (bp + 8 * n') F2') as (n' & F2' & E & Hn' & HF').
  { destruct F2 as [|[q m] F2]; cbn [join]; [by exists n, []|]. destruct Ho as (H1 & H2 & H3).
    apply Forall_cons in HF as [Hq _]. cbn [fst] in Hq.
    destruct (Z.eqb_spec (bp + 8 * n) q) as [<-|]; [exists (n + m), F2|exists n, ((q, m) :: F2)]; (split_and!; [done|lia|]).
    - by replace (bp + 8 * (n + m)) with (bp + 8 * n + 8 * m) by lia.
    - cbn. split_and!; [lia|done..]. }
  unfold joined. rewrite E. destruct (Z.eqb_spec (p + 8 * k) bp) as [<-|]; cbn [ordered]; split_and!; try lia; [|done].
  by replace (p + 8 * (k + n')) with (p + 8 * k + 8 * n') by lia.
Qed.

Lemma joined_fits p k bp n F2 : 0 <= k → Forall (λ x, 0 <= x.2) F2 → ∃ a j, (a, j) ∈ joined p k bp n F2 ∧ n <= j.
Proof.
  intros Hk HF. unfold joined. assert (∃ n' F2', join bp n F2 = ((bp, n'), F2') ∧ n <= n') as (n' & F2' & -> & Hn').
  { destruct F2 as [|[q m] F2]; cbn; [by exists n, []|]. apply Forall_cons in HF as [Hm _]. cbn in Hm.
    destruct (_ =? q); [exists (n + m), F2|exists n, ((q, m) :: F2)]; (split; [done|lia]). }
  destruct (_ =? bp); [exists p, (k + n')|exists bp, n']; (split; [set_solver|lia]).
Qed.

Lemma joined_head p k bp n F2 : ∃ j L, joined p k bp n F2 = (p, j) :: L.
Proof. unfold joined. destruct (join bp n F2) as [[b n'] F2']. destruct (_ =? bp); eauto. Qed.

(** What an element of the ring is: [base], or a block of the heap that
    overlaps none held. *)
Definition ring_ok (A : gmap Z Z) (s : ust) (x : block) : Prop :=
  x = (base, 0) ∨
  base + 8 <= x.1 ∧ 1 <= x.2 ∧ x.1 + 8 * x.2 <= brk s ∧ ∀ a n, A !! a = Some n → apart (a, n) x.

Lemma ring_ok_join A s a i j : (∀ a n, A !! a = Some n → 1 <= n) →
  ring_ok A s (a, i) → ring_ok A s (a + 8 * i, j) → ring_ok A s (a, i + j).
Proof.
  intros HA [E|(H1 & H2 & H3 & H4)] [E'|(K1 & K2 & K3 & K4)]; cbn [fst snd] in *.
  - injection E as -> ->. injection E' as _ ->. by left.
  - injection E as -> ->. lia.
  - injection E' as E' ->. lia.
  - right. cbn [fst snd]. split_and!; [lia..|]. intros b n Hb. specialize (H4 _ _ Hb). specialize (K4 _ _ Hb). specialize (HA _ _ Hb).
    unfold apart in *. cbn [fst snd] in *. lia.
Qed.

Lemma heap_ring s F A : heap s F A → Forall (ring_ok A s) (ring F).
Proof.
  intros H. apply Forall_cons. split; [by left|]. pose proof (h_hdr _ _ _ H) as Hh. rewrite Forall_forall in Hh |- *.
  intros x Hx. right. destruct (Hh _ Hx) as (? & ? & ?). split_and!; [done..|]. intros a n Ha.
  pose proof (h_apart _ _ _ H a n Ha) as Hap. rewrite Forall_forall in Hap. auto.
Qed.

(** The converse: a list that starts at [base] makes a heap. *)
Lemma ring_heap s A L :
  seg (mem s) L base → ordered (base - 1) L → first L 0 = base → Forall (ring_ok A s) L → freep s ∈ L.*1 →
  (∀ a n, A !! a = Some n → base + 8 <= a ∧ 1 <= n ∧ a + 8 * n <= brk s ∧ mem s (a + 4) = n) →
  (∀ a n b k, A !! a = Some n → A !! b = Some k → a ≠ b → apart (a, n) (b, k)) →
  0 < base ∧ base + 8 <= brk s <= lim s ∧ lim s < 2 ^ 31 →
  ∃ F, L = ring F ∧ heap s F A.
Proof.
  intros Hs Ho Hf Hr Hp Hh Hpr Hl. destruct L as [|[b j] F]; [by apply elem_of_nil in Hp|]. cbn in Hf. subst b.
  apply Forall_cons in Hr as Hr'. destruct Hr' as [[E|(E & _)] Hr']; [|cbn in E; lia]. injection E as ->.
  assert (Hr2 : ∀ x, x ∈ F → base + 8 <= x.1 ∧ 1 <= x.2 ∧ x.1 + 8 * x.2 <= brk s ∧ ∀ a n, A !! a = Some n → apart (a, n) x).
  { intros [c k] Hx. destruct Ho as (_ & _ & Ho). destruct (ordered_elem _ _ _ _ Ho Hx). rewrite Forall_forall in Hr'.
    destruct (Hr' _ Hx) as [E|?]; [injection E as -> ->; lia|done]. }
  exists F. split; [done|]. split; try done.
  - apply Forall_forall. intros x Hx. naive_solver.
  - intros a n Ha. apply Forall_forall. intros x Hx. naive_solver.
Qed.

Lemma ring_ok_far A s x y : ring_ok A s x → ring_ok A s y → x.1 < y.1 → x.1 + 8 * x.2 <= y.1 → far x.1 y.1.
Proof. intros [->|(?&?&_)] [->|(?&?&_)] ??; unfold far; cbn [fst snd] in *; lia. Qed.

Lemma far_sym a b : far a b → far b a.
Proof. unfold far. tauto. Qed.

Lemma ring_ok_size A s x : 0 < base → brk s < 2 ^ 31 → ring_ok A s x → size_ok x.2.
Proof. intros ? ? [->|(?&?&?&_)]; unfold size_ok; cbn [snd]; lia. Qed.

Lemma ring_ok_ext A s s' : brk s' = brk s → ∀ L, Forall (ring_ok A s) L → Forall (ring_ok A s') L.
Proof. intros E L HL. eapply Forall_impl; [exact HL|]. unfold ring_ok. by rewrite E. Qed.

(** The writes of [free] and [malloc] to ring headers leave held blocks alone. *)
Lemma ring_ok_keeps A s x a n i :
  ring_ok A s x → base + 8 <= a → A !! a = Some n → a + 4 <= i < a + 8 * n → i ∉ [x.1; x.1 + 4].
Proof.
  rewrite !elem_of_cons, elem_of_nil. intros [->|(? & ? & ? & Hap)] Ha HA Hi; cbn [fst]; [lia|].
  specialize (Hap _ _ HA). unfold apart in Hap. cbn [fst snd] in Hap. lia.
Qed.

Lemma ring_far A s X p k F2 bp n :
  ordered (base - 1) (X ++ (p, k) :: F2) → Forall (ring_ok A s) (X ++ (p, k) :: F2) → ring_ok A s (bp, n) →
  1 <= n → p < bp → p + 8 * k <= bp → Forall (λ x, bp + 8 * n <= x.1) F2 →
  Forall (λ x, far x.1 p ∧ far x.1 bp) (X ++ F2).
Proof.
  intros [Ho1 (Ho2 & Hk & Ho3)]%ordered_app [HrX [Hrp HrF]%Forall_cons]%Forall_app Hb Hn Hpb Hpk HF2.
  apply Forall_app. split; apply Forall_forall; intros [c j] Hx.
  - destruct (ordered_elem _ _ _ _ Ho1 Hx) as (? & ? & ?). rewrite Forall_forall in HrX. specialize (HrX _ Hx).
    split; [apply (ring_ok_far _ _ _ _ HrX Hrp)|apply (ring_ok_far _ _ _ _ HrX Hb)]; cbn [fst snd]; lia.
  - destruct (ordered_elem _ _ _ _ Ho3 Hx) as (? & ? & ?). rewrite Forall_forall in HrF, HF2. specialize (HrF _ Hx).
    specialize (HF2 _ Hx). cbn [fst] in HF2.
    split; apply far_sym; [apply (ring_ok_far _ _ _ _ Hrp HrF)|apply (ring_ok_far _ _ _ _ Hb HrF)]; cbn [fst snd]; lia.
Qed.

Section Free.
Context (s : ust) (F : list block) (A : gmap Z Z) (bp n : Z).
Hypothesis Hheap : heap s F (<[bp := n]> A).
Hypothesis Hnew : A !! bp = None.

Lemma free_bp : base + 8 <= bp ∧ 1 <= n ∧ bp + 8 * n <= brk s ∧ mem s (bp + 4) = n.
Proof. apply (h_held _ _ _ Hheap). by rewrite lookup_insert_eq. Qed.

Lemma free_held a k : A !! a = Some k → <[bp := n]> A !! a = Some k ∧ a ≠ bp.
Proof. intros Ha. assert (a ≠ bp) by (by intros ->; rewrite Ha in Hnew). by rewrite lookup_insert_ne. Qed.

Lemma free_block_ok : ring_ok A s (bp, n).
Proof.
  destruct free_bp as (? & ? & ? & _). right. cbn [fst snd]. split_and!; [done..|].
  intros a k [Ha Hne]%free_held. eapply (h_pair _ _ _ Hheap); [done| |done]. by rewrite lookup_insert_eq.
Qed.

Lemma free_ring_ok : Forall (ring_ok A s) (ring F).
Proof.
  eapply Forall_impl; [exact (heap_ring _ _ _ Hheap)|]. intros x [->|(? & ? & ? & Hap)]; [by left|right].
  split_and!; [done..|]. intros a k [Ha _]%free_held. by apply Hap.
Qed.

Lemma heap_free :
  ∃ s' F', free (bp + 8) s = Done tt s' ∧ heap s' F' A ∧ keeps A s s' ∧ brk s' = brk s ∧ lim s' = lim s ∧
    ∃ a j, (a, j) ∈ F' ∧ n <= j.
Proof.
  destruct free_bp as (Hb & Hn & Hbrk & Hmem). pose proof free_ring_ok as Hring. pose proof free_block_ok as Hbok.
  destruct (h_lim _ _ _ Hheap) as (Hbase & [Hbb Hbl] & Hlim).
  destruct (heap_place s F _ bp n Hheap Hb Hn) as (X & p & k & F2 & HL & Hpl & Hpk & HF2).
  { apply (h_apart _ _ _ Hheap). by rewrite lookup_insert_eq. }
  pose proof (h_seg _ _ _ Hheap) as Hs. pose proof (h_freep _ _ _ Hheap) as Hf. pose proof (heap_length _ _ _ Hheap) as Hlen.
  pose proof (h_order _ _ _ Hheap) as Ho. rewrite HL in *. apply ordered_app in Ho as Ho'. destruct Ho' as [Ho1 (Ho2 & Hk & Ho3)].
  apply Forall_app in Hring as Hring'. destruct Hring' as [HrX [Hrp HrF]%Forall_cons].
  assert (Hpb : far p bp) by (apply (ring_ok_far _ _ _ _ Hrp Hbok); [exact (pl_lt _ _ _ _ Hpl)|done]).
  destruct (free_links s X p k F2 bp n) as (m & Hfree & Hseg & Hfr); try done.
  { by eapply ring_far; try exact (pl_lt _ _ _ _ Hpl). }
  { apply (ring_ok_size _ _ _ Hbase) in Hrp; [done|lia]. }
  { unfold size_ok. lia. }
  { rewrite Forall_forall in HrF, HF2 |- *. intros x Hx. specialize (HF2 _ Hx). destruct (HrF _ Hx) as [->|(? & ? & ? & _)];
      unfold size_ok; cbn [fst snd] in *; lia. }
  { lia. }
  destruct (joined_fits p k bp n F2) as (a & j & Haj & Hj); [done| |].
  { eapply Forall_impl; [exact HrF|]. intros x [->|(? & ? & _)]; cbn [snd]; lia. }
  assert (Hkeep : keeps A s (mkU m p (brk s) (lim s))).
  { intros c i l Hc Hl. destruct (free_held _ _ Hc) as [Hc' _]. destruct (h_held _ _ _ Hheap _ _ Hc') as (Hcb & _).
    apply Hfr. pose proof (ring_ok_keeps _ _ _ _ _ _ Hrp Hcb Hc Hl). pose proof (ring_ok_keeps _ _ _ _ _ _ Hbok Hcb Hc Hl). set_solver. }
  set (s' := mkU m p (brk s) (lim s)) in *.
  destruct (ring_heap s' A (X ++ joined p k bp n F2)) as (F' & HF' & Hh'); try done.
  - apply ordered_app. split; [done|]. apply joined_ordered; try done; lia.
  - destruct (joined_head p k bp n F2) as (i & L & ->). rewrite first_app. exact (pl_first _ _ _ _ Hpl).
  - apply Forall_app. split; [done|]. apply joined_Forall; try done. intros ? ? ?. apply ring_ok_join.
    intros b l [Hi _]%free_held. destruct (h_held _ _ _ Hheap _ _ Hi) as (_ & ? & _). done.
  - destruct (joined_head p k bp n F2) as (i & L & ->). cbn [freep]. rewrite fmap_app. set_solver.
  - intros b i Hbi. destruct (free_held _ _ Hbi) as [Hi _]. destruct (h_held _ _ _ Hheap _ _ Hi) as (? & ? & ? & <-).
    split_and!; [done..|]. apply (Hkeep _ _ _ Hbi). lia.
  - intros b i c l [Hi _]%free_held [Hl _]%free_held. by apply (h_pair _ _ _ Hheap).
  - exists s', F'. split_and!; try done. exists a, j. split; [|done].
    assert (Hin : (a, j) ∈ ring F') by (rewrite <- HF'; set_solver).
    apply elem_of_cons in Hin as [E|Hin]; [injection E as -> ->; lia|done].
Qed.
End Free.

(** ** What [malloc] does to the list *)

Definition within (x y : block) : Prop := y.1 <= x.1 ∧ x.1 + 8 * x.2 <= y.1 + 8 * y.2.

Lemma apart_within x y z : apart z y → within x y → apart z x.
Proof. unfold apart, within. lia. Qed.

Section Carve.
Context (s : ust) (F : list block) (A : gmap Z Z) (a n r nu : Z).
Hypothesis Hheap : heap s F A.
Hypothesis Hin : (a, n) ∈ F.
Hypothesis Hnu : 1 <= nu.
Hypothesis Hr : within (r, nu) (a, n).

Lemma carve_block : base + 8 <= a ∧ 1 <= n ∧ a + 8 * n <= brk s ∧ ∀ b k, A !! b = Some k → apart (b, k) (a, n).
Proof.
  pose proof (h_hdr _ _ _ Hheap) as Hh. rewrite Forall_forall in Hh. destruct (Hh _ Hin) as (? & ? & ?). split_and!; [done..|].
  intros b k Hb. pose proof (h_apart _ _ _ Hheap _ _ Hb) as Hap. rewrite Forall_forall in Hap. auto.
Qed.

Lemma carve_new : A !! r = None.
Proof.
  destruct (A !! r) as [k|] eqn:E; [|done]. destruct carve_block as (_ & _ & _ & Hap). specialize (Hap _ _ E).
  destruct (h_held _ _ _ Hheap _ _ E) as (_ & ? & _). unfold apart, within in *. cbn [fst snd] in *. lia.
Qed.

Lemma carve s' L :
  seg (mem s') L base → ordered (base - 1) L → first L 0 = base → freep s' ∈ L.*1 →
  Forall (λ x, apart (r, nu) x ∧ (x = (base, 0) ∨ 1 <= x.2 ∧ ∃ y, y ∈ F ∧ within x y)) L →
  keeps A s s' → mem s' (r + 4) = nu → brk s' = brk s → lim s' = lim s →
  ∃ F', L = ring F' ∧ heap s' F' (<[r := nu]> A).
Proof.
  intros Hs Ho Hf Hp HL Hk Hm Hb Hl. destruct carve_block as (Ha1 & Ha2 & Ha3 & Ha4). unfold within in Hr. cbn [fst snd] in Hr.
  apply ring_heap; try done.
  - rewrite Forall_forall in HL |- *. intros x Hx. destruct (HL _ Hx) as [Hap [->|(Hx1 & y & Hy & Hw)]]; [by left|right].
    pose proof (h_hdr _ _ _ Hheap) as Hh. rewrite Forall_forall in Hh. destruct (Hh _ Hy) as (? & ? & ?). pose proof Hw as [??].
    rewrite Hb. split_and!; [lia..|]. intros b k [[<- <-]|[_ HA]]%lookup_insert_Some; [done|].
    eapply apart_within; [|exact Hw]. pose proof (h_apart _ _ _ Hheap _ _ HA) as HF. rewrite Forall_forall in HF. auto.
  - intros b k [[<- <-]|[_ HA]]%lookup_insert_Some; rewrite Hb; [split_and!; lia|].
    destruct (h_held _ _ _ Hheap _ _ HA) as (? & ? & ? & <-). split_and!; [done..|]. apply (Hk _ _ _ HA). lia.
  - intros b k c j [[<- <-]|[_ HA]]%lookup_insert_Some [[<- <-]|[_ HB]]%lookup_insert_Some Hne; [done| | |].
    + apply apart_sym. by eapply apart_within; [apply Ha4|].
    + by eapply apart_within; [apply Ha4|].
    + by eapply (h_pair _ _ _ Hheap).
  - rewrite Hb, Hl. exact (h_lim _ _ _ Hheap).
Qed.
End Carve.

Lemma heap_pred s F A a n prev :
  heap s F A → (a, n) ∈ F → prev ∈ (ring F).*1 → mem s prev = a → ∃ U j V, ring F = U ++ (prev, j) :: (a, n) :: V.
Proof.
  intros H Ha Hp Hm. apply list_elem_of_fmap in Hp as ([prev' j] & -> & (U & W & HL)%list_elem_of_split).
  pose proof (h_seg _ _ _ H) as Hs. rewrite HL in Hs. apply seg_app in Hs as [_ (Hp & _ & HW)]. cbn [fst] in *.
  exists U, j. rewrite Hm in Hp. pose proof (h_hdr _ _ _ H) as Hh. rewrite Forall_forall in Hh.
  destruct W as [|[b k] V]; cbn [first] in Hp; [destruct (Hh _ Ha) as [E _]; cbn in E; lia|]. subst b.
  destruct HW as (_ & Hk & _). rewrite (seg_lookup _ _ _ a n (h_seg _ _ _ H)) in Hk by set_solver. subst k. by exists V.
Qed.

Lemma ring_away A s U x V : ordered (base - 1) (U ++ x :: V) → Forall (ring_ok A s) (U ++ x :: V) →
  Forall (λ y, far y.1 x.1 ∧ apart x y ∧ 0 <= y.2) (U ++ V).
Proof.
  destruct x as [a n]. intros [Ho1 (Ho2 & Hk & Ho3)]%ordered_app [HrU [Hrx HrV]%Forall_cons]%Forall_app.
  apply Forall_app. split; apply Forall_forall; intros [c j] Hx; unfold apart; cbn [fst snd].
  - destruct (ordered_elem _ _ _ _ Ho1 Hx) as (? & ? & ?). rewrite Forall_forall in HrU. specialize (HrU _ Hx).
    split; [apply (ring_ok_far _ _ _ _ HrU Hrx); cbn [fst snd]|]; lia.
  - destruct (ordered_elem _ _ _ _ Ho3 Hx) as (? & ? & ?). rewrite Forall_forall in HrV. specialize (HrV _ Hx).
    split; [apply far_sym, (ring_ok_far _ _ _ _ Hrx HrV); cbn [fst snd]|]; lia.
Qed.

Lemma ring_old s F A x : heap s F A → x ∈ ring F → x = (base, 0) ∨ 1 <= x.2 ∧ ∃ y, y ∈ F ∧ within x y.
Proof.
  intros H [->|Hx]%elem_of_cons; [by left|right]. pose proof (h_hdr _ _ _ H) as Hh. rewrite Forall_forall in Hh.
  destruct (Hh _ Hx) as (_ & ? & _). split; [done|]. exists x. split; [done|]. unfold within. lia.
Qed.

Lemma seg_far m L e i v : seg m L e → Forall (λ y, i ≠ y.1 ∧ i ≠ y.1 + 4) L → seg (<[i := v]> m) L e.
Proof.
  intros Hs HL. eapply seg_ext; [done|]. intros a n Ha. rewrite Forall_forall in HL. destruct (HL _ Ha) as [H1 H2].
  cbn [fst] in *. by rewrite !fn_lookup_insert_ne.
Qed.

Section Take.
Context (s : ust) (F U V : list block) (A : gmap Z Z) (prev j a n nu : Z).
Hypothesis Hheap : heap s F A.
Hypothesis HL : ring F = U ++ (prev, j) :: (a, n) :: V.
Hypothesis Hin : (a, n) ∈ F.
Hypothesis Hnu : 1 <= nu <= n.

Lemma take_away_prev : Forall (λ y, far y.1 prev ∧ apart (prev, j) y ∧ 0 <= y.2) (U ++ (a, n) :: V).
Proof.
  pose proof (h_order _ _ _ Hheap). pose proof (heap_ring _ _ _ Hheap). rewrite HL in *. by apply (ring_away A s U (prev, j)).
Qed.

Lemma take_away_a : Forall (λ y, far y.1 a ∧ apart (a, n) y ∧ 0 <= y.2) (U ++ (prev, j) :: V).
Proof.
  pose proof (h_order _ _ _ Hheap) as Ho. pose proof (heap_ring _ _ _ Hheap) as Hr. rewrite HL in *.
  change ((prev, j) :: (a, n) :: V) with ([(prev, j)] ++ (a, n) :: V) in *. rewrite app_assoc in Ho, Hr.
  pose proof (ring_away _ _ _ _ _ Ho Hr) as Hw. by rewrite <- app_assoc in Hw.
Qed.

Lemma take_first L : first (U ++ (prev, j) :: L) 0 = base.
Proof. rewrite first_app. transitivity (first (ring F) 0); [by rewrite HL, first_app|done]. Qed.

(** All of the block. *)
Lemma take_exact s' : nu = n →
  s' = mkU (<[prev := mem s a]> (mem s)) prev (brk s) (lim s) →
  (∃ F', heap s' F' (<[a := nu]> A)) ∧ keeps A s s'.
Proof.
  intros -> ->. pose proof take_away_prev as Hap. pose proof take_away_a as Haa.
  pose proof (h_seg _ _ _ Hheap) as Hs. pose proof (h_order _ _ _ Hheap) as Ho. rewrite HL in Hs, Ho.
  apply seg_app in Hs as (HsU & Hp & Hj & Ha & Hn & HsV). apply Forall_app in Hap as [HapU [[Hpa _] HapV]%Forall_cons].
  assert (Hk : keeps A s (mkU (<[prev := mem s a]> (mem s)) prev (brk s) (lim s))).
  { intros b k i Hb Hi. cbn [mem]. apply fn_lookup_insert_ne. pose proof (heap_ring _ _ _ Hheap) as Hr. rewrite HL in Hr.
    apply Forall_app in Hr as [_ [Hr _]%Forall_cons]. destruct (h_held _ _ _ Hheap _ _ Hb) as (Hbb & _).
    pose proof (ring_ok_keeps _ _ _ _ _ _ Hr Hbb Hb Hi). set_solver. }
  split; [|done]. unfold far in *. cbn [fst] in *.
  destruct (carve s F A a n a n Hheap Hin) with (s' := mkU (<[prev := mem s a]> (mem s)) prev (brk s) (lim s)) (L := U ++ (prev, j) :: V)
    as (F' & _ & HF'); try done; try lia.
  - apply seg_app. cbn [seg first mem]. rewrite fn_lookup_insert, fn_lookup_insert_ne by lia.
    split_and!; [|done..|]; (apply seg_far; [done|]); (eapply Forall_impl; [eassumption|]); cbn; intros ?; lia.
  - apply ordered_app in Ho as [Ho1 (Ho2 & Ho3 & Ho4 & Ho5 & Ho6)]. apply ordered_app. split; [done|]. cbn [ordered].
    split_and!; [done..|]. eapply ordered_weaken; [exact Ho6|lia].
  - apply take_first.
  - cbn [freep]. rewrite fmap_app. set_solver.
  - apply Forall_forall. intros x Hx. rewrite Forall_forall in Haa. split; [by apply Haa|]. apply (ring_old _ _ _ _ Hheap).
    rewrite HL. set_solver.
  - cbn [mem]. by rewrite fn_lookup_insert_ne by lia.
  - by exists F'.
Qed.

(** The tail of the block. *)
Lemma take_tail s' r : nu < n → r = a + 8 * (n - nu) →
  s' = mkU (<[r + 4 := nu]> (<[a + 4 := n - nu]> (mem s))) prev (brk s) (lim s) →
  (∃ F', heap s' F' (<[r := nu]> A)) ∧ keeps A s s'.
Proof.
  intros Hlt Hr Hs'. pose proof take_away_a as Haa.
  pose proof (h_seg _ _ _ Hheap) as Hs. pose proof (h_order _ _ _ Hheap) as Ho. rewrite HL in Hs, Ho.
  apply seg_app in Hs as (HsU & Hp & Hj & Ha & Hn & HsV).
  apply Forall_app in Haa as Haa'. destruct Haa' as [HaaU [(Hpa & Hap & Hj0) HaaV]%Forall_cons].
  assert (Hk : keeps A s s').
  { intros b k i Hb Hi. destruct (carve_block s F A a n Hheap Hin) as (_ & _ & _ & Hc). specialize (Hc _ _ Hb).
    unfold apart in Hc. cbn [fst snd] in Hc. subst s'. cbn [mem]. by rewrite !fn_lookup_insert_ne by lia. }
  split; [|done]. unfold far, apart in Hpa, Hap. cbn [fst snd] in Hpa, Hap, Hj0. assert (Hw : within (r, nu) (a, n)) by (unfold within; cbn [fst snd]; lia).
  destruct (carve s F A a n r nu Hheap Hin) with (s' := s') (L := U ++ (prev, j) :: (a, n - nu) :: V)
    as (F' & _ & HF'); try (done || subst s'; done); try lia.
  - subst s'. apply seg_app. cbn [seg first mem]. split_and!;
      [|by rewrite !fn_lookup_insert_ne by lia..|by rewrite fn_lookup_insert_ne, fn_lookup_insert by lia|]; (apply seg_far; [apply seg_far; [done|]|]); (eapply Forall_impl; [eassumption|]); cbn [fst]; intros ?;
      unfold far, apart; cbn [fst snd]; lia.
  - apply ordered_app in Ho as [Ho1 (Ho2 & Ho3 & Ho4 & Ho5 & Ho6)]. apply ordered_app. split; [done|]. cbn [ordered].
    split_and!; try done; [lia|]. eapply ordered_weaken; [exact Ho6|lia].
  - apply take_first.
  - subst s'. cbn [freep]. rewrite fmap_app. set_solver.
  - apply Forall_forall. intros x Hx. assert (Hx' : x = (a, n - nu) ∨ x ∈ U ++ (prev, j) :: V) by set_solver.
    destruct Hx' as [->|Hx'].
    + split; [right; cbn [fst snd]; lia|right]. cbn [snd]. split; [lia|]. exists (a, n). split; [done|]. unfold within. cbn [fst snd]. lia.
    + clear Hx. split; [|apply (ring_old _ _ _ _ Hheap); rewrite HL; rewrite !elem_of_app, !elem_of_cons in *; tauto]. rewrite Forall_forall in Haa.
      apply apart_sym. eapply apart_within; [apply apart_sym, Haa, Hx'|done].
  - subst s'. cbn [mem]. by rewrite fn_lookup_insert.
  - by exists F'.
Qed.
End Take.

Lemma heap_take s F A prev a n nu :
  heap s F A → (a, n) ∈ F → prev ∈ (ring F).*1 → mem s prev = a → 1 <= nu <= n →
  ∃ r s' F', malloc_take nu prev a n s = Done (r + 8) s' ∧ heap s' F' (<[r := nu]> A) ∧ A !! r = None ∧ keeps A s s' ∧
    brk s' = brk s ∧ lim s' = lim s.
Proof.
  intros H Hin Hp Hm Hnu. destruct (heap_pred _ _ _ _ _ _ H Hin Hp Hm) as (U & j & V & HL).
  unfold malloc_take, ptr, set_ptr, set_size. destruct (Z.eqb_spec n nu) as [E|E].
  - edestruct (take_exact s F U V A prev j a n nu) as [[F' HF'] Hk]; try done.
    exists a. do 2 eexists. mgo. split_and!; [done|exact HF'| |exact Hk|done..].
    eapply (carve_new s F A a n a nu); try done; [lia|unfold within; cbn [fst snd]; lia].
  - edestruct (take_tail s F U V A prev j a n nu) as [[F' HF'] Hk]; try done; [lia|].
    eexists. do 2 eexists. mgo. split_and!; [done|exact HF'| |exact Hk|done..].
    eapply (carve_new s F A a n _ nu); try done; [lia|unfold within; cbn [fst snd]; lia].
Qed.

(** ** The search of [malloc] *)

Fixpoint lastp (prev : Z) (R : list block) : Z :=
  match R with
  | [] => prev
  | (a, _) :: R' => lastp a R'
  end.

Lemma lastp_spec m L R : ∀ prev e, seg m R e → R ⊆ L → prev ∈ L.*1 → m prev = first R e →
  lastp prev R ∈ L.*1 ∧ m (lastp prev R) = e.
Proof.
  induction R as [|[a n] R IH]; intros prev e Hs HL Hp Hm; [done|]. destruct Hs as (H1 & _ & H3).
  cbn [lastp]. apply IH; [done|set_solver| |done]. apply list_elem_of_fmap. exists (a, n). split; [done|]. set_solver.
Qed.

Lemma fit_dec nu R : Forall (λ x : block, x.2 < nu) R ∨
  ∃ R1 a n R2, R = R1 ++ (a, n) :: R2 ∧ Forall (λ x : block, x.2 < nu) R1 ∧ nu <= n.
Proof.
  induction R as [|[a n] R IH]; [by left|]. destruct (decide (n < nu)) as [Hlt|Hge].
  - destruct IH as [IH|(R1 & b & k & R2 & -> & H1 & H2)]; [left; by apply Forall_cons|right].
    exists ((a, n) :: R1), b, k, R2. split_and!; [done|by apply Forall_cons|done].
  - right. exists [], a, n, R. split_and!; [done|done|lia].
Qed.

Lemma loop_skip s nu R : ∀ prev e fuel, seg (mem s) R e → Forall (λ x, x.2 < nu) R → freep s ∉ R.*1 →
  malloc_loop (length R + fuel) nu prev (first R e) s = malloc_loop fuel nu (lastp prev R) e s.
Proof.
  induction R as [|[a n] R IH]; intros prev e fuel Hs Hsm Hf; [done|]. destruct Hs as (H1 & H2 & H3).
  apply Forall_cons in Hsm as [Hn Hsm]. cbn [snd] in Hn. cbn [fmap list_fmap fst] in Hf. apply not_elem_of_cons in Hf as [Hf1 Hf2].
  cbn [length plus malloc_loop lastp first]. unfold size, ptr. mgo. rewrite H2, (proj2 (Z.leb_gt nu n)) by done.
  mgo. rewrite (proj2 (Z.eqb_neq a (freep s))) by done. mgo. rewrite H1. by apply IH.
Qed.

Section Round.
Context (s : ust) (F Y W : list block) (A : gmap Z Z) (k nu : Z).
Hypothesis Hheap : heap s F A.
Hypothesis HL : ring F = Y ++ (freep s, k) :: W.
Hypothesis Hnu : 1 <= nu.

Lemma round_seg : seg (mem s) (W ++ Y) (freep s) ∧ mem s (freep s) = first (W ++ Y) (freep s) ∧ mem s (freep s + 4) = k.
Proof.
  pose proof (h_seg _ _ _ Hheap) as Hs. rewrite HL in Hs. apply seg_app in Hs as (HY & Hf & Hk & HW).
  assert (Hb : first Y (freep s) = base).
  { transitivity (first (ring F) 0); [by rewrite HL, first_app|done]. }
  rewrite seg_app, first_app, Hb. done.
Qed.

Lemma round_sub : W ++ Y ⊆ ring F.
Proof. rewrite HL. intros x. rewrite !elem_of_app, elem_of_cons. tauto. Qed.

Lemma round_freep : freep s ∉ (W ++ Y).*1.
Proof.
  pose proof (h_order _ _ _ Hheap) as Ho. pose proof (heap_ring _ _ _ Hheap) as Hr. rewrite HL in Ho, Hr.
  pose proof (ring_away _ _ _ _ _ Ho Hr) as Hw. rewrite Forall_forall in Hw.
  intros ([b j] & E & Hin)%list_elem_of_fmap. destruct (Hw (b, j)) as [Hfar _]; [set_solver|].
  unfold far in Hfar. cbn [fst] in *. lia.
Qed.

(** The search goes round once: it takes the first block that fits, or comes
    back to [freep]. *)
Lemma round d :
  (∃ prev a n, (a, n) ∈ F ∧ nu <= n ∧ prev ∈ (ring F).*1 ∧ mem s prev = a ∧
     malloc_loop (length F + d) nu (freep s) (mem s (freep s)) s = malloc_take nu prev a n s) ∨
  (Forall (λ x, x.2 < nu) F ∧ ∃ prev, k < nu ∧
     malloc_loop (length F + d) nu (freep s) (mem s (freep s)) s = malloc_loop d nu prev (freep s) s).
Proof.
  destruct round_seg as (Hs & Hf & Hk). pose proof round_freep as Hnf. pose proof round_sub as Hsub.
  assert (Hlen : length F = length (W ++ Y)).
  { pose proof (f_equal length HL) as E. rewrite !length_app in E |- *. cbn in E. lia. }
  assert (HF : ∀ a n, (a, n) ∈ ring F → nu <= n → (a, n) ∈ F).
  { intros a n [E|?]%elem_of_cons ?; [injection E as -> ->; lia|done]. }
  assert (Hfp : freep s ∈ (ring F).*1) by exact (h_freep _ _ _ Hheap).
  rewrite Hlen, Hf. destruct (fit_dec nu (W ++ Y)) as [Hsm|(R1 & a & n & R2 & HR & Hsm & Hn)].
  - rewrite loop_skip by done. destruct (lastp_spec _ _ _ _ _ Hs Hsub Hfp Hf) as [Hp1 Hp2].
    destruct (decide (nu <= k)) as [Hle|Hgt].
    + left. exists (lastp (freep s) (W ++ Y)), (freep s), k. split_and!; try done; [apply HF; [rewrite HL; set_solver|done]|].
      destruct d; cbn [malloc_loop]; unfold size; mgo; by rewrite Hk, (proj2 (Z.leb_le nu k)).
    + right. split; [|exists (lastp (freep s) (W ++ Y)); split; [lia|done]].
      apply Forall_forall. intros x Hx. rewrite Forall_forall in Hsm. assert (Hx' : x ∈ ring F) by set_solver.
      rewrite HL in Hx'. apply elem_of_app in Hx' as [?|[->|?]%elem_of_cons]; [apply Hsm; set_solver|cbn; lia|apply Hsm; set_solver].
  - left. rewrite HR in *. apply seg_app in Hs as [Hs1 (Ha1 & Ha2 & _)]. rewrite fmap_app in Hnf.
    destruct (lastp_spec _ (ring F) R1 (freep s) a Hs1) as [Hp1 Hp2]; [set_solver|done|by rewrite Hf, first_app|].
    exists (lastp (freep s) R1), a, n. split_and!; try done; [apply HF; [set_solver|done]|].
    rewrite length_app, <- Nat.add_assoc, first_app. cbn [first]. rewrite loop_skip; [|done|done|set_solver].
    cbn [length plus malloc_loop]. unfold size. mgo. by rewrite Ha2, (proj2 (Z.leb_le nu n)).
Qed.
End Round.

(** ** The two calls *)

Lemma keeps_refl A s : keeps A s s.
Proof. done. Qed.

Lemma keeps_trans A s1 s2 s3 : keeps A s1 s2 → keeps A s2 s3 → keeps A s1 s3.
Proof. intros H1 H2 a n i Ha Hi. rewrite (H2 a n i), (H1 a n i); done. Qed.

Lemma heap_nonzero s F A : heap s F A → freep s ≠ 0.
Proof.
  intros H. pose proof (h_freep _ _ _ H) as Hf. destruct (h_lim _ _ _ H) as (Hb & _).
  apply elem_of_cons in Hf as [->|([a n] & -> & Hin)%list_elem_of_fmap]; [cbn; lia|].
  pose proof (h_hdr _ _ _ H) as Hh. rewrite Forall_forall in Hh. destruct (Hh _ Hin). cbn [fst] in *. lia.
Qed.

(** The memory [sbrk] gives is one more held block. *)
Lemma heap_grow s F A nu : heap s F A → 1 <= nu → brk s + 8 * nu <= lim s →
  heap (mkU (<[brk s + 4 := nu]> (mem s)) (freep s) (brk s + 8 * nu) (lim s)) F (<[brk s := nu]> A) ∧ A !! brk s = None.
Proof.
  intros H Hnu Hl. destruct (h_lim _ _ _ H) as (Hb & [Hb1 Hb2] & Hlim). pose proof (h_hdr _ _ _ H) as Hh. rewrite Forall_forall in Hh.
  assert (Hout : ∀ a n i, A !! a = Some n → i < a + 8 * n → i ≠ brk s + 4).
  { intros a n i Ha Hi. destruct (h_held _ _ _ H _ _ Ha) as (_ & _ & ? & _). lia. }
  split; [|destruct (A !! brk s) as [n|] eqn:E; [destruct (h_held _ _ _ H _ _ E); lia|done]].
  split; cbn [mem freep brk lim].
  - apply seg_far; [exact (h_seg _ _ _ H)|]. apply Forall_cons. cbn [fst]. split; [lia|]. apply Forall_forall.
    intros x Hx. destruct (Hh _ Hx). lia.
  - exact (h_order _ _ _ H).
  - apply Forall_forall. intros x Hx. destruct (Hh _ Hx). lia.
  - exact (h_freep _ _ _ H).
  - intros a n [[<- <-]|[_ HA]]%lookup_insert_Some; [rewrite fn_lookup_insert; split_and!; lia|].
    destruct (h_held _ _ _ H _ _ HA) as (? & ? & ? & ?). rewrite fn_lookup_insert_ne by (apply not_eq_sym, (Hout _ _ _ HA); lia).
    split_and!; lia.
  - intros a n [[<- <-]|[_ HA]]%lookup_insert_Some; [|exact (h_apart _ _ _ H _ _ HA)].
    apply Forall_forall. intros x Hx. destruct (Hh _ Hx). right. cbn [fst snd]. lia.
  - intros a n b k [[<- <-]|[_ HA]]%lookup_insert_Some [[<- <-]|[_ HB]]%lookup_insert_Some Hne; [done| | |by apply (h_pair _ _ _ H)].
    + destruct (h_held _ _ _ H _ _ HB). right. cbn [fst snd]. lia.
    + destruct (h_held _ _ _ H _ _ HA). left. cbn [fst snd]. lia.
  - lia.
Qed.

Definition grain (nu : Z) : Z := Z.max nu 4096.

Lemma heap_morecore s F A nu : heap s F A → 1 <= nu < 2 ^ 28 →
  (lim s < brk s + 8 * grain nu ∧ morecore nu s = Done 0 s) ∨
  ∃ s' F', morecore nu s = Done (freep s') s' ∧ heap s' F' A ∧ keeps A s s' ∧ brk s <= brk s' ∧ lim s' = lim s ∧
    ∃ a j, (a, j) ∈ F' ∧ nu <= j.
Proof.
  intros H Hnu. destruct (h_lim _ _ _ H) as (Hb & [Hb1 Hb2] & Hlim). unfold morecore.
  assert ((if nu <? 4096 then 4096 else nu) = grain nu) as -> by (unfold grain; destruct (Z.ltb_spec nu 4096); lia).
  assert (Hg : 4096 <= grain nu < 2 ^ 28 ∧ nu <= grain nu) by (unfold grain; lia).
  rewrite u32_id by (unfold is_u32; lia). rewrite s32_id by (unfold is_s32; lia). replace (grain nu * 8) with (8 * grain nu) by lia.
  unfold sbrk. rewrite bind_assoc. mgo. destruct (Z.leb_spec (brk s + 8 * grain nu) (lim s)) as [Hle|Hlt]; [right|by left].
  rewrite bind_assoc. mgo. mgo. rewrite (proj2 (Z.eqb_neq _ _)) by lia. unfold set_size. mgo.
  destruct (heap_grow s F A (grain nu) H) as [Hg' Hnew]; [lia|done|].
  destruct (heap_free _ _ _ _ _ Hg' Hnew) as (s' & F' & Hfr & Hh' & Hk & Hbk & Hlm & a & j & Haj & Hj).
  exists s', F'. rewrite (bind_Done _ _ _ _ _ Hfr). split_and!; [done|done| |rewrite Hbk; cbn; lia|done|exists a, j; split; [done|lia]].
  eapply keeps_trans; [|exact Hk]. intros b n i Hbn Hi. cbn [mem]. apply fn_lookup_insert_ne.
  destruct (h_held _ _ _ H _ _ Hbn) as (_ & _ & ? & _). lia.
Qed.

(** What [malloc] of [nu] units does to the heap when it returns a block. *)
Definition allocates (s : ust) (A : gmap Z Z) (nu r : Z) (s' : ust) : Prop :=
  A !! r = None ∧ (∃ F', heap s' F' (<[r := nu]> A)) ∧ keeps A s s' ∧ brk s <= brk s' ∧ lim s' = lim s.

Lemma heap_split s F A : heap s F A → ∃ Y k W, ring F = Y ++ (freep s, k) :: W.
Proof.
  intros H. pose proof (h_freep _ _ _ H) as Hf. apply list_elem_of_fmap in Hf as ([f k] & -> & (Y & W & E)%list_elem_of_split).
  by exists Y, k, W.
Qed.

Lemma malloc_fits s F A nu fuel : heap s F A → 1 <= nu → (∃ a j, (a, j) ∈ F ∧ nu <= j) → (length F <= fuel)%nat →
  ∃ r s', malloc_loop fuel nu (freep s) (mem s (freep s)) s = Done (r + 8) s' ∧ allocates s A nu r s'.
Proof.
  intros H Hnu (a & j & Haj & Hj) Hfu. destruct (heap_split _ _ _ H) as (Y & k & W & HL).
  destruct (round s F Y W A k nu H HL Hnu (fuel - length F)) as [(prev & b & n & Hb & Hn & Hp & Hm & E)|(Hsm & _)].
  - replace (length F + (fuel - length F))%nat with fuel in E by lia. rewrite E.
    destruct (heap_take s F A prev b n nu) as (r & s' & F' & -> & ? & ? & ? & ? & ?); try done.
    exists r, s'. split; [done|]. split_and!; eauto; lia.
  - rewrite Forall_forall in Hsm. specialize (Hsm _ Haj). cbn in Hsm. lia.
Qed.

Lemma malloc_loop_spec s F A nu : heap s F A → 1 <= nu < 2 ^ 28 →
  (∃ r s', malloc_loop (2 * UNITS s) nu (freep s) (mem s (freep s)) s = Done (r + 8) s' ∧ allocates s A nu r s') ∨
  (lim s < brk s + 8 * grain nu ∧ Forall (λ x, x.2 < nu) F ∧
   malloc_loop (2 * UNITS s) nu (freep s) (mem s (freep s)) s = Done 0 s).
Proof.
  intros H Hnu. destruct (heap_split _ _ _ H) as (Y & k & W & HL). pose proof (heap_length _ _ _ H) as Hlen. cbn [length] in Hlen.
  destruct (round s F Y W A k nu H HL) with (d := (2 * UNITS s - length F)%nat) as [(prev & b & n & Hb & Hn & _)|(Hsm & prev & Hk & E)]; [lia| |].
  { left. eapply malloc_fits; [done|lia|by exists b, n|lia]. }
  replace (length F + _)%nat with (2 * UNITS s)%nat in E by lia. rewrite E.
  destruct (round_seg s F Y W A k H HL) as (_ & _ & Hfk). destruct (2 * UNITS s - length F)%nat as [|d] eqn:Hd; [lia|].
  cbn [malloc_loop]. unfold size. mgo. rewrite Hfk, (proj2 (Z.leb_gt nu k)) by done. mgo. rewrite Z.eqb_refl.
  destruct (heap_morecore s F A nu H Hnu) as [(Hl & Hm)|(s1 & F1 & Hm & H1 & Hk1 & Hb1 & Hl1 & Hfit)]; rewrite (bind_Done _ _ _ _ _ Hm).
  { right. done. }
  rewrite (proj2 (Z.eqb_neq _ _) (heap_nonzero _ _ _ H1)). unfold ptr. mgo. left. pose proof (heap_length _ _ _ H1) as Hlen1.
  destruct (malloc_fits s1 F1 A nu d H1) as (r & s' & -> & Hnew & Hh & Hk2 & Hb2 & Hl2); [lia|done| |].
  { cbn [length] in Hlen1. unfold UNITS in *. rewrite Hl1 in Hlen1. lia. }
  exists r, s'. split; [done|]. split_and!; [done|done|by eapply keeps_trans|lia|congruence].
Qed.

(** The units [malloc] asks for. *)
Definition units (nbytes : Z) : Z := (nbytes + 7) / 8 + 1.

Lemma units_spec nbytes : 0 <= nbytes < 2 ^ 30 →
  u32 (u32 (nbytes + 8 - 1) / 8 + 1) = units nbytes ∧ 1 <= units nbytes < 2 ^ 28 ∧ nbytes <= 8 * (units nbytes - 1).
Proof.
  intros H. unfold units. replace (nbytes + 8 - 1) with (nbytes + 7) by lia. rewrite (u32_id (nbytes + 7)) by (unfold is_u32; lia).
  assert (0 <= (nbytes + 7) / 8 < 2 ^ 28 - 1) by (split; [apply Z.div_pos; lia|apply Z.div_lt_upper_bound; lia]).
  rewrite u32_id by (unfold is_u32; lia). split_and!; [done|lia..|].
  pose proof (Z.div_mod (nbytes + 7) 8). pose proof (Z.mod_pos_bound (nbytes + 7) 8). lia.
Qed.

(** The heap of a program: before the first call, or the list. *)
Definition uheap (s : ust) (A : gmap Z Z) : Prop :=
  (∃ F, heap s F A) ∨
  freep s = 0 ∧ A = ∅ ∧ 0 < base ∧ base + 8 <= brk s <= lim s ∧ lim s < 2 ^ 31.

Lemma malloc_spec s A nbytes : uheap s A → 0 <= nbytes < 2 ^ 30 →
  ∃ s', (∃ r, malloc nbytes s = Done (r + 8) s' ∧ allocates s A (units nbytes) r s') ∨
    (malloc nbytes s = Done 0 s' ∧ uheap s' A ∧ keeps A s s' ∧ brk s' = brk s ∧ lim s < brk s + 8 * grain (units nbytes)).
Proof.
  intros H Hn. unfold malloc.
  destruct (units_spec _ Hn) as (-> & Hu & _).
  assert (∃ F s1, (if freep s =? 0 then set_ptr base base;; modify (set_freep base);; set_size base 0 else mret tt) s = Done tt s1 ∧
    heap s1 F A ∧ keeps A s s1 ∧ brk s1 = brk s ∧ lim s1 = lim s) as (F & s1 & E & H1 & Hk & Hb & Hl).
  { destruct H as [[F H]|(Hf & -> & Hb & Hlim)].
    - rewrite (proj2 (Z.eqb_neq _ _) (heap_nonzero _ _ _ H)). by exists F, s.
    - rewrite Hf. exists [], (mkU (<[base + 4 := 0]> (<[base := base]> (mem s))) base (brk s) (lim s)).
      split; [done|]. split_and!; [|by intros a n i Ha; rewrite lookup_empty in Ha|done..].
      split; cbn [mem freep brk lim]; try (intros *; rewrite lookup_empty; done); try done.
      + cbn [seg first]. rewrite fn_lookup_insert_ne, !fn_lookup_insert by lia. done.
      + cbn [ordered]. lia.
      + set_solver. }
  mgo. rewrite (bind_Done _ _ _ _ _ E). mgo. unfold ptr. mgo.
  destruct (malloc_loop_spec s1 F A (units nbytes) H1 Hu) as [(r & s' & -> & Hnew & Hh & Hk' & Hb' & Hl')|(Hlim & _ & ->)].
  - exists s'. left. exists r. split; [done|]. split_and!; [done|done|by eapply keeps_trans|lia|congruence].
  - exists s1. right. split_and!; try done; [left; by exists F|rewrite <- Hl, <- Hb; done].
Qed.

Lemma free_spec s A a n : uheap s A → A !! a = Some n →
  ∃ s' F', free (a + 8) s = Done tt s' ∧ heap s' F' (delete a A) ∧ keeps (delete a A) s s' ∧ brk s' = brk s ∧
    lim s' = lim s ∧ ∃ b j, (b, j) ∈ F' ∧ n <= j.
Proof.
  intros [[F H]|(_ & -> & _)] Ha; [|by rewrite lookup_empty in Ha].
  assert (HA : A = <[a := n]> (delete a A)) by (symmetry; by apply insert_delete_id). rewrite HA in H.
  destruct (heap_free _ _ _ _ _ H) as (s' & F' & ?); [apply lookup_delete_eq|]. by exists s', F'.
Qed.

(** ** Programs that use the allocator *)

(** A program runs [malloc], [free] on a block it holds, and writes the memory
    of its blocks; meanwhile the memory the system has left may change.  [A]
    is the blocks held, by the address of their header, with their units. *)
Inductive ustep : ust * gmap Z Z → ust * gmap Z Z → Prop :=
  | ustep_malloc s A nbytes r s' : 0 <= nbytes < 2 ^ 30 → malloc nbytes s = Done r s' →
      ustep (s, A) (s', if r =? 0 then A else <[r - 8 := units nbytes]> A)
  | ustep_free s A a n s' : A !! a = Some n → free (a + 8) s = Done tt s' → ustep (s, A) (s', delete a A)
  | ustep_write s A a n i v : A !! a = Some n → a + 8 <= i → i + 4 <= a + 8 * n →
      ustep (s, A) (set_mem (<[i := v]> (mem s)) s, A)
  | ustep_room s A l : brk s <= l < 2 ^ 31 → ustep (s, A) (mkU (mem s) (freep s) (brk s) l, A).

(** The start of a program: no block, and a heap that begins after [base]. *)
Definition uinit (s : ust) : Prop := freep s = 0 ∧ 0 < base ∧ base + 8 <= brk s <= lim s ∧ lim s < 2 ^ 31.

Definition ureach (s : ust) (A : gmap Z Z) : Prop := ∃ s0, uinit s0 ∧ rtc ustep (s0, ∅) (s, A).

Lemma allocates_new s A nu r s' : allocates s A nu r s' → base + 8 <= r ∧ 1 <= nu ∧ r + 8 * nu <= brk s' ∧
  ∀ a n, A !! a = Some n → apart (a, n) (r, nu).
Proof.
  intros (Hnew & [F' H'] & _). destruct (h_held _ _ _ H' r nu) as (? & ? & ? & _); [by rewrite lookup_insert_eq|].
  split_and!; [done..|]. intros a n Ha. assert (a ≠ r) by (by intros ->; rewrite Ha in Hnew).
  apply (h_pair _ _ _ H'); [by rewrite lookup_insert_ne|by rewrite lookup_insert_eq|done].
Qed.

Lemma heap_write s F A a n i v : heap s F A → A !! a = Some n → a + 8 <= i → i + 4 <= a + 8 * n →
  heap (set_mem (<[i := v]> (mem s)) s) F A.
Proof.
  intros H Ha Hi Hi'. destruct (h_held _ _ _ H _ _ Ha) as (Hb1 & Hb2 & Hb3 & _). destruct H as [H1 H2 H3 H4 H5 H6 H7 H8].
  split; try done; cbn [mem set_mem].
  - apply seg_far; [done|]. apply Forall_cons. cbn [fst]. split; [lia|]. specialize (H6 _ _ Ha). rewrite Forall_forall in H6 |- *.
    rewrite Forall_forall in H3. intros x Hx. specialize (H6 _ Hx). specialize (H3 _ Hx). unfold apart in H6. cbn [fst snd] in H6. lia.
  - intros b k Hb. destruct (H5 _ _ Hb) as (? & ? & ? & <-). split_and!; [done..|]. apply fn_lookup_insert_ne.
    destruct (decide (a = b)) as [->|Hne]; [lia|]. specialize (H7 _ _ _ _ Ha Hb Hne). unfold apart in H7. cbn [fst snd] in H7. lia.
Qed.

Lemma ustep_uheap s A s' A' : ustep (s, A) (s', A') → uheap s A → uheap s' A'.
Proof.
  intros Hs H. inversion Hs as [t B nbytes r t' Hn Hm|t B a n t' Ha Hf|t B a n i v Ha Hi Hi'|t B l Hl]; subst; clear Hs.
  - destruct (malloc_spec _ _ _ H Hn) as (t1 & [(r1 & E & Hal)|(E & H1 & _)]); rewrite E in Hm; injection Hm as <- <-; [|done].
    destruct (allocates_new _ _ _ _ _ Hal) as (Hr & _). assert (0 < base).
    { destruct H as [[F H]|(_ & _ & ? & _)]; [by destruct (h_lim _ _ _ H)|done]. }
    rewrite (proj2 (Z.eqb_neq _ _)) by lia. replace (r1 + 8 - 8) with r1 by lia. left. by destruct Hal as (_ & ? & _).
  - destruct (free_spec _ _ _ _ H Ha) as (t1 & F' & E & H1 & _). rewrite E in Hf. injection Hf as <-. left. by exists F'.
  - destruct H as [[F H]|(_ & -> & _)]; [|by rewrite lookup_empty in Ha]. left. exists F. by eapply heap_write.
  - destruct H as [[F H]|(? & ? & ? & ? & ?)]; [left; exists F|right; cbn; split_and!; done || lia].
    destruct H as [H1 H2 H3 H4 H5 H6 H7 H8]. split; try done. cbn. lia.
Qed.

Lemma usteps_uheap c c' : rtc ustep c c' → uheap c.1 c.2 → uheap c'.1 c'.2.
Proof.
  intros Hr. induction Hr as [|[t B] [t' B'] c' Hs Hr IH]; [done|]. intros H. apply IH. by eapply ustep_uheap.
Qed.

Lemma ureach_uheap s A : ureach s A → uheap s A.
Proof. intros (s0 & (H1 & H2) & Hr). apply (usteps_uheap _ _ Hr). by right. Qed.

(** C12. In any program whose requests are below 2^30 bytes (a request close to
    2^32 wraps, see [malloc_huge_request_wraps]), [malloc] of [nbytes] below
    2^30 returns: either 0, and then the system has no room for the memory it
    would ask for, or the address of [nbytes] bytes inside the heap, apart from
    the memory and the header of every block the program holds; and [free] of a
    block the program holds returns.  Neither changes a word of the (other)
    blocks held. *)
Theorem malloc_free_safe s A : ureach s A →
  (∀ nbytes, 0 <= nbytes < 2 ^ 30 → ∃ r s', malloc nbytes s = Done r s' ∧ keeps A s s' ∧
     (r = 0 ∧ lim s < brk s + 8 * grain (units nbytes) ∨
      base + 16 <= r ∧ r + nbytes <= brk s' ∧ ∀ a n, A !! a = Some n → a + 8 * n <= r - 8 ∨ r + nbytes <= a)) ∧
  (∀ a n, A !! a = Some n → ∃ s', free (a + 8) s = Done tt s' ∧ keeps (delete a A) s s').
Proof.
  intros H%ureach_uheap. split.
  - intros nbytes Hn. destruct (units_spec _ Hn) as (_ & Hu & Hb).
    destruct (malloc_spec _ _ _ H Hn) as (s' & [(r & E & Hal)|(E & _ & Hk & _ & Hl)]); [exists (r + 8), s'|exists 0, s'; auto].
    destruct (allocates_new _ _ _ _ _ Hal) as (? & ? & ? & Hap). destruct Hal as (_ & _ & Hk & _).
    split_and!; [done..|right]. split_and!; [lia..|]. intros a n Ha. specialize (Hap _ _ Ha). unfold apart in Hap. cbn [fst snd] in Hap. lia.
  - intros a n Ha. destruct (free_spec _ _ _ _ H Ha) as (s' & F' & ? & _ & ? & _). by exists s'.
Qed.

(** C27. Memory given back is given out again: in any program whose requests are
    below 2^30 bytes, right after a block is freed a [malloc] of no more than the
    size it was allocated with does not fail, even when the system has no memory
    left. *)
Theorem free_then_malloc s A a n nbytes : ureach s A → A !! a = Some n → 0 <= nbytes < 2 ^ 30 → units nbytes <= n →
  ∃ s1 r s2, free (a + 8) s = Done tt s1 ∧ malloc nbytes s1 = Done r s2 ∧ r ≠ 0.
Proof.
  intros H%ureach_uheap Ha Hn Hu. destruct (free_spec _ _ _ _ H Ha) as (s1 & F & Hf & H1 & _ & _ & _ & b & j & Hb & Hj).
  destruct (units_spec _ Hn) as (Eu & Hu1 & _). pose proof (heap_length _ _ _ H1) as Hlen. cbn [length] in Hlen.
  destruct (malloc_fits s1 F _ (units nbytes) (2 * UNITS s1) H1) as (r & s2 & E & Hal); [lia|exists b, j; split; [done|lia]|lia|].
  exists s1, (r + 8), s2. split_and!; [done| |].
  - unfold malloc. rewrite Eu. mgo. rewrite (proj2 (Z.eqb_neq _ _) (heap_nonzero _ _ _ H1)). mgo. mgo. unfold ptr. mgo. exact E.
  - destruct (allocates_new _ _ _ _ _ Hal) as (? & _). destruct (h_lim _ _ _ H1). lia.
Qed.
End Umalloc.

(** A program that asks for 100 and for 20 bytes; [base] is at 64, the heap
    starts at 4096 and has room up to 50000. *)
Definition demo0 : ust := mkU (λ _, 0) 0 4096 50000.
Definition run_to {A} (m : M ust A) (s : ust) : ust := match m s with Done _ s' => s' | _ => s end.
Definition demo1 : ust := run_to (malloc 64 100) demo0.
Definition demo2 : ust := run_to (malloc 64 20) demo1.
Definition demoA : gmap Z Z := <[36720 := 4]> (<[36752 := 14]> ∅).

Lemma demo_reach : ureach 64 demo2 demoA.
Proof.
  exists demo0. split; [cbv; done|].
  apply (rtc_l _ _ (demo1, <[36752 := 14]> ∅)).
  - assert (malloc 64 100 demo0 = Done 36760 demo1) as E by (vm_compute; reflexivity).
    pose proof (ustep_malloc 64 demo0 ∅ 100 36760 demo1) as Hs. by apply Hs.
  - apply rtc_once. assert (malloc 64 20 demo1 = Done 36728 demo2) as E by (vm_compute; reflexivity).
    pose proof (ustep_malloc 64 demo1 (<[36752 := 14]> ∅) 20 36728 demo2) as Hs. by apply Hs.
Qed.

Lemma malloc_free_safe_witness : ∃ r s', malloc 64 1000 demo2 = Done r s' ∧ keeps demoA demo2 s'.
Proof.
  destruct (malloc_free_safe 64 demo2 demoA demo_reach) as [H _]. destruct (H 1000) as (r & s' & E & Hk & _); [lia|].
  exists r, s'. split; assumption.
Defined.

Lemma free_then_malloc_witness : ∃ s1 r s2, free (36752 + 8) demo2 = Done tt s1 ∧ malloc 64 90 s1 = Done r s2 ∧ r ≠ 0.
Proof. apply (free_then_malloc 64 demo2 demoA 36752 14 90 demo_reach); [reflexivity|lia|vm_compute; discriminate]. Defined.

(** A request of more than [2^32 - 8] bytes wraps around: the program gets a
    block with no room at all. *)
Theorem malloc_huge_request_wraps :
  malloc 64 (2 ^ 32 - 1) demo0 = Done 36864 (run_to (malloc 64 0) demo0) ∧ brk (run_to (malloc 64 0) demo0) = 36864.
Proof. split; vm_compute; reflexivity. Qed.
