(* ===== verification/Ide.v ===== *)
(** * The IDE disk driver (ide.c)

    The driver keeps a queue of buffers linked by [qnext]; the first is the
    request the disk works on, and each interrupt ends it and starts the next.
    The disk is not part of the kernel: it is an interface of port operations
    ([ata]) with the behaviour the ATA standard documents for them
    ([ata_laws]): an access has a known effect only in the phase of the protocol
    it belongs to, so the driver's waits matter.

    [qinv] is the invariant of the queue and of the drive; [sim] relates the driver to the in-memory driver of memide.c, the one the
    buffer cache is proved over: the theorems show that serving the queue is
    the same as calling its [iderw] on the buffers in the order they were
    queued. *)

From S2P Require Import Prelude Bio.
#[local] Open Scope Z_scope.

Definition IDE_BSY : Z := 0x80.
Definition IDE_DRDY : Z := 0x40.
Definition IDE_DF : Z := 0x20.
Definition IDE_ERR : Z := 0x01.
Definition IDE_CMD_READ : Z := 0x20.
Definition IDE_CMD_WRITE : Z := 0x30.
Definition SECTOR_SIZE : Z := 512.
Definition FSSIZE : Z := 1000.

(** The port instructions of x86.h, on the state [D] of the controller.  [insl]
    and [outsl] move a number of 32-bit words, given here as bytes. *)
Class ata (D : Type) := {
  inb : Z → D → Z * D;
  outb : Z → Z → D → D;
  insl : Z → nat → D → list Z * D;
  outsl : Z → list Z → D → D;
}.

Section Driver.
Context {D : Type} `{!ata D}.

(** The buffers with their [qnext], the queue, and the controller; [wakes] is
    ghost, the [wakeup] calls. *)
Record ide := mkIde {
  ibufs : nat → buf;
  qnext : nat → option nat;
  idequeue : option nat;
  havedisk1 : bool;
  ctl : D;
  wakes : list chan;
}.

Definition set_ibufs f (s : ide) := mkIde f (qnext s) (idequeue s) (havedisk1 s) (ctl s) (wakes s).
Definition set_qnext f (s : ide) := mkIde (ibufs s) f (idequeue s) (havedisk1 s) (ctl s) (wakes s).
Definition set_idequeue q (s : ide) := mkIde (ibufs s) (qnext s) q (havedisk1 s) (ctl s) (wakes s).
Definition set_havedisk1 h (s : ide) := mkIde (ibufs s) (qnext s) (idequeue s) h (ctl s) (wakes s).
Definition set_ctl d (s : ide) := mkIde (ibufs s) (qnext s) (idequeue s) (havedisk1 s) d (wakes s).

Definition out (port v : Z) : M ide unit := modify (λ s, set_ctl (outb port v (ctl s)) s).
Definition inp (port : Z) : M ide Z := λ s, let '(v, d) := inb port (ctl s) in Done v (set_ctl d s).
Definition upd_ibuf (i : nat) (f : buf → buf) : M ide unit :=
  modify (λ s, set_ibufs (<[i := f (ibufs s i)]> (ibufs s)) s).

(** [fuel] bounds the turns of the polling loop. *)
Fixpoint idewait (fuel : nat) (checkerr : bool) : M ide Z :=
  r ← inp 0x1f7;
  if Z.land r (Z.lor IDE_BSY IDE_DRDY) =? IDE_DRDY then
    if checkerr && negb (Z.land r (Z.lor IDE_DF IDE_ERR) =? 0) then mret (-1) else mret 0
  else match fuel with
       | O => out_of_fuel
       | S fuel' => idewait fuel' checkerr
       end.

Variable POLLS : nat.

(** The wait for disk 1 to show up. *)
Fixpoint probe (n : nat) : M ide unit :=
  match n with
  | O => mret tt
  | S n' => r ← inp 0x1f7; if negb (r =? 0) then modify (set_havedisk1 true) else probe n'
  end.

Definition ideinit : M ide unit :=
  idewait POLLS false;;
  out 0x1f6 (Z.lor 0xe0 (Z.shiftl 1 4));;
  probe 1000;;
  out 0x1f6 (Z.lor 0xe0 (Z.shiftl 0 4)).

Definition idestart (b : option nat) : M ide unit :=
  match b with
  | None => panic "idestart"
  | Some i =>
      bf ← gets (λ s, ibufs s i);
      if FSSIZE <=? blockno bf then panic "incorrect blockno" else
      let sector_per_block := Z.of_nat BSIZE / SECTOR_SIZE in
      let sector := blockno bf * sector_per_block in
      if 7 <? sector_per_block then panic "idestart" else
      idewait POLLS false;;
      out 0x3f6 0;;
      out 0x1f2 sector_per_block;;
      out 0x1f3 (Z.land sector 0xff);;
      out 0x1f4 (Z.land (Z.shiftr sector 8) 0xff);;
      out 0x1f5 (Z.land (Z.shiftr sector 16) 0xff);;
      out 0x1f6 (Z.lor (Z.lor 0xe0 (Z.shiftl (Z.land (dev bf) 1) 4)) (Z.land (Z.shiftr sector 24) 0x0f));;
      if has (flags bf) B_DIRTY then
        out 0x1f7 IDE_CMD_WRITE;;
        modify (λ s, set_ctl (outsl 0x1f0 (data bf) (ctl s)) s)
      else out 0x1f7 IDE_CMD_READ
  end.

Definition ideintr : M ide unit :=
  q ← gets idequeue;
  match q with
  | None => mret tt
  | Some i =>
      s ← get;
      modify (set_idequeue (qnext s i));;
      (if negb (has (flags (ibufs s i)) B_DIRTY) then
         r ← idewait POLLS true;
         if 0 <=? r then
           s ← get;
           let '(ws, d) := insl 0x1f0 (BSIZE / 4) (ctl s) in
           modify (set_ctl d);;
           upd_ibuf i (set_data ws)
         else mret tt
       else mret tt);;
      upd_ibuf i (λ b, set_flags (Z.lor (flags b) B_VALID) b);;
      upd_ibuf i (λ b, set_flags (Z.ldiff (flags b) B_DIRTY) b);;
      modify (λ s, mkIde (ibufs s) (qnext s) (idequeue s) (havedisk1 s) (ctl s) (wakes s ++ [ChBuf i]));;
      q ← gets idequeue;
      match q with
      | Some _ => idestart q
      | None => mret tt
      end
  end.

(** [*pp], where [pp] is the address of [idequeue] or of a [qnext]; the walk to
    the end of the queue; and [*pp = b]. *)
Definition deref (pp : option nat) : M ide (option nat) :=
  gets (λ s, match pp with None => idequeue s | Some i => qnext s i end).

Fixpoint queue_end (fuel : nat) (pp : option nat) : M ide (option nat) :=
  x ← deref pp;
  match x with
  | None => mret pp
  | Some i => match fuel with O => out_of_fuel | S fuel' => queue_end fuel' (Some i) end
  end.

Definition store (pp : option nat) (b : option nat) : M ide unit :=
  match pp with
  | None => modify (set_idequeue b)
  | Some i => modify (λ s, set_qnext (<[i := b]> (qnext s)) s)
  end.

(** [iderw] up to its wait, and the wait: a turn of the loop that does not
    leave it sleeps on the buffer. *)
Definition iderw_queue (i : nat) : M ide unit :=
  b ← gets (λ s, ibufs s i);
  h ← gets havedisk1;
  if negb (has (flags b) B_BUSY) then panic "iderw: buf not busy" else
  if Z.land (flags b) (Z.lor B_VALID B_DIRTY) =? B_VALID then panic "iderw: nothing to do" else
  if negb (dev b =? 0) && negb h then panic "iderw: ide disk 1 not present" else
  modify (λ s, set_qnext (<[i := None]> (qnext s)) s);;
  pp ← queue_end NBUF None;
  store pp (Some i);;
  q ← gets idequeue;
  if bool_decide (q = Some i) then idestart (Some i) else mret tt.

Definition iderw_wait (i : nat) : M ide unit :=
  b ← gets (λ s, ibufs s i);
  if negb (Z.land (flags b) (Z.lor B_VALID B_DIRTY) =? B_VALID) then sleep_on (ChBuf i) else mret tt.

Definition iderw (i : nat) : M ide unit := iderw_queue i;; iderw_wait i.
End Driver.
Arguments ide : clear implicits.

(** ** What the controller does *)

(** The drive and the sector its task file addresses. *)
Definition target (regs : Z → Z) : Z * Z :=
  (Z.land (Z.shiftr (regs 0x1f6) 4) 1,
   regs 0x1f3 + 2 ^ 8 * regs 0x1f4 + 2 ^ 16 * regs 0x1f5 + 2 ^ 24 * Z.land (regs 0x1f6) 0x0f).

(** A status that shows BSY clear and DRDY set, and one that shows an error. *)
Definition ready (v : Z) : bool := Z.land v (Z.lor IDE_BSY IDE_DRDY) =? IDE_DRDY.
Definition faulty (v : Z) : bool := negb (Z.land v (Z.lor IDE_DF IDE_ERR) =? 0).

Fixpoint ready_within {D} `{!ata D} (n : nat) (d : D) : Prop :=
  ready (inb 0x1f7 d).1 = true ∨ match n with O => False | S n' => ready_within n' (inb 0x1f7 d).2 end.

(** What the program may do with the drive: give it a command ([Idle]), wait
    (the three phases in which BSY may be set), or move the data of a sector
    (DRQ is set). *)
Inductive phase :=
  | Idle
  | ReadBusy
  | DataIn
  | WriteBusy
  | DataOut
  | Flushing.

(** The phase once the drive has shown that it is not busy. *)
Definition settles (p : phase) : phase :=
  match p with
  | ReadBusy => DataIn
  | WriteBusy => DataOut
  | Flushing => Idle
  | p => p
  end.

(** The registers [regs], the phase and the contents of the two drives.  The task
    file and the command register may only be written, and data only be moved,
    in the phase for it: nothing is known about any other access.  The phase
    changes at a read of the status that shows the drive ready without an
    error, which it does within [POLLS] reads. *)
Class ata_laws (D : Type) `{!ata D} (POLLS : nat) := {
  regs : D → Z → Z;
  phase_of : D → phase;
  sector : D → Z * Z → list Z;
  poll_regs d : regs (inb 0x1f7 d).2 = regs d;
  poll_sector d : sector (inb 0x1f7 d).2 = sector d;
  poll_busy d : ready (inb 0x1f7 d).1 = false → phase_of (inb 0x1f7 d).2 = phase_of d;
  poll_ready d : ready (inb 0x1f7 d).1 = true → faulty (inb 0x1f7 d).1 = false →
    phase_of (inb 0x1f7 d).2 = settles (phase_of d);
  poll_bound d : ready_within POLLS d;
  control_idle d : phase_of d = Idle →
    regs (outb 0x3f6 0 d) = regs d ∧ phase_of (outb 0x3f6 0 d) = Idle ∧ sector (outb 0x3f6 0 d) = sector d;
  file_idle p v d : 0x1f2 <= p <= 0x1f6 → phase_of d = Idle →
    regs (outb p v d) = <[p := v]> (regs d) ∧ phase_of (outb p v d) = Idle ∧ sector (outb p v d) = sector d;
  read_command d : phase_of d = Idle →
    regs (outb 0x1f7 IDE_CMD_READ d) = regs d ∧ phase_of (outb 0x1f7 IDE_CMD_READ d) = ReadBusy ∧
    sector (outb 0x1f7 IDE_CMD_READ d) = sector d;
  write_command d : phase_of d = Idle →
    regs (outb 0x1f7 IDE_CMD_WRITE d) = regs d ∧ settles (phase_of (outb 0x1f7 IDE_CMD_WRITE d)) = DataOut ∧
    sector (outb 0x1f7 IDE_CMD_WRITE d) = sector d;
  data_in d : phase_of d = DataIn → regs d 0x1f2 = 1 →
    (insl 0x1f0 128 d).1 = sector d (target (regs d)) ∧ phase_of (insl 0x1f0 128 d).2 = Idle ∧
    sector (insl 0x1f0 128 d).2 = sector d;
  data_out ws d : phase_of d = DataOut → regs d 0x1f2 = 1 → length ws = 512%nat →
    phase_of (outsl 0x1f0 ws d) = Flushing ∧ sector (outsl 0x1f0 ws d) = <[target (regs d) := ws]> (sector d);
}.

(** No read of the status shows an error. *)
Definition no_fault (D : Type) `{!ata D} : Prop := ∀ d : D, faulty (inb 0x1f7 d).1 = false.

(** The drive is ready for the data of a write as soon as it has the command.
    The standard does not promise it, and [idestart] does not wait. *)
Definition prompt (D : Type) `{!ata D} {POLLS : nat} `{!ata_laws D POLLS} : Prop :=
  ∀ d : D, phase_of d = Idle → phase_of (outb 0x1f7 IDE_CMD_WRITE d) = DataOut.

(** The five registers of the task file. *)
Definition task_file (v2 v3 v4 v5 v6 : Z) (r : Z → Z) : Z → Z :=
  <[0x1f6 := v6]> (<[0x1f5 := v5]> (<[0x1f4 := v4]> (<[0x1f3 := v3]> (<[0x1f2 := v2]> r)))).

Lemma task_file_idle {D} `{!ata D} {POLLS : nat} `{!ata_laws D POLLS} v2 v3 v4 v5 v6 (d : D) : phase_of d = Idle →
  let d' := outb 0x1f6 v6 (outb 0x1f5 v5 (outb 0x1f4 v4 (outb 0x1f3 v3 (outb 0x1f2 v2 d)))) in
  regs d' = task_file v2 v3 v4 v5 v6 (regs d) ∧ phase_of d' = Idle ∧ sector d' = sector d.
Proof.
  intros H0. destruct (file_idle 0x1f2 v2 d) as (R1 & H1 & S1); [lia|done|].
  destruct (file_idle 0x1f3 v3 _ ltac:(lia) H1) as (R2 & H2 & S2). destruct (file_idle 0x1f4 v4 _ ltac:(lia) H2) as (R3 & H3 & S3).
  destruct (file_idle 0x1f5 v5 _ ltac:(lia) H3) as (R4 & H4 & S4). destruct (file_idle 0x1f6 v6 _ ltac:(lia) H4) as (R5 & H5 & S5).
  cbn zeta. unfold task_file. split_and!; [by rewrite R5, R4, R3, R2, R1|done|congruence].
Qed.

Lemma task_file_count v2 v3 v4 v5 v6 r : task_file v2 v3 v4 v5 v6 r 0x1f2 = v2.
Proof. unfold task_file. by repeat (rewrite fn_lookup_insert || rewrite fn_lookup_insert_ne by lia). Qed.

(** One read of the status. *)
Lemma poll_phase {D} `{!ata D} {POLLS : nat} `{!ata_laws D POLLS} (d : D) : no_fault D →
  phase_of (inb 0x1f7 d).2 = if ready (inb 0x1f7 d).1 then settles (phase_of d) else phase_of d.
Proof. intros Hnf. destruct (ready _) eqn:E; [by apply poll_ready|by apply poll_busy]. Qed.

(** ** The queue *)

(** [qnext] links [q] from [h] on. *)
Fixpoint linked (nx : nat → option nat) (h : option nat) (q : list nat) : Prop :=
  match q with
  | [] => h = None
  | i :: q' => h = Some i ∧ linked nx (nx i) q'
  end.

Lemma queue_ext nx nx' h q : linked nx h q → (∀ i, i ∈ q → nx' i = nx i) → linked nx' h q.
Proof.
  revert h. induction q as [|i q IH]; intros h; [done|]. intros [-> Hl] He. split; [done|].
  rewrite He by set_solver. apply IH; [done|]. intros j Hj. apply He. set_solver.
Qed.

Lemma linked_snoc nx h q i j : linked nx h (q ++ [i]) → i ∉ q → j ∉ q ++ [i] →
  linked (<[i := Some j]> (<[j := None]> nx)) h (q ++ [i; j]).
Proof.
  revert h. induction q as [|k q IH]; intros h Hl Hi Hj; cbn [app linked] in *.
  - destruct Hl as [-> _]. assert (i ≠ j) by set_solver. split_and!; [done|by rewrite fn_lookup_insert|].
    by rewrite fn_lookup_insert_ne, fn_lookup_insert.
  - destruct Hl as [-> Hl]. split; [done|]. assert (i ≠ k ∧ j ≠ k) as [? ?] by set_solver.
    rewrite !fn_lookup_insert_ne by done. apply IH; set_solver.
Qed.

Section Proofs.
Context {D : Type} `{!ata D} {POLLS : nat} `{!ata_laws D POLLS}.
Implicit Types s : ide D.

(** The loop that looks for the end of the queue finds it. *)
Lemma queue_end_spec s q : ∀ fuel pp h, linked (qnext s) h q → deref pp s = Done h s → (length q <= fuel)%nat →
  queue_end fuel pp s = Done (match last q with None => pp | Some i => Some i end) s.
Proof.
  induction q as [|i q IH]; intros fuel pp h Hl Hd Hf.
  - cbn in Hl. subst h. destruct fuel; cbn [queue_end]; by rewrite (bind_Done _ _ _ _ _ Hd).
  - destruct Hl as [-> Hl]. destruct fuel as [|fuel]; cbn in Hf; [lia|]. cbn [queue_end]. rewrite (bind_Done _ _ _ _ _ Hd). cbn beta iota.
    rewrite (IH fuel (Some i) (qnext s i)) by (done || lia). by destruct q as [|j q]; [|rewrite (last_cons i (j :: q)); destruct (last (j :: q))].
Qed.

Lemma idewait_spec ce : no_fault D → ∀ fuel s, ready_within fuel (ctl s) →
  ∃ d, idewait fuel ce s = Done 0 (set_ctl d s) ∧ regs d = regs (ctl s) ∧ sector d = sector (ctl s) ∧
    phase_of d = settles (phase_of (ctl s)).
Proof.
  intros Hnf. induction fuel as [|fuel IH]; intros s Hr; cbn [idewait ready_within] in *; unfold inp, mbind, M_bind;
    pose proof (Hnf (ctl s)) as Hf; pose proof (poll_phase (ctl s) Hnf) as Hp;
    pose proof (poll_regs (ctl s)) as Pr; pose proof (poll_sector (ctl s)) as Ps;
    destruct (inb 0x1f7 (ctl s)) as [v d]; cbn [fst snd] in *; unfold faulty in Hf; fold (ready v); rewrite Hf, andb_false_r.
  - destruct Hr as [Hr|[]]. rewrite Hr in *. by exists d.
  - destruct (ready v); [by exists d|]. destruct Hr as [|Hr]; [done|].
    destruct (IH (set_ctl d s) Hr) as (d' & E' & R1 & R2 & R3). cbn [ctl set_ctl] in *. exists d'. split_and!; [exact E'|congruence..].
Qed.

(** The sector the driver addresses. *)
Lemma target_block r k n : k = 0 ∨ k = 1 → 0 <= n < FSSIZE →
  target (task_file 1 (Z.land n 0xff) (Z.land (Z.shiftr n 8) 0xff) (Z.land (Z.shiftr n 16) 0xff)
    (Z.lor (Z.lor 0xe0 (Z.shiftl (Z.land k 1) 4)) (Z.land (Z.shiftr n 24) 0x0f)) r) = (k, n).
Proof.
  intros Hk Hn. unfold FSSIZE in Hn. unfold target, task_file.
  assert (H24 : Z.shiftr n 24 = 0) by (rewrite Z.shiftr_div_pow2 by lia; apply Z.div_small; lia).
  assert (H16 : Z.shiftr n 16 = 0) by (rewrite Z.shiftr_div_pow2 by lia; apply Z.div_small; lia).
  rewrite H24, H16. repeat (rewrite fn_lookup_insert || rewrite fn_lookup_insert_ne by lia).
  assert (Z.land n 0xff = n mod 2 ^ 8) as -> by (change 0xff with (Z.ones 8); by rewrite Z.land_ones).
  assert (Z.land (Z.shiftr n 8) 0xff = n / 2 ^ 8) as ->.
  { change 0xff with (Z.ones 8). rewrite Z.land_ones, Z.shiftr_div_pow2 by lia. apply Z.mod_small.
    split; [apply Z.div_pos; lia|apply Z.div_lt_upper_bound; lia]. }
  rewrite !Z.land_0_l, Z.lor_0_r. pose proof (Z.div_mod n (2 ^ 8)). destruct Hk as [-> | ->]; f_equal.
  - change (Z.land (Z.lor 224 (Z.shiftl (Z.land 0 1) 4)) 15) with 0. lia.
  - change (Z.land (Z.lor 224 (Z.shiftl (Z.land 1 1) 4)) 15) with 0. lia.
Qed.

(** A buffer the driver takes: locked, with work to do, on a disk that is
    there. *)
Definition request (s : ide D) (b : buf) : Prop :=
  has (flags b) B_BUSY = true ∧ Z.land (flags b) (Z.lor B_VALID B_DIRTY) ≠ B_VALID ∧
  (dev b = 0 ∨ dev b = 1 ∧ havedisk1 s = true) ∧ 0 <= blockno b < FSSIZE ∧ length (data b) = 512%nat.

(** The disk works on [b]; [c] is what it held before.  A write is over for the
    driver once the drive has the data; a read is not over until the data is
    taken. *)
Definition working (d : D) (b : buf) (c : Z * Z → list Z) : Prop :=
  if has (flags b) B_DIRTY then sector d = <[(dev b, blockno b) := data b]> c ∧ settles (phase_of d) = Idle
  else sector d = c ∧ settles (phase_of d) = DataIn ∧ regs d 0x1f2 = 1 ∧ target (regs d) = (dev b, blockno b).

Context (Hnf : no_fault D) (Hpr : prompt D).

Lemma idestart_spec s i : request s (ibufs s i) → settles (phase_of (ctl s)) = Idle →
  ∃ d, idestart POLLS (Some i) s = Done tt (set_ctl d s) ∧ working d (ibufs s i) (sector (ctl s)).
Proof using All.
  intros (_ & _ & Hdev & Hb & Hlen) Hph. unfold idestart. mgo. rewrite (proj2 (Z.leb_gt _ _)) by lia. cbn zeta.
  change (Z.of_nat BSIZE / SECTOR_SIZE) with 1. rewrite Z.mul_1_r. change (7 <? 1) with false. cbn iota.
  destruct (idewait_spec false Hnf POLLS s (poll_bound _)) as (d0 & E & _ & S0 & P0). rewrite (bind_Done _ _ _ _ _ E).
  rewrite Hph in P0. destruct (control_idle d0 P0) as (_ & P1 & S1).
  unfold out. do 6 mgo. unfold working. rewrite <- S0, <- S1. cbn [ctl set_ctl].
  edestruct task_file_idle as (R2 & P2 & S2); [exact P1|].
  assert (Ht := target_block (regs (outb 0x3f6 0 d0)) (dev (ibufs s i)) (blockno (ibufs s i)) ltac:(tauto) Hb).
  destruct (has (flags (ibufs s i)) B_DIRTY).
  - mgo. eexists. split; [done|]. cbn [ctl set_ctl]. edestruct write_command as (R3 & _ & S3); [exact P2|].
    edestruct data_out as (P4 & S4); [exact (Hpr _ P2)| |exact Hlen|]; [rewrite R3, R2; apply task_file_count|].
    rewrite P4, S4, R3, R2, S3, S2, Ht. done.
  - eexists. split; [done|]. cbn [ctl set_ctl]. edestruct read_command as (R3 & P3 & S3); [exact P2|].
    rewrite R3, P3, S3, R2, S2, Ht, task_file_count. done.
Qed.

(** The driver with the queue [q]; [c] is what the drives hold, the write the
    disk works on aside. *)
Record qinv (s : ide D) (q : list nat) (c : Z * Z → list Z) : Prop := {
  q_linked : linked (qnext s) (idequeue s) q;
  q_nodup : NoDup q;
  q_range : Forall (λ i, (i < NBUF)%nat) q;
  q_request : Forall (λ i, request s (ibufs s i)) q;
  q_work : match q with
           | [] => sector (ctl s) = c ∧ settles (phase_of (ctl s)) = Idle
           | i :: _ => working (ctl s) (ibufs s i) c
           end;
}.

(** The driver stands for the in-memory driver of state [io], which has one
    disk, number 1: the same buffers, and drive 1 holds the blocks of [io]. *)
Record sim (s : ide D) (io : io) (q : list nat) : Prop := {
  sim_bufs i : ibufs s i = bufs io i;
  sim_dev : Forall (λ i, dev (ibufs s i) = 1) q;
  sim_size : disksize io = FSSIZE;
  sim_queue : ∃ c, qinv s q c ∧ ∀ n, 0 <= n < FSSIZE → c (1, n) = disk io n;
}.

(** [NBUF] turns reach the end of the queue. *)
Lemma qinv_length s q c : qinv s q c → (length q <= NBUF)%nat.
Proof.
  intros H. transitivity (length (seq 0 NBUF)); [|by rewrite length_seq]. apply submseteq_length, NoDup_submseteq; [exact (q_nodup _ _ _ H)|].
  intros i Hi. apply elem_of_seq. pose proof (q_range _ _ _ H) as Hr. rewrite Forall_forall in Hr. specialize (Hr _ Hi). lia.
Qed.

(** The wait of [iderw] is over when the request is done. *)
Lemma request_waits s i : request s (ibufs s i) → iderw_wait i s = Sleep (ChBuf i) s.
Proof.
  intros (_ & Hw & _). unfold iderw_wait. mgo. by rewrite (proj2 (Z.eqb_neq _ _) Hw).
Qed.

Lemma request_guards s b : request s b → has (flags b) B_BUSY = true ∧ (Z.land (flags b) (Z.lor B_VALID B_DIRTY) =? B_VALID) = false ∧
  negb (dev b =? 0) && negb (havedisk1 s) = false ∧ 0 <= blockno b < FSSIZE.
Proof.
  intros (? & ? & Hd & ? & ?). split_and!; [done|by apply Z.eqb_neq| |lia|lia]. destruct Hd as [->|[-> ->]]; done.
Qed.

(** Queueing a buffer leaves the requests before it as they are, and starts the
    disk if it was idle. *)
Lemma iderw_queue_qinv s q c i : qinv s q c → (i < NBUF)%nat → i ∉ q → request s (ibufs s i) →
  ∃ s', iderw_queue POLLS i s = Done tt s' ∧ qinv s' (q ++ [i]) c ∧ ibufs s' = ibufs s.
Proof using All.
  intros H Hi Hq Hr. destruct (request_guards _ _ Hr) as (G1 & G2 & G3 & _). pose proof (qinv_length _ _ _ H) as Hlen.
  destruct H as [H2 H3 H4 H5 H8].
  unfold iderw_queue. mgo. mgo. rewrite G1, G2, G3. cbn [negb]. mgo.
  assert (Hl : linked (<[i := None]> (qnext s)) (idequeue s) q).
  { eapply queue_ext; [done|]. intros j Hj. apply fn_lookup_insert_ne. by intros ->. }
  erewrite bind_Done; [|by eapply (queue_end_spec (set_qnext _ s))].
  destruct q as [|j q _] using rev_ind.
  - cbn [last]. unfold store. mgo. mgo. rewrite bool_decide_true by done. destruct H8 as [H8 H8'].
    edestruct (idestart_spec (set_idequeue (Some i) (set_qnext (<[i:=None]> (qnext s)) s)) i) as (d & E & Hw); [exact Hr|exact H8'|].
    rewrite E. eexists. split; [done|]. split; [|done]. split; cbn [ibufs qnext idequeue ctl set_ctl set_idequeue set_qnext app].
    + cbn. by rewrite fn_lookup_insert.
    + by apply NoDup_singleton.
    + by apply Forall_cons.
    + by apply Forall_cons.
    + by rewrite <- H8.
  - rewrite last_snoc. unfold store. mgo. mgo. apply NoDup_app in H3 as (Hn1 & Hn2 & _). 
    assert (Hh : idequeue s ≠ Some i).
    { destruct q as [|k q]; cbn in H2; destruct H2 as [-> _]; intros [= ->]; set_solver. }
    rewrite bool_decide_false by done. eexists. split; [done|]. split; [|done].
    split; cbn [ibufs qnext idequeue ctl set_qnext].
    + rewrite <- app_assoc. apply linked_snoc; [done|set_solver|done].
    + apply NoDup_app. split_and!; [apply NoDup_app; split_and!; [done|set_solver|apply NoDup_singleton]|set_solver|apply NoDup_singleton].
    + by apply Forall_app; split; [|apply Forall_cons].
    + by apply Forall_app; split; [|apply Forall_cons].
    + by destruct q.
Qed.

Lemma done_flags f : Z.ldiff (Z.lor f B_VALID) B_DIRTY = Z.lor (Z.ldiff f B_DIRTY) B_VALID.
Proof.
  apply Z.bits_inj'. intros n Hn. rewrite Z.ldiff_spec, !Z.lor_spec, Z.ldiff_spec.
  destruct (decide (n = 1)) as [->|]; [by destruct (Z.testbit f 1)|].
  assert (Z.testbit B_VALID n = false) as ->; [|by rewrite !orb_false_r].
  unfold B_VALID. change 2 with (2 ^ 1). by apply Z.pow2_bits_false.
Qed.

Lemma clean_flags f : has f B_DIRTY = false → Z.ldiff f B_DIRTY = f.
Proof.
  unfold has. rewrite negb_false_iff, Z.eqb_eq. intros H. apply Z.bits_inj'. intros n Hn. rewrite Z.ldiff_spec.
  pose proof (f_equal (λ z, Z.testbit z n) H) as Hb. cbn beta in Hb. rewrite Z.land_spec, Z.bits_0 in Hb.
  destruct (Z.testbit f n), (Z.testbit B_DIRTY n); done.
Qed.

Lemma done_waits f : Z.land (Z.ldiff (Z.lor f B_VALID) B_DIRTY) (Z.lor B_VALID B_DIRTY) = B_VALID.
Proof.
  apply Z.bits_inj'. intros n Hn. rewrite Z.land_spec, Z.ldiff_spec, !Z.lor_spec.
  destruct (decide (n = 1)) as [->|]; [by rewrite orb_true_r|]. destruct (decide (n = 2)) as [->|]; [by rewrite andb_false_r|].
  assert (Z.testbit B_VALID n = false) as -> by (unfold B_VALID; change 2 with (2 ^ 1); by apply Z.pow2_bits_false).
  assert (Z.testbit B_DIRTY n = false) as -> by (unfold B_DIRTY; change 4 with (2 ^ 2); by apply Z.pow2_bits_false).
  by rewrite andb_false_r.
Qed.

(** The buffer of a request that is done. *)
Definition served (b : buf) (contents : list Z) : buf :=
  set_flags (Z.ldiff (Z.lor (flags b) B_VALID) B_DIRTY) (if has (flags b) B_DIRTY then b else set_data contents b).

(** The in-memory driver does the request at once. *)
Lemma iderw_served s io i : request s (bufs io i) → dev (bufs io i) = 1 → disksize io = FSSIZE →
  ∃ io', Bio.iderw i io = Done tt io' ∧ disksize io' = FSSIZE ∧
    (∀ j, bufs io' j = if decide (j = i) then served (bufs io i) (disk io (blockno (bufs io i))) else bufs io j) ∧
    disk io' = if has (flags (bufs io i)) B_DIRTY then <[blockno (bufs io i) := data (bufs io i)]> (disk io) else disk io.
Proof.
  intros (G1 & G2 & _ & G4)%request_guards G3 Hsz. unfold Bio.iderw, served. munfold. rewrite G1, G2, G3, Hsz. cbn [negb Z.eqb Pos.eqb].
  rewrite (proj2 (Z.leb_gt _ _)) by lia. destruct (has (flags (bufs io i)) B_DIRTY) eqn:E; eexists; (split; [done|]); cbn.
  - split_and!; [done| |done]. intros j. rewrite done_flags. unfold insert, fn_insert. cbn.
    rewrite (decide_True (P := i = i)) by done. by destruct (decide (i = j)), (decide (j = i)); subst.
  - split_and!; [done| |done]. intros j. rewrite done_flags, clean_flags by done. unfold insert, fn_insert. cbn.
    rewrite (decide_True (P := i = i)) by done. by destruct (decide (i = j)), (decide (j = i)); subst.
Qed.

(** An interrupt up to the start of the next request: the drive is free, and the
    data of a read is in the buffer. *)
Lemma ideintr_serves s i c : idequeue s = Some i → working (ctl s) (ibufs s i) c →
  ∃ f d, ideintr POLLS s =
      (match qnext s i with Some _ => idestart POLLS (qnext s i) | None => mret tt end)
        (mkIde f (qnext s) (qnext s i) (havedisk1 s) d (wakes s ++ [ChBuf i])) ∧
    (∀ j, f j = if decide (j = i) then served (ibufs s i) (c (dev (ibufs s i), blockno (ibufs s i))) else ibufs s j) ∧
    sector d = sector (ctl s) ∧ settles (phase_of d) = Idle.
Proof using All.
  intros Hq Hw. unfold ideintr. mgo. rewrite Hq. mgo. mgo. unfold working, served in *.
  destruct (has (flags (ibufs s i)) B_DIRTY); cbn [negb].
  - destruct Hw as [Hs Hph]. mgo. unfold upd_ibuf. mgo. mgo. mgo. mgo. do 2 eexists. split; [done|]. split; [|done].
    intros j. cbn [ibufs set_ibufs set_idequeue]. unfold insert, fn_insert. destruct (decide (i = j)) as [->|Hne]; [|by rewrite decide_False].
    rewrite !decide_True by done. done.
  - destruct Hw as (Hs & Hph & Hcnt & Htgt).
    destruct (idewait_spec true Hnf POLLS (set_idequeue (qnext s i) s) (poll_bound _)) as (d & E & R1 & R3 & R4).
    cbn [ctl set_idequeue] in *. rewrite bind_assoc, (bind_Done _ _ _ _ _ E). change (0 <=? 0) with true. cbn iota.
    rewrite bind_assoc. mgo. cbn [ctl set_ctl]. change (BSIZE / 4)%nat with 128%nat. rewrite Hph in R4.
    destruct (data_in d R4) as (Hread & Hph' & Hsec); [by rewrite R1|]. rewrite R1, R3, Htgt, Hs in Hread.
    destruct (insl 0x1f0 128 d) as [ws d'] eqn:Ei. cbn [fst snd] in *.
    rewrite bind_assoc. mgo. unfold upd_ibuf. mgo. mgo. mgo. mgo. mgo. do 2 eexists. split; [done|].
    split; [|split; [by etrans; [exact Hsec|exact R3]|cbn [ctl set_ctl set_ibufs]; by rewrite Hph']].
    intros j. cbn [ibufs set_ibufs set_idequeue set_ctl]. unfold insert, fn_insert. destruct (decide (i = j)) as [->|Hne]; [|by rewrite decide_False].
    rewrite !decide_True by done. by rewrite Hread.
Qed.

(** The end of the request at the head of the queue. *)
Lemma ideintr_qinv s i q c : qinv s (i :: q) c →
  ∃ s', ideintr POLLS s = Done tt s' ∧ qinv s' q (sector (ctl s)) ∧
    (∀ j, ibufs s' j = if decide (j = i) then served (ibufs s i) (c (dev (ibufs s i), blockno (ibufs s i))) else ibufs s j) ∧
    wakes s' = wakes s ++ [ChBuf i].
Proof using All.
  intros [[H2 H2'] [H3 H3']%NoDup_cons [H4 H4']%Forall_cons [H5 H5']%Forall_cons H8].
  destruct (ideintr_serves s i c H2 H8) as (f & d & -> & Hf & Hd & Hph).
  set (s1 := mkIde f (qnext s) (qnext s i) (havedisk1 s) d (wakes s ++ [ChBuf i])).
  assert (Hreq' : Forall (λ i, request s1 (f i)) q).
  { apply Forall_forall. intros j Hj. rewrite Hf, decide_False by (by intros ->). rewrite Forall_forall in H5'. apply H5', Hj. }
  destruct q as [|j q]; cbn [linked] in H2'.
  - rewrite H2'. exists s1. split_and!; [done| |exact Hf|done]. by split.
  - destruct H2' as [Hj H2']. rewrite Hj. apply Forall_cons in Hreq' as Hreq''. destruct Hreq'' as [Hrj _].
    destruct (idestart_spec s1 j Hrj Hph) as (d2 & E & Hw). subst s1. cbn beta iota. rewrite <- Hj in *. rewrite E.
    eexists. split_and!; [done| |exact Hf|done]. split; try done. by rewrite <- Hd.
Qed.

(** Initialisation leaves an idle driver, if the drive was idle. *)
Lemma probe_idle : ∀ n s, phase_of (ctl s) = Idle → ∃ h d, probe n s = Done tt (set_ctl d (set_havedisk1 h s)) ∧
  phase_of d = Idle ∧ sector d = sector (ctl s).
Proof using All.
  induction n as [|n IH]; intros s Hs; cbn [probe].
  - exists (havedisk1 s), (ctl s). split; [by destruct s|done].
  - unfold inp, mbind, M_bind. pose proof (poll_phase (ctl s) Hnf) as Hp. pose proof (poll_sector (ctl s)) as Hc.
    destruct (inb 0x1f7 (ctl s)) as [v d]. cbn [fst snd] in *. assert (Hd : phase_of d = Idle) by (rewrite Hp, Hs; by destruct (ready v)).
    destruct (negb (v =? 0)); [by exists true, d|]. destruct (IH (set_ctl d s) Hd) as (h & d' & E & P & S).
    exists h, d'. split; [exact E|]. split; [done|]. by rewrite S.
Qed.

Theorem ideinit_idle s : idequeue s = None → settles (phase_of (ctl s)) = Idle →
  ∃ s', ideinit POLLS s = Done tt s' ∧ qinv s' [] (sector (ctl s)) ∧ ibufs s' = ibufs s.
Proof using All.
  intros Hq Hph. unfold ideinit. destruct (idewait_spec false Hnf POLLS s (poll_bound _)) as (d0 & E & _ & S0 & P0).
  rewrite (bind_Done _ _ _ _ _ E). rewrite Hph in P0. unfold out. mgo.
  edestruct (file_idle 0x1f6) as (_ & P1 & S1); [|exact P0|]; [lia|].
  edestruct (probe_idle 1000) as (h & d2 & E2 & P2 & S2); [|rewrite (bind_Done _ _ _ _ _ E2)]; [exact P1|].
  edestruct (file_idle 0x1f6) as (_ & P3 & S3); [|exact P2|]; [lia|].
  eexists. split; [done|]. split; [|done]. split; try done; [by apply NoDup_nil_2|]. cbn [ctl set_ctl set_havedisk1]. rewrite P3.
  split; [|done]. cbn [ctl set_ctl] in S2. congruence.
Qed.

(** ** Runs *)

(** What happens to the driver: a process calls [iderw], the disk interrupts, or
    a process changes a buffer that is not queued. *)
Inductive event :=
  | Queue (i : nat)
  | Intr
  | Client (i : nat) (b : buf).

Definition allowed (e : event) (q : list nat) (s : ide D) : Prop :=
  match e with
  | Queue i => (i < NBUF)%nat ∧ i ∉ q ∧ request s (ibufs s i)
  | Intr => True
  | Client i _ => i ∉ q
  end.

Definition ide_event (e : event) : M (ide D) unit :=
  match e with
  | Queue i => iderw_queue POLLS i
  | Intr => ideintr POLLS
  | Client i b => upd_ibuf i (λ _, b)
  end.

Fixpoint ide_run (es : list event) : M (ide D) unit :=
  match es with
  | [] => mret tt
  | e :: es' => ide_event e;; ide_run es'
  end.

Lemma ide_run_app es1 es2 s : ide_run (es1 ++ es2) s = (ide_run es1;; ide_run es2) s.
Proof. induction es1 as [|e es1 IH] in s |- *; [done|]. cbn [app ide_run]. rewrite bind_assoc. unfold mbind, M_bind.
  destruct (ide_event e s) as [[] s1| | |]; [apply IH|done..]. Qed.

(** The calls that wait, oldest first. *)
Definition queue_event (e : event) (q : list nat) : list nat :=
  match e with
  | Queue i => q ++ [i]
  | Intr => tail q
  | Client _ _ => q
  end.

Definition queue_run (es : list event) (q : list nat) : list nat := foldl (λ q e, queue_event e q) q es.

(** Every event is allowed when it happens. *)
Fixpoint legal (P : event → list nat → ide D → Prop) (es : list event) (q : list nat) (s : ide D) : Prop :=
  match es with
  | [] => True
  | e :: es' => P e q s ∧ ∀ s', ide_event e s = Done tt s' → legal P es' (queue_event e q) s'
  end.

(** The same with the in-memory driver: the request at the head of the queue
    is done at the interrupt. *)
Definition mem_event (e : event) (q : list nat) : M io unit :=
  match e with
  | Queue _ => mret tt
  | Intr => match q with i :: _ => Bio.iderw i | [] => mret tt end
  | Client i b => upd_buf i (λ _, b)
  end.

Fixpoint mem_run (es : list event) (q : list nat) : M io unit :=
  match es with
  | [] => mret tt
  | e :: es' => mem_event e q;; mem_run es' (queue_event e q)
  end.

Lemma client_qinv s q c i b : qinv s q c → i ∉ q → qinv (set_ibufs (<[i := b]> (ibufs s)) s) q c.
Proof.
  intros [H2 H3 H4 H5 H8] Hi.
  assert (Hq : ∀ j, j ∈ q → (<[i := b]> (ibufs s)) j = ibufs s j) by (intros j Hj; apply fn_lookup_insert_ne; by intros ->).
  split; try done; cbn [ibufs set_ibufs ctl].
  - apply Forall_forall. intros j Hj. rewrite Hq by done. rewrite Forall_forall in H5. by apply H5.
  - destruct q as [|j q]; [done|]. by rewrite Hq by set_solver.
Qed.

(** Every event the driver should take returns. *)
Lemma event_qinv s q c e : qinv s q c → allowed e q s → ∃ s' c', ide_event e s = Done tt s' ∧ qinv s' (queue_event e q) c'.
Proof using All.
  intros H Ha. destruct e as [i| |i b]; cbn [allowed ide_event queue_event] in *.
  - destruct Ha as (Hi & Hq & Hr). destruct (iderw_queue_qinv _ _ _ _ H Hi Hq Hr) as (s' & E & H' & _). by exists s', c.
  - destruct q as [|i q]; cbn [tail].
    + exists s, c. split; [|done]. unfold ideintr. mgo. by rewrite (q_linked _ _ _ H).
    + destruct (ideintr_qinv _ _ _ _ H) as (s' & ? & ? & _). by exists s', (sector (ctl s)).
  - exists (set_ibufs (<[i := b]> (ibufs s)) s), c. split; [done|]. by apply client_qinv.
Qed.

Lemma run_qinv es : ∀ s q c, qinv s q c → legal allowed es q s → ∃ s' c', ide_run es s = Done tt s' ∧ qinv s' (queue_run es q) c'.
Proof using All.
  induction es as [|e es IH]; intros s q c H Hl; [by exists s, c|]. destruct Hl as [Ha Hl].
  destruct (event_qinv _ _ _ _ H Ha) as (s1 & c1 & E & H1). cbn [ide_run queue_run foldl]. rewrite (bind_Done _ _ _ _ _ E).
  exact (IH _ _ _ H1 (Hl _ E)).
Qed.

(** *** Refinement *)

(** The in-memory driver has disk 1 only. *)
Definition allowed1 (e : event) (q : list nat) (s : ide D) : Prop :=
  allowed e q s ∧ match e with Queue i => dev (ibufs s i) = 1 | _ => True end.

Lemma intr_sim s io i q : sim s io (i :: q) →
  ∃ s' io', ideintr POLLS s = Done tt s' ∧ Bio.iderw i io = Done tt io' ∧ sim s' io' q.
Proof using All.
  intros [H1 [Hi Hdev]%Forall_cons H7 (c & Hq & Hc)]. destruct (ideintr_qinv _ _ _ _ Hq) as (s' & E & Hq' & Hb & _).
  destruct Hq as [_ [H3 _]%NoDup_cons _ [H5 _]%Forall_cons H8]. rewrite H1 in H5, H8.
  destruct (iderw_served s io i) as (io' & Eio & Hsz & Hb' & Hd'); [done|by rewrite <- H1|done|].
  exists s', io'. split_and!; [done|done|]. split; [| |done|].
  - intros j. rewrite Hb, Hb', Hi, <- H1, Hc, !H1; [done|]. rewrite H1. by destruct H5 as (_ & _ & _ & ? & _).
  - apply Forall_forall. intros j Hj. rewrite Hb, decide_False by (by intros ->). rewrite Forall_forall in Hdev. auto.
  - exists (sector (ctl s)). split; [done|]. intros n Hn. rewrite Hd'. unfold working in H8. rewrite <- (H1 i) in H8 |- *.
    destruct (has (flags (ibufs s i)) B_DIRTY); destruct H8 as [-> _]; [|auto]. rewrite Hi.
    destruct (decide (blockno (ibufs s i) = n)) as [->|Hne]; [by rewrite !fn_lookup_insert|].
    rewrite !fn_lookup_insert_ne by congruence. auto.
Qed.

Lemma event_sim s io q e : sim s io q → allowed1 e q s →
  ∃ s' io', ide_event e s = Done tt s' ∧ mem_event e q io = Done tt io' ∧ sim s' io' (queue_event e q).
Proof using All.
  intros H [Ha Hd]. destruct e as [i| |i b]; cbn [allowed ide_event mem_event queue_event] in *.
  - destruct H as [H1 H2 H7 (c & Hq & Hc)]. destruct Ha as (Hi & Hn & Hr).
    destruct (iderw_queue_qinv _ _ _ _ Hq Hi Hn Hr) as (s' & E & Hq' & Eb). exists s', io. split_and!; [done|done|].
    split; rewrite ?Eb; [done| |done|by exists c]. apply Forall_app. by split; [|apply Forall_singleton].
  - destruct q as [|i q]; cbn [tail].
    + exists s, io. split_and!; try done. unfold ideintr. mgo. destruct (sim_queue _ _ _ H) as (c & Hq & _). by rewrite (q_linked _ _ _ Hq).
    + by apply intr_sim.
  - destruct H as [H1 H2 H7 (c & Hq & Hc)]. do 2 eexists. split_and!; [done|done|]. split; cbn [ibufs set_ibufs bufs set_bufs]; [| |done|].
    + intros j. unfold insert, fn_insert. by destruct (decide (i = j)).
    + apply Forall_forall. intros j Hj. rewrite fn_lookup_insert_ne by (by intros ->). rewrite Forall_forall in H2. auto.
    + exists c. split; [by apply client_qinv|done].
Qed.

Lemma run_sim es : ∀ s io q, sim s io q → legal allowed1 es q s →
  ∃ s' io', ide_run es s = Done tt s' ∧ mem_run es q io = Done tt io' ∧ sim s' io' (queue_run es q).
Proof using All.
  induction es as [|e es IH]; intros s io q H Hl; [by exists s, io|]. destruct Hl as [Ha Hl].
  destruct (event_sim _ _ _ _ H Ha) as (s1 & io1 & E & Em & H1). cbn [ide_run mem_run queue_run foldl].
  rewrite (bind_Done _ _ _ _ _ E), (bind_Done _ _ _ _ _ Em). exact (IH _ _ _ H1 (Hl _ E)).
Qed.

End Proofs.

Section Theorems.
Context {D : Type} `{!ata D} {POLLS : nat} `{!ata_laws D POLLS}.
Implicit Types s : ide D.

(** C11. On a controller that keeps the ATA protocol (the task file and the
    command register may be written and data moved only once a status has shown
    the drive ready for it), whose drives report no error and accept the data of
    a write right after the command, the driver is the in-memory driver for the
    requests to disk 1, done in the order of the calls, each at its interrupt:
    whatever calls, interrupts and uses of other buffers happen, every one
    returns without a panic, the buffers of the two drivers are equal at the
    end, and once no request is left drive 1 holds the blocks of the in-memory
    disk. *)
Theorem ide_refines_memide s io es : no_fault D → prompt D → sim s io [] → legal (POLLS := POLLS) allowed1 es [] s →
  ∃ s' io', ide_run (POLLS := POLLS) es s = Done tt s' ∧ mem_run es [] io = Done tt io' ∧
    (∀ i, ibufs s' i = bufs io' i) ∧
    (queue_run es [] = [] → ∀ n, 0 <= n < FSSIZE → sector (ctl s') (1, n) = disk io' n).
Proof.
  intros Hnf Hpr H Hl. destruct (run_sim Hnf Hpr es s io [] H Hl) as (s' & io' & E & Em & H').
  exists s', io'. split_and!; [done|done|exact (sim_bufs _ _ _ H')|]. intros Eq. rewrite Eq in H'.
  destruct (sim_queue _ _ _ H') as (c & [_ _ _ _ [-> _]] & Hc). exact Hc.
Qed.

(** *** Every request is served *)

Definition is_intr (e : event) : bool := match e with Intr => true | _ => false end.

Lemma legal_app P es1 es2 : ∀ q s s1, legal (POLLS := POLLS) P (es1 ++ es2) q s → legal (POLLS := POLLS) P es1 q s ∧
  (ide_run (POLLS := POLLS) es1 s = Done tt s1 → legal (POLLS := POLLS) P es2 (queue_run es1 q) s1).
Proof.
  induction es1 as [|e es1 IH]; intros q s s1 Hl; [split; [done|]; by intros [= <-]|]. destruct Hl as [Ha Hl]. split.
  - split; [done|]. intros s' E. apply (IH _ s' s1), Hl, E.
  - cbn [ide_run]. unfold mbind, M_bind. destruct (ide_event e s) as [[] s'| | |] eqn:E; try done. apply IH, Hl. reflexivity.
Qed.

Lemma queue_run_head es q1 q : length (filter is_intr es) = length q1 → ∃ q', queue_run es (q1 ++ q) = q ++ q'.
Proof.
  revert q1 q. induction es as [|e es IH]; intros q1 q Hlen; [destruct q1; [|done]; exists []; by rewrite app_nil_r|].
  cbn [queue_run foldl]. destruct e as [i| |i b]; cbn [queue_event]; cbn in Hlen.
  - rewrite <- app_assoc. destruct (IH q1 (q ++ [i]) Hlen) as (q' & E). exists ([i] ++ q'). rewrite (app_assoc q). exact E.
  - destruct q1 as [|j q1]; [done|]. injection Hlen as Hlen. by apply IH.
  - by apply IH.
Qed.

(** C26. On a controller that keeps the ATA protocol, whose drives report no
    error and accept the data of a write right after the command, a call of
    [iderw] for a disk that is present returns once the disk has interrupted
    often enough: starting from an idle driver, a call that waits with [k]
    requests before its own sleeps, and at the [k+1]st interrupt from then on it
    is woken and its wait is over, whatever other calls and uses of buffers
    happen meanwhile; all of these return too. *)
Theorem ide_request_served s0 c es0 q1 i q2 es : no_fault D → prompt D → qinv s0 [] c →
  queue_run es0 [] = q1 ++ i :: q2 → length (filter is_intr es) = length q1 →
  legal (POLLS := POLLS) allowed (es0 ++ es ++ [Intr]) [] s0 →
  ∃ s s', ide_run (POLLS := POLLS) es0 s0 = Done tt s ∧ iderw_wait i s = Sleep (ChBuf i) s ∧
    ide_run (POLLS := POLLS) (es ++ [Intr]) s = Done tt s' ∧ iderw_wait i s' = Done tt s' ∧ last (wakes s') = Some (ChBuf i).
Proof.
  intros Hnf Hpr H0 Hq0 Hlen Hl. destruct (legal_app _ es0 (es ++ [Intr]) [] s0 s0 Hl) as [Hl0 _].
  destruct (run_qinv Hnf Hpr es0 s0 [] c H0 Hl0) as (s & c1 & E0 & H1). destruct (legal_app _ es0 (es ++ [Intr]) [] s0 s Hl) as [_ Hl1].
  specialize (Hl1 E0). rewrite Hq0 in H1, Hl1. destruct (legal_app _ es [Intr] _ s s Hl1) as [Hl2 _].
  destruct (run_qinv Hnf Hpr es s _ c1 H1 Hl2) as (s2 & c2 & E2 & H2). destruct (queue_run_head es q1 (i :: q2) Hlen) as (q' & Eq).
  rewrite Eq in H2. destruct (ideintr_qinv Hnf Hpr _ _ _ _ H2) as (s3 & E3 & _ & Hb & Hw). exists s, s3.
  split_and!; [done| | | |by rewrite Hw, last_snoc].
  - apply request_waits. pose proof (q_request _ _ _ H1) as Hr. rewrite Forall_forall in Hr. apply Hr. set_solver.
  - rewrite ide_run_app, (bind_Done _ _ _ _ _ E2). cbn [ide_run ide_event]. by rewrite (bind_Done _ _ _ _ _ E3).
  - unfold iderw_wait. mgo. rewrite Hb, decide_True by done. unfold served. cbn [flags set_flags].
    by rewrite done_waits.
Qed.

(** A read that fails is not reported: when the drive shows an error, the buffer
    is marked valid with the contents it had. *)
Theorem ideintr_ignores_error s i v d' : idequeue s = Some i → qnext s i = None → has (flags (ibufs s i)) B_DIRTY = false →
  inb 0x1f7 (ctl s) = (v, d') → Z.land v (Z.lor IDE_BSY IDE_DRDY) = IDE_DRDY → Z.land v (Z.lor IDE_DF IDE_ERR) ≠ 0 →
  ∃ s', ideintr POLLS s = Done tt s' ∧ data (ibufs s' i) = data (ibufs s i) ∧ has (flags (ibufs s' i)) B_VALID = true.
Proof.
  intros Hq Hn Hd Hin Hr He. unfold ideintr. mgo. rewrite Hq. mgo. mgo. rewrite Hd, Hn. cbn [negb].
  assert (E : idewait POLLS true (set_idequeue None s) = Done (-1) (set_ctl d' (set_idequeue None s))).
  { destruct POLLS; cbn [idewait]; unfold inp, mbind, M_bind; cbn [ctl set_idequeue]; rewrite Hin, Hr, Z.eqb_refl, (proj2 (Z.eqb_neq _ _) He); done. }
  rewrite bind_assoc, (bind_Done _ _ _ _ _ E). change (0 <=? -1) with false. cbn iota. unfold upd_ibuf.
  mgo. mgo. mgo. mgo. mgo. eexists. split; [done|]. cbn [ibufs set_ibufs set_ctl set_idequeue].
  rewrite !fn_lookup_insert. split; [done|]. cbn [flags set_flags]. rewrite done_flags. unfold has.
  rewrite negb_true_iff, Z.eqb_neq. intros E0. pose proof (f_equal (λ z, Z.testbit z 1) E0) as Hb.
  cbn beta in Hb. rewrite Z.land_spec, Z.lor_spec, orb_true_r in Hb. discriminate.
Qed.
End Theorems.

(** ** A drive *)

(** A drive that is busy for one read of the status after a command and after the
    data of a write; with [p] it takes the data of a write at once, without it
    data sent before DRQ is set is lost. *)
Record drive (p : bool) := mkDrive {
  d_regs : Z → Z;
  d_phase : phase;
  d_busy : bool;
  d_sec : Z * Z → list Z;
}.
Arguments mkDrive {p}.
Arguments d_regs {p}.
Arguments d_phase {p}.
Arguments d_busy {p}.
Arguments d_sec {p}.

Definition drive_outb {p} (port v : Z) (d : drive p) : drive p :=
  match d_phase d with
  | Idle =>
      if (0x1f2 <=? port) && (port <=? 0x1f6) then mkDrive (<[port := v]> (d_regs d)) Idle (d_busy d) (d_sec d) else
      if port =? 0x1f7 then
        if v =? IDE_CMD_READ then mkDrive (d_regs d) ReadBusy true (d_sec d) else
        if v =? IDE_CMD_WRITE then mkDrive (d_regs d) (if p then DataOut else WriteBusy) true (d_sec d) else d
      else d
  | _ => d
  end.

#[export] Instance drive_ata p : ata (drive p) := {
  inb port d :=
    if d_busy d then (IDE_BSY, mkDrive (d_regs d) (d_phase d) false (d_sec d))
    else (IDE_DRDY, mkDrive (d_regs d) (settles (d_phase d)) false (d_sec d));
  outb := drive_outb;
  insl port n d :=
    match d_phase d with
    | DataIn => (d_sec d (target (d_regs d)), mkDrive (d_regs d) Idle false (d_sec d))
    | _ => (replicate (4 * n) 0xff, d)
    end;
  outsl port ws d :=
    match d_phase d with
    | DataOut => mkDrive (d_regs d) Flushing true (<[target (d_regs d) := ws]> (d_sec d))
    | _ => d
    end;
}.

#[export] Instance drive_laws p : ata_laws (drive p) 1.
Proof.
  refine {| regs := d_regs; phase_of := d_phase; sector := d_sec |}.
  - intros d. cbn. by destruct (d_busy d).
  - intros d. cbn. by destruct (d_busy d).
  - intros d. cbn. by destruct (d_busy d).
  - intros d. cbn. by destruct (d_busy d).
  - intros d. cbn. destruct (d_busy d); auto.
  - intros d H. cbn. unfold drive_outb. by rewrite H.
  - intros port v d [H1 H2] H. cbn. unfold drive_outb. rewrite H. by rewrite (proj2 (Z.leb_le _ _) H1), (proj2 (Z.leb_le _ _) H2).
  - intros d H. cbn. unfold drive_outb. by rewrite H.
  - intros d H. cbn. unfold drive_outb. rewrite H. by destruct p.
  - intros d H _. cbn. by rewrite H.
  - intros ws d H _ _. cbn. by rewrite H.
Defined.

Lemma drive_no_fault p : no_fault (drive p).
Proof. intros d. cbn. by destruct (d_busy d). Qed.

Lemma drive_prompt : prompt (drive true).
Proof. intros d H. cbn in *. unfold drive_outb. by rewrite H. Qed.

(** Buffers 0 and 1 are locked: one to be written to block 7, the other to be
    read from there. *)
Definition demo_bufs (i : nat) : buf :=
  mkBuf (if bool_decide (i = 0%nat) then 5 else 1) 1 7 0 0 (replicate 512 (Z.of_nat i)).
Definition demo_io : io := mkIo demo_bufs (λ _, replicate 512 9) FSSIZE [] [].
Definition demo_ide p : ide (drive p) :=
  mkIde demo_bufs (λ _, None) None true (mkDrive (λ _, 0) Idle false (λ _, replicate 512 9)) [].

Lemma demo_qinv : qinv (POLLS := 1) (demo_ide true) [] (λ _, replicate 512 9).
Proof. split; try done. apply NoDup_nil_2. Qed.

Lemma demo_sim : sim (POLLS := 1) (demo_ide true) demo_io [].
Proof. split; try done. exists (λ _, replicate 512 9). split; [exact demo_qinv|done]. Qed.

Lemma demo_legal : legal (POLLS := 1) allowed1 ([Queue 0; Queue 1] ++ [Intr] ++ [Intr]) [] (demo_ide true).
Proof.
  cbn [app legal]. split; [|intros s1 E1; split; [|intros s2 E2; split; [done|]; intros s3 E3; by split]].
  - split; [|done]. split_and!; [unfold NBUF, MAXOPBLOCKS; lia|set_solver|]. split_and!; try done; by right.
  - vm_compute in E1. injection E1 as <-. split; [|done]. split_and!; [unfold NBUF, MAXOPBLOCKS; lia|set_solver|].
    split_and!; try done; by right.
Qed.

Lemma legal_weaken {D} `{!ata D} POLLS (P Q : event → list nat → ide D → Prop) es q s :
  (∀ e q s, P e q s → Q e q s) → legal (POLLS := POLLS) P es q s → legal (POLLS := POLLS) Q es q s.
Proof. intros HPQ. induction es as [|e es IH] in q, s |- *; [done|]. intros [Ha Hl]. split; [auto|]. intros s' E. auto. Qed.

Lemma ide_refines_memide_witness :
  ∃ s' io', ide_run (POLLS := 1) [Queue 0; Queue 1; Intr; Intr] (demo_ide true) = Done tt s' ∧
    mem_run [Queue 0; Queue 1; Intr; Intr] [] demo_io = Done tt io' ∧ (∀ i, ibufs s' i = bufs io' i) ∧
    sector (ctl s') (1, 7) = disk io' 7.
Proof.
  destruct (ide_refines_memide (POLLS := 1) (demo_ide true) demo_io [Queue 0; Queue 1; Intr; Intr] (drive_no_fault _) drive_prompt
    demo_sim demo_legal) as (s' & io' & E & Em & Hb & Hs).
  exists s', io'. split; [exact E|]. split; [exact Em|]. split; [exact Hb|]. apply (Hs eq_refl). split; [discriminate|reflexivity].
Defined.

Lemma ide_request_served_witness :
  ∃ s s', ide_run (POLLS := 1) [Queue 0; Queue 1] (demo_ide true) = Done tt s ∧ iderw_wait 1%nat s = Sleep (ChBuf 1) s ∧
    ide_run (POLLS := 1) [Intr; Intr] s = Done tt s' ∧ iderw_wait 1%nat s' = Done tt s' ∧ last (wakes s') = Some (ChBuf 1).
Proof.
  apply (ide_request_served (POLLS := 1) (demo_ide true) (λ _, replicate 512 9) [Queue 0; Queue 1] [0%nat] 1%nat [] [Intr]
    (drive_no_fault _) drive_prompt demo_qinv eq_refl eq_refl).
  exact (legal_weaken _ allowed1 allowed _ _ _ (λ e q s H, proj1 H) demo_legal).
Defined.

(** [idestart] sends the data of a write right behind the command, without waiting
    for DRQ.  On a drive that keeps the protocol but is not ready at once the
    data is lost, although the driver marks the buffer clean. *)
Theorem idestart_does_not_wait_for_drq :
  ∃ s', ide_run (POLLS := 1) [Queue 0; Intr] (demo_ide false) = Done tt s' ∧
    Z.land (flags (ibufs s' 0%nat)) (Z.lor B_VALID B_DIRTY) = B_VALID ∧
    sector (ctl s') (1, 7) = replicate 512 9 ∧ data (ibufs s' 0%nat) = replicate 512 0.
Proof. eexists. split; [vm_compute; reflexivity|]. by vm_compute. Qed.
