(* ===== verification/Mkfs.v ===== *)
(** * Building the file system image (mkfs.c)

    The image file is [img], by blocks, with [nsect] blocks written so far.  A
    [struct dinode] is its 64 bytes and its fields are read and written in
    place, in Intel byte order, as [xint] and [xshort] arrange.  A failed
    assertion or [exit(1)] is a panic; the host's [lseek] and [write] succeed.

    The files are given with the pieces in which the host's [read] returns
    their contents. *)

From S2P Require Import Prelude Bio Log Fs.
#[local] Open Scope Z_scope.

Definition NINODES : Z := 200.
Definition FSSIZE : Z := 1000.

Definition nbitmap : Z := FSSIZE / (Z.of_nat BSIZE * 8) + 1.
Definition ninodeblocks : Z := NINODES / IPB + 1.
Definition nlog : Z := Z.of_nat LOGSIZE.
Definition nmeta : Z := 2 + nlog + ninodeblocks + nbitmap.
Definition nblocks : Z := FSSIZE - nmeta.

Record mst := mkMst {
  img : Z → list Z;
  nsect : Z;
  freeinode : Z;
  freeblock : Z;
  msb : superblock;
}.

Definition set_img i n (s : mst) : mst := mkMst i n (freeinode s) (freeblock s) (msb s).
Definition set_freeinode x (s : mst) : mst := mkMst (img s) (nsect s) x (freeblock s) (msb s).
Definition set_freeblock x (s : mst) : mst := mkMst (img s) (nsect s) (freeinode s) x (msb s).
Definition set_msb x (s : mst) : mst := mkMst (img s) (nsect s) (freeinode s) (freeblock s) x.

Definition zeroes : list Z := replicate BSIZE 0.

(** The number whose bytes in memory are those of [x], lowest first. *)
Definition xshort (x : Z) : Z := get16 [u8 x; u8 (Z.shiftr x 8)] 0.
Definition xint (x : Z) : Z := get32 [u8 x; u8 (Z.shiftr x 8); u8 (Z.shiftr x 16); u8 (Z.shiftr x 24)] 0.

Definition assert (b : bool) : M mst unit := if b then mret tt else panic "assert".

Definition wsect (sec : Z) (buf : list Z) : M mst unit :=
  modify (λ s, set_img (<[sec := buf]> (img s)) (Z.max (nsect s) (sec + 1)) s).

Definition rsect (sec : Z) : M mst (list Z) :=
  s ← get;
  if sec <? nsect s then mret (img s sec) else panic "read".

Definition winode (inum : Z) (ip : list Z) : M mst unit :=
  s ← get;
  let bn := IBLOCK inum (msb s) in
  buf ← rsect bn;
  wsect bn (splice buf (doff inum) ip).

Definition rinode (inum : Z) : M mst (list Z) :=
  s ← get;
  let bn := IBLOCK inum (msb s) in
  buf ← rsect bn;
  mret (slice buf (doff inum) DINODE).

(** [freeinode++] and [freeblock++]. *)
Definition take_inode : M mst Z :=
  s ← get; modify (set_freeinode (freeinode s + 1));; mret (freeinode s).
Definition take_block : M mst Z :=
  s ← get; modify (set_freeblock (freeblock s + 1));; mret (freeblock s).

Definition ialloc (type : Z) : M mst Z :=
  inum ← take_inode;
  let din := replicate DINODE 0 in
  let din := put16 din 0 (xshort type) in
  let din := put16 din 6 (xshort 1) in
  let din := put32 din 8 (xint 0) in
  winode inum din;;
  mret inum.

(** [buf[i/8] = buf[i/8] | (0x1 << (i%8))] *)
Definition set_bit (buf : list Z) (i : nat) : list Z :=
  <[(i / 8)%nat := u8 (Z.lor (buf !!! (i / 8)%nat) (Z.shiftl 1 (Z.of_nat (i mod 8))))]> buf.

Definition balloc (used : Z) : M mst unit :=
  assert (used <? Z.of_nat BSIZE * 8);;
  let buf := foldl set_bit zeroes (seq 0 (Z.to_nat used)) in
  s ← get;
  wsect (bmapstart (msb s)) buf.

(** [din.addrs[k]] *)
Definition addr (din : list Z) (k : nat) : Z := get32 din (12 + 4 * k).

(** The block of the file for [fbn], allocated if there is none. *)
Definition iappend_block (din : list Z) (fbn : Z) : M mst (Z * list Z) :=
  if fbn <? Z.of_nat NDIRECT then
    let k := Z.to_nat fbn in
    din ← (if xint (addr din k) =? 0
           then b ← take_block; mret (put32 din (12 + 4 * k) (xint b))
           else mret din);
    mret (xint (addr din k), din)
  else
    let k := Z.to_nat (fbn - Z.of_nat NDIRECT) in
    din ← (if xint (addr din NDIRECT) =? 0
           then b ← take_block; mret (put32 din (12 + 4 * NDIRECT) (xint b))
           else mret din);
    indirect ← rsect (xint (addr din NDIRECT));
    indirect ← (if get32 indirect (4 * k) =? 0
                then b ← take_block;
                     let indirect := put32 indirect (4 * k) (xint b) in
                     wsect (xint (addr din NDIRECT)) indirect;;
                     mret indirect
                else mret indirect);
    mret (xint (get32 indirect (4 * k)), din).

(** The loop of [iappend]; each turn copies at least a byte. *)
Fixpoint iappend_loop (fuel : nat) (din : list Z) (off : Z) (p : list Z) : M mst (list Z * Z) :=
  match p with
  | [] => mret (din, off)
  | _ =>
      let fbn := off / Z.of_nat BSIZE in
      assert (fbn <? MAXFILE);;
      '(x, din) ← iappend_block din fbn;
      let n1 := Z.min (Z.of_nat (length p)) ((fbn + 1) * Z.of_nat BSIZE - off) in
      buf ← rsect x;
      wsect x (splice buf (Z.to_nat (off - fbn * Z.of_nat BSIZE)) (take (Z.to_nat n1) p));;
      match fuel with
      | O => out_of_fuel
      | S fuel' => iappend_loop fuel' din (off + n1) (drop (Z.to_nat n1) p)
      end
  end.

Definition iappend (inum : Z) (p : list Z) : M mst unit :=
  din ← rinode inum;
  let off := xint (get32 din 8) in
  '(din, off) ← iappend_loop (length p) din off p;
  winode inum (put32 din 8 (xint off)).

(** A directory entry: [de.inum] and [strncpy(de.name, name, DIRSIZ)]. *)
Definition dirent (inum : Z) (name : list Z) : list Z :=
  put16 (replicate 2 0 ++ take DIRSIZ (name ++ replicate DIRSIZ 0)) 0 (xshort inum).

(** The files named on the command line: the name and the pieces [read]
    returns, or [None] when [open] fails. *)
Notation file := (list Z * option (list (list Z)))%type.

Definition add_file (rootino : Z) (f : file) : M mst unit :=
  let '(name, contents) := f in
  assert (negb (bool_decide (47 ∈ name)));;
  match contents with
  | None => panic "open"
  | Some pieces =>
      let name := match name with 95 :: name' => name' | _ => name end in
      inum ← ialloc T_FILE;
      iappend rootino (dirent inum name);;
      iter_each pieces (iappend inum)
  end.

Definition superblk : superblock :=
  mkSb (xint FSSIZE) (xint nblocks) (xint NINODES) (xint nlog) (xint 2) (xint (2 + nlog)) (xint (2 + nlog + ninodeblocks)).

(** [memmove(buf, &sb, sizeof(sb))] *)
Definition encode_sb (q : superblock) (d : list Z) : list Z :=
  put_words d 0 [sb_size q; Log.nblocks q; ninodes q; Log.nlog q; logstart q; inodestart q; bmapstart q].

(** [main] up to the last file, and what it does then. *)
Definition populate (files : list file) : M mst unit :=
  modify (set_img (λ _, zeroes) 0);;
  modify (set_msb superblk);;
  modify (set_freeblock nmeta);;
  iter_each (seq 0 (Z.to_nat FSSIZE)) (λ i, wsect (Z.of_nat i) zeroes);;
  s ← get;
  wsect 1 (encode_sb (msb s) zeroes);;
  rootino ← ialloc T_DIR;
  assert (rootino =? ROOTINO);;
  iappend rootino (dirent rootino [46]);;
  iappend rootino (dirent rootino [46; 46]);;
  iter_each files (add_file rootino).

Definition finish (rootino : Z) : M mst unit :=
  din ← rinode rootino;
  let off := xint (get32 din 8) in
  let off := (off / Z.of_nat BSIZE + 1) * Z.of_nat BSIZE in
  winode rootino (put32 din 8 (xint off));;
  s ← get;
  balloc (freeblock s).

Definition main (files : list file) : M mst unit := populate files;; finish ROOTINO.

(** The image before the program starts. *)
Definition mkfs_start : mst := mkMst (λ _, zeroes) 0 1 0 (mkSb 0 0 0 0 0 0 0).
