(* ===== verification/MkfsSpec.v ===== *)
(** * The image mkfs builds

    [rep] says that a file's bytes are in the blocks its dinode names, and
    which blocks those are; [image] is the invariant of the program: every
    file so far is represented, no two share a block, and the blocks from
    [freeblock] on are untouched.  The theorems show that mkfs succeeds when
    the files fit and that the kernel reads back what was put in. *)

From S2P Require Import Prelude Bio Log Fs FsSpec FsData Mkfs.
#[local] Open Scope Z_scope.

(** ** Bytes *)

Lemma xint_u32 x : xint x = u32 x.
Proof.
  unfold xint, get32. cbn [lookup_total list_lookup_total Nat.add]. rewrite !Z.shiftr_div_pow2 by lia. apply bytes_of_u32.
Qed.

Lemma xint_small x : 0 <= x < 2 ^ 32 → xint x = x.
Proof. intros. rewrite xint_u32. by apply u32_id. Qed.

Lemma xshort_u16 x : xshort x = u16 x.
Proof. unfold xshort, get16. cbn [lookup_total list_lookup_total Nat.add]. rewrite Z.shiftr_div_pow2 by lia. apply bytes_of_u16. Qed.

Lemma lookup_total_slice (d : list Z) i n k : (k < n)%nat → (i + n <= length d)%nat → slice d i n !!! k = d !!! (i + k)%nat.
Proof. intros. unfold slice. rewrite lookup_total_take_lt, lookup_total_drop; done. Qed.

Lemma get32_slice d i n j : (j + 4 <= n)%nat → (i + n <= length d)%nat → get32 (slice d i n) j = get32 d (i + j).
Proof.
  intros. unfold get32. rewrite !lookup_total_slice by lia. by rewrite !Nat.add_assoc.
Qed.

Lemma get16_slice d i n j : (j + 2 <= n)%nat → (i + n <= length d)%nat → get16 (slice d i n) j = get16 d (i + j).
Proof. intros. unfold get16. rewrite !lookup_total_slice by lia. by rewrite !Nat.add_assoc. Qed.

(** ** A file in the image *)

Definition ind (din : list Z) : Z := addr din NDIRECT.

Definition blk (im : Z → list Z) (din : list Z) (bn : nat) : Z :=
  if (bn <? NDIRECT)%nat then addr din bn else get32 (im (ind din)) (4 * (bn - NDIRECT)).

Definition blocks (im : Z → list Z) (din : list Z) (nb : nat) (hi : bool) : list Z :=
  (blk im din <$> seq 0 nb) ++ (if hi then [ind din] else []).

(** The dinode names [nb] data blocks, and an indirect block if [hi]; the blocks
    hold [cs]; the other addresses are zero. *)
Record rep (im : Z → list Z) (din : list Z) (cs : list Z) (nb : nat) (hi : bool) : Prop := {
  rp_len : length din = DINODE;
  rp_nb : (nb <= 140)%nat;
  rp_fit : (length cs <= BSIZE * nb)%nat;
  rp_hi : (NDIRECT < nb)%nat → hi = true;
  rp_nodup : NoDup (blocks im din nb hi);
  rp_direct k : (nb <= k < NDIRECT)%nat → addr din k = 0;
  rp_noind : hi = false → ind din = 0;
  rp_indirect k : hi = true → (nb <= k < 140)%nat → (NDIRECT <= k)%nat → blk im din k = 0;
  rp_data o : (o < length cs)%nat → im (blk im din (o / BSIZE)) !!! (o mod BSIZE)%nat = cs !!! o;
}.

Lemma blk_elem im din nb hi k : (k < nb)%nat → blk im din k ∈ blocks im din nb hi.
Proof. intros. unfold blocks. apply elem_of_app. left. apply list_elem_of_fmap. exists k. split; [done|]. apply elem_of_seq. lia. Qed.

Lemma ind_elem im din nb : ind din ∈ blocks im din nb true.
Proof. unfold blocks. set_solver. Qed.

Lemma blk_frame im im' din nb hi : ((NDIRECT < nb)%nat → hi = true) → (∀ b, b ∈ blocks im din nb hi → im' b = im b) →
  ∀ k, (k < nb)%nat ∨ hi = true → blk im' din k = blk im din k.
Proof.
  intros Hh Hf k Hk. unfold blk. destruct (Nat.ltb_spec k NDIRECT); [done|]. rewrite Hf; [done|].
  destruct hi; [apply ind_elem|]. destruct Hk as [Hk|Hk]; [|done]. discriminate Hh. lia.
Qed.

Lemma blocks_frame im im' din nb hi : ((NDIRECT < nb)%nat → hi = true) → (∀ b, b ∈ blocks im din nb hi → im' b = im b) →
  blocks im' din nb hi = blocks im din nb hi.
Proof.
  intros Hh Hf. unfold blocks. f_equal. apply list_fmap_ext. intros i k [-> Hk]%lookup_seq.
  eapply blk_frame; [done|done|]. lia.
Qed.

(** A file depends on its own blocks only. *)
Lemma rep_frame im im' din cs nb hi : rep im din cs nb hi → (∀ b, b ∈ blocks im din nb hi → im' b = im b) →
  rep im' din cs nb hi.
Proof.
  intros [H1 H2 H3 H4 H5 H6 H7 H8 H9] Hf. split; try done.
  - by rewrite (blocks_frame im).
  - intros k Hh Hk Hk'. rewrite (blk_frame im im' din nb hi) by auto. auto.
  - intros o Ho. assert (o / BSIZE < nb)%nat by (apply Nat.Div0.div_lt_upper_bound; lia).
    rewrite (blk_frame im im' din nb hi) by auto. rewrite Hf by (by apply blk_elem). auto.
Qed.

(** ** Giving a file one more block *)

Lemma zeroes_lookup k : (k < 512)%nat → zeroes !!! k = 0.
Proof. intros. unfold zeroes. by rewrite list_lookup_total_alt, lookup_replicate_2. Qed.

Lemma blocks_S im din nb hi : blocks im din (S nb) hi ≡ₚ blk im din nb :: blocks im din nb hi.
Proof.
  unfold blocks. rewrite seq_S, fmap_app. cbn [fmap list_fmap plus]. rewrite <- app_assoc. cbn [app].
  apply Permutation_sym, Permutation_middle.
Qed.

Lemma blk_ext im im' din din' k : (∀ j, (j < NDIRECT)%nat → j = k → addr din' j = addr din j) →
  ((NDIRECT <= k)%nat → get32 (im' (ind din')) (4 * (k - NDIRECT)) = get32 (im (ind din)) (4 * (k - NDIRECT))) →
  blk im' din' k = blk im din k.
Proof. intros H1 H2. unfold blk. destruct (Nat.ltb_spec k NDIRECT); auto. Qed.

Lemma addr_put32 din j k v : length din = DINODE → (j <= NDIRECT)%nat → 0 <= v < 2 ^ 32 →
  addr (put32 din (12 + 4 * j) v) k = if decide (k = j) then v else addr din k.
Proof.
  intros Hl Hj Hv. unfold addr. destruct (decide (k = j)) as [->|]; [|apply get32_put32_ne; lia].
  rewrite get32_put32_eq by (rewrite Hl; unfold DINODE, NDIRECT in *; lia). by apply u32_id.
Qed.

Section Grow.
Context (im : Z → list Z) (din cs : list Z) (nb : nat) (fb : Z).
Hypothesis Hfb : 0 < fb < 2 ^ 32.

(** A direct address. *)
Lemma grow_direct hi : rep im din cs nb hi → (nb < NDIRECT)%nat → fb ∉ blocks im din nb hi →
  let din' := put32 din (12 + 4 * nb) fb in
  rep im din' cs (S nb) hi ∧ blk im din' nb = fb ∧ blocks im din' (S nb) hi ≡ₚ fb :: blocks im din nb hi.
Proof.
  intros [H1 H2 H3 H4 H5 H6 H7 H8 H9] Hn Hfresh din'.
  assert (Ha : ∀ k, addr din' k = if decide (k = nb) then fb else addr din k) by (intros; apply addr_put32; done || lia).
  assert (Hi : ind din' = ind din) by (unfold ind; by rewrite Ha, decide_False by lia).
  assert (Hb : ∀ k, k ≠ nb → blk im din' k = blk im din k).
  { intros k Hk. apply blk_ext; [intros j _ ->; by rewrite Ha, decide_False|by rewrite Hi]. }
  assert (Hnb : blk im din' nb = fb). { unfold blk. rewrite (proj2 (Nat.ltb_lt _ _) Hn), Ha. by rewrite decide_True. }
  assert (Hbs : blocks im din' nb hi = blocks im din nb hi).
  { unfold blocks. rewrite Hi. f_equal. apply list_fmap_ext. intros i k [-> Hk]%lookup_seq. apply Hb. lia. }
  assert (Hp : blocks im din' (S nb) hi ≡ₚ fb :: blocks im din nb hi) by (by rewrite blocks_S, Hnb, Hbs).
  split_and!; [|done|done]. split; try done.
  - unfold din'. by rewrite length_put32.
  - unfold NDIRECT in Hn. lia.
  - lia.
  - unfold NDIRECT in *. lia.
  - rewrite Hp. by apply NoDup_cons.
  - intros k Hk. rewrite Ha, decide_False by lia. apply H6. lia.
  - intros Hf. rewrite Hi. auto.
  - intros k Hh Hk Hk'. rewrite Hb by lia. apply H8; [done|lia|done].
  - intros o Ho. assert (o / BSIZE < nb)%nat by (apply Nat.Div0.div_lt_upper_bound; lia). rewrite Hb by lia. auto.
Qed.

(** The indirect block. *)
Lemma grow_ind : rep im din cs nb false → fb ∉ blocks im din nb false → im fb = zeroes →
  let din' := put32 din (12 + 4 * NDIRECT) fb in
  rep im din' cs nb true ∧ ind din' = fb ∧ blocks im din' nb true ≡ₚ fb :: blocks im din nb false.
Proof.
  intros [H1 H2 H3 H4 H5 H6 H7 H8 H9] Hfresh Hz din'. assert (Hn : (nb <= NDIRECT)%nat).
  { destruct (decide (NDIRECT < nb)%nat); [by discriminate H4|lia]. }
  assert (Ha : ∀ k, addr din' k = if decide (k = NDIRECT) then fb else addr din k) by (intros; apply addr_put32; done || lia).
  assert (Hi : ind din' = fb) by (unfold ind; by rewrite Ha, decide_True).
  assert (Hb : ∀ k, (k < NDIRECT)%nat → blk im din' k = blk im din k).
  { intros k Hk. apply blk_ext; [intros j ? ->; by rewrite Ha, decide_False by lia|lia]. }
  assert (Hp : blocks im din' nb true ≡ₚ fb :: blocks im din nb false).
  { unfold blocks. rewrite Hi, app_nil_r, Permutation_app_comm. cbn [app].
    assert (blk im din' <$> seq 0 nb = blk im din <$> seq 0 nb) as ->; [|done]. apply list_fmap_ext. intros i k [-> Hk]%lookup_seq. apply Hb. lia. }
  split_and!; [|done|done]. split; try done.
  - unfold din'. by rewrite length_put32.
  - rewrite Hp. by apply NoDup_cons.
  - intros k Hk. rewrite Ha, decide_False by lia. by apply H6.
  - intros k _ Hk Hk'. unfold blk. rewrite (proj2 (Nat.ltb_ge _ _) Hk'), Hi, Hz. unfold NDIRECT in *.
    unfold get32. by rewrite !zeroes_lookup by lia.
  - intros o Ho. assert (o / BSIZE < nb)%nat by (apply Nat.Div0.div_lt_upper_bound; lia). rewrite Hb by lia. auto.
Qed.

(** An entry of the indirect block. *)
Lemma grow_indirect : rep im din cs nb true → (NDIRECT <= nb < 140)%nat → fb ∉ blocks im din nb true →
  length (im (ind din)) = BSIZE →
  let im' := <[ind din := put32 (im (ind din)) (4 * (nb - NDIRECT)) fb]> im in
  rep im' din cs (S nb) true ∧ blk im' din nb = fb ∧ blocks im' din (S nb) true ≡ₚ fb :: blocks im din nb true.
Proof.
  intros [H1 H2 H3 H4 H5 H6 H7 H8 H9] Hn Hfresh Hlen im'.
  assert (Hg : im' (ind din) = put32 (im (ind din)) (4 * (nb - NDIRECT)) fb) by (unfold im'; by rewrite fn_lookup_insert).
  assert (Hb : ∀ k, k ≠ nb → blk im' din k = blk im din k).
  { intros k Hk. apply blk_ext; [done|]. intros Hk'. rewrite Hg. apply get32_put32_ne. unfold NDIRECT in *. lia. }
  assert (Hnb : blk im' din nb = fb).
  { unfold blk. rewrite (proj2 (Nat.ltb_ge _ _)) by lia. rewrite Hg, get32_put32_eq by (rewrite Hlen; unfold BSIZE, NDIRECT in *; lia).
    apply u32_id. unfold is_u32. lia. }
  assert (Hbs : blocks im' din nb true = blocks im din nb true).
  { unfold blocks. f_equal. apply list_fmap_ext. intros i k [-> Hk]%lookup_seq. apply Hb. lia. }
  assert (Hp : blocks im' din (S nb) true ≡ₚ fb :: blocks im din nb true) by (by rewrite blocks_S, Hnb, Hbs).
  split_and!; [|done|done]. split; try done.
  - lia.
  - lia.
  - rewrite Hp. by apply NoDup_cons.
  - intros k Hk. apply H6. lia.
  - intros k _ Hk Hk'. rewrite Hb by lia. apply H8; [done|lia|done].
  - intros o Ho. assert (o / BSIZE < nb)%nat by (apply Nat.Div0.div_lt_upper_bound; lia). rewrite Hb by lia.
    unfold im'. rewrite fn_lookup_insert_ne; [auto|]. intros E.
    unfold blocks in H5. apply NoDup_app in H5 as (_ & H5 & _). apply (H5 (ind din)); [|set_solver].
    rewrite E. apply list_elem_of_fmap. exists (o / BSIZE)%nat. split; [done|]. apply elem_of_seq. lia.
Qed.
End Grow.

(** ** The program's state *)

Record mok (s : mst) : Prop := {
  mo_zero b : freeblock s <= b → img s b = zeroes;
  mo_len b : length (img s b) = BSIZE;
  mo_free : nmeta <= freeblock s <= FSSIZE;
  mo_sect : nsect s = FSSIZE;
  mo_sb : msb s = superblk;
}.

(** A file that had the blocks [U] now has [U']: the new ones were free, and no
    other block changed. *)
Record grew (s s' : mst) (U U' : list Z) : Prop := {
  gr_ok : mok s';
  gr_inode : freeinode s' = freeinode s;
  gr_free : freeblock s' = freeblock s + Z.of_nat (length U') - Z.of_nat (length U);
  gr_mono : freeblock s <= freeblock s';
  gr_sub : U ⊆ U';
  gr_new b : b ∈ U' → b ∈ U ∨ freeblock s <= b < freeblock s';
  gr_frame b : b ∉ U' → img s' b = img s b;
}.

Lemma grew_refl s U : mok s → grew s s U U.
Proof. intros H. split; try done; [lia|auto]. Qed.

Lemma grew_trans s1 s2 s3 U1 U2 U3 : grew s1 s2 U1 U2 → grew s2 s3 U2 U3 → grew s1 s3 U1 U3.
Proof.
  intros [A1 A2 A3 A4 A5 A6 A7] [B1 B2 B3 B4 B5 B6 B7]. split; try done; try lia; [set_solver| |].
  - intros b Hb. destruct (B6 _ Hb) as [Hb'|?]; [destruct (A6 _ Hb')|]; [by left|right; lia..].
  - intros b Hb. rewrite B7, A7; [done|set_solver|done].
Qed.

Lemma grew_perm s s' U U' V V' : U ≡ₚ V → U' ≡ₚ V' → grew s s' U U' → grew s s' V V'.
Proof.
  intros H H' [A1 A2 A3 A4 A5 A6 A7]. split; try done.
  - by rewrite <- H, <- H'.
  - intros b. rewrite <- H, <- H'. apply A5.
  - intros b. rewrite <- H, <- H'. apply A6.
  - intros b. rewrite <- H'. apply A7.
Qed.

Definition owned (s : mst) (U : list Z) : Prop := Forall (λ b, nmeta <= b < freeblock s) U.

Lemma owned_fresh s U : owned s U → freeblock s ∉ U.
Proof. unfold owned. rewrite Forall_forall. intros H Hin. specialize (H _ Hin). lia. Qed.

Lemma grew_owned s s' U U' : mok s → owned s U → grew s s' U U' → owned s' U'.
Proof.
  unfold owned. rewrite !Forall_forall. intros [_ _ ? _ _] H [_ _ _ ? _ A6 _] b Hb. destruct (A6 _ Hb) as [Hb'|?]; [|lia].
  specialize (H _ Hb'). lia.
Qed.

(** [freeblock++]. *)
Lemma take_block_grew s U : mok s → freeblock s < FSSIZE →
  take_block s = Done (freeblock s) (set_freeblock (freeblock s + 1) s) ∧
  grew s (set_freeblock (freeblock s + 1) s) U (freeblock s :: U).
Proof.
  intros [H1 H2 H3 H4 H5] Hf. split; [done|]. split; try done; cbn [freeblock set_freeblock length]; try lia.
  - split; cbn; try done; [|lia]. intros b Hb. apply H1. lia.
  - set_solver.
  - intros b [->|?]%elem_of_cons; [right; lia|by left].
Qed.

(** A write to a block of the file. *)
Lemma wsect_grew s U b d : mok s → b ∈ U → b < freeblock s → length d = BSIZE →
  wsect b d s = Done tt (set_img (<[b := d]> (img s)) FSSIZE s) ∧ grew s (set_img (<[b := d]> (img s)) FSSIZE s) U U.
Proof.
  intros [H1 H2 H3 H4 H5] Hb Hf Hd. split.
  - unfold wsect, modify. rewrite H4, Z.max_l by lia. done.
  - split; try done; cbn [freeblock set_img img]; try lia.
    + split; cbn; try done.
      * intros c Hc. rewrite fn_lookup_insert_ne by lia. auto.
      * intros c. destruct (decide (b = c)) as [->|]; [by rewrite fn_lookup_insert|by rewrite fn_lookup_insert_ne].
    + auto.
    + intros c Hc. apply fn_lookup_insert_ne. by intros ->.
Qed.

Lemma rsect_ok s b : mok s → b < FSSIZE → rsect b s = Done (img s b) s.
Proof. intros H Hb. unfold rsect. mgo. by rewrite (mo_sect _ H), (proj2 (Z.ltb_lt _ _) Hb). Qed.

(** The blocks a file of [nb] data blocks uses. *)
Definition need (nb : nat) : Z := Z.of_nat nb + (if (NDIRECT <? nb)%nat then 1 else 0).

Lemma length_blocks im din nb : Z.of_nat (length (blocks im din nb (NDIRECT <? nb)%nat)) = need nb.
Proof. unfold blocks, need. rewrite length_app, length_fmap, length_seq. destruct (_ <? _)%nat; cbn; lia. Qed.

Lemma put32_header din j v k : (k < 12)%nat → put32 din (12 + 4 * j) v !!! k = din !!! k.
Proof. intros. unfold put32. by rewrite !lt_insert_ne by lia. Qed.

Lemma owned_range s U b : mok s → owned s U → b ∈ U → nmeta <= b < FSSIZE ∧ b < freeblock s ∧ xint b = b ∧ (b =? 0) = false.
Proof.
  unfold owned. rewrite Forall_forall. intros [_ _ ? _ _] H Hb. specialize (H _ Hb). assert (nmeta = 59) by done.
  assert (FSSIZE = 1000) by done. split_and!; try lia. apply xint_small. lia.
Qed.

Section Block.
Context (s : mst) (din cs : list Z) (nb : nat).
Let hi : bool := (NDIRECT <? nb)%nat.
Hypothesis Hok : mok s.
Hypothesis Hrep : rep (img s) din cs nb hi.
Hypothesis Hown : owned s (blocks (img s) din nb hi).

Definition block_result (k : nat) (s' : mst) (din' : list Z) : Prop :=
  let nb' := Nat.max nb (S k) in let hi' := (NDIRECT <? nb')%nat in
  iappend_block din (Z.of_nat k) s = Done (blk (img s') din' k, din') s' ∧
  rep (img s') din' cs nb' hi' ∧ grew s s' (blocks (img s) din nb hi) (blocks (img s') din' nb' hi') ∧
  (∀ j, (j < 12)%nat → din' !!! j = din !!! j).

(** The block is there. *)
Lemma block_old k : (k < nb)%nat → block_result k s din.
Proof.
  intros Hk. pose proof (rp_nb _ _ _ _ _ Hrep) as Hn. unfold block_result. replace (Nat.max nb (S k)) with nb by lia. fold hi.
  destruct (owned_range s _ (blk (img s) din k) Hok Hown) as (Hr1 & _ & Hr2 & Hr3); [by apply blk_elem|].
  split_and!; [|done|by apply grew_refl|done]. unfold iappend_block, blk in *.
  destruct (Nat.ltb_spec k NDIRECT) as [Hd|Hd].
  - rewrite (proj2 (Z.ltb_lt _ _)) by lia. rewrite Nat2Z.id, Hr2, Hr3. mgo. by rewrite Hr2.
  - rewrite (proj2 (Z.ltb_ge _ _)) by lia. replace (Z.to_nat (Z.of_nat k - Z.of_nat NDIRECT)) with (k - NDIRECT)%nat by lia.
    assert (Hh : hi = true) by (apply (rp_hi _ _ _ _ _ Hrep); lia).
    destruct (owned_range s _ (ind din) Hok Hown) as (Hi1 & _ & Hi2 & Hi3); [rewrite Hh; apply ind_elem|].
    unfold ind in *. rewrite Hi2, Hi3. mgo. rewrite Hi2, (bind_Done _ _ _ _ _ (rsect_ok _ _ Hok (proj2 Hi1))). rewrite Hr3. mgo.
    by rewrite Hr2.
Qed.

(** A new direct block. *)
Lemma block_direct : (nb < NDIRECT)%nat → freeblock s < FSSIZE → ∃ s' din', block_result nb s' din'.
Proof.
  intros Hk Hb. assert (Hh : hi = false) by (apply Nat.ltb_ge; lia). pose proof (mo_free _ Hok) as Hf. assert (nmeta = 59) by done.
  assert (FSSIZE = 1000) by done.
  destruct (grow_direct (img s) din cs nb (freeblock s) ltac:(lia) hi Hrep Hk (owned_fresh _ _ Hown)) as (Hrep' & Hblk & Hp).
  destruct (take_block_grew s (blocks (img s) din nb hi) Hok Hb) as [E G].
  exists (set_freeblock (freeblock s + 1) s), (put32 din (12 + 4 * nb) (freeblock s)).
  unfold block_result. replace (Nat.max nb (S nb)) with (S nb) by lia.
  assert ((NDIRECT <? S nb)%nat = hi) as -> by (rewrite Hh; apply Nat.ltb_ge; lia).
  split_and!; [|done|by eapply grew_perm|intros; by apply put32_header].
  unfold iappend_block. rewrite (proj2 (Z.ltb_lt _ _)) by lia. rewrite Nat2Z.id, (rp_direct _ _ _ _ _ Hrep nb) by lia.
  rewrite xint_small by lia. change (0 =? 0) with true. cbn iota. rewrite bind_assoc, (bind_Done _ _ _ _ _ E). mgo.
  rewrite (xint_small (freeblock s)) by lia. cbn [img set_freeblock]. unfold blk in *. rewrite (proj2 (Nat.ltb_lt _ _) Hk) in *.
  by rewrite Hblk, xint_small by lia.
Qed.

(** The indirect block is there or is new. *)
Lemma block_ind : (NDIRECT <= nb)%nat → freeblock s + (need (S nb) - need nb) <= FSSIZE →
  ∃ s1 din1, (if xint (addr din NDIRECT) =? 0 then b ← take_block; mret (put32 din (12 + 4 * NDIRECT) (xint b)) else mret din) s
      = Done din1 s1 ∧ rep (img s1) din1 cs nb true ∧ freeblock s1 < FSSIZE ∧
    grew s s1 (blocks (img s) din nb hi) (blocks (img s1) din1 nb true) ∧ (∀ j, (j < 12)%nat → din1 !!! j = din !!! j).
Proof.
  intros Hk Hb. pose proof (mo_free _ Hok) as Hf. assert (nmeta = 59) by done. assert (FSSIZE = 1000) by done.
  unfold need in Hb. rewrite (proj2 (Nat.ltb_lt NDIRECT (S nb))) in Hb by lia. fold hi in Hb. destruct hi eqn:Hh.
  - destruct (owned_range s _ (ind din) Hok Hown) as (Hi1 & _ & Hi2 & Hi3); [apply ind_elem|]. unfold ind in *.
    rewrite Hi2, Hi3. exists s, din. split_and!; try done; [lia|by apply grew_refl].
  - assert (Hz : addr din NDIRECT = 0) by (by apply (rp_noind _ _ _ _ _ Hrep)). rewrite Hz, xint_small by lia. change (0 =? 0) with true. cbn iota.
    destruct (grow_ind (img s) din cs nb (freeblock s) ltac:(lia) Hrep (owned_fresh _ _ Hown)) as (Hrep' & Hind & Hp);
      [apply (mo_zero _ Hok); lia|].
    destruct (take_block_grew s (blocks (img s) din nb false) Hok) as [E G]; [lia|].
    exists (set_freeblock (freeblock s + 1) s), (put32 din (12 + 4 * NDIRECT) (freeblock s)).
    rewrite (bind_Done _ _ _ _ _ E), xint_small by lia. split_and!; [done|done|cbn; lia|by eapply grew_perm|intros; by apply put32_header].
Qed.

(** A new block named in the indirect block. *)
Lemma block_indirect : (NDIRECT <= nb < 140)%nat → freeblock s + (need (S nb) - need nb) <= FSSIZE → ∃ s' din', block_result nb s' din'.
Proof.
  intros Hk Hb. destruct (block_ind (proj1 Hk) Hb) as (s1 & din1 & E1 & Hrep1 & Hfree & G1 & Hh1).
  pose proof (gr_ok _ _ _ _ G1) as Hok1. pose proof (grew_owned _ _ _ _ Hok Hown G1) as Hown1.
  pose proof (mo_free _ Hok1) as Hf1. assert (nmeta = 59) by done. assert (FSSIZE = 1000) by done.
  destruct (owned_range s1 _ (ind din1) Hok1 Hown1) as (Hi1 & Hi2 & Hi3 & Hi4); [apply ind_elem|].
  destruct (take_block_grew s1 (blocks (img s1) din1 nb true) Hok1 Hfree) as [E2 G2].
  set (s2 := set_freeblock (freeblock s1 + 1) s1) in *. set (d := put32 (img s1 (ind din1)) (4 * (nb - NDIRECT)) (freeblock s1)).
  destruct (wsect_grew s2 (freeblock s1 :: blocks (img s1) din1 nb true) (ind din1) d) as [E3 G3].
  { exact (gr_ok _ _ _ _ G2). } { apply elem_of_cons. right. apply ind_elem. } { cbn. lia. } { unfold d. rewrite length_put32. apply (mo_len _ Hok1). }
  destruct (grow_indirect (img s1) din1 cs nb (freeblock s1) ltac:(lia) Hrep1 Hk (owned_fresh _ _ Hown1) (mo_len _ Hok1 _)) as (Hrep3 & Hblk & Hp).
  fold d in Hrep3, Hblk, Hp. exists (set_img (<[ind din1 := d]> (img s2)) FSSIZE s2), din1. unfold block_result.
  replace (Nat.max nb (S nb)) with (S nb) by lia. rewrite (proj2 (Nat.ltb_lt NDIRECT (S nb))) by lia.
  split_and!; [|done|eapply grew_trans; [exact G1|]; eapply grew_trans; [exact G2|]; eapply grew_perm; [reflexivity|symmetry; exact Hp|exact G3]|done].
  unfold iappend_block. rewrite (proj2 (Z.ltb_ge _ _)) by lia. replace (Z.to_nat (Z.of_nat nb - Z.of_nat NDIRECT)) with (nb - NDIRECT)%nat by lia.
  rewrite (bind_Done _ _ _ _ _ E1). unfold ind in *. rewrite Hi3, (bind_Done _ _ _ _ _ (rsect_ok _ _ Hok1 (proj2 Hi1))).
  pose proof (rp_indirect _ _ _ _ _ Hrep1 nb eq_refl) as Hz. unfold blk, ind in Hz. rewrite (proj2 (Nat.ltb_ge nb NDIRECT)) in Hz by lia.
  rewrite Hz by lia. change (0 =? 0) with true. cbn iota. rewrite bind_assoc, (bind_Done _ _ _ _ _ E2).
  rewrite (xint_small (freeblock s1)) by lia. cbn zeta. fold d. rewrite bind_assoc, (bind_Done _ _ _ _ _ E3). mgo.
  cbn [img set_img] in *. change (img s2) with (img s1). rewrite Hblk. f_equal. f_equal. unfold blk, ind in Hblk. rewrite (proj2 (Nat.ltb_ge nb NDIRECT)) in Hblk by lia.
  rewrite fn_lookup_insert in Hblk. rewrite Hblk. apply xint_small. lia.
Qed.

Lemma block_spec k : (k <= nb)%nat → (k < 140)%nat → freeblock s + (need (Nat.max nb (S k)) - need nb) <= FSSIZE →
  ∃ s' din', block_result k s' din'.
Proof.
  intros Hk Hm Hb. destruct (decide (k < nb)%nat) as [|Hge]; [by exists s, din; apply block_old|]. assert (k = nb) as -> by lia.
  replace (Nat.max nb (S nb)) with (S nb) in Hb by lia. destruct (decide (nb < NDIRECT)%nat) as [Hd|Hd].
  - apply block_direct; [done|]. unfold need in Hb. rewrite !(proj2 (Nat.ltb_ge _ _)) in Hb by lia. lia.
  - apply block_indirect; [lia|done].
Qed.
End Block.

(** ** Appending *)

Lemma blk_inj im din nb hi a b : NoDup (blocks im din nb hi) → (a < nb)%nat → (b < nb)%nat → blk im din a = blk im din b → a = b.
Proof.
  intros Hnd Ha Hb E. unfold blocks in Hnd. apply NoDup_app in Hnd as (Hnd & _).
  eapply (NoDup_lookup _ a b (blk im din a) Hnd); rewrite list_lookup_fmap, lookup_seq_lt by done; cbn; congruence.
Qed.

Lemma blk_not_ind im din nb a : NoDup (blocks im din nb true) → (a < nb)%nat → blk im din a ≠ ind din.
Proof.
  intros Hnd Ha E. unfold blocks in Hnd. apply NoDup_app in Hnd as (_ & Hnd & _). apply (Hnd (ind din)); [|set_solver].
  rewrite <- E. apply list_elem_of_fmap. exists a. split; [done|]. apply elem_of_seq. lia.
Qed.

Lemma rep_write im din cs nb hi l : rep im din cs nb hi →
  let k := (length cs / BSIZE)%nat in let o := (length cs mod BSIZE)%nat in
  (k < nb)%nat → (o + length l <= BSIZE)%nat → length (im (blk im din k)) = BSIZE →
  let im' := <[blk im din k := splice (im (blk im din k)) o l]> im in
  rep im' din (cs ++ l) nb hi ∧ blocks im' din nb hi = blocks im din nb hi.
Proof.
  intros [H1 H2 H3 H4 H5 H6 H7 H8 H9] k o Hk Ho Hlen im'.
  assert (Hind : hi = true → im' (ind din) = im (ind din)).
  { intros ->. unfold im'. apply fn_lookup_insert_ne. by eapply blk_not_ind. }
  assert (Hb : ∀ j, (j < nb)%nat ∨ hi = true → blk im' din j = blk im din j).
  { intros j Hj. apply blk_ext; [done|]. intros Hj'. rewrite Hind; [done|]. destruct Hj as [Hj|]; [apply H4; lia|done]. }
  assert (Hdm : length cs = (BSIZE * k + o)%nat) by (apply Nat.div_mod_eq).
  assert (Hom : (o < BSIZE)%nat) by (apply Nat.mod_upper_bound; unfold BSIZE; lia).
  assert (Hbs : blocks im' din nb hi = blocks im din nb hi).
  { unfold blocks. f_equal. apply list_fmap_ext. intros i j [-> Hj]%lookup_seq. apply Hb. lia. }
  split; [|done]. split; try done.
  - rewrite length_app. nia.
  - by rewrite Hbs.
  - intros j Hh Hj Hj'. rewrite Hb by auto. auto.
  - intros x Hx. rewrite length_app in Hx. assert (x / BSIZE < nb)%nat as Hxn by (apply Nat.Div0.div_lt_upper_bound; nia).
    rewrite Hb by auto. pose proof (Nat.div_mod_eq x BSIZE) as Hxd. assert (x mod BSIZE < BSIZE)%nat by (apply Nat.mod_upper_bound; unfold BSIZE; lia).
    unfold im'. destruct (decide (x / BSIZE = k)%nat) as [E|Hne].
    + rewrite E, fn_lookup_insert, splice_lookup by lia. rewrite E in Hxd. destruct (decide _) as [Hr|Hr].
      * rewrite lookup_total_app_r by lia. f_equal. lia.
      * rewrite lookup_total_app_l by lia. rewrite <- E. apply H9. lia.
    + rewrite fn_lookup_insert_ne by (intros E; apply Hne; symmetry; by eapply blk_inj).
      rewrite lookup_total_app_l; [apply H9|]; nia.
Qed.

Definition nblk (n : nat) : nat := ((n + 511) / 512)%nat.

Lemma nblk_spec n : (n <= 512 * nblk n < n + 512)%nat.
Proof. unfold nblk. pose proof (Nat.div_mod_eq (n + 511) 512). pose proof (Nat.mod_upper_bound (n + 511) 512). lia. Qed.

Lemma nblk_unique n k : (n <= 512 * k < n + 512)%nat → nblk n = k.
Proof. pose proof (nblk_spec n). lia. Qed.

Lemma need_mono a b : (a <= b)%nat → need (nblk a) <= need (nblk b).
Proof.
  intros H. pose proof (nblk_spec a). pose proof (nblk_spec b). unfold need, NDIRECT.
  destruct (Nat.ltb_spec 12 (nblk a)), (Nat.ltb_spec 12 (nblk b)); lia.
Qed.

(** A file as the program keeps it between its steps. *)
Definition frep (s : mst) (din cs : list Z) : Prop :=
  rep (img s) din cs (nblk (length cs)) (NDIRECT <? nblk (length cs))%nat.
Definition fblocks (s : mst) (din cs : list Z) : list Z :=
  blocks (img s) din (nblk (length cs)) (NDIRECT <? nblk (length cs))%nat.

(** A turn of the loop: the bytes of [p] that go to the block at the end. *)
Lemma iappend_turn s din cs p : mok s → frep s din cs → owned s (fblocks s din cs) → p ≠ [] →
  let n1 := Nat.min (length p) (512 - length cs mod 512) in
  (length cs < 140 * 512)%nat → freeblock s + (need (nblk (length cs + n1)) - need (nblk (length cs))) <= FSSIZE →
  ∃ s' din', (∀ fuel, iappend_loop (S fuel) din (Z.of_nat (length cs)) p s =
      iappend_loop fuel din' (Z.of_nat (length (cs ++ take n1 p))) (drop n1 p) s') ∧
    frep s' din' (cs ++ take n1 p) ∧ grew s s' (fblocks s din cs) (fblocks s' din' (cs ++ take n1 p)) ∧
    ∀ j, (j < 12)%nat → din' !!! j = din !!! j.
Proof.
  intros Hok Hr Hown Hp n1 Hmax Hbud. assert (0 < length p)%nat by (destruct p; [done|cbn; lia]).
  set (k := (length cs / 512)%nat). set (o := (length cs mod 512)%nat) in *.
  assert (Hdm : length cs = (512 * k + o)%nat) by (apply Nat.div_mod_eq). assert (Ho : (o < 512)%nat) by (apply Nat.mod_upper_bound; lia).
  assert (Hn1 : (0 < n1 <= length p)%nat) by lia. pose proof (nblk_spec (length cs)) as Hnb.
  assert (Hl : length (cs ++ take n1 p) = (length cs + n1)%nat) by (rewrite length_app, length_take; lia).
  assert (Hnb' : Nat.max (nblk (length cs)) (S k) = nblk (length (cs ++ take n1 p))). { rewrite Hl. symmetry. apply nblk_unique. lia. }
  assert (Hk' : (k < nblk (length (cs ++ take n1 p)))%nat) by lia.
  destruct (block_spec s din cs (nblk (length cs)) Hok Hr Hown k) as (s1 & din1 & E1 & R1 & G1 & Hh1); [lia|lia|rewrite Hnb', Hl; lia|].
  rewrite Hnb' in R1, G1. set (nb := nblk (length (cs ++ take n1 p))) in *. pose proof (gr_ok _ _ _ _ G1) as Hok1.
  pose proof (grew_owned _ _ _ _ Hok Hown G1) as Hown1. set (x := blk (img s1) din1 k) in *.
  assert (Hx : x ∈ blocks (img s1) din1 nb (NDIRECT <? nb)%nat) by (by apply blk_elem).
  destruct (owned_range s1 _ x Hok1 Hown1 Hx) as ([_ Hx1] & Hx2 & _).
  destruct (rep_write (img s1) din1 cs nb _ (take n1 p) R1) as [R2 Ebs]; [done|rewrite length_take; fold o; unfold BSIZE; lia|apply (mo_len _ Hok1)|].
  change BSIZE with 512%nat in R2, Ebs. fold k in R2, Ebs. fold x o in R2, Ebs.
  destruct (wsect_grew s1 _ x (splice (img s1 x) o (take n1 p)) Hok1 Hx Hx2) as [E2 G2].
  { rewrite length_splice; [apply (mo_len _ Hok1)|]. rewrite (mo_len _ Hok1), length_take. unfold BSIZE. lia. }
  exists (set_img (<[x := splice (img s1 x) o (take n1 p)]> (img s1)) FSSIZE s1), din1. split_and!; [|exact R2|unfold fblocks; cbn [img set_img]; fold nb; rewrite Ebs; by eapply grew_trans|done].
  intros fuel. cbn [iappend_loop]. destruct p as [|c p]; [done|]. remember (c :: p) as q.
  change (Z.of_nat BSIZE) with 512. replace (Z.of_nat (length cs) / 512) with (Z.of_nat k) by (unfold k; by rewrite Nat2Z.inj_div).
  rewrite (proj2 (Z.ltb_lt _ _)) by (unfold MAXFILE; lia). cbn [assert]. mgo. rewrite (bind_Done _ _ _ _ _ E1).
  rewrite (bind_Done _ _ _ _ _ (rsect_ok _ _ Hok1 Hx1)).
  replace (Z.min (Z.of_nat (length q)) ((Z.of_nat k + 1) * 512 - Z.of_nat (length cs))) with (Z.of_nat n1) by lia.
  replace (Z.to_nat (Z.of_nat (length cs) - Z.of_nat k * 512)) with o by lia. rewrite !Nat2Z.id.
  rewrite (bind_Done _ _ _ _ _ E2). f_equal. lia.
Qed.

Lemma iappend_loop_spec fuel : ∀ s din cs p, mok s → frep s din cs → owned s (fblocks s din cs) →
  (length cs + length p <= 140 * 512)%nat → (length p <= fuel)%nat →
  freeblock s + (need (nblk (length cs + length p)) - need (nblk (length cs))) <= FSSIZE →
  ∃ s' din', iappend_loop fuel din (Z.of_nat (length cs)) p s = Done (din', Z.of_nat (length (cs ++ p))) s' ∧
    frep s' din' (cs ++ p) ∧ grew s s' (fblocks s din cs) (fblocks s' din' (cs ++ p)) ∧
    ∀ j, (j < 12)%nat → din' !!! j = din !!! j.
Proof.
  induction fuel as [|fuel IH]; intros s din cs p Hok Hr Hown Hmax Hfu Hbud.
  { destruct p; [|cbn in Hfu; lia]. rewrite app_nil_r. exists s, din. split_and!; [done|done|by apply grew_refl|done]. }
  destruct (decide (p = [])) as [->|Hp].
  { rewrite app_nil_r. exists s, din. split_and!; [done|done|by apply grew_refl|done]. }
  assert (0 < length p)%nat by (destruct p; [done|cbn; lia]). set (n1 := Nat.min (length p) (512 - length cs mod 512)).
  assert (length cs mod 512 < 512)%nat by (apply Nat.mod_upper_bound; lia). assert (Hn1 : (0 < n1 <= length p)%nat) by lia.
  pose proof (need_mono (length cs + n1) (length cs + length p)) as Hmono.
  assert (Hl : length (cs ++ take n1 p) = (length cs + n1)%nat) by (rewrite length_app, length_take; lia).
  destruct (iappend_turn s din cs p Hok Hr Hown Hp) as (s1 & din1 & E1 & R1 & G1 & Hh1); [lia|fold n1; lia|]. fold n1 in E1, R1, G1.
  pose proof (gr_free _ _ _ _ G1) as Hfree. unfold fblocks in Hfree. rewrite !length_blocks, Hl in Hfree.
  destruct (IH s1 din1 (cs ++ take n1 p) (drop n1 p)) as (s2 & din2 & E2 & R2 & G2 & Hh2); try done.
  - exact (gr_ok _ _ _ _ G1).
  - by eapply grew_owned.
  - rewrite Hl, length_drop. lia.
  - rewrite length_drop. lia.
  - rewrite Hl, length_drop, Hfree. replace (length cs + n1 + (length p - n1))%nat with (length cs + length p)%nat by lia. lia.
  - rewrite <- app_assoc, take_drop in E2, R2, G2. exists s2, din2. rewrite E1, E2.
    split_and!; [done|done|by eapply grew_trans|]. intros j Hj. rewrite Hh2, Hh1; done.
Qed.

(** ** The inodes *)

Definition iblock (inum : Z) : Z := inum / 8 + 32.
Definition dino (s : mst) (inum : Z) : list Z := slice (img s (iblock inum)) (doff inum) DINODE.

Lemma IBLOCK_iblock inum : 0 <= inum < NINODES → IBLOCK inum superblk = iblock inum.
Proof.
  intros H. unfold IBLOCK, iblock. change (inodestart superblk) with 32. apply u32_id. unfold is_u32, IPB, NINODES in *.
  pose proof (Z.div_le_upper_bound inum 8 200). pose proof (Z.div_pos inum 8). lia.
Qed.

Lemma iblock_meta inum : 0 <= inum < NINODES → 32 <= iblock inum < 58.
Proof. intros H. unfold iblock, NINODES in *. pose proof (Z.div_pos inum 8). assert (inum / 8 < 26) by (apply Z.div_lt_upper_bound; lia). lia. Qed.

Lemma doff_fits inum : (doff inum + DINODE <= BSIZE)%nat.
Proof. unfold doff, DINODE, BSIZE, IPB. pose proof (Z.mod_pos_bound inum 8). lia. Qed.

Lemma splice_outside (d l : list Z) i k : (i + length l <= length d)%nat → (k < i ∨ i + length l <= k)%nat → splice d i l !! k = d !! k.
Proof.
  intros H Hk. unfold splice. destruct Hk as [Hk|Hk].
  - rewrite lookup_app_l by (rewrite length_take; lia). by rewrite lookup_take_lt.
  - rewrite lookup_app_r by (rewrite length_take; lia). rewrite length_take, lookup_app_r by lia.
    rewrite lookup_drop. f_equal. lia.
Qed.

Lemma slice_splice_ne (d l : list Z) i j n : (i + length l <= length d)%nat → (j + n <= i ∨ i + length l <= j)%nat →
  slice (splice d i l) j n = slice d j n.
Proof.
  intros H Hj. unfold slice. apply list_eq. intros k. destruct (decide (k < n)%nat) as [Hk|Hk].
  - rewrite !lookup_take_lt, !lookup_drop by done. apply splice_outside; [done|lia].
  - by rewrite !lookup_take_ge by lia.
Qed.

Lemma doff_disjoint a b : 0 <= a → 0 <= b → a ≠ b → iblock a = iblock b → (doff a + DINODE <= doff b ∨ doff b + DINODE <= doff a)%nat.
Proof.
  intros Ha Hb Hne E. unfold iblock in E. unfold doff, DINODE, IPB. pose proof (Z.div_mod a 8). pose proof (Z.div_mod b 8).
  pose proof (Z.mod_pos_bound a 8). pose proof (Z.mod_pos_bound b 8). lia.
Qed.

(** [winode] changes one inode and nothing else. *)
Lemma winode_spec s inum d : mok s → 0 <= inum < NINODES → length d = DINODE →
  ∃ s', winode inum d s = Done tt s' ∧ mok s' ∧ dino s' inum = d ∧
    (∀ j, 0 <= j < NINODES → j ≠ inum → dino s' j = dino s j) ∧ (∀ b, b ≠ iblock inum → img s' b = img s b) ∧
    freeblock s' = freeblock s ∧ freeinode s' = freeinode s.
Proof.
  intros Hok Hi Hd. pose proof (iblock_meta _ Hi) as Hm. assert (nmeta = 59) by done. assert (FSSIZE = 1000) by done.
  pose proof (mo_free _ Hok) as Hf. pose proof (mo_len _ Hok (iblock inum)) as Hlen. pose proof (doff_fits inum) as Hfit.
  set (nd := splice (img s (iblock inum)) (doff inum) d). assert (Hnd : length nd = BSIZE) by (unfold nd; rewrite length_splice; lia).
  destruct (wsect_grew s [iblock inum] (iblock inum) nd Hok) as [E G]; [set_solver|lia|done|].
  eexists. split_and!.
  - unfold winode. mgo. rewrite (mo_sb _ Hok), IBLOCK_iblock by done. rewrite (bind_Done _ _ _ _ _ (rsect_ok s (iblock inum) Hok ltac:(lia))). exact E.
  - exact (gr_ok _ _ _ _ G).
  - unfold dino. cbn [img set_img]. rewrite fn_lookup_insert. unfold nd. rewrite <- Hd. apply slice_splice. lia.
  - intros j Hj Hne. unfold dino. cbn [img set_img]. destruct (decide (iblock inum = iblock j)) as [Eb|]; [|by rewrite fn_lookup_insert_ne].
    rewrite Eb, fn_lookup_insert. unfold nd. rewrite <- Eb. apply slice_splice_ne; [lia|]. rewrite Hd.
    destruct (doff_disjoint inum j); try lia; done.
  - intros b Hb. cbn [img set_img]. by rewrite fn_lookup_insert_ne.
  - done.
  - done.
Qed.

Lemma rinode_spec s inum : mok s → 0 <= inum < NINODES → rinode inum s = Done (dino s inum) s.
Proof.
  intros Hok Hi. pose proof (iblock_meta _ Hi). unfold rinode. mgo. rewrite (mo_sb _ Hok), IBLOCK_iblock by done.
  by rewrite (bind_Done _ _ _ _ _ (rsect_ok s (iblock inum) Hok ltac:(unfold FSSIZE; lia))).
Qed.

(** ** The image *)

(** A file of the image: its type and contents; the [k]th is inode [k + 1]. *)
Notation mfile := (Z * list Z)%type.
Definition inum_of (k : nat) : Z := Z.of_nat k + 1.

Record filed (s : mst) (inum : Z) (f : mfile) : Prop := {
  fd_type : get16 (dino s inum) 0 = f.1;
  fd_nlink : get16 (dino s inum) 6 = 1;
  fd_size : get32 (dino s inum) 8 = Z.of_nat (length f.2);
  fd_rep : frep s (dino s inum) f.2;
  fd_owned : owned s (fblocks s (dino s inum) f.2);
}.

(** The blocks the files need. *)
Fixpoint cost (files : list mfile) : Z :=
  match files with
  | [] => 0
  | f :: files' => need (nblk (length f.2)) + cost files'
  end.

Record image (s : mst) (files : list mfile) : Prop := {
  im_ok : mok s;
  im_inode : freeinode s = 1 + Z.of_nat (length files);
  im_count : (length files < 200)%nat;
  im_file k f : files !! k = Some f → filed s (inum_of k) f;
  im_disjoint j k f g b : files !! j = Some f → files !! k = Some g → j ≠ k →
    b ∈ fblocks s (dino s (inum_of j)) f.2 → b ∉ fblocks s (dino s (inum_of k)) g.2;
  im_cost : freeblock s = nmeta + cost files;
  im_super : img s 1 = encode_sb superblk zeroes;
  im_log b : 2 <= b < 32 → img s b = zeroes;
}.

Lemma cost_insert files k f g : files !! k = Some f → cost (<[k := g]> files) = cost files - need (nblk (length f.2)) + need (nblk (length g.2)).
Proof.
  revert k. induction files as [|h files IH]; intros [|k] Hk; try done.
  - injection Hk as ->. cbn [cost insert list_insert]. lia.
  - change (<[S k := g]> (h :: files)) with (h :: <[k := g]> files). cbn [cost]. rewrite (IH k Hk). lia.
Qed.

Lemma cost_app a b : cost (a ++ b) = cost a + cost b.
Proof. induction a as [|h a IH]; cbn [app cost]; [lia|]. rewrite IH. lia. Qed.

Lemma inum_range k : (k < 199)%nat → 0 <= inum_of k < NINODES.
Proof. unfold inum_of, NINODES. lia. Qed.

(** What another file needs of a step. *)
Lemma filed_frame s s' inum f : filed s inum f → dino s' inum = dino s inum → freeblock s <= freeblock s' →
  (∀ b, b ∈ fblocks s (dino s inum) f.2 → img s' b = img s b) →
  filed s' inum f ∧ fblocks s' (dino s' inum) f.2 = fblocks s (dino s inum) f.2.
Proof.
  intros [H1 H2 H3 H4 H5] Hd Hf Hb. unfold frep, fblocks in *.
  assert (Hbs : fblocks s' (dino s' inum) f.2 = fblocks s (dino s inum) f.2).
  { unfold fblocks. rewrite Hd. apply blocks_frame; [exact (rp_hi _ _ _ _ _ H4)|done]. }
  split; [|exact Hbs]. split; rewrite ?Hd; try done.
  - by eapply rep_frame.
  - unfold fblocks in Hbs. rewrite Hd in Hbs. unfold fblocks. rewrite Hbs. unfold owned in *. eapply Forall_impl; [exact H5|]. cbn. lia.
Qed.

Lemma image_inum s files k f : image s files → files !! k = Some f → 0 <= inum_of k < NINODES.
Proof. intros H Hk. apply inum_range. pose proof (im_count _ _ H). apply lookup_lt_Some in Hk. unfold inum_of, NINODES. lia. Qed.

(** Only the addresses of a dinode matter to [rep]. *)
Lemma rep_addr im din din' cs nb hi : (∀ k, addr din' k = addr din k) → length din' = DINODE → rep im din cs nb hi →
  rep im din' cs nb hi ∧ blocks im din' nb hi = blocks im din nb hi.
Proof.
  intros Ha Hl [H1 H2 H3 H4 H5 H6 H7 H8 H9].
  assert (Hi : ind din' = ind din) by (unfold ind; apply Ha).
  assert (Hb : ∀ k, blk im din' k = blk im din k). { intros k. unfold blk. by rewrite Ha, Hi. }
  assert (Hbs : blocks im din' nb hi = blocks im din nb hi) by (unfold blocks; rewrite Hi; f_equal; by apply list_fmap_ext).
  split; [|done]. split; try done; [by rewrite Hbs|intros; rewrite Ha; auto|intros; rewrite Hi; auto|intros; rewrite Hb; auto|intros; rewrite Hb; auto].
Qed.

Lemma owned_meta s U b : owned s U → b < nmeta → b ∉ U.
Proof. unfold owned. rewrite Forall_forall. intros H Hb Hin. specialize (H _ Hin). lia. Qed.

(** A step that changes one inode and the blocks of its file keeps the other
    files. *)
Lemma image_others s s1 s2 files k f U1 : image s files → files !! k = Some f →
  grew s s1 (fblocks s (dino s (inum_of k)) f.2) U1 → owned s1 U1 → freeblock s2 = freeblock s1 →
  (∀ j, 0 <= j < NINODES → j ≠ inum_of k → dino s2 j = dino s1 j) → (∀ b, b ≠ iblock (inum_of k) → img s2 b = img s1 b) →
  ∀ j g, files !! j = Some g → j ≠ k →
    filed s2 (inum_of j) g ∧ fblocks s2 (dino s2 (inum_of j)) g.2 = fblocks s (dino s (inum_of j)) g.2 ∧
    ∀ b, b ∈ fblocks s (dino s (inum_of j)) g.2 → b ∉ U1.
Proof.
  intros Him Hk G Hown Hf Hd2 Hb2 j g Hj Hne. pose proof (image_inum _ _ _ _ Him Hj) as Hr. pose proof (iblock_meta _ Hr) as Hm.
  pose proof (image_inum _ _ _ _ Him Hk) as Hrk. pose proof (iblock_meta _ Hrk) as Hmk. assert (nmeta = 59) by done.
  assert (Hnot : ∀ b, b ∈ fblocks s (dino s (inum_of j)) g.2 → b ∉ U1).
  { intros b Hb Hin. destruct (gr_new _ _ _ _ G _ Hin) as [Hin'|Hin'].
    - exact (im_disjoint _ _ Him _ _ _ _ _ Hj Hk Hne Hb Hin').
    - pose proof (fd_owned _ _ _ (im_file _ _ Him _ _ Hj)) as Ho. unfold owned in Ho. rewrite Forall_forall in Ho. specialize (Ho _ Hb). lia. }
  assert (Hd : dino s2 (inum_of j) = dino s (inum_of j)).
  { rewrite Hd2 by (done || unfold inum_of; lia). unfold dino. rewrite (gr_frame _ _ _ _ G); [done|]. eapply owned_meta; [done|lia]. }
  destruct (filed_frame s s2 (inum_of j) g (im_file _ _ Him _ _ Hj) Hd) as [HF HB].
  - rewrite Hf. exact (gr_mono _ _ _ _ G).
  - intros b Hb. assert (b ≠ iblock (inum_of k)).
    { intros ->. eapply owned_meta; [exact (fd_owned _ _ _ (im_file _ _ Him _ _ Hj))| |exact Hb]. lia. }
    rewrite Hb2, (gr_frame _ _ _ _ G); [done|by apply Hnot|done].
  - done.
Qed.

Lemma get16_header d d' j : (∀ i, (i < 12)%nat → d' !!! i = d !!! i) → (j + 2 <= 12)%nat → get16 d' j = get16 d j.
Proof. intros H Hj. unfold get16. by rewrite !H by lia. Qed.

Lemma addr_put_size d v k : addr (put32 d 8 v) k = addr d k.
Proof. unfold addr. apply get32_put32_ne. lia. Qed.

(** Once the blocks are written and the new size is in the inode. *)
Lemma filed_sized s s1 s2 inum ty cs p din1 : filed s inum (ty, cs) → mok s1 → frep s1 din1 (cs ++ p) →
  owned s1 (fblocks s1 din1 (cs ++ p)) → (∀ j, (j < 12)%nat → din1 !!! j = dino s inum !!! j) → 0 <= inum < NINODES →
  (length (cs ++ p) <= 140 * 512)%nat →
  dino s2 inum = put32 din1 8 (xint (Z.of_nat (length (cs ++ p)))) → (∀ b, b ≠ iblock inum → img s2 b = img s1 b) →
  freeblock s2 = freeblock s1 →
  filed s2 inum (ty, cs ++ p) ∧ fblocks s2 (dino s2 inum) (cs ++ p) = fblocks s1 din1 (cs ++ p).
Proof.
  intros [H1 H2 H3 H4 H5] Hok R Hown Hh Hi Hmax Hd Hb Hf. pose proof (iblock_meta _ Hi) as Hm. assert (nmeta = 59) by done.
  assert (Hmeta : ∀ b, b ∈ fblocks s1 din1 (cs ++ p) → img s2 b = img s1 b).
  { intros b Hin. apply Hb. intros ->. eapply owned_meta; [exact Hown| |exact Hin]. lia. }
  pose proof (rep_frame _ (img s2) _ _ _ _ R Hmeta) as R2. pose proof (blocks_frame _ (img s2) _ _ _ (rp_hi _ _ _ _ _ R) Hmeta) as B2.
  destruct (rep_addr _ din1 (dino s2 inum) _ _ _ ltac:(intros; rewrite Hd; apply addr_put_size)
    ltac:(rewrite Hd, length_put32; exact (rp_len _ _ _ _ _ R)) R2) as [R3 B3].
  assert (HB : fblocks s2 (dino s2 inum) (cs ++ p) = fblocks s1 din1 (cs ++ p)) by (unfold fblocks; rewrite B3; exact B2).
  split; [|done]. split; cbn [fst snd] in *.
  - rewrite Hd, get16_put32_ne by lia. by rewrite (get16_header _ _ _ Hh) by lia.
  - rewrite Hd, get16_put32_ne by lia. by rewrite (get16_header _ _ _ Hh) by lia.
  - rewrite Hd, get32_put32_eq by (rewrite (rp_len _ _ _ _ _ R); unfold DINODE; lia). rewrite xint_u32, u32_u32. apply u32_id. unfold is_u32. lia.
  - exact R3.
  - rewrite HB. unfold owned in *. by rewrite Hf.
Qed.

Lemma iappend_image s files k ty cs p : image s files → files !! k = Some (ty, cs) →
  (length cs + length p <= 140 * 512)%nat →
  freeblock s + (need (nblk (length cs + length p)) - need (nblk (length cs))) <= FSSIZE →
  ∃ s', iappend (inum_of k) p s = Done tt s' ∧ image s' (<[k := (ty, cs ++ p)]> files).
Proof.
  intros Him Hk Hmax Hbud. pose proof (image_inum _ _ _ _ Him Hk) as Hi. pose proof (im_file _ _ Him _ _ Hk) as Hf.
  pose proof (im_ok _ _ Him) as Hok. pose proof (iblock_meta _ Hi) as Hm. assert (nmeta = 59) by done.
  destruct (iappend_loop_spec (length p) s (dino s (inum_of k)) cs p Hok (fd_rep _ _ _ Hf) (fd_owned _ _ _ Hf) Hmax (le_n _) Hbud)
    as (s1 & din1 & E1 & R1 & G1 & Hh1).
  pose proof (gr_ok _ _ _ _ G1) as Hok1. pose proof (grew_owned _ _ _ _ Hok (fd_owned _ _ _ Hf) G1) as Hown1.
  destruct (winode_spec s1 (inum_of k) (put32 din1 8 (xint (Z.of_nat (length (cs ++ p))))) Hok1 Hi)
    as (s2 & E2 & Hok2 & Hd2 & Hd2' & Hb2 & Hf2 & Hi2).
  { rewrite length_put32. exact (rp_len _ _ _ _ _ R1). }
  pose proof (image_others s s1 s2 files k _ _ Him Hk G1 Hown1 Hf2 Hd2' Hb2) as Hoth.
  destruct (filed_sized s s1 s2 (inum_of k) ty cs p din1) as [HF HB]; try done; [rewrite length_app; lia|].
  pose proof (lookup_lt_Some _ _ _ Hk) as Hlt. exists s2. split.
  { unfold iappend. rewrite (bind_Done _ _ _ _ _ (rinode_spec _ _ Hok Hi)). rewrite (fd_size _ _ _ Hf). cbn [snd].
    rewrite xint_small by lia. rewrite (bind_Done _ _ _ _ _ E1). exact E2. }
  split; [done|rewrite Hi2, (gr_inode _ _ _ _ G1), length_insert; exact (im_inode _ _ Him)|rewrite length_insert; exact (im_count _ _ Him)|..].
  - intros j g Hj. destruct (decide (j = k)) as [->|Hne]; [rewrite list_lookup_insert_eq in Hj by done; by injection Hj as <-|].
    rewrite list_lookup_insert_ne in Hj by done. by apply Hoth.
  - intros j l f g b Hj Hl Hne Hbj Hbl. destruct (decide (j = k)) as [->|Hjk]; [|rewrite list_lookup_insert_ne in Hj by done].
    + rewrite list_lookup_insert_eq in Hj by done. injection Hj as <-. rewrite list_lookup_insert_ne in Hl by done.
      destruct (Hoth l g Hl ltac:(done)) as (_ & E & Hn). rewrite E in Hbl. cbn [snd] in Hbj. rewrite HB in Hbj. by apply (Hn b).
    + destruct (Hoth j f Hj Hjk) as (_ & E & Hn). rewrite E in Hbj. destruct (decide (l = k)) as [->|Hlk].
      * rewrite list_lookup_insert_eq in Hl by done. injection Hl as <-. cbn [snd] in Hbl. rewrite HB in Hbl. by apply (Hn b).
      * rewrite list_lookup_insert_ne in Hl by done. destruct (Hoth l g Hl Hlk) as (_ & E' & _). rewrite E' in Hbl.
        exact (im_disjoint _ _ Him _ _ _ _ _ Hj Hl Hne Hbj Hbl).
  - rewrite Hf2, (gr_free _ _ _ _ G1), (cost_insert _ _ _ _ Hk), (im_cost _ _ Him). unfold fblocks. cbn [snd]. rewrite !length_blocks. lia.
  - rewrite Hb2, (gr_frame _ _ _ _ G1); [exact (im_super _ _ Him)|eapply owned_meta; [done|lia]|lia].
  - intros b Hb. rewrite Hb2, (gr_frame _ _ _ _ G1); [by apply (im_log _ _ Him)|eapply owned_meta; [done|lia]|lia].
Qed.

(** ** New inodes *)

Definition new_dinode (ty : Z) : list Z :=
  put32 (put16 (put16 (replicate DINODE 0) 0 (xshort ty)) 6 (xshort 1)) 8 (xint 0).

Lemma new_dinode_addr ty k : (k <= NDIRECT)%nat → addr (new_dinode ty) k = 0.
Proof.
  intros Hk. unfold addr, new_dinode. rewrite get32_put32_ne by lia. unfold get32, put16. rewrite !lt_insert_ne by lia.
  unfold NDIRECT, DINODE in *. by rewrite !list_lookup_total_alt, !lookup_replicate_2 by lia.
Qed.

Lemma new_dinode_filed s inum ty : mok s → 0 <= ty < 2 ^ 16 → dino s inum = new_dinode ty →
  filed s inum (ty, []) ∧ fblocks s (dino s inum) [] = [].
Proof.
  intros Hok Hty E. rewrite E. assert (Hl : length (new_dinode ty) = DINODE) by (unfold new_dinode; by rewrite length_put32, !length_put16, length_replicate).
  assert (HU : ∀ im din, blocks im din (nblk 0) (NDIRECT <? nblk 0)%nat = []) by done. split; [|by apply HU].
  split; rewrite ?E; cbn [fst snd].
  - unfold new_dinode. rewrite get16_put32_ne, get16_put16_ne, get16_put16_eq by (rewrite ?length_replicate; unfold DINODE; lia).
    rewrite xshort_u16. unfold u16. by rewrite Zmod_mod, Z.mod_small.
  - unfold new_dinode. by rewrite get16_put32_ne, get16_put16_eq by (rewrite ?length_put16, ?length_replicate; unfold DINODE; lia).
  - unfold new_dinode. by rewrite get32_put32_eq by (rewrite !length_put16, length_replicate; unfold DINODE; lia).
  - unfold frep. change (nblk (length [])) with 0%nat. split; try done.
    + apply Nat.le_0_l.
    + lia.
    + apply NoDup_nil_2.
    + intros k Hk. apply new_dinode_addr. lia.
    + intros o Ho. cbn in Ho. lia.
  - unfold fblocks. cbn [length]. rewrite HU. apply Forall_nil_2.
Qed.

Lemma ialloc_image s files ty : image s files → (length files < 199)%nat → 0 <= ty < 2 ^ 16 →
  ∃ s', ialloc ty s = Done (inum_of (length files)) s' ∧ image s' (files ++ [(ty, [])]).
Proof.
  intros Him Hlen Hty. pose proof (im_ok _ _ Him) as Hok. pose proof (inum_range _ Hlen) as Hi. assert (nmeta = 59) by done.
  pose proof (iblock_meta _ Hi) as Hm.
  set (s1 := set_freeinode (freeinode s + 1) s). assert (Hok1 : mok s1) by (destruct Hok; by split).
  destruct (winode_spec s1 (inum_of (length files)) (new_dinode ty) Hok1 Hi) as (s2 & E2 & Hok2 & Hd2 & Hd2' & Hb2 & Hf2 & Hi2).
  { unfold new_dinode. by rewrite length_put32, !length_put16, length_replicate. }
  destruct (new_dinode_filed s2 (inum_of (length files)) ty Hok2 Hty Hd2) as [HF HB].
  assert (Hoth : ∀ k f, files !! k = Some f → filed s2 (inum_of k) f ∧
    fblocks s2 (dino s2 (inum_of k)) f.2 = fblocks s (dino s (inum_of k)) f.2).
  { intros k f Hk. pose proof (lookup_lt_Some _ _ _ Hk). pose proof (im_file _ _ Him _ _ Hk) as Hf. apply filed_frame; [done| |rewrite Hf2; done|].
    - rewrite Hd2' by (done || (apply inum_range; lia) || (unfold inum_of; lia)). done.
    - intros b Hb. rewrite Hb2; [done|]. intros ->. eapply owned_meta; [exact (fd_owned _ _ _ Hf)| |exact Hb]. lia. }
  exists s2. split.
  { unfold ialloc, take_inode. rewrite bind_assoc. mgo. rewrite bind_assoc. mgo.
    assert (Ei : freeinode s = inum_of (length files)) by (rewrite (im_inode _ _ Him); unfold inum_of; lia).
    unfold s1 in E2. rewrite Ei in E2 |- *. mgo. fold (new_dinode ty). by rewrite (bind_Done _ _ _ _ _ E2). }
  split; [done|rewrite Hi2, length_app; cbn; rewrite (im_inode _ _ Him); lia|rewrite length_app; cbn; lia|..].
  - intros k f [Hk|[Hk E]]%lookup_app_Some; [by apply Hoth|]. apply list_lookup_singleton_Some in E as [E <-].
    by replace k with (length files) by lia.
  - intros j k f g b Hj Hk Hne Hbj. apply lookup_app_Some in Hj as [Hj|[Hj E]]; [|apply list_lookup_singleton_Some in E as [E <-]].
    + rewrite (proj2 (Hoth _ _ Hj)) in Hbj. apply lookup_app_Some in Hk as [Hk|[Hk E]].
      * rewrite (proj2 (Hoth _ _ Hk)). exact (im_disjoint _ _ Him _ _ _ _ _ Hj Hk Hne Hbj).
      * apply list_lookup_singleton_Some in E as [E <-]. replace k with (length files) by lia. cbn [snd]. rewrite HB. apply not_elem_of_nil.
    + replace j with (length files) in Hbj by lia. cbn [snd] in Hbj. rewrite HB in Hbj. by apply not_elem_of_nil in Hbj.
  - rewrite Hf2, cost_app. cbn [cost length snd]. change (need (nblk 0)) with 0. cbn. rewrite (im_cost _ _ Him). lia.
  - rewrite Hb2; [exact (im_super _ _ Him)|lia].
  - intros b Hb. rewrite Hb2; [by apply (im_log _ _ Him)|lia].
Qed.

(** ** The files of the command line *)

(** What the image is to hold: the root directory and then the files. *)
Definition strip (name : list Z) : list Z := match name with 95 :: name' => name' | _ => name end.
Definition entries (fl : list file) : list Z := concat (imap (λ k f, dirent (inum_of (S k)) (strip f.1)) fl).
Definition root_bytes (fl : list file) : list Z := dirent 1 [46] ++ dirent 1 [46; 46] ++ entries fl.
Definition contents (f : file) : list Z := concat (default [] f.2).
Definition built (fl : list file) : list mfile := (T_DIR, root_bytes fl) :: ((λ f, (T_FILE, contents f)) <$> fl).

(** The names are plain, the files can be read and are not too long, and there
    are inodes and blocks enough. *)
Record fits (fl : list file) : Prop := {
  ft_name : Forall (λ f, 47 ∉ f.1) fl;
  ft_open : Forall (λ f, is_Some f.2) fl;
  ft_long : Forall (λ f, (length (contents f) <= 140 * 512)%nat) fl;
  ft_count : (length fl <= 198)%nat;
  ft_cost : cost (built fl) <= nblocks;
}.

Lemma length_dirent inum name : length (dirent inum name) = 16%nat.
Proof. unfold dirent. rewrite length_put16, length_app, length_replicate, length_take, length_app, length_replicate. unfold DIRSIZ. lia. Qed.

Lemma entries_snoc fl f : entries (fl ++ [f]) = entries fl ++ dirent (inum_of (S (length fl))) (strip f.1).
Proof. unfold entries. rewrite imap_app, concat_app. cbn. by rewrite app_nil_r, Nat.add_0_r. Qed.

Lemma length_entries fl : length (entries fl) = (16 * length fl)%nat.
Proof.
  induction fl as [|f fl IH] using rev_ind; [done|]. rewrite entries_snoc, !length_app, length_dirent, IH. cbn. lia.
Qed.

Lemma length_root fl : length (root_bytes fl) = (16 * (length fl + 2))%nat.
Proof. unfold root_bytes. rewrite !length_app, !length_dirent, length_entries. lia. Qed.

(** Shorter files and fewer of them need fewer blocks. *)
Lemma need_nonneg n : 0 <= need n.
Proof. unfold need. destruct (_ <? _)%nat; lia. Qed.

Lemma cost_nonneg files : 0 <= cost files.
Proof. induction files as [|f files IH]; cbn [cost]; [lia|]. pose proof (need_nonneg (nblk (length f.2))). lia. Qed.

Lemma cost_mono a : ∀ b, (∀ k f, a !! k = Some f → ∃ g, b !! k = Some g ∧ (length f.2 <= length g.2)%nat) → cost a <= cost b.
Proof.
  induction a as [|f a IH]; intros b H; cbn [cost]; [apply cost_nonneg|].
  destruct (H 0%nat f eq_refl) as (g & Hg & Hl). destruct b as [|g' b]; [done|]. injection Hg as ->. cbn [cost].
  pose proof (need_mono _ _ Hl). assert (cost a <= cost b); [|lia]. apply IH. intros k h Hk. exact (H (S k) h Hk).
Qed.

Lemma iappend_budget s files k ty cs p : image s files → files !! k = Some (ty, cs) → (length cs + length p <= 140 * 512)%nat →
  nmeta + cost (<[k := (ty, cs ++ p)]> files) <= FSSIZE →
  ∃ s', iappend (inum_of k) p s = Done tt s' ∧ image s' (<[k := (ty, cs ++ p)]> files).
Proof.
  intros Him Hk Hl Hc. apply iappend_image; [done..|]. rewrite (cost_insert _ _ _ _ Hk) in Hc. cbn [snd] in Hc. rewrite length_app in Hc.
  rewrite (im_cost _ _ Him). lia.
Qed.

Lemma pieces_image pieces : ∀ s files k ty cs, image s files → files !! k = Some (ty, cs) →
  (length (cs ++ concat pieces) <= 140 * 512)%nat → nmeta + cost (<[k := (ty, cs ++ concat pieces)]> files) <= FSSIZE →
  ∃ s', iter_each pieces (iappend (inum_of k)) s = Done tt s' ∧ image s' (<[k := (ty, cs ++ concat pieces)]> files).
Proof.
  induction pieces as [|p pieces IH]; intros s files k ty cs Him Hk Hl Hc.
  { exists s. split; [done|]. cbn. rewrite app_nil_r, list_insert_id; done. }
  pose proof (lookup_lt_Some _ _ _ Hk) as Hlt. cbn [concat] in *. rewrite app_assoc in *. rewrite length_app in Hl.
  destruct (iappend_budget s files k ty cs p Him Hk) as (s1 & E1 & Him1); [rewrite length_app in Hl; lia| |].
  { rewrite (cost_insert _ _ _ _ Hk) in Hc. rewrite (cost_insert _ _ _ _ Hk). cbn [snd] in *.
    pose proof (need_mono (length (cs ++ p)) (length ((cs ++ p) ++ concat pieces))). rewrite !length_app in *. lia. }
  destruct (IH s1 (<[k := (ty, cs ++ p)]> files) k ty (cs ++ p) Him1) as (s2 & E2 & Him2).
  - by rewrite list_lookup_insert_eq.
  - rewrite length_app. lia.
  - by rewrite list_insert_insert_eq.
  - exists s2. cbn [iter_each]. rewrite (bind_Done _ _ _ _ _ E1), E2. by rewrite list_insert_insert_eq in Him2.
Qed.

Lemma root_snoc fl f : root_bytes (fl ++ [f]) = root_bytes fl ++ dirent (inum_of (S (length fl))) (strip f.1).
Proof. unfold root_bytes. by rewrite entries_snoc, !app_assoc. Qed.

Lemma built_snoc fl f : built (fl ++ [f]) = <[0%nat := (T_DIR, root_bytes (fl ++ [f]))]> (built fl) ++ [(T_FILE, contents f)].
Proof. unfold built. by rewrite fmap_app. Qed.

Lemma length_built fl : length (built fl) = S (length fl).
Proof. unfold built. cbn. by rewrite length_fmap. Qed.

Lemma cost_snoc fl f : cost (<[0%nat := (T_DIR, root_bytes (fl ++ [f]))]> (built fl) ++ [(T_FILE, [])]) <= cost (built (fl ++ [f])).
Proof. rewrite built_snoc, !cost_app. cbn [cost snd length]. change (need (nblk 0)) with 0. pose proof (need_nonneg (nblk (length (contents f)))). lia. Qed.

Lemma add_file_image s fl f : image s (built fl) → 47 ∉ f.1 → is_Some f.2 → (length (contents f) <= 140 * 512)%nat →
  (length fl < 198)%nat → nmeta + cost (built (fl ++ [f])) <= FSSIZE →
  ∃ s', add_file 1 f s = Done tt s' ∧ image s' (built (fl ++ [f])).
Proof.
  intros Him Hn [pieces Hp] Hl Hlen Hc. destruct f as [name c]. cbn [fst snd] in *. subst c.
  unfold add_file. rewrite bool_decide_false by done. cbn [negb assert]. mgo. change (match name with 95 :: name' => name' | _ => name end) with (strip name).
  destruct (ialloc_image s (built fl) T_FILE Him) as (s1 & E1 & Him1); [rewrite length_built; lia|done|]. rewrite length_built in E1.
  rewrite (bind_Done _ _ _ _ _ E1).
  pose proof (root_snoc fl (name, Some pieces)) as Hroot. cbn [fst] in Hroot. pose proof (cost_snoc fl (name, Some pieces)) as Hcs.
  assert (Eins : ∀ x, <[0%nat := x]> (built fl ++ [(T_FILE, [])]) = <[0%nat := x]> (built fl) ++ [(T_FILE, [])]) by done.
  destruct (iappend_budget s1 _ 0 T_DIR (root_bytes fl) (dirent (inum_of (S (length fl))) (strip name)) Him1) as (s2 & E2 & Him2).
  - done.
  - rewrite length_root, length_dirent. lia.
  - rewrite <- Hroot, Eins. etrans; [apply Zplus_le_compat_l; exact Hcs|exact Hc].
  - change (inum_of 0) with 1 in E2. rewrite (bind_Done _ _ _ _ _ E2). rewrite <- Hroot, Eins in Him2.
    set (files2 := <[0%nat := (T_DIR, root_bytes (fl ++ [(name, Some pieces)]))]> (built fl)) in *.
    assert (Hl2 : length files2 = S (length fl)) by (unfold files2; rewrite length_insert; apply length_built).
    assert (Hfin : <[S (length fl) := (T_FILE, [] ++ concat pieces)]> (files2 ++ [(T_FILE, [])]) = built (fl ++ [(name, Some pieces)])).
    { rewrite <- Hl2, insert_app_r_alt by done. rewrite Nat.sub_diag. rewrite built_snoc. done. }
    destruct (pieces_image pieces s2 (files2 ++ [(T_FILE, [])]) (S (length fl)) T_FILE [] Him2) as (s3 & E3 & Him3).
    + rewrite lookup_app_r by lia. by rewrite Hl2, Nat.sub_diag.
    + exact Hl.
    + rewrite Hfin. exact Hc.
    + exists s3. split; [exact E3|]. by rewrite Hfin in Him3.
Qed.

Lemma fits_prefix a b : cost (built a) <= cost (built (a ++ b)).
Proof.
  apply cost_mono. intros [|k] f Hk.
  - change (Some (T_DIR, root_bytes a) = Some f) in Hk. injection Hk as <-. exists (T_DIR, root_bytes (a ++ b)). split; [done|].
    cbn [snd]. rewrite !length_root, length_app. lia.
  - change (((λ f, (T_FILE, contents f)) <$> a) !! k = Some f) in Hk. exists f. split; [|done].
    change (((λ f, (T_FILE, contents f)) <$> (a ++ b)) !! k = Some f). rewrite fmap_app. by apply lookup_app_l_Some.
Qed.

Lemma add_files_image fl2 : ∀ s fl1, image s (built fl1) → fits (fl1 ++ fl2) →
  ∃ s', iter_each fl2 (add_file 1) s = Done tt s' ∧ image s' (built (fl1 ++ fl2)).
Proof.
  induction fl2 as [|f fl2 IH]; intros s fl1 Him Hfit; [exists s; by rewrite app_nil_r|].
  pose proof Hfit as [H1 H2 H3 H4 H5]. rewrite Forall_app, Forall_cons in H1, H2, H3. rewrite length_app in H4. cbn in H4.
  pose proof (fits_prefix (fl1 ++ [f]) fl2) as Hpre. rewrite <- app_assoc in Hpre. cbn [app] in Hpre.
  destruct (add_file_image s fl1 f Him) as (s1 & E1 & Him1); try tauto; [lia|unfold nblocks in H5; lia|].
  destruct (IH s1 (fl1 ++ [f]) Him1) as (s2 & E2 & Him2); [by rewrite <- app_assoc|].
  exists s2. cbn [iter_each]. rewrite (bind_Done _ _ _ _ _ E1), E2. by rewrite <- app_assoc in Him2.
Qed.

(** ** The empty image and the bitmap *)

Lemma zero_loop n : ∀ k s, (∀ b, img s b = zeroes) → nsect s = Z.of_nat k →
  ∃ s', iter_each (seq k n) (λ i, wsect (Z.of_nat i) zeroes) s = Done tt s' ∧ (∀ b, img s' b = zeroes) ∧
    nsect s' = Z.of_nat (k + n) ∧ freeinode s' = freeinode s ∧ freeblock s' = freeblock s ∧ msb s' = msb s.
Proof.
  induction n as [|n IH]; intros k s Hz Hk; [exists s; rewrite Nat.add_0_r; done|]. cbn [seq iter_each]. unfold wsect at 1. mgo.
  edestruct (IH (S k) (set_img (<[Z.of_nat k := zeroes]> (img s)) (Z.max (nsect s) (Z.of_nat k + 1)) s)) as (s' & E & H1 & H2 & H3).
  - intros b. cbn [img set_img]. destruct (decide (Z.of_nat k = b)) as [<-|]; [by rewrite fn_lookup_insert|by rewrite fn_lookup_insert_ne].
  - cbn. lia.
  - exists s'. split_and!; [exact E|done|rewrite H2; lia|apply H3..].
Qed.

Lemma image_empty s : (∀ b, img s b = zeroes) → nsect s = FSSIZE → freeinode s = 1 → freeblock s = nmeta → msb s = superblk →
  ∃ s', wsect 1 (encode_sb superblk zeroes) s = Done tt s' ∧ image s' [].
Proof.
  intros Hz Hs Hi Hf Hb. unfold wsect, modify. rewrite Hs. eexists. split; [done|].
  assert (nmeta = 59) by done. assert (FSSIZE = 1000) by done.
  split; cbn [img set_img freeinode freeblock nsect msb length]; try done.
  - split; cbn [img set_img freeblock nsect msb]; try done; [|intros b|lia].
    + intros b Hb'. rewrite fn_lookup_insert_ne by lia. apply Hz.
    + destruct (decide (1 = b)) as [<-|]; [by rewrite fn_lookup_insert|by rewrite fn_lookup_insert_ne, Hz].
  - lia.
  - intros b Hb'. rewrite fn_lookup_insert_ne by lia. apply Hz.
Qed.

Lemma length_set_bit buf i : length (set_bit buf i) = length buf.
Proof. unfold set_bit. by rewrite length_insert. Qed.

Lemma set_bit_spec buf i (b : nat) : length buf = BSIZE → (i < 4096)%nat →
  bit_in (set_bit buf i) (Z.of_nat b) = bool_decide (b = i) || bit_in buf (Z.of_nat b).
Proof.
  intros Hl Hi. unfold bit_in. change 8 with (Z.of_nat 8). rewrite <- Nat2Z.inj_div, <- Nat2Z.inj_mod, Nat2Z.id. unfold set_bit.
  assert (i / 8 < length buf)%nat by (rewrite Hl; unfold BSIZE; apply Nat.Div0.div_lt_upper_bound; lia).
  pose proof (Nat.div_mod_eq i 8). pose proof (Nat.div_mod_eq b 8). pose proof (Nat.mod_upper_bound i 8). pose proof (Nat.mod_upper_bound b 8).
  destruct (decide (i / 8 = b / 8)%nat) as [E|Hne].
  - rewrite E, lt_insert_eq by lia. unfold u8. rewrite Z.mod_pow2_bits_low, Z.lor_spec, Z.shiftl_1_l, Z.pow2_bits_eqb, orb_comm by lia.
    f_equal. destruct (Z.eqb_spec (Z.of_nat (i mod 8)) (Z.of_nat (b mod 8))); [rewrite bool_decide_true|rewrite bool_decide_false]; done || lia.
  - rewrite lt_insert_ne by done. rewrite bool_decide_false; [done|]. intros ->. done.
Qed.

Lemma bits_spec n b : (n <= 4096)%nat → (b < 4096)%nat →
  bit_in (foldl set_bit zeroes (seq 0 n)) (Z.of_nat b) = bool_decide (b < n)%nat ∧ length (foldl set_bit zeroes (seq 0 n)) = BSIZE.
Proof.
  intros Hn Hb. induction n as [|n IH].
  - split; [|done]. cbn [seq foldl]. rewrite bool_decide_false by lia. unfold bit_in. rewrite zeroes_lookup; [apply Z.bits_0|].
    change 8 with (Z.of_nat 8). rewrite <- Nat2Z.inj_div, Nat2Z.id. apply Nat.Div0.div_lt_upper_bound. lia.
  - destruct IH as [IH Hl]; [lia|]. rewrite seq_S, foldl_snoc. cbn [plus]. rewrite length_set_bit. split; [|done].
    rewrite set_bit_spec, IH by (done || lia). destruct (decide (b = n)) as [->|]; [by rewrite (bool_decide_true (n = n)), (bool_decide_true (n < S n)%nat) by lia|].
    rewrite (bool_decide_false (b = n)) by done. cbn [orb]. apply bool_decide_ext. lia.
Qed.

(** ** The finished image *)

(** A file with the size [off] in its inode. *)
Definition sized (s : mst) (inum off : Z) (f : mfile) : Prop :=
  get16 (dino s inum) 0 = f.1 ∧ get16 (dino s inum) 6 = 1 ∧ get32 (dino s inum) 8 = off ∧
  frep s (dino s inum) f.2 ∧ owned s (fblocks s (dino s inum) f.2).

Lemma filed_is_sized s inum f : filed s inum f → sized s inum (Z.of_nat (length f.2)) f.
Proof. by intros []. Qed.

(** The bitmap is no part of a file. *)
Lemma bitmap_keeps s bits inum off f : sized s inum off f → 0 <= inum < NINODES →
  let s' := set_img (<[58 := bits]> (img s)) FSSIZE s in
  sized s' inum off f ∧ fblocks s' (dino s' inum) f.2 = fblocks s (dino s inum) f.2.
Proof.
  intros (F1 & F2 & F3 & F4 & F5) Hi s'. pose proof (iblock_meta _ Hi) as Hm. assert (nmeta = 59) by done.
  assert (Hd : dino s' inum = dino s inum) by (unfold dino; cbn [img set_img s']; by rewrite fn_lookup_insert_ne by lia).
  assert (Hb : ∀ b, b ∈ fblocks s (dino s inum) f.2 → img s' b = img s b).
  { intros b Hb. cbn [img set_img s']. apply fn_lookup_insert_ne. intros <-. eapply owned_meta; [exact F5| |exact Hb]. lia. }
  assert (HB : fblocks s' (dino s' inum) f.2 = fblocks s (dino s inum) f.2).
  { unfold fblocks. rewrite Hd. apply blocks_frame; [exact (rp_hi _ _ _ _ _ F4)|exact Hb]. }
  split; [|done]. unfold sized. rewrite HB, Hd. split_and!; try done. by eapply rep_frame.
Qed.

(** A slot of a directory: the inode number, low byte first, and the name, cut at
    14 characters or filled up with NULs; and the root directory, with the files
    in inodes 2, 3, ... *)
Definition slot (inum : Z) (name : list Z) : list Z :=
  [inum mod 256; inum / 256] ++ take 14 name ++ replicate (14 - length name) 0.
Definition listing (fl : list file) : list Z :=
  slot 1 [46] ++ slot 1 [46; 46] ++ concat (imap (λ k f, slot (Z.of_nat k + 2) (strip f.1)) fl).

Lemma dirent_slot inum name : 0 <= inum < 65536 → dirent inum name = slot inum name.
Proof.
  intros Hi. unfold dirent, slot. rewrite xshort_u16. unfold put16. cbn [replicate app Nat.add insert list_insert].
  unfold u16, u8. change (2 ^ 16) with 65536. change (2 ^ 8) with 256. rewrite (Z.mod_small inum 65536) by lia.
  assert (0 <= inum / 256 < 256) by (split; [apply Z.div_pos; lia|apply Z.div_lt_upper_bound; lia]).
  rewrite (Z.mod_small (inum / 256)) by lia. do 2 f_equal. unfold DIRSIZ. rewrite take_app. f_equal. rewrite take_replicate. f_equal. lia.
Qed.

Lemma root_listing fl : (length fl <= 198)%nat → root_bytes fl = listing fl.
Proof.
  intros Hl. unfold root_bytes, listing, entries. rewrite !dirent_slot by lia. do 3 f_equal. apply imap_ext.
  intros k f Hk%lookup_lt_Some. unfold inum_of. rewrite dirent_slot by lia. f_equal. lia.
Qed.

Record finished (s : mst) (fl : list file) : Prop := {
  fin_sect : nsect s = FSSIZE;
  fin_free : freeblock s = nmeta + cost (built fl) ∧ freeblock s <= FSSIZE;
  fin_len b : length (img s b) = BSIZE;
  fin_super : decode_sb (img s 1) = superblk;
  fin_log b : 2 <= b < 32 → img s b = zeroes;
  fin_file k f : fl !! k = Some f → sized s (inum_of (S k)) (Z.of_nat (length (contents f))) (T_FILE, contents f);
  fin_root : sized s ROOTINO ((Z.of_nat (length (root_bytes fl)) / 512 + 1) * 512) (T_DIR, root_bytes fl);
  fin_listing : root_bytes fl = listing fl;
  fin_disjoint j k f g b : built fl !! j = Some f → built fl !! k = Some g → j ≠ k →
    b ∈ fblocks s (dino s (inum_of j)) f.2 → b ∉ fblocks s (dino s (inum_of k)) g.2;
  fin_bitmap b : 0 <= b < 4096 → bit_in (img s (bmapstart superblk)) b = bool_decide (b < freeblock s);
}.

Lemma populate_image fl s0 : fits fl → freeinode s0 = 1 → ∃ s, populate fl s0 = Done tt s ∧ image s (built fl).
Proof.
  intros Hfit H0. unfold populate. mgo. mgo. mgo.
  destruct (zero_loop (Z.to_nat FSSIZE) 0 (set_freeblock nmeta (set_msb superblk (set_img (λ _, zeroes) 0 s0))))
    as (s1 & E1 & Hz & Hs & Hi & Hf & Hb); [done|done|]. rewrite (bind_Done _ _ _ _ _ E1). mgo. cbn in Hb. rewrite Hb.
  destruct (image_empty s1) as (s2 & E2 & Him2); [exact Hz|rewrite Hs; vm_compute; reflexivity|rewrite Hi; exact H0|rewrite Hf; reflexivity|exact Hb|].
  rewrite (bind_Done _ _ _ _ _ E2).
  destruct (ialloc_image s2 [] T_DIR Him2) as (s3 & E3 & Him3); [exact (Nat.lt_0_succ 198)|split; vm_compute; congruence|]. rewrite (bind_Done _ _ _ _ _ E3).
  change (inum_of (length [])) with 1. change (1 =? ROOTINO) with true. cbn [assert]. mgo.
  assert (FSSIZE = 1000) by done. assert (nmeta = 59) by done.
  destruct (iappend_budget s3 _ 0 T_DIR [] (dirent 1 [46]) Him3) as (s4 & E4 & Him4); [done|rewrite length_dirent; cbn [length]; lia| |].
  { cbn [insert list_insert app cost snd]. rewrite length_dirent. change (need (nblk 16)) with 1. lia. }
  change (inum_of 0) with 1 in E4. rewrite (bind_Done _ _ _ _ _ E4).
  destruct (iappend_budget s4 _ 0 T_DIR (dirent 1 [46]) (dirent 1 [46; 46]) Him4) as (s5 & E5 & Him5); [done|rewrite !length_dirent; lia| |].
  { cbn [insert list_insert app cost snd]. rewrite length_app, !length_dirent. change (need (nblk (16 + 16))) with 1. lia. }
  change (inum_of 0) with 1 in E5. rewrite (bind_Done _ _ _ _ _ E5).
  apply (add_files_image fl s5 []); [|done].
  assert (built [] = [(T_DIR, dirent 1 [46] ++ dirent 1 [46; 46])]) as -> by (unfold built, root_bytes; by rewrite app_nil_r). exact Him5.
Qed.

Lemma resize_root s s1 inum off f : filed s inum f → 0 <= inum < NINODES → 0 <= off < 2 ^ 32 →
  dino s1 inum = put32 (dino s inum) 8 (xint off) → (∀ b, b ≠ iblock inum → img s1 b = img s b) → freeblock s1 = freeblock s →
  sized s1 inum off f ∧ fblocks s1 (dino s1 inum) f.2 = fblocks s (dino s inum) f.2.
Proof.
  intros [F1 F2 F3 F4 F5] Hi Ho Hd Hb Hf. pose proof (iblock_meta _ Hi) as Hm. assert (nmeta = 59) by done.
  assert (Hmeta : ∀ b, b ∈ fblocks s (dino s inum) f.2 → img s1 b = img s b).
  { intros b Hin. apply Hb. intros ->. eapply owned_meta; [exact F5| |exact Hin]. lia. }
  pose proof (rep_frame _ (img s1) _ _ _ _ F4 Hmeta) as R2. pose proof (blocks_frame _ (img s1) _ _ _ (rp_hi _ _ _ _ _ F4) Hmeta) as B2.
  destruct (rep_addr _ (dino s inum) (dino s1 inum) _ _ _ ltac:(intros; rewrite Hd; apply addr_put_size)
    ltac:(rewrite Hd, length_put32; exact (rp_len _ _ _ _ _ F4)) R2) as [R3 B3].
  assert (HB : fblocks s1 (dino s1 inum) f.2 = fblocks s (dino s inum) f.2) by (unfold fblocks; rewrite B3; exact B2).
  split; [|done]. unfold sized. rewrite HB. split_and!; [..|exact R3|unfold owned in *; by rewrite Hf].
  - by rewrite Hd, get16_put32_ne by lia.
  - by rewrite Hd, get16_put32_ne by lia.
  - rewrite Hd, get32_put32_eq by (rewrite (rp_len _ _ _ _ _ F4); unfold DINODE; lia). rewrite xint_u32, u32_u32. by apply u32_id.
Qed.

Lemma finish_runs s fl : image s (built fl) → (length fl <= 198)%nat →
  let off := (Z.of_nat (length (root_bytes fl)) / 512 + 1) * 512 in
  ∃ s1, finish ROOTINO s = Done tt (set_img (<[58 := foldl set_bit zeroes (seq 0 (Z.to_nat (freeblock s)))]> (img s1)) FSSIZE s1) ∧
    mok s1 ∧ freeblock s1 = freeblock s ∧ (∀ b, b ≠ iblock ROOTINO → img s1 b = img s b) ∧
    (∀ j, 0 <= j < NINODES → j ≠ ROOTINO → dino s1 j = dino s j) ∧
    sized s1 ROOTINO off (T_DIR, root_bytes fl) ∧ fblocks s1 (dino s1 ROOTINO) (root_bytes fl) = fblocks s (dino s ROOTINO) (root_bytes fl).
Proof.
  intros Him Hlen off. pose proof (im_ok _ _ Him) as Hok. pose proof (im_file _ _ Him 0 _ eq_refl) as Hf0. change (inum_of 0) with ROOTINO in Hf0.
  assert (Hi : 0 <= ROOTINO < NINODES) by done. pose proof (length_root fl) as Hroot. pose proof (mo_free _ Hok) as Hfree. assert (FSSIZE = 1000) by done.
  assert (Hoff : 0 <= off < 2 ^ 32).
  { unfold off. pose proof (Z.div_pos (Z.of_nat (length (root_bytes fl))) 512). pose proof (Z.div_le_upper_bound (Z.of_nat (length (root_bytes fl))) 512 7). lia. }
  destruct (winode_spec s ROOTINO (put32 (dino s ROOTINO) 8 (xint off)) Hok Hi) as (s1 & E1 & Hok1 & Hd1 & Hd1' & Hb1 & Hf1 & Hi1).
  { rewrite length_put32. exact (rp_len _ _ _ _ _ (fd_rep _ _ _ Hf0)). }
  destruct (resize_root s s1 ROOTINO off _ Hf0 Hi Hoff Hd1 Hb1 Hf1) as [HS HB]. exists s1. split_and!; try done.
  unfold finish. rewrite (bind_Done _ _ _ _ _ (rinode_spec _ _ Hok Hi)), (fd_size _ _ _ Hf0). cbn [snd]. change (Z.of_nat BSIZE) with 512.
  rewrite (xint_small (Z.of_nat (length (root_bytes fl)))) by lia. cbn zeta. fold off. rewrite (bind_Done _ _ _ _ _ E1). mgo.
  unfold balloc. rewrite (proj2 (Z.ltb_lt _ _)) by (change (Z.of_nat BSIZE * 8) with 4096; lia). cbn [assert]. mgo. mgo.
  rewrite (mo_sb _ Hok1), Hf1. unfold wsect, modify. by rewrite (mo_sect _ Hok1).
Qed.

Lemma built_S fl k : built fl !! S k = (λ f, (T_FILE, contents f)) <$> (fl !! k).
Proof. exact (list_lookup_fmap _ _ _). Qed.

Lemma finish_image s fl : image s (built fl) → (length fl <= 198)%nat → ∃ s', finish ROOTINO s = Done tt s' ∧ finished s' fl.
Proof.
  intros Him Hlen. destruct (finish_runs s fl Him Hlen) as (s1 & E & Hok1 & Hf1 & Hb1 & Hd1 & HS & HB).
  pose proof (im_ok _ _ Him) as Hok. assert (nmeta = 59) by done. assert (FSSIZE = 1000) by done. pose proof (mo_free _ Hok) as Hfree.
  set (bits := foldl set_bit zeroes (seq 0 (Z.to_nat (freeblock s)))) in *. exists (set_img (<[58 := bits]> (img s1)) FSSIZE s1). split; [exact E|].
  assert (Hroot1 : iblock ROOTINO = 32) by done.
  assert (Hall : ∀ k f, built fl !! k = Some f → ∃ off, sized s1 (inum_of k) off f ∧
    fblocks s1 (dino s1 (inum_of k)) f.2 = fblocks s (dino s (inum_of k)) f.2 ∧ (k ≠ 0%nat → off = Z.of_nat (length f.2))).
  { intros [|k] f Hk. { change (Some (T_DIR, root_bytes fl) = Some f) in Hk. injection Hk as <-. by eexists. }
    exists (Z.of_nat (length f.2)).
    destruct (image_others s s s1 (built fl) 0 _ _ Him eq_refl (grew_refl _ _ Hok) (fd_owned _ _ _ (im_file _ _ Him 0 _ eq_refl)) Hf1 Hd1 Hb1 (S k) f Hk ltac:(done))
      as (HF & HB' & _). split_and!; [by apply filed_is_sized|done|done]. }
  assert (Hbit : ∀ k f, built fl !! k = Some f → 0 <= inum_of k < NINODES) by (intros; by eapply image_inum).
  destruct (bits_spec (Z.to_nat (freeblock s)) 0) as [_ Hbl]; [lia|lia|]. fold bits in Hbl.
  split; cbn [nsect freeblock img set_img]; try done.
  - rewrite Hf1. split; [exact (im_cost _ _ Him)|lia].
  - intros b. destruct (decide (58 = b)) as [<-|]; [by rewrite fn_lookup_insert|rewrite fn_lookup_insert_ne by done; apply (mo_len _ Hok1)].
  - rewrite fn_lookup_insert_ne, Hb1, (im_super _ _ Him) by (rewrite ?Hroot1; lia). vm_compute. reflexivity.
  - intros b Hb. rewrite fn_lookup_insert_ne, Hb1 by (rewrite ?Hroot1; lia). by apply (im_log _ _ Him).
  - intros k f Hk. assert (Hk' : built fl !! S k = Some (T_FILE, contents f)) by (by rewrite built_S, Hk).
    destruct (Hall _ _ Hk') as (off & HSk & _ & Ho). rewrite Ho in HSk by done. apply bitmap_keeps; [done|by eapply Hbit].
  - apply bitmap_keeps; done.
  - by apply root_listing.
  - intros j k f g b Hj Hk Hne. destruct (Hall _ _ Hj) as (o1 & S1 & E1 & _), (Hall _ _ Hk) as (o2 & S2 & E2 & _).
    rewrite (proj2 (bitmap_keeps s1 bits _ _ _ S1 (Hbit _ _ Hj))), (proj2 (bitmap_keeps s1 bits _ _ _ S2 (Hbit _ _ Hk))), E1, E2.
    by eapply im_disjoint.
  - intros b Hb. change (bmapstart superblk) with 58. rewrite fn_lookup_insert, Hf1.
    destruct (bits_spec (Z.to_nat (freeblock s)) (Z.to_nat b)) as [Hbs _]; [lia|lia|]. fold bits in Hbs. rewrite Z2Nat.id in Hbs by lia.
    rewrite Hbs. apply bool_decide_ext. lia.
Qed.

Lemma main_finishes fl : fits fl → ∃ s, main fl mkfs_start = Done tt s ∧ finished s fl.
Proof.
  intros Hfit. destruct (populate_image fl mkfs_start Hfit eq_refl) as (s & E & Him). unfold main. rewrite (bind_Done _ _ _ _ _ E).
  exact (finish_image s fl Him (ft_count _ Hfit)).
Qed.

(** C16. mkfs builds the image it is asked for: for any files that fit, read by
    the host in any pieces, it succeeds, and the image has the superblock and
    an empty log; the root directory holds the entries [.], [..] and those of the
    files, in the format of the disk, and each file its bytes, in inodes of the right type and size; no block belongs to
    two files, and the bitmap marks exactly the blocks up to the last one
    used. *)
Theorem mkfs_correct fl : fits fl → ∃ s, main fl mkfs_start = Done tt s ∧ finished s fl.
Proof. exact (main_finishes fl). Qed.

(** Two small files, the first in two pieces, under the names [_cat] and
    [README]. *)
Definition demo_files : list file :=
  [([95; 99; 97; 116], Some [replicate 512 7; [1; 2; 3]]); ([82; 69; 65; 68; 77; 69], Some [[104; 105]])].

Lemma demo_fits : fits demo_files.
Proof.
  split.
  - repeat constructor; cbn; set_solver.
  - repeat constructor; by eexists.
  - apply Forall_forall. intros f [->|[->|[]%elem_of_nil]%elem_of_cons]%elem_of_cons; apply Nat.leb_le; vm_compute; reflexivity.
  - apply Nat.leb_le. reflexivity.
  - vm_compute. discriminate.
Qed.

Lemma mkfs_correct_witness : ∃ s, main demo_files mkfs_start = Done tt s ∧ finished s demo_files.
Proof. apply mkfs_correct. exact demo_fits. Defined.
