(* ===== verification/MkfsRead.v ===== *)
(** * The kernel reads the image mkfs built

    A kernel that runs on the image, with nothing else going on, finds each
    file's bytes: [ilock] loads the inode mkfs wrote and [readi] follows its
    block addresses. *)

From S2P Require Import Prelude Bio Log Console Fs FsSpec FsData Mkfs MkfsSpec.
#[local] Open Scope Z_scope.

(** The kernel [w] runs on the image of [s]: the disk, the superblock it read
    and the log's place are those of the image, and no buffer is in use. *)
Record runs_on (w : fs) (s : mst) : Prop := {
  ro_quiet : quiet_fs w [];
  ro_size : disksize (fio w) = FSSIZE;
  ro_view b : 0 <= b < FSSIZE → fview w b = img s b;
  ro_sb : sb w = decode_sb (img s 1);
  ro_log : start (lg (flog w)) = logstart superblk ∧ size (lg (flog w)) = Log.nlog superblk;
}.

(** A file of the image as the kernel sees it. *)
Section File.
Context (w : fs) (s : mst) (fl : list file) (inum off : Z) (f : mfile) (p : inode).
Hypothesis Hrun : runs_on w s.
Hypothesis Hfin : finished s fl.
Hypothesis Hinum : 0 <= inum < NINODES.
Hypothesis Hfile : sized s inum off f.
Hypothesis Hdev : i_dev p = 1.
Hypothesis Haddrs : i_addrs p = dip_addrs (img s (iblock inum)) (doff inum).

Lemma seen_addr k : (k <= NDIRECT)%nat → i_addrs p !!! k = addr (dino s inum) k.
Proof.
  intros Hk. rewrite Haddrs. unfold dip_addrs, addr, dino.
  rewrite get32_slice by (rewrite ?(fin_len _ _ Hfin); pose proof (doff_fits inum); unfold NDIRECT, DINODE in *; lia).
  rewrite list_lookup_total_alt, list_lookup_fmap, lookup_seq_lt by (unfold NDIRECT in *; lia). cbn. f_equal. lia.
Qed.

Let nb : nat := nblk (length f.2).

Lemma seen_owned b : b ∈ fblocks s (dino s inum) f.2 → 0 < b < FSSIZE ∧ nmeta <= b ∧ fview w b = img s b.
Proof.
  intros Hb. destruct Hfile as (_ & _ & _ & _ & Ho). unfold owned in Ho. rewrite Forall_forall in Ho. specialize (Ho _ Hb).
  destruct (fin_free _ _ Hfin) as [_ ?]. assert (nmeta = 59) by done. split_and!; try lia. apply (ro_view _ _ Hrun). lia.
Qed.

Lemma seen_rep : rep (img s) (dino s inum) f.2 nb (NDIRECT <? nb)%nat.
Proof. by destruct Hfile as (_ & _ & _ & ? & _). Qed.

Lemma seen_block bn : (bn < nb)%nat → fblock w p (Z.of_nat bn) = blk (img s) (dino s inum) bn.
Proof.
  intros Hb. unfold fblock, blk. destruct (Nat.ltb_spec bn NDIRECT) as [Hd|Hd].
  - rewrite (proj2 (Z.ltb_lt _ _)) by lia. rewrite Nat2Z.id. apply seen_addr. lia.
  - rewrite (proj2 (Z.ltb_ge _ _)) by lia. rewrite seen_addr by done. fold (ind (dino s inum)).
    replace (Z.to_nat (Z.of_nat bn - Z.of_nat NDIRECT)) with (bn - NDIRECT)%nat by lia.
    f_equal. apply seen_owned. unfold fblocks. fold nb. rewrite (proj2 (Nat.ltb_lt NDIRECT nb)) by lia. apply ind_elem.
Qed.

Lemma seen_data_block b : b ∈ fblocks s (dino s inum) f.2 → data_block w b.
Proof.
  intros Hb. destruct (seen_owned b Hb) as (? & ? & _). split; [rewrite (ro_size _ _ Hrun); done|]. unfold in_log.
  destruct (ro_log _ _ Hrun) as [-> ->]. change (logstart superblk) with 2. change (Log.nlog superblk) with 30. assert (nmeta = 59) by done. lia.
Qed.

Lemma seen_file_ok : file_ok w p (Z.of_nat nb).
Proof.
  pose proof seen_rep as R. assert (Hmax : (nb <= 140)%nat) by exact (rp_nb _ _ _ _ _ R).
  assert (Hel : ∀ bn, 0 <= bn < Z.of_nat nb → ∃ k, bn = Z.of_nat k ∧ (k < nb)%nat ∧ fblock w p bn = blk (img s) (dino s inum) k).
  { intros bn Hb. exists (Z.to_nat bn). split_and!; [lia|lia|]. rewrite <- seen_block by lia. f_equal. lia. }
  assert (Hind : Z.of_nat NDIRECT < Z.of_nat nb → (NDIRECT <? nb)%nat = true) by (intros; apply Nat.ltb_lt; lia).
  split; [done|unfold MAXFILE; lia|..].
  - intros bn (k & -> & Hk & ->)%Hel. apply seen_data_block. by apply blk_elem.
  - intros Hn. rewrite seen_addr by done. apply seen_data_block. unfold fblocks. fold nb. rewrite Hind by done. apply ind_elem.
  - intros a b (k & -> & Hk & ->)%Hel (j & -> & Hj & ->)%Hel E. f_equal. eapply blk_inj; [exact (rp_nodup _ _ _ _ _ R)|done..].
  - intros bn (k & -> & Hk & ->)%Hel Hn. rewrite seen_addr by done. apply blk_not_ind with nb; [|done].
    pose proof (rp_nodup _ _ _ _ _ R) as Hnd. by rewrite Hind in Hnd.
Qed.

Lemma seen_bytes o n : 0 <= o → 0 <= n → o + n <= Z.of_nat (length f.2) → fbytes w p o n = slice f.2 (Z.to_nat o) (Z.to_nat n).
Proof.
  intros Ho Hn Hl. pose proof seen_rep as R. rewrite slice_fmap by lia. unfold fbytes. apply list_fmap_ext. intros j k [-> Hk]%lookup_seq.
  cbn [plus]. unfold fbyte. set (x := (Z.to_nat o + j)%nat). assert (Hx : o + Z.of_nat j = Z.of_nat x) by lia. rewrite Hx.
  rewrite <- Nat2Z.inj_div, <- Nat2Z.inj_mod, Nat2Z.id.
  assert (x / BSIZE < nb)%nat by (pose proof (rp_fit _ _ _ _ _ R); apply Nat.Div0.div_lt_upper_bound; lia).
  rewrite seen_block by done. rewrite (proj2 (proj2 (seen_owned _ (blk_elem _ _ _ _ _ H)))). apply (rp_data _ _ _ _ _ R). lia.
Qed.
End File.

(** [ilock] of an inode that is not loaded yet. *)
Lemma ilock_loads w s fl i inum : runs_on w s → finished s fl → 0 <= inum < NINODES → get16 (dino s inum) 0 ≠ 0 → get16 (dino s inum) 0 < 2 ^ 15 → 0 <= get16 (dino s inum) 0 →
  i_dev (icache w i) = 1 → i_num (icache w i) = inum → 1 <= i_ref (icache w i) → i_flags (icache w i) = 0 →
  ∃ w' p, ilock (Some i) w = Done tt w' ∧ runs_on w' s ∧ icache w' i = p ∧ i_dev p = 1 ∧
    i_type p = get16 (dino s inum) 0 ∧ i_size p = get32 (dino s inum) 8 ∧ i_addrs p = dip_addrs (img s (iblock inum)) (doff inum).
Proof.
  intros Hrun Hfin Hi Ht1 Ht2 Ht3 Hd Hn Href Hfl. pose proof (iblock_meta _ Hi) as Hm. pose proof Hrun as [Q1 Q2 Q3 Q4 [Q5 Q6]]. pose proof Q1 as [QI QP QR].
  destruct (read_block (fio w) (iblock inum) []) as (b & d1 & d2 & E1 & Ed & E2 & I2 & U2); try done; [rewrite Q2; unfold FSSIZE; lia|].
  unfold ilock, inode_at. mgo. rewrite (proj2 (Z.ltb_ge _ _) Href), Hfl. change (has 0 I_BUSY) with false. cbn iota. unfold upd_inode at 1. mgo. mgo.
  cbn [icache set_icache]. rewrite fn_lookup_insert. cbn [i_flags set_i_flags]. rewrite Hfl. change (negb (has (Z.lor 0 I_BUSY) I_VALID)) with true. cbn iota.
  mgo. cbn [i_dev i_num set_i_flags]. rewrite Hd, Hn. change (sb (set_icache _ w)) with (sb w). rewrite Q4, (fin_super _ _ Hfin), IBLOCK_iblock by done.
  match goal with |- context [set_icache ?c w] => set (ic := c) end.
  rewrite (bind_Done _ _ _ _ _ (bc_Done (bread 1 (iblock inum)) (set_icache ic w) b d1 E1)).
  rewrite (bind_Done _ _ _ _ _ (bc_Done (buf_at b) (set_flog (set_dio d1 (flog (set_icache ic w))) (set_icache ic w)) (bufs d1 b) d1 eq_refl)).
  rewrite Ed. fold (fview w (iblock inum)). rewrite Q3 by (unfold FSSIZE; lia). unfold upd_inode. mgo.
  set (w3 := set_icache _ _). rewrite (bind_Done _ _ _ _ _ (bc_Done (brelse b) w3 tt d2 E2)). mgo. mgo.
  assert (Hp : icache w3 i = get_dinode (img s (iblock inum)) (doff inum) (ic i)) by (subst w3; cbn [icache set_icache]; by rewrite fn_lookup_insert).
  assert (Hic : i_dev (ic i) = 1) by (subst ic; by rewrite fn_lookup_insert).
  pose proof (doff_fits inum) as Hfit. pose proof (fin_len _ _ Hfin (iblock inum)) as Hlen.
  assert (Hty : dip_type (img s (iblock inum)) (doff inum) = get16 (dino s inum) 0).
  { unfold dip_type, dino in *. rewrite (get16_slice _ _ _ 0), Nat.add_0_r in * by (unfold DINODE in *; lia). unfold s16. rewrite Z.mod_small by lia. lia. }
  set (w4 := set_icache _ _). assert (Hw4 : icache w4 i = set_i_flags (Z.lor (i_flags (icache w3 i)) I_VALID) (icache w3 i))
    by (subst w4; cbn [icache set_icache set_flog]; by rewrite fn_lookup_insert).
  exists w4, (icache w4 i). rewrite Hw4, Hp. cbn [i_type i_dev i_size i_addrs set_i_flags get_dinode]. rewrite Hty, (proj2 (Z.eqb_neq _ _) Ht1).
  split_and!; try done.
  - split; try done.
    + split; [done| |done]. intros c Hc. apply (un_pinned _ _ U2) in Hc. auto.
    + change (disksize (fio w4)) with (disksize d2). by rewrite (un_size _ _ U2).
    + intros c Hc. change (fview w4 c) with (view d2 c). rewrite (un_view _ _ U2). by apply Q3.
  - unfold dino. by rewrite get32_slice by (unfold DINODE in *; lia).
Qed.

(** C15. What mkfs puts in, the kernel reads back: on the image mkfs builds from
    files that fit, [ilock] of the inode of a file and a [readi] anywhere
    inside it return the bytes of the file the host had, as many as were asked
    for or as are left. *)
Theorem mkfs_readback fl s k f w i off n :
  fits fl → main fl mkfs_start = Done tt s → fl !! k = Some f → runs_on w s →
  i_dev (icache w i) = 1 → i_num (icache w i) = inum_of (S k) → 1 <= i_ref (icache w i) → i_flags (icache w i) = 0 →
  let size := Z.of_nat (length (contents f)) in
  0 <= off <= size → 0 <= n → off + n < 2 ^ 31 →
  let m := Z.min n (size - off) in
  ∃ w', (ilock (Some i);; readi i off n) w = Done (m, slice (contents f) (Z.to_nat off) (Z.to_nat m)) w'.
Proof.
  intros Hfit Hmain Hk Hrun Hd Hn Href Hfl size Hoff Hn0 Hn1 m.
  destruct (main_finishes fl Hfit) as (s' & E & Hfin). rewrite E in Hmain. injection Hmain as ->. clear E.
  pose proof (ft_count _ Hfit) as Hc. pose proof (lookup_lt_Some _ _ _ Hk) as Hlt.
  assert (Hi : 0 <= inum_of (S k) < NINODES) by (unfold inum_of, NINODES; lia).
  pose proof (fin_file _ _ Hfin _ _ Hk) as Hf. pose proof Hf as (F1 & _ & F3 & F4 & _). cbn [fst snd] in F1, F3, F4.
  destruct (ilock_loads w s fl i (inum_of (S k)) Hrun Hfin Hi) as (w1 & p & E1 & Hrun1 & Hp & P1 & P2 & P3 & P4); try done; try (rewrite F1; done).
  rewrite (bind_Done _ _ _ _ _ E1). pose proof (seen_file_ok w1 s fl _ _ _ p Hrun1 Hfin Hf P1 P4) as Hok.
  assert (Hlong : (length (contents f) <= 140 * 512)%nat).
  { pose proof (ft_long _ Hfit) as Hl. rewrite Forall_forall in Hl. apply Hl. by eapply list_elem_of_lookup_2. }
  pose proof (nblk_spec (length (contents f))) as Hnb.
  destruct (readi_spec w1 [] i (Z.of_nat (nblk (length (contents f)))) off n) as (w2 & E2 & _ & _); rewrite ?Hp, ?P2, ?P3, ?F1, ?F3; try done; try lia.
  - exact (ro_quiet _ _ Hrun1).
  - unfold BSIZE. lia.
  - exists w2. rewrite E2, Hp, P3, F3, (proj2 (Z.ltb_ge _ _)) by (unfold size in Hoff; lia). fold size.
    assert (read_len size off n = m) as -> by (unfold read_len, m; destruct (Z.ltb_spec size (off + n)); lia).
    rewrite (seen_bytes w1 s fl _ _ _ p Hrun1 Hfin Hf P4) by (cbn [snd]; unfold m, size in *; lia). done.
Qed.

(** The buffer cache of a kernel that just started on the image. *)
Definition image_io (s : mst) : io := dio (boot (img s) FSSIZE).

Lemma image_io_spec s : (∀ b, length (img s b) = BSIZE) →
  idle (image_io s) ∧ (∀ b, ¬ pinned (image_io s) b) ∧ (∀ b, view (image_io s) b = img s b) ∧ disksize (image_io s) = FSSIZE.
Proof. intros Hl. destruct (boot_spec (img s) FSSIZE) as (I & P & V & _ & Es & _); [auto|]. by split_and!. Qed.
#[local] Opaque image_io.

(** That kernel, with the inode of the first file in its cache but not
    loaded. *)
Definition kernel_on (s : mst) : fs :=
  mkFs (mkLst (image_io s) (mkLog 2 30 1 0 1 (mkHdr 0 [])))
    (decode_sb (img s 1)) (λ _, mkInode 1 2 1 0 0 0 0 0 0 (replicate 13 0)) (λ _, mkDevops None None) wit_cons None false.

Lemma kernel_on_runs s fl : finished s fl → runs_on (kernel_on s) s.
Proof.
  intros Hfin. destruct (image_io_spec s (fin_len _ _ Hfin)) as (I & P & V & Es). split.
  - split; [exact I|intros b Hb; destruct (P b Hb)|unfold NBUF, MAXOPBLOCKS; cbn; lia].
  - exact Es.
  - intros b _. exact (V b).
  - reflexivity.
  - split; reflexivity.
Qed.

Lemma mkfs_readback_witness : ∃ s w', main demo_files mkfs_start = Done tt s ∧
  (ilock (Some 0%nat);; readi 0 510 10) (kernel_on s) = Done (5, [7; 7; 1; 2; 3]) w'.
Proof.
  destruct (main_finishes demo_files demo_fits) as (s & E & Hfin). exists s.
  destruct (mkfs_readback demo_files s 0 ([95; 99; 97; 116], Some [replicate 512 7; [1; 2; 3]]) (kernel_on s) 0 510 10 demo_fits E eq_refl
    (kernel_on_runs s _ Hfin) eq_refl eq_refl (Z.le_refl 1) eq_refl) as (w' & E').
  - split; apply Z.leb_le; vm_compute; reflexivity.
  - apply Z.leb_le. reflexivity.
  - apply Z.ltb_lt. reflexivity.
  - exists w'. split; [exact E|]. etrans; [exact E'|]. apply (f_equal (λ r, Done r w')). vm_compute. reflexivity.
Defined.
