(* ===== verification/Boot.v ===== *)
(** * The boot loader (bootmain.c)

    The loader reads the kernel from the first drive, through the same
    controller interface as the IDE driver ([ata], [ata_laws] of Ide.v), into
    physical memory, and jumps to it.  The result of [bootmain] is the address
    it jumps to, [None] when it returns to bootasm.S.  Addresses are 32 bits
    wide. *)

From S2P Require Import Prelude CString Ide.
#[local] Open Scope Z_scope.

Definition SECTSIZE : Z := 512.
Definition ELF_MAGIC : Z := 1179403647.

Section Boot.
Context {D : Type} `{!ata D}.

Record bst := mkBst {
  bmem : mem;
  bctl : D;
}.

Definition b_out (port v : Z) : M bst unit := modify (λ s, mkBst (bmem s) (outb port v (bctl s))).

(** [fuel] bounds the turns of the polling loop. *)
Fixpoint waitdisk (fuel : nat) : M bst unit :=
  s ← get;
  let '(r, d) := inb 0x1f7 (bctl s) in
  modify (λ s, mkBst (bmem s) d);;
  if Z.land r 0xc0 =? 0x40 then mret tt else
  match fuel with
  | O => out_of_fuel
  | S fuel' => waitdisk fuel'
  end.

Variable POLLS : nat.

Definition readsect (dst offset : Z) : M bst unit :=
  waitdisk POLLS;;
  b_out 0x1f2 1;;
  b_out 0x1f3 (u8 offset);;
  b_out 0x1f4 (u8 (Z.shiftr offset 8));;
  b_out 0x1f5 (u8 (Z.shiftr offset 16));;
  b_out 0x1f6 (u8 (Z.lor (Z.shiftr offset 24) 0xe0));;
  b_out 0x1f7 0x20;;
  waitdisk POLLS;;
  s ← get;
  let '(ws, d) := insl 0x1f0 (Z.to_nat (SECTSIZE / 4)) (bctl s) in
  put (mkBst (st_bytes (bmem s) dst ws) d).

Fixpoint readseg_loop (fuel : nat) (pa epa offset : Z) : M bst unit :=
  if pa <? epa then
    readsect pa offset;;
    match fuel with
    | O => out_of_fuel
    | S fuel' => readseg_loop fuel' (u32 (pa + SECTSIZE)) epa (u32 (offset + 1))
    end
  else mret tt.

(** The sectors of [count] bytes that start anywhere in a sector. *)
Definition readseg (pa count offset : Z) : M bst unit :=
  let epa := u32 (pa + count) in
  let pa := u32 (pa - offset mod SECTSIZE) in
  let offset := u32 (offset / SECTSIZE + 1) in
  readseg_loop (Z.to_nat (count / SECTSIZE) + 2) pa epa offset.

Definition elf : Z := 0x10000.

(** The loop over the program headers, [n] of which are left. *)
Fixpoint load_segments (n : nat) (ph : Z) : M bst unit :=
  match n with
  | O => mret tt
  | S n' =>
      m ← gets bmem;
      let pa := ld32 m (ph + 12) in
      readseg pa (ld32 m (ph + 16)) (ld32 m (ph + 4));;
      m ← gets bmem;
      let filesz := ld32 m (ph + 16) in
      let memsz := ld32 m (ph + 20) in
      (if filesz <? memsz
       then modify (λ s, mkBst (stosb (u32 (pa + filesz)) 0 (Z.to_nat (memsz - filesz)) (bmem s)) (bctl s))
       else mret tt);;
      load_segments n' (ph + 32)
  end.

Definition bootmain : M bst (option Z) :=
  readseg elf 4096 0;;
  m ← gets bmem;
  if negb (ld32 m elf =? ELF_MAGIC) then mret None else
  let ph := u32 (elf + ld32 m (elf + 28)) in
  load_segments (Z.to_nat (ld16 m (elf + 44))) ph;;
  m ← gets bmem;
  mret (Some (ld32 m (elf + 24))).
End Boot.
Arguments bst : clear implicits.

Section Proofs.
Context {D : Type} `{!ata D} {POLLS : nat} `{!ata_laws D POLLS}.
Implicit Types s : bst D.

(** Byte [j] of the kernel file, which starts at sector 1. *)
Definition kbyte (c : Z * Z → list Z) (j : Z) : Z := c (0, j / 512 + 1) !!! Z.to_nat (j mod 512).

Definition full (c : Z * Z → list Z) : Prop := ∀ n, length (c (0, n)) = 512%nat.

Context (Hnf : no_fault D).

Lemma waitdisk_spec : ∀ fuel s, ready_within fuel (bctl s) →
  ∃ d, waitdisk fuel s = Done tt (mkBst (bmem s) d) ∧ regs d = regs (bctl s) ∧ sector d = sector (bctl s) ∧
    phase_of d = settles (phase_of (bctl s)).
Proof using All.
  induction fuel as [|fuel IH]; intros s Hr; cbn [waitdisk ready_within] in *; mgo;
    pose proof (poll_regs (bctl s)) as Pr; pose proof (poll_sector (bctl s)) as Ps; pose proof (poll_phase (bctl s) Hnf) as Pp;
    destruct (inb 0x1f7 (bctl s)) as [v d]; cbn [fst snd] in *; mgo; change (Z.land v 0xc0 =? 0x40) with (ready v).
  - destruct Hr as [Hr|[]]. rewrite Hr in *. by exists d.
  - destruct (ready v); [by exists d|]. destruct Hr as [|Hr]; [done|].
    destruct (IH (mkBst (bmem s) d) Hr) as (d' & E' & R1 & R2 & R3). cbn [bctl bmem] in *. exists d'. split_and!; [exact E'|congruence..].
Qed.

Lemma target_sector r n : 0 <= n < 2 ^ 28 →
  target (task_file 1 (u8 n) (u8 (Z.shiftr n 8)) (u8 (Z.shiftr n 16)) (u8 (Z.lor (Z.shiftr n 24) 0xe0)) r) = (0, n).
Proof.
  intros Hn. unfold target, task_file. repeat (rewrite fn_lookup_insert || rewrite fn_lookup_insert_ne by lia).
  rewrite !Z.shiftr_div_pow2 by lia. assert (Hh : 0 <= n / 2 ^ 24 < 16).
  { split; [apply Z.div_pos; lia|apply Z.div_lt_upper_bound; lia]. }
  assert (Hc : ∀ h, 0 <= h < 16 → u8 (Z.lor h 0xe0) = 224 + h).
  { intros h Hh'. assert (h ∈ Z.of_nat <$> seq 0 16) as Hin by (apply list_elem_of_fmap; exists (Z.to_nat h); rewrite elem_of_seq; lia).
    clear Hh'. revert h Hin. apply Forall_forall. vm_compute. repeat constructor. }
  rewrite Hc by done. f_equal.
  - replace ((224 + n / 2 ^ 24) / 2 ^ 4) with 14; [done|]. apply Z.div_unique with (n / 2 ^ 24); lia.
  - change 0x0f with (Z.ones 4). rewrite Z.land_ones by lia. replace ((224 + n / 2 ^ 24) mod 2 ^ 4) with (n / 2 ^ 24).
    2: { apply Z.mod_unique with 14; lia. }
    rewrite <- (u32_id n) at 5 by (unfold is_u32; lia). rewrite <- bytes_of_u32. unfold u8. rewrite (Z.mod_small (n / 2 ^ 24)) by lia. lia.
Qed.

(** The kernel file [c] is on the drive, and the drive is not in the middle of a
    transfer. *)
Definition idle_with (c : Z * Z → list Z) (d : D) : Prop := sector d = c ∧ settles (phase_of d) = Idle.

Lemma readsect_spec s c dst n : 0 <= n < 2 ^ 28 → idle_with c (bctl s) →
  ∃ d, readsect POLLS dst n s = Done tt (mkBst (st_bytes (bmem s) dst (c (0, n))) d) ∧ idle_with c d.
Proof using All.
  intros Hn [Hc Hph]. unfold readsect. destruct (waitdisk_spec POLLS s (poll_bound _)) as (d0 & E0 & _ & S0 & P0). rewrite (bind_Done _ _ _ _ _ E0).
  rewrite Hph in P0. unfold b_out. do 6 mgo. cbn [bmem bctl].
  destruct (task_file_idle 1 (u8 n) (u8 (Z.shiftr n 8)) (u8 (Z.shiftr n 16)) (u8 (Z.lor (Z.shiftr n 24) 0xe0)) d0 P0) as (R1 & P1 & S1).
  destruct (read_command _ P1) as (R2 & P2 & S2). unfold IDE_CMD_READ in *. set (d2 := outb 0x1f7 0x20 _) in *.
  destruct (waitdisk_spec POLLS (mkBst (bmem s) d2) (poll_bound _)) as (d3 & E3 & R3 & S3 & P3). cbn [bmem bctl] in *.
  rewrite (bind_Done _ _ _ _ _ E3). mgo. cbn [bctl]. change (Z.to_nat (SECTSIZE / 4)) with 128%nat. rewrite P2 in P3.
  destruct (data_in d3 P3) as (D1 & D2 & D3); [rewrite R3, R2, R1; apply task_file_count|].
  rewrite R3, R2, R1, S3, S2, S1, S0, Hc, target_sector in D1 by done.
  destruct (insl 0x1f0 128 d3) as [ws d4]. cbn [fst snd] in *. exists d4. rewrite D1. split; [done|]. split; [congruence|by rewrite D2].
Qed.

Context (c : Z * Z → list Z) (Hfull : full c).

(** Whole sectors from [pa] on, up to the first end of a sector from [epa] on. *)
Lemma readseg_loop_spec fuel : ∀ s pa epa n, idle_with c (bctl s) → 0 <= pa → epa + 512 <= 2 ^ 32 → epa - pa <= 512 * Z.of_nat fuel →
  0 <= n → n + Z.of_nat fuel < 2 ^ 28 →
  ∃ m d k, readseg_loop POLLS fuel pa epa n s = Done tt (mkBst m d) ∧ idle_with c d ∧ 0 <= k ∧
    (pa < epa → epa <= pa + 512 * k < epa + 512) ∧ (epa <= pa → k = 0) ∧
    ∀ x, m x = if decide (pa <= x < pa + 512 * k) then c (0, n + (x - pa) / 512) !!! Z.to_nat ((x - pa) mod 512) else bmem s x.
Proof using All.
  induction fuel as [|fuel IH]; intros s pa epa n Hid Hpa Hepa Hfu Hn Hn2; cbn [readseg_loop];
    destruct (Z.ltb_spec pa epa) as [Hlt|Hge]; try lia.
  1, 3: exists (bmem s), (bctl s), 0; (split_and!; [by destruct s|done|lia|lia|done|]); intros x; rewrite decide_False by lia; done.
  destruct (readsect_spec s c pa n) as (d & E & Hs); [lia|done|]. rewrite (bind_Done _ _ _ _ _ E). unfold SECTSIZE.
  rewrite !u32_id by (unfold is_u32; lia).
  destruct (IH (mkBst (st_bytes (bmem s) pa (c (0, n))) d) (pa + 512) epa (n + 1)) as (m & d' & k & E' & Hs' & Hk & K1 & K2 & Hm);
    cbn [bctl bmem] in *; try done; try lia.
  exists m, d', (k + 1). split_and!; [done|done|lia|lia|lia|]. intros x. rewrite Hm. destruct (decide (pa + 512 <= x < pa + 512 + 512 * k)) as [H1|H1].
  - rewrite decide_True by lia. replace (x - pa) with (x - (pa + 512) + 1 * 512) by lia. rewrite Z.div_add, Z_mod_plus_full by lia.
    f_equal. f_equal. f_equal. lia.
  - rewrite st_bytes_spec, Hfull. unfold within. destruct (decide (pa <= x < pa + 512 * (k + 1))) as [H2|H2].
    + assert (x < pa + 512) by lia. rewrite (proj2 (Z.leb_le pa x)), (proj2 (Z.ltb_lt x _)) by lia. cbn [andb].
      rewrite Z.div_small, Z.mod_small, Z.add_0_r by lia. done.
    + destruct (Z.leb_spec pa x), (Z.ltb_spec x (pa + Z.of_nat 512)); cbn [andb]; try done. lia.
Qed.

(** The bytes asked for are there, and nothing below the first sector or beyond
    the last one has changed. *)
Lemma readseg_spec s pa count offset : idle_with c (bctl s) → 0 <= count → 0 <= offset < 2 ^ 32 → offset mod 512 <= pa →
  pa + count + 512 <= 2 ^ 32 →
  ∃ m d, readseg POLLS pa count offset s = Done tt (mkBst m d) ∧ idle_with c d ∧
    (∀ x, pa <= x < pa + count → m x = kbyte c (offset + (x - pa))) ∧
    (∀ x, x < pa - offset mod 512 → m x = bmem s x).
Proof using All.
  intros Hid Hc Ho Hpa Hmax. pose proof (Z.mod_pos_bound offset 512 ltac:(lia)) as Hm. pose proof (Z.div_mod offset 512 ltac:(lia)) as Hdm.
  assert (0 <= offset / 512 < 2 ^ 23) by (split; [apply Z.div_pos; lia|apply Z.div_lt_upper_bound; lia]).
  pose proof (Z.div_mod count 512 ltac:(lia)) as Hcm. pose proof (Z.mod_pos_bound count 512 ltac:(lia)) as Hcb.
  assert (0 <= count / 512 <= 2 ^ 23) by (split; [apply Z.div_pos; lia|apply Z.div_le_upper_bound; lia]).
  unfold readseg, SECTSIZE. rewrite !u32_id by (unfold is_u32; lia).
  destruct (readseg_loop_spec (Z.to_nat (count / 512) + 2) s (pa - offset mod 512) (pa + count) (offset / 512 + 1))
    as (m & d & k & E & Hs & Hk & K1 & K2 & Hx); try done; try lia.
  exists m, d. split_and!; [done|done| |].
  - intros x Hxr. rewrite Hx, decide_True by lia. unfold kbyte. replace (offset + (x - pa)) with (x - (pa - offset mod 512) + (offset / 512) * 512) by lia.
    rewrite Z.div_add, Z_mod_plus_full by lia. f_equal. f_equal. f_equal. lia.
  - intros x Hxr. rewrite Hx, decide_False by lia. done.
Qed.

(** ** The kernel file *)

Definition kword (c : Z * Z → list Z) (j : Z) : Z :=
  kbyte c j + 2 ^ 8 * kbyte c (j + 1) + 2 ^ 16 * kbyte c (j + 2) + 2 ^ 24 * kbyte c (j + 3).

(** A segment: where it goes, where it is in the file, its size there and in
    memory. *)
Record segment := mkSegment {
  paddr : Z;
  soff : Z;
  sfilesz : Z;
  smemsz : Z;
}.

Definition segment_at (c : Z * Z → list Z) (j : Z) : segment :=
  mkSegment (kword c (j + 12)) (kword c (j + 4)) (kword c (j + 16)) (kword c (j + 20)).

Definition phoff (c : Z * Z → list Z) : Z := kword c 28.
Definition phnum (c : Z * Z → list Z) : nat := Z.to_nat (kbyte c 44 + 2 ^ 8 * kbyte c 45).
Definition segments (c : Z * Z → list Z) : list segment := (λ k, segment_at c (phoff c + 32 * Z.of_nat k)) <$> seq 0 (phnum c).

(** The segments can be loaded: above [lo], in ascending order, the sector in
    which a segment starts included. *)
Fixpoint loadable (lo : Z) (l : list segment) : Prop :=
  match l with
  | [] => True
  | g :: l' =>
      0 <= soff g < 2 ^ 32 ∧ 0 <= sfilesz g <= smemsz g ∧ lo <= paddr g - soff g mod 512 ∧
      paddr g + smemsz g + 512 <= 2 ^ 32 ∧ loadable (paddr g + smemsz g) l'
  end.

(** The segment is in memory: the bytes of the file, then zeroes. *)
Definition loaded (c : Z * Z → list Z) (m : mem) (g : segment) : Prop :=
  ∀ x, paddr g <= x < paddr g + smemsz g →
    m x = if x <? paddr g + sfilesz g then kbyte c (soff g + (x - paddr g)) else 0.

(** The first page of the file is in the scratch space. *)
Definition header_in (c : Z * Z → list Z) (m : mem) : Prop := ∀ j, 0 <= j < 4096 → m (elf + j) = kbyte c j.

Lemma header_word k m j : header_in k m → 0 <= j → j + 4 <= 4096 → ld32 m (elf + j) = kword k j.
Proof. intros H Hj Hj'. unfold ld32, kword. rewrite <- !Z.add_assoc, !H by lia. done. Qed.

Lemma loadable_weaken lo lo' l : loadable lo l → lo' <= lo → loadable lo' l.
Proof. destruct l as [|g l]; [done|]. cbn. intros (? & ? & ? & ? & ?) ?. split_and!; done || lia. Qed.

Lemma loadable_above lo l g : loadable lo l → g ∈ l → lo <= paddr g - soff g mod 512 ∧ lo <= paddr g + smemsz g.
Proof.
  revert lo. induction l as [|h l IH]; intros lo; [by intros _ ?%elem_of_nil|]. intros (H1 & H2 & H3 & H4 & H5) [->|Hg]%elem_of_cons;
    [pose proof (Z.mod_pos_bound (soff h) 512); lia|]. pose proof (Z.mod_pos_bound (soff h) 512).
  destruct (IH _ H5 Hg). lia.
Qed.

Lemma load_one s g ph : idle_with c (bctl s) → header_in c (bmem s) → loadable (elf + 4096) [g] →
  0 <= ph → ph + 32 <= 4096 → segment_at c ph = g →
  ∀ n, ∃ s', load_segments POLLS (S n) (elf + ph) s = load_segments POLLS n (elf + ph + 32) s' ∧ idle_with c (bctl s') ∧
    header_in c (bmem s') ∧ loaded c (bmem s') g ∧
    ∀ x, x < paddr g - soff g mod 512 → bmem s' x = bmem s x.
Proof using All.
  intros Hid Hh (L1 & L2 & L3 & L4 & _) Hp Hp' Hg n. pose proof (Z.mod_pos_bound (soff g) 512 ltac:(lia)) as Hmod.
  cbn [load_segments]. mgo. rewrite <- !Z.add_assoc, !(header_word _ _ _ Hh) by lia.
  subst g. unfold segment_at in *. cbn [paddr soff sfilesz smemsz] in *.
  set (pa := kword _ (ph + 12)) in *. set (off := kword _ (ph + 4)) in *. set (fsz := kword _ (ph + 16)) in *. set (msz := kword _ (ph + 20)) in *.
  assert (elf = 65536) by done.
  destruct (readseg_spec s pa fsz off) as (m & d & E1 & Hs & Hin & Hbelow); try done; try lia. rewrite (bind_Done _ _ _ _ _ E1). mgo. cbn [bmem].
  assert (Hh1 : header_in c m) by (intros j Hj; rewrite Hbelow by lia; by apply Hh).
  rewrite !(header_word _ _ _ Hh1) by lia. fold msz fsz. cbn zeta.
  destruct (Z.ltb_spec fsz msz) as [Hlt|Hge].
  - mgo. eexists. split; [done|]. cbn [bctl bmem]. rewrite u32_id by (unfold is_u32; lia). split_and!; [done| | |].
    + intros j Hj. rewrite stosb_spec. unfold within. rewrite (proj2 (Z.leb_gt (pa + fsz) _)) by lia. cbn [andb]. by apply Hh1.
    + intros x Hx. cbn [paddr soff sfilesz smemsz] in *. rewrite stosb_spec. unfold within.
      destruct (Z.ltb_spec x (pa + fsz)); [rewrite (proj2 (Z.leb_gt (pa + fsz) x)) by lia; apply Hin; lia|].
      rewrite (proj2 (Z.leb_le (pa + fsz) x)), (proj2 (Z.ltb_lt x _)) by lia. done.
    + intros x Hx. rewrite stosb_spec. unfold within. rewrite (proj2 (Z.leb_gt (pa + fsz) x)) by lia. cbn [andb]. by apply Hbelow.
  - mgo. eexists. split; [done|]. cbn [bctl bmem]. split_and!; [done|done| |done].
    intros x Hx. cbn [paddr soff sfilesz smemsz] in *. rewrite (proj2 (Z.ltb_lt x _)) by lia. apply Hin. lia.
Qed.

Lemma load_all n : ∀ s ph lo, idle_with c (bctl s) → header_in c (bmem s) → elf + 4096 <= lo →
  0 <= ph → ph + 32 * Z.of_nat n <= 4096 →
  let l := (λ k, segment_at c (ph + 32 * Z.of_nat k)) <$> seq 0 n in
  loadable lo l →
  ∃ s', load_segments POLLS n (elf + ph) s = Done tt s' ∧ idle_with c (bctl s') ∧ header_in c (bmem s') ∧
    (∀ g, g ∈ l → loaded c (bmem s') g) ∧ ∀ x, x < lo → bmem s' x = bmem s x.
Proof using All.
  induction n as [|n IH]; intros s ph lo Hid Hh Hlo Hp Hp' l Hl.
  { exists s. split_and!; try done. by intros g ?%elem_of_nil. }
  set (g := segment_at c ph).
  assert (El : l = g :: ((λ k, segment_at c (ph + 32 + 32 * Z.of_nat k)) <$> seq 0 n)).
  { unfold l. cbn [seq fmap list_fmap]. f_equal; [unfold g; f_equal; lia|]. rewrite <- seq_shift, <- list_fmap_compose.
    apply list_fmap_ext. intros i k _. cbn [compose]. f_equal. lia. }
  rewrite El in Hl |- *. destruct Hl as (L1 & L2 & L3 & L4 & L5).
  destruct (load_one s g ph Hid Hh) with (n := n) as (s1 & E1 & Hs1 & Hh1 & Hg & Hb1); [split_and!; done || lia|done|lia|done|].
  rewrite E1. rewrite <- Z.add_assoc. pose proof (Z.mod_pos_bound (soff g) 512 ltac:(lia)).
  destruct (IH s1 (ph + 32) (paddr g + smemsz g)) as (s2 & E2 & Hs2 & Hh2 & Hl2 & Hb2); try done; try lia.
  exists s2. split_and!; [done|done|done| |].
  - intros h [->|Hin]%elem_of_cons; [|by apply Hl2]. intros x Hx. rewrite Hb2 by lia. by apply Hg.
  - intros x Hx. rewrite Hb2, Hb1 by lia. done.
Qed.

End Proofs.

(** C29. The boot loader loads the kernel: on a controller that keeps the ATA
    protocol (the command may be given and the data be taken only once a status
    has shown the drive ready for it), with no transfer under way and no read
    errors, when the file on the first drive is an ELF file whose program
    headers lie in its first page and whose segments ascend from above the
    scratch space, [bootmain] jumps to the entry point of the file, with every
    segment in place, its bytes from the file followed by zeroes up to its size
    in memory. *)
Theorem bootmain_loads_kernel {D} `{!ata D} {POLLS : nat} `{!ata_laws D POLLS} (s : bst D) c :
  no_fault D → idle_with c (bctl s) → full c → kword c 0 = ELF_MAGIC →
  0 <= phoff c → phoff c + 32 * Z.of_nat (phnum c) <= 4096 → loadable (elf + 4096) (segments c) →
  ∃ s', bootmain POLLS s = Done (Some (kword c 24)) s' ∧ ∀ g, g ∈ segments c → loaded c (bmem s') g.
Proof.
  intros Hnf Hid Hfull Hmagic Hp Hp' Hl. assert (elf = 65536) by done.
  destruct (readseg_spec Hnf c Hfull s elf 4096 0) as (m & d & E & Hs & Hin & _); try done; try lia.
  assert (Hh : header_in c m) by (intros j Hj; rewrite Hin by lia; f_equal; lia).
  unfold bootmain. rewrite (bind_Done _ _ _ _ _ E). mgo. cbn [bmem].
  replace (ld32 m elf) with (ld32 m (elf + 0)) by (f_equal; lia). rewrite !(header_word _ _ _ Hh), Hmagic by lia. change (negb (ELF_MAGIC =? ELF_MAGIC)) with false. cbn iota.
  assert (ld16 m (elf + 44) = kbyte c 44 + 2 ^ 8 * kbyte c 45) as ->.
  { unfold ld16. rewrite <- Z.add_assoc, !Hh by lia. done. }
  fold (phoff c) (phnum c). rewrite u32_id by (unfold is_u32; lia).
  destruct (load_all Hnf c Hfull (phnum c) (mkBst m d) (phoff c) (elf + 4096)) as (s' & E' & Hs' & Hh' & Hl' & _); cbn [bctl bmem]; try done; try lia.
  rewrite (bind_Done _ _ _ _ _ E'). mgo. rewrite (header_word _ _ _ Hh') by lia.
  exists s'. split; [done|]. exact Hl'.
Qed.

(** ** A kernel file of one segment *)

(** Twelve bytes at 0x100000 from offset 100 of the file, in 20 bytes of
    memory; the entry point is 0x10000c. *)
Definition demo_kernel : list Z :=
  put32 (put32 (put32 (put32 (put32 (put32 (put16 (put32 (put32 (replicate 512 0) 0 ELF_MAGIC) 24 0x10000c) 44 1) 28 52)
    (52 + 4) 100) (52 + 12) 0x100064) (52 + 16) 12) (52 + 20) 20) 100 0x01020304.

Definition demo_drive (a : Z * Z) : list Z := if bool_decide (a = (0, 1)) then demo_kernel else replicate 512 0.
Definition demo_boot : bst (drive true) := mkBst (λ _, 0) (mkDrive (λ _, 0) Idle false demo_drive).

Lemma bootmain_loads_kernel_witness :
  ∃ s', bootmain 1 demo_boot = Done (Some 0x10000c) s' ∧ bmem s' 0x100064 = 4 ∧ bmem s' 0x100070 = 0.
Proof.
  destruct (bootmain_loads_kernel (POLLS := 1) demo_boot demo_drive (drive_no_fault _)) as (s' & E & Hl).
  - split; reflexivity.
  - intros n. unfold demo_drive. destruct (bool_decide _); reflexivity.
  - vm_compute. reflexivity.
  - vm_compute. discriminate.
  - vm_compute. discriminate.
  - vm_compute. repeat split; discriminate.
  - assert (Hg : loaded demo_drive (bmem s') (mkSegment 0x100064 100 12 20)).
    { apply Hl. replace (segments _) with [mkSegment 0x100064 100 12 20] by (vm_compute; reflexivity). left. }
    exists s'. split; [exact E|]. split.
    + etrans; [apply Hg; split; reflexivity || discriminate|]. vm_compute. reflexivity.
    + etrans; [apply Hg; split; reflexivity || discriminate|]. vm_compute. reflexivity.
Defined.
