(* ===== verification/Mp.v ===== *)
(** * Finding the processors (mp.c)

    The BIOS leaves a table of the processors in memory.  [phys] is physical
    memory by bytes (the kernel reads it at [p2v] of the address); the state is
    what mp.c sets up, with the values written to I/O ports.  The names of
    structures become the offsets of their fields.  The messages of [cprintf] are
    not modelled.

    [mpinit] turns a table of the known kinds of entries into the processor
    array; two theorems show what it does with a table it was not written
    for. *)

From S2P Require Import Prelude CString.
#[local] Open Scope Z_scope.

Definition NCPU : Z := 8.
Definition MP_SIZE : Z := 16.
Definition MPCONF_SIZE : Z := 44.
Definition MPPROC_SIZE : Z := 20.
Definition MPIOAPIC_SIZE : Z := 8.
Definition MPBOOT : Z := 0x02.
Definition MPPROC : Z := 0x00.
Definition MPBUS : Z := 0x01.
Definition MPIOAPIC : Z := 0x02.
Definition MPIOINTR : Z := 0x03.
Definition MPLINTR : Z := 0x04.

(** [cpu_id] has [cpus[k].id] for the [NCPU] elements of [cpus], and [behind] the
    stores to elements after the last, which hit whatever is there: the index and
    the value.  [bcpu] is the index of [bcpu] in [cpus], [imcr] the register
    behind port 0x23. *)
Record mpst := mkMp {
  phys : mem;
  cpu_id : list Z;
  behind : list (Z * Z);
  bcpu : Z;
  ismp : Z;
  ncpu : Z;
  ioapicid : Z;
  lapic : Z;
  imcr : Z;
  outs : list (Z * Z);
}.

Definition set_bcpu x (s : mpst) := mkMp (phys s) (cpu_id s) (behind s) x (ismp s) (ncpu s) (ioapicid s) (lapic s) (imcr s) (outs s).
Definition set_ismp x (s : mpst) := mkMp (phys s) (cpu_id s) (behind s) (bcpu s) x (ncpu s) (ioapicid s) (lapic s) (imcr s) (outs s).
Definition set_ioapicid x (s : mpst) := mkMp (phys s) (cpu_id s) (behind s) (bcpu s) (ismp s) (ncpu s) x (lapic s) (imcr s) (outs s).
Definition set_lapic x (s : mpst) := mkMp (phys s) (cpu_id s) (behind s) (bcpu s) (ismp s) (ncpu s) (ioapicid s) x (imcr s) (outs s).
Definition set_ncpu x (s : mpst) := mkMp (phys s) (cpu_id s) (behind s) (bcpu s) (ismp s) x (ioapicid s) (lapic s) (imcr s) (outs s).
Definition store_id (k v : Z) (s : mpst) :=
  if k <? NCPU
  then mkMp (phys s) (<[Z.to_nat k := v]> (cpu_id s)) (behind s) (bcpu s) (ismp s) (ncpu s) (ioapicid s) (lapic s) (imcr s) (outs s)
  else mkMp (phys s) (cpu_id s) (behind s ++ [(k, v)]) (bcpu s) (ismp s) (ncpu s) (ioapicid s) (lapic s) (imcr s) (outs s).
Definition mp_out (port v : Z) : M mpst unit :=
  modify (λ s, mkMp (phys s) (cpu_id s) (behind s) (bcpu s) (ismp s) (ncpu s) (ioapicid s) (lapic s)
                 (if port =? 0x23 then v else imcr s) (outs s ++ [(port, v)])).

Definition mpbcpu : M mpst Z := gets bcpu.

Definition sum (m : mem) (addr len : Z) : Z :=
  u8 (foldl (λ acc i, s32 (acc + m (addr + Z.of_nat i))) 0 (seq 0 (Z.to_nat len))).

(** [memcmp(p, sig, 4) == 0] *)
Definition signed (m : mem) (p : Z) (sig : list Z) : bool := bool_decide (bytes_at m p (length sig) = sig).

Definition MP_SIG : list Z := [95; 77; 80; 95].
Definition PCMP_SIG : list Z := [80; 67; 77; 80].

(** The structures at [a], [a + 16], ... below [a + len]. *)
Definition mpsearch1 (m : mem) (a len : Z) : option Z :=
  find (λ p, signed m p MP_SIG && (sum m p MP_SIZE =? 0))
    ((λ k, a + MP_SIZE * Z.of_nat k) <$> seq 0 (Z.to_nat ((len + MP_SIZE - 1) / MP_SIZE))).

Definition mpsearch (m : mem) : option Z :=
  let bda := 0x400 in
  let p := Z.shiftl (Z.lor (Z.shiftl (m (bda + 0x0f)) 8) (m (bda + 0x0e))) 4 in
  match (if negb (p =? 0) then mpsearch1 m p 1024
         else let p := Z.lor (Z.shiftl (m (bda + 0x14)) 8) (m (bda + 0x13)) * 1024 in mpsearch1 m (u32 (p - 1024)) 1024) with
  | Some mp => Some mp
  | None => mpsearch1 m 0xF0000 0x10000
  end.

Definition conf_length (m : mem) (conf : Z) : Z := m (conf + 4) + 2 ^ 8 * m (conf + 5).

(** [*pmp] and the table. *)
Definition mpconfig (m : mem) : option (Z * Z) :=
  match mpsearch m with
  | None => None
  | Some mp =>
      let conf := ld32 m (mp + 4) in
      if conf =? 0 then None else
      if negb (signed m conf PCMP_SIG) then None else
      if negb (m (conf + 6) =? 1) && negb (m (conf + 6) =? 4) then None else
      if negb (sum m conf (conf_length m conf) =? 0) then None else
      Some (mp, conf)
  end.

Definition mpinit_proc (p : Z) : M mpst unit :=
  s ← get;
  let apicid := phys s (p + 1) in
  (if negb (ncpu s =? apicid) then modify (set_ismp 0) else mret tt);;
  (if negb (Z.land (phys s (p + 3)) MPBOOT =? 0) then modify (set_bcpu (ncpu s)) else mret tt);;
  modify (store_id (ncpu s) (u8 (ncpu s)));;
  modify (set_ncpu (ncpu s + 1)).

(** The loop over the entries; [fuel] bounds its turns. *)
Fixpoint mpinit_loop (fuel : nat) (p e : Z) : M mpst unit :=
  if p <? e then
    s ← get;
    let ty := phys s p in
    p' ← (if ty =? MPPROC then mpinit_proc p;; mret (p + MPPROC_SIZE)
          else if ty =? MPIOAPIC then modify (set_ioapicid (phys s (p + 1)));; mret (p + MPIOAPIC_SIZE)
          else if (ty =? MPBUS) || (ty =? MPIOINTR) || (ty =? MPLINTR) then mret (p + 8)
          else modify (set_ismp 0);; mret p);
    match fuel with
    | O => out_of_fuel
    | S fuel' => mpinit_loop fuel' p' e
    end
  else mret tt.

(** Every entry of a known kind takes at least eight bytes. *)
Definition mpinit : M mpst unit :=
  modify (set_bcpu 0);;
  s ← get;
  match mpconfig (phys s) with
  | None => mret tt
  | Some (mp, conf) =>
      modify (set_ismp 1);;
      modify (set_lapic (ld32 (phys s) (conf + 36)));;
      let len := conf_length (phys s) conf in
      mpinit_loop (Z.to_nat len) (conf + MPCONF_SIZE) (conf + len);;
      s ← get;
      if ismp s =? 0 then
        modify (set_ncpu 1);;
        modify (set_lapic 0);;
        modify (set_ioapicid 0)
      else if negb (phys s (mp + 12) =? 0) then
        mp_out 0x22 0x70;;
        s ← get;
        mp_out 0x23 (Z.lor (imcr s) 1)
      else mret tt
  end.

(** ** Tables *)

Inductive entry :=
  | EProc (apicid flags : Z)
  | EIoapic (id : Z)
  | EOther (ty : Z).

Definition entry_size (e : entry) : Z := match e with EProc _ _ => 20 | _ => 8 end.

Definition entry_at (m : mem) (p : Z) (e : entry) : Prop :=
  match e with
  | EProc apicid flags => m p = MPPROC ∧ m (p + 1) = apicid ∧ m (p + 3) = flags
  | EIoapic id => m p = MPIOAPIC ∧ m (p + 1) = id
  | EOther ty => m p = ty ∧ (ty = MPBUS ∨ ty = MPIOINTR ∨ ty = MPLINTR)
  end.

(** The entries [es] are at [p], up to [e]. *)
Fixpoint entries_at (m : mem) (p e : Z) (es : list entry) : Prop :=
  match es with
  | [] => p = e
  | x :: es' => entry_at m p x ∧ entries_at m (p + entry_size x) e es'
  end.

(** What the table says: the processors, the boot processor, the I/O APIC. *)
Definition procs (es : list entry) : list (Z * Z) := omap (λ e, match e with EProc a f => Some (a, f) | _ => None end) es.
Definition apics (es : list entry) : list Z := omap (λ e, match e with EIoapic i => Some i | _ => None end) es.
Definition in_order (n : Z) (ps : list (Z * Z)) : Prop := ∀ k p, ps !! k = Some p → p.1 = n + Z.of_nat k.
Definition boots (p : Z * Z) : bool := negb (Z.land p.2 MPBOOT =? 0).

(** The index of the last processor marked as the boot processor, [d] if none
    is; the first is number [n]. *)
Fixpoint boot_index (n d : Z) (ps : list (Z * Z)) : Z :=
  match ps with
  | [] => d
  | p :: ps' => boot_index (n + 1) (if boots p then n else d) ps'
  end.

#[export] Instance in_order_dec n ps : Decision (in_order n ps).
Proof.
  refine (cast_if (decide (Forall (λ kp : nat * (Z * Z), kp.2.1 = n + Z.of_nat kp.1) (zip (seq 0 (length ps)) ps)))).
  - intros k p Hk. rewrite Forall_lookup in f. apply (f k (k, p)).
    apply lookup_zip_Some. split; [by apply lookup_seq_lt, (lookup_lt_Some ps k p)|done].
  - intros H. apply n0, Forall_lookup. intros k [j p] Hz. apply lookup_zip_Some in Hz as [[-> _]%lookup_seq Hp]. by apply H.
Defined.

Lemma in_order_cons n p ps : in_order n (p :: ps) ↔ p.1 = n ∧ in_order (n + 1) ps.
Proof.
  split.
  - intros H. split; [rewrite (H 0%nat p eq_refl); cbn; lia|]. intros k q Hk. rewrite (H (S k) q Hk). lia.
  - intros [H1 H2] [|k] q Hk; [injection Hk as <-; cbn; lia|]. rewrite (H2 k q Hk). lia.
Qed.

Lemma entries_le m p e es : entries_at m p e es → p + 8 * Z.of_nat (length es) <= e.
Proof.
  revert p. induction es as [|x es IH]; intros p; cbn [entries_at length]; [lia|]. intros [_ H%IH].
  assert (8 <= entry_size x) by (destruct x; cbn; lia). lia.
Qed.

(** The array after processors number [n], ... have been stored, [m] in all, and
    what has been stored behind it. *)
Definition ids_from (n : Z) (m : nat) (l : list Z) : list Z :=
  foldl (λ l k, if k <? NCPU then <[Z.to_nat k := u8 k]> l else l) l (seqZ n (Z.of_nat m)).
Definition behind_from (n : Z) (m : nat) : list (Z * Z) := (λ k, (k, u8 k)) <$> filter (λ k, NCPU <= k) (seqZ n (Z.of_nat m)).

Lemma seqZ_S n m : seqZ n (Z.of_nat (S m)) = n :: seqZ (n + 1) (Z.of_nat m).
Proof. rewrite seqZ_cons by lia. unfold Z.succ. do 2 f_equal. lia. Qed.

Lemma behind_from_S n m : behind_from n (S m) = (if n <? NCPU then [] else [(n, u8 n)]) ++ behind_from (n + 1) m.
Proof.
  unfold behind_from. rewrite seqZ_S, filter_cons. destruct (Z.ltb_spec n NCPU); [by rewrite decide_False by lia|by rewrite decide_True by lia].
Qed.

Lemma behind_from_nil m : Z.of_nat m <= NCPU → behind_from 0 m = [].
Proof.
  intros Hm. unfold behind_from. rewrite filter_none; [done|]. intros k Hk%elem_of_seqZ. lia.
Qed.

Lemma ids_from_lookup m : ∀ n l k, 0 <= n → length l = Z.to_nat NCPU →
  ids_from n m l !! k = if decide (n <= Z.of_nat k < Z.min NCPU (n + Z.of_nat m)) then Some (u8 (Z.of_nat k)) else l !! k.
Proof.
  induction m as [|m IH]; intros n l k Hn Hl; unfold ids_from in *; [cbn; by rewrite decide_False by lia|].
  rewrite seqZ_S. cbn [foldl]. rewrite IH; [|lia|by destruct (n <? NCPU); rewrite ?length_insert].
  destruct (decide (n + 1 <= _ < _)); [by rewrite decide_True by lia|].
  destruct (Z.ltb_spec n NCPU); [|by rewrite decide_False by lia]. destruct (decide (Z.of_nat k = n)) as [<-|Hne].
  - rewrite decide_True, Nat2Z.id by lia. apply list_lookup_insert_eq. lia.
  - rewrite decide_False by lia. apply list_lookup_insert_ne. lia.
Qed.

Lemma mpinit_proc_spec s p apicid flags : phys s (p + 1) = apicid → phys s (p + 3) = flags →
  mpinit_proc p s = Done tt (mkMp (phys s) (if ncpu s <? NCPU then <[Z.to_nat (ncpu s) := u8 (ncpu s)]> (cpu_id s) else cpu_id s)
    (behind s ++ if ncpu s <? NCPU then [] else [(ncpu s, u8 (ncpu s))]) (if boots (apicid, flags) then ncpu s else bcpu s)
    (if ncpu s =? apicid then ismp s else 0) (ncpu s + 1) (ioapicid s) (lapic s) (imcr s) (outs s)).
Proof.
  intros H1 H2. unfold mpinit_proc, boots, store_id. mgo. rewrite H1, H2. cbn [snd].
  destruct (ncpu s <? NCPU); rewrite ?app_nil_r; destruct (ncpu s =? apicid), (Z.land flags MPBOOT =? 0); reflexivity.
Qed.

(** The loop on a table. *)
Lemma mpinit_loop_spec es : ∀ fuel s p e, entries_at (phys s) p e es → (length es <= fuel)%nat →
  ∃ s', mpinit_loop fuel p e s = Done tt s' ∧ phys s' = phys s ∧ lapic s' = lapic s ∧ imcr s' = imcr s ∧ outs s' = outs s ∧
    ncpu s' = ncpu s + Z.of_nat (length (procs es)) ∧
    (ismp s' = if decide (in_order (ncpu s) (procs es)) then ismp s else 0) ∧
    bcpu s' = boot_index (ncpu s) (bcpu s) (procs es) ∧ ioapicid s' = default (ioapicid s) (last (apics es)) ∧
    cpu_id s' = ids_from (ncpu s) (length (procs es)) (cpu_id s) ∧
    behind s' = behind s ++ behind_from (ncpu s) (length (procs es)).
Proof.
  induction es as [|x es IH]; intros fuel s p e Hat Hfu.
  { cbn in Hat. subst e. exists s. cbn [procs apics omap list_omap length last boot_index default]. split_and!; [|done..|lia| |done|done|done|by rewrite app_nil_r].
    - destruct fuel; cbn [mpinit_loop]; by rewrite Z.ltb_irrefl.
    - rewrite decide_True; [done|]. intros k q. by rewrite lookup_nil. }
  destruct Hat as [Hx Hat]. pose proof (entries_le _ _ _ _ Hat) as Hle. assert (8 <= entry_size x) by (destruct x; cbn; lia).
  destruct fuel as [|fuel]; [cbn in Hfu; lia|]. cbn [length] in Hfu. cbn [mpinit_loop]. rewrite (proj2 (Z.ltb_lt p e)) by lia. mgo.
  destruct x as [apicid flags|id|ty]; cbn [entry_at entry_size] in *.
  - destruct Hx as (-> & H1 & H2). change (MPPROC =? MPPROC) with true. cbn iota.
    rewrite bind_assoc, (bind_Done _ _ _ _ _ (mpinit_proc_spec s p apicid flags H1 H2)). mgo. unfold MPPROC_SIZE.
    match goal with |- context [mpinit_loop fuel _ _ ?s1] => destruct (IH fuel s1 (p + 20) e Hat) as (s' & E & A1 & A2 & A3 & A4 & A5 & A6 & A7 & A8 & A9 & A10) end; [lia|].
    cbn [phys cpu_id behind bcpu ismp ncpu ioapicid lapic imcr outs] in *. rewrite E. exists s'. unfold procs, apics. cbn [omap list_omap length boot_index].
    fold (procs es) (apics es). split_and!; try done; [lia| | |].
    + rewrite A6. destruct (Z.eqb_spec (ncpu s) apicid) as [Ea|Ea].
      * destruct (decide (in_order (ncpu s + 1) (procs es))) as [Hi|Hi]; [rewrite decide_True|rewrite decide_False]; rewrite ?in_order_cons; naive_solver.
      * rewrite (decide_False (P := in_order (ncpu s) _)) by (rewrite in_order_cons; naive_solver). by destruct (decide _).
    + rewrite A9. unfold ids_from. by rewrite seqZ_S.
    + by rewrite A10, behind_from_S, app_assoc.
  - destruct Hx as (-> & H1). change (MPIOAPIC =? MPPROC) with false. change (MPIOAPIC =? MPIOAPIC) with true. cbn iota.
    rewrite bind_assoc. mgo. mgo. unfold MPIOAPIC_SIZE. rewrite H1.
    destruct (IH fuel (set_ioapicid id s) (p + 8) e Hat) as (s' & E & A1 & A2 & A3 & A4 & A5 & A6 & A7 & A8 & A9 & A10); [lia|].
    cbn [phys cpu_id behind bcpu ismp ncpu ioapicid lapic imcr outs set_ioapicid] in *. rewrite E. exists s'. unfold procs, apics. cbn [omap list_omap].
    fold (procs es) (apics es). split_and!; try done. rewrite A8, last_cons. by destruct (last (apics es)).
  - destruct Hx as (-> & Hty).
    assert ((if ty =? MPPROC then mpinit_proc p;; mret (p + MPPROC_SIZE)
      else if ty =? MPIOAPIC then modify (set_ioapicid (phys s (p + 1)));; mret (p + MPIOAPIC_SIZE)
      else if (ty =? MPBUS) || (ty =? MPIOINTR) || (ty =? MPLINTR) then mret (p + 8) else modify (set_ismp 0);; mret p) s = Done (p + 8) s) as E0.
    { by destruct Hty as [->|[->| ->]]. }
    rewrite (bind_Done _ _ _ _ _ E0). destruct (IH fuel s (p + 8) e Hat) as (s' & E & HA); [lia|]. by exists s'.
Qed.

(** C31. [mpinit] finds the processors: on a table of known entries with at most
    [NCPU] processors it returns and writes nothing behind [cpus]; if the
    processors' APIC ids are 0, 1, 2, ... in the order of the table, it has
    counted and numbered them all, noted the last one marked as the boot
    processor, the local APIC's address and the last I/O APIC, and masked the
    external interrupts if the table asks for it; otherwise it falls back to
    one processor without an APIC. *)
Theorem mpinit_reads_table s mp conf es :
  ncpu s = 0 → outs s = [] → length (cpu_id s) = Z.to_nat NCPU → behind s = [] →
  mpconfig (phys s) = Some (mp, conf) →
  entries_at (phys s) (conf + MPCONF_SIZE) (conf + conf_length (phys s) conf) es →
  Z.of_nat (length (procs es)) <= NCPU →
  ∃ s', mpinit s = Done tt s' ∧ behind s' = [] ∧
    if decide (in_order 0 (procs es)) then
      ismp s' = 1 ∧ ncpu s' = Z.of_nat (length (procs es)) ∧
      (∀ k, Z.of_nat k < ncpu s' → cpu_id s' !! k = Some (Z.of_nat k)) ∧
      bcpu s' = boot_index 0 0 (procs es) ∧ lapic s' = ld32 (phys s) (conf + 36) ∧ ioapicid s' = default (ioapicid s) (last (apics es)) ∧
      outs s' = (if phys s (mp + 12) =? 0 then [] else [(0x22, 0x70); (0x23, Z.lor (imcr s) 1)])
    else ismp s' = 0 ∧ ncpu s' = 1 ∧ lapic s' = 0 ∧ ioapicid s' = 0.
Proof.
  intros Hn Ho Hlen Hbe Hc Hat Hmax. unfold mpinit. mgo. mgo. change (phys (set_bcpu 0 s)) with (phys s). rewrite Hc. mgo. mgo. cbn zeta.
  set (s0 := set_lapic _ _). pose proof (entries_le _ _ _ _ Hat) as Hle. unfold MPCONF_SIZE in *.
  destruct (mpinit_loop_spec es (Z.to_nat (conf_length (phys s) conf)) s0 (conf + 44) (conf + conf_length (phys s) conf) Hat)
    as (s1 & E & A1 & A2 & A3 & A4 & A5 & A6 & A7 & A8 & A9 & A10); [lia|]. rewrite (bind_Done _ _ _ _ _ E). mgo.
  change (ncpu s0) with (ncpu s) in *. change (bcpu s0) with 0 in *. change (ismp s0) with 1 in *. change (outs s0) with (outs s) in *.
  change (phys s0) with (phys s) in *. change (cpu_id s0) with (cpu_id s) in *. change (behind s0) with (behind s) in *. rewrite Hn in *.
  rewrite behind_from_nil, Hbe in A10 by done. rewrite A6.
  assert (Hids : ∀ k, Z.of_nat k < ncpu s1 → cpu_id s1 !! k = Some (Z.of_nat k)).
  { intros k Hk. rewrite A9, ids_from_lookup, decide_True by (done || lia). f_equal. apply u8_id. unfold is_u8, NCPU in *. lia. }
  destruct (decide (in_order 0 (procs es))) as [Hi|Hi].
  - change (1 =? 0) with false. cbn iota. rewrite A1. destruct (Z.eqb_spec (phys s (mp + 12)) 0) as [Hz|Hz]; cbn [negb].
    + exists s1. split; [done|]. split_and!; try done. congruence.
    + unfold mp_out. mgo. mgo. eexists. split; [done|]. cbn. rewrite A4, Ho, A3. split_and!; done.
  - change (0 =? 0) with true. cbn iota. mgo. mgo. by eexists.
Qed.

(** An entry of another kind stops the machine: [mpinit] reports it and then
    looks at the same entry again, for ever. *)
Theorem mpinit_unknown_entry_loops s p e : p < e → (∀ ty, ty ∈ [MPPROC; MPBUS; MPIOAPIC; MPIOINTR; MPLINTR] → phys s p ≠ ty) →
  ∀ fuel, mpinit_loop fuel p e s = OutOfFuel.
Proof.
  intros Hp Hty. assert (Hno : ∀ ty, ty ∈ [MPPROC; MPBUS; MPIOAPIC; MPIOINTR; MPLINTR] → (phys s p =? ty) = false).
  { intros ty Hin. apply Z.eqb_neq. by apply Hty. }
  intros fuel. revert s Hty Hno. induction fuel as [|fuel IH]; intros s Hty Hno; cbn [mpinit_loop]; rewrite (proj2 (Z.ltb_lt p e) Hp); mgo;
    rewrite !Hno by set_solver; cbn [orb]; rewrite bind_assoc; mgo; mgo; [done|]. by apply IH.
Qed.

(** With more than [NCPU] processors in the table, [mpinit] writes the rest behind
    the end of [cpus]. *)
Theorem mpinit_overruns_cpus fuel s p e es : ncpu s = 0 → behind s = [] → entries_at (phys s) p e es → (length es <= fuel)%nat →
  NCPU < Z.of_nat (length (procs es)) →
  ∃ s', mpinit_loop fuel p e s = Done tt s' ∧ behind s' = (λ k, (k, u8 k)) <$> seqZ NCPU (Z.of_nat (length (procs es)) - NCPU).
Proof.
  intros Hn Hb Hat Hf Hlen. destruct (mpinit_loop_spec es fuel s p e Hat Hf) as (s' & E & _ & _ & _ & _ & _ & _ & _ & _ & _ & A10).
  exists s'. split; [done|]. rewrite A10, Hb, Hn. unfold behind_from. cbn [app]. f_equal.
  replace (Z.of_nat (length (procs es))) with (NCPU + (Z.of_nat (length (procs es)) - NCPU)) at 1 by lia.
  rewrite seqZ_app by (unfold NCPU in *; lia). rewrite filter_app, filter_none, filter_id; [done| |]; intros k Hk%elem_of_seqZ; lia.
Qed.

(** ** A table

    The floating structure at 0xF0000 and the table at 0x9000: two processors,
    the second of which boots, a bus and an I/O APIC. *)
Definition demo_mp : list Z := [95; 77; 80; 95; 0; 0x90; 0; 0; 1; 4; 16; 0; 0; 0; 0; 0].
Definition demo_conf : list Z :=
  [80; 67; 77; 80; 100; 0; 4; 125] ++ replicate 28 0 ++ [0; 0; 0xe0; 0xfe] ++ replicate 4 0 ++
  ([0; 0; 0; 1] ++ replicate 16 0) ++ ([0; 1; 0; 3] ++ replicate 16 0) ++ ([1] ++ replicate 7 0) ++ ([2; 5; 0; 0] ++ replicate 4 0).
Definition demo_table : mpst :=
  mkMp (st_bytes (st_bytes (λ _, 0) 0xF0000 demo_mp) 0x9000 demo_conf) (replicate 8 0) [] 0 0 0 0 0 0 [].

Lemma mpinit_reads_table_witness :
  ∃ s', mpinit demo_table = Done tt s' ∧ ncpu s' = 2 ∧ bcpu s' = 1 ∧ ioapicid s' = 5 ∧ lapic s' = 0xfee00000.
Proof.
  destruct (mpinit_reads_table demo_table 0xF0000 0x9000 [EProc 0 1; EProc 1 3; EOther MPBUS; EIoapic 5]) as (s' & E & H).
  - reflexivity.
  - reflexivity.
  - reflexivity.
  - reflexivity.
  - vm_compute. reflexivity.
  - vm_compute. repeat split; auto.
  - vm_compute. discriminate.
  - exists s'. split; [exact E|]. destruct H as [_ H]. rewrite decide_True in H by (apply (bool_decide_unpack _ (dec := in_order_dec _ _)); vm_compute; exact I).
    destruct H as (_ & H2 & _ & H4 & H5 & H6 & _). rewrite H2, H4, H5, H6. vm_compute. auto.
Defined.
