(* ===== verification/Entry.v ===== *)
(** * Descriptor tables, trap entry and context switch
    (mmu.h, vm.c, trap.c, vectors.pl, trapasm.S, swtch.S, usys.S, exit_ext.S,
    initcode.S)

    The assembly files are lists of instructions run by a small model of the
    processor: the registers, and the memory of CString.v.  The model has the
    instructions these files use, the delivery of an interrupt through a gate
    and [iret].  Straight-line code does not track EIP; a call pushes it, runs
    the C function up to and including its [ret], and goes on.  A C function is
    any function on the state, with what is relied on stated of it.

    Descriptors are packed to 64 bits as the compiler lays out the bit-fields,
    and unpacked as the processor's manual says.  [Proc.trapframe] is the frame
    the kernel's C code works on: the theorems show that it is what the entry
    code leaves in memory. *)

From S2P Require Import Prelude CString Proc Trap.
#[local] Open Scope Z_scope.

Definition SEG_KCODE : Z := 1.
Definition SEG_KDATA : Z := 2.
Definition SEG_KCPU : Z := 3.
Definition STA_X : Z := 8.
Definition STA_W : Z := 2.
Definition STA_R : Z := 2.
Definition STS_IG32 : Z := 14.
Definition STS_TG32 : Z := 15.

(** An unsigned bit-field of [n] bits. *)
Definition bits (n v : Z) : Z := v mod 2 ^ n.

(** ** Segment descriptors *)

Record segdesc := mkSeg {
  lim_15_0 : Z;
  base_15_0 : Z;
  base_23_16 : Z;
  seg_type : Z;
  seg_s : Z;
  seg_dpl : Z;
  seg_p : Z;
  lim_19_16 : Z;
  seg_avl : Z;
  seg_rsv1 : Z;
  seg_db : Z;
  seg_g : Z;
  base_31_24 : Z;
}.

Definition SEG (type base lim dpl : Z) : segdesc :=
  mkSeg (bits 16 (Z.land (Z.shiftr lim 12) 0xffff)) (bits 16 (Z.land (u32 base) 0xffff))
    (bits 8 (Z.land (Z.shiftr (u32 base) 16) 0xff)) (bits 4 type) 1 (bits 2 dpl) 1
    (bits 4 (Z.shiftr (u32 lim) 28)) 0 0 1 1 (bits 8 (Z.shiftr (u32 base) 24)).

(** [c->gdt] after [seginit]; [cpu_addr] is [&c->cpu]. *)
Definition seginit (cpu_addr : Z) (gdt : Z → segdesc) : Z → segdesc :=
  let gdt := <[SEG_KCODE := SEG (Z.lor STA_X STA_R) 0 0xffffffff 0]> gdt in
  let gdt := <[SEG_KDATA := SEG STA_W 0 0xffffffff 0]> gdt in
  let gdt := <[SEG_UCODE := SEG (Z.lor STA_X STA_R) 0 0xffffffff DPL_USER]> gdt in
  let gdt := <[SEG_UDATA := SEG STA_W 0 0xffffffff DPL_USER]> gdt in
  <[SEG_KCPU := SEG STA_W cpu_addr 8 0]> gdt.

(** ** Gates *)

Record gatedesc := mkGate {
  off_15_0 : Z;
  gate_cs : Z;
  gate_args : Z;
  gate_rsv1 : Z;
  gate_type : Z;
  gate_s : Z;
  gate_dpl : Z;
  gate_p : Z;
  off_31_16 : Z;
}.

Definition SETGATE (istrap : bool) (sel off d : Z) : gatedesc :=
  mkGate (bits 16 (Z.land (u32 off) 0xffff)) (bits 16 sel) 0 0
    (bits 4 (if istrap then STS_TG32 else STS_IG32)) 0 (bits 2 d) 1
    (bits 16 (Z.shiftr (u32 off) 16)).

Definition tvinit_loop (vectors : Z → Z) (idt : Z → gatedesc) : Z → gatedesc :=
  foldl (λ idt i, <[Z.of_nat i := SETGATE false (Z.shiftl SEG_KCODE 3) (vectors (Z.of_nat i)) 0]> idt)
    idt (seq 0 256).

Definition tvinit (vectors : Z → Z) (idt : Z → gatedesc) : Z → gatedesc :=
  <[T_SYSCALL := SETGATE true (Z.shiftl SEG_KCODE 3) (vectors T_SYSCALL) DPL_USER]>
    (tvinit_loop vectors idt).

(** ** The processor *)

(** The descriptors as 64-bit words, in the order of their bit-fields. *)
Definition pack_seg (d : segdesc) : Z :=
  lim_15_0 d + 2 ^ 16 * (base_15_0 d + 2 ^ 16 * (base_23_16 d + 2 ^ 8 * (seg_type d + 2 ^ 4 * (seg_s d +
    2 ^ 1 * (seg_dpl d + 2 ^ 2 * (seg_p d + 2 ^ 1 * (lim_19_16 d + 2 ^ 4 * (seg_avl d + 2 ^ 1 * (seg_rsv1 d +
    2 ^ 1 * (seg_db d + 2 ^ 1 * (seg_g d + 2 ^ 1 * base_31_24 d))))))))))).

Definition pack_gate (g : gatedesc) : Z :=
  off_15_0 g + 2 ^ 16 * (gate_cs g + 2 ^ 16 * (gate_args g + 2 ^ 5 * (gate_rsv1 g + 2 ^ 3 * (gate_type g +
    2 ^ 4 * (gate_s g + 2 ^ 1 * (gate_dpl g + 2 ^ 2 * (gate_p g + 2 ^ 1 * off_31_16 g))))))).

(** Bits [i] to [i + n - 1] of a descriptor, where the processor finds a field. *)
Definition field (d i n : Z) : Z := (d / 2 ^ i) mod 2 ^ n.

Definition hw_base (d : Z) : Z := field d 16 24 + 2 ^ 24 * field d 56 8.
Definition hw_limit (d : Z) : Z :=
  let l := field d 0 16 + 2 ^ 16 * field d 48 4 in
  if field d 55 1 =? 1 then l * 2 ^ 12 + 4095 else l.
Definition hw_dpl (d : Z) : Z := field d 45 2.
Definition hw_present (d : Z) : bool := field d 47 1 =? 1.
Definition hw_type (d : Z) : Z := field d 40 5.
Definition hw_offset (d : Z) : Z := field d 0 16 + 2 ^ 16 * field d 48 16.
Definition hw_selector (d : Z) : Z := field d 16 16.

Inductive reg := EDI | ESI | EBP | ESP | EBX | EDX | ECX | EAX | GS | FS | ES | DS | CS | SS | EIP | EFLAGS.

#[export] Instance reg_eq_dec : EqDecision reg.
Proof. solve_decision. Defined.

Definition reg_num (r : reg) : nat :=
  match r with
  | EDI => 0 | ESI => 1 | EBP => 2 | ESP => 3 | EBX => 4 | EDX => 5 | ECX => 6 | EAX => 7
  | GS => 8 | FS => 9 | ES => 10 | DS => 11 | CS => 12 | SS => 13 | EIP => 14 | EFLAGS => 15
  end.

Definition is_segment (r : reg) : bool := (8 <=? reg_num r)%nat && (reg_num r <=? 13)%nat.

Record x86 := mkX86 {
  R : reg → Z;
  ram : mem;
}.

Definition set_reg (r : reg) (v : Z) (x : x86) : x86 :=
  mkX86 (λ r', if (reg_num r' =? reg_num r)%nat then v else R x r') (ram x).
Definition store (a v : Z) (x : x86) : x86 := mkX86 (R x) (st32 (ram x) a v).

Definition push (v : Z) (x : x86) : x86 :=
  let e := u32 (R x ESP - 4) in store e v (set_reg ESP e x).

Definition pushes (l : list Z) (x : x86) : x86 := foldl (λ y v, push v y) x l.

(** A segment register takes the low half of the word popped. *)
Definition load (r : reg) (m : mem) (a : Z) : Z := if is_segment r then ld16 m a else ld32 m a.
Definition pop (r : reg) (x : x86) : x86 :=
  let e := R x ESP in set_reg r (load r (ram x) e) (set_reg ESP (u32 (e + 4)) x).
Definition pops (rs : list reg) (x : x86) : x86 := foldl (λ y r, pop r y) x rs.

Inductive instr :=
  | Pushl (r : reg)
  | Pushi (v : Z)
  | Pushal
  | Popl (r : reg)
  | Popal
  | Movwi (v : Z) (r : reg)
  | Movw (r s : reg)
  | Movli (v : Z) (r : reg)
  | Movl (r r' : reg)
  | Load (off : Z) (b r : reg)
  | Store (r b : reg)
  | Addl (v : Z) (r : reg)
  | Call (f : x86 → x86)
  | Ret
  | Iret.

(** [iret] takes the stack pointer too when it goes to an outer ring. *)
Definition iret (x : x86) : x86 :=
  let cpl := Z.land (R x CS) 3 in
  let x := pops [EIP; CS; EFLAGS] x in
  if cpl <? Z.land (R x CS) 3 then
    let e := R x ESP in
    set_reg SS (ld16 (ram x) (u32 (e + 4))) (set_reg ESP (ld32 (ram x) e) x)
  else x.

Definition step (i : instr) (x : x86) : x86 :=
  match i with
  | Pushl r => push (R x r) x
  | Pushi v => push v x
  | Pushal => pushes [R x EAX; R x ECX; R x EDX; R x EBX; R x ESP; R x EBP; R x ESI; R x EDI] x
  | Popl r => pop r x
  | Popal =>
      let x := pops [EDI; ESI; EBP] x in
      pops [EBX; EDX; ECX; EAX] (set_reg ESP (u32 (R x ESP + 4)) x)
  | Movwi v r => set_reg r (R x r / 2 ^ 16 * 2 ^ 16 + u16 v) x
  | Movw r s => set_reg s (u16 (R x r)) x
  | Movli v r => set_reg r v x
  | Movl r r' => set_reg r' (R x r) x
  | Load off b r => set_reg r (ld32 (ram x) (u32 (R x b + off))) x
  | Store r b => store (R x b) (R x r) x
  | Addl v r => set_reg r (u32 (R x r + v)) x
  | Call f => f (push (R x EIP) x)
  | Ret => pop EIP x
  | Iret => iret x
  end.

Definition exec (code : list instr) (x : x86) : x86 := foldl (λ x i, step i x) x code.

(** Delivery of interrupt or exception [i] through its gate: to the stack of
    the task state when the handler's ring is an inner one.  [ec] is the error
    code the processor pushes for some exceptions.  [None] stands for the
    further fault of a descriptor that is not present. *)
Section Deliver.
Variables (gdt idt : Z → Z) (esp0 ss0 : Z).

Definition fl_clear (type : Z) : Z := if type =? STS_IG32 then 0x34300 else 0x34100.

Definition deliver (i : Z) (ec : option Z) (x : x86) : option x86 :=
  let g := idt i in
  let c := gdt (hw_selector g / 8) in
  if negb (hw_present g && hw_present c) then None else
  let words := [R x EFLAGS; R x CS; R x EIP] ++ option_list ec in
  let x' := if hw_dpl c <? Z.land (R x CS) 3
            then pushes ([R x SS; R x ESP] ++ words) (set_reg SS ss0 (set_reg ESP esp0 x))
            else pushes words x in
  Some (set_reg EFLAGS (Z.ldiff (R x EFLAGS) (fl_clear (hw_type g)))
    (set_reg EIP (hw_offset g) (set_reg CS (hw_selector g / 8 * 8 + hw_dpl c) x'))).

(** [int $n]: a gate for inner rings only is a protection fault. *)
Definition int (n : Z) (x : x86) : option x86 :=
  if hw_dpl (idt n) <? Z.land (R x CS) 3 then deliver 13 (Some (n * 8 + 2)) x else deliver n None x.
End Deliver.

(** ** Trap entry and exit *)

(** The exceptions for which the processor pushes an error code. *)
Definition has_err (i : Z) : bool := (i =? 8) || ((10 <=? i) && (i <=? 14)) || (i =? 17).

(** The entry point vectors.pl prints for [i], up to its jump to [alltraps]. *)
Definition vector (i : Z) : list instr :=
  (if negb ((i =? 8) || ((10 <=? i) && (i <=? 14)) || (i =? 17)) then [Pushi 0] else []) ++ [Pushi i].

Definition build_frame : list instr :=
  [Pushl DS; Pushl ES; Pushl FS; Pushl GS; Pushal;
   Movwi (Z.shiftl SEG_KDATA 3) EAX; Movw EAX DS; Movw EAX ES;
   Movwi (Z.shiftl SEG_KCPU 3) EAX; Movw EAX FS; Movw EAX GS].

Definition trapret (do_signal : x86 → x86) : list instr :=
  [Pushl ESP; Call do_signal; Addl 4 ESP;
   Popal; Popl GS; Popl FS; Popl ES; Popl DS; Addl 8 ESP; Iret].

Definition alltraps (trap do_signal : x86 → x86) : list instr :=
  build_frame ++ [Pushl ESP; Call trap; Addl 4 ESP] ++ trapret do_signal.

(** [struct trapframe] at [a]. *)
Definition read_tf (m : mem) (a : Z) : trapframe :=
  mkTf (ld32 m a) (ld32 m (a + 4)) (ld32 m (a + 8)) (ld32 m (a + 12)) (ld32 m (a + 16)) (ld32 m (a + 20))
    (ld32 m (a + 24)) (ld32 m (a + 28)) (ld16 m (a + 32)) (ld16 m (a + 34)) (ld16 m (a + 36)) (ld16 m (a + 38))
    (ld16 m (a + 40)) (ld16 m (a + 42)) (ld16 m (a + 44)) (ld16 m (a + 46)) (ld32 m (a + 48)) (ld32 m (a + 52))
    (ld32 m (a + 56)) (ld16 m (a + 60)) (ld16 m (a + 62)) (ld32 m (a + 64)) (ld32 m (a + 68)) (ld16 m (a + 72))
    (ld16 m (a + 74)).

(** ** Context switch *)

Definition swtch : list instr :=
  [Load 4 ESP EAX; Load 8 ESP EDX;
   Pushl EBP; Pushl EBX; Pushl ESI; Pushl EDI;
   Store ESP EAX; Movl EDX ESP;
   Popl EDI; Popl ESI; Popl EBX; Popl EBP; Ret].

(** [struct context]. *)
Record context := mkContext {
  ctx_edi : Z;
  ctx_esi : Z;
  ctx_ebx : Z;
  ctx_ebp : Z;
  ctx_eip : Z;
}.

Definition read_context (m : mem) (a : Z) : context :=
  mkContext (ld32 m a) (ld32 m (a + 4)) (ld32 m (a + 8)) (ld32 m (a + 12)) (ld32 m (a + 16)).

(** The words [allocproc] puts on a new kernel stack, below the trap frame,
    and the address of the context. *)
Definition allocproc_stack (kstack trapret_addr forkret_addr : Z) (m : mem) : Z * Z * mem :=
  let sp := kstack + KSTACKSIZE in
  let sp := sp - 76 in
  let tf := sp in
  let sp := sp - 4 in
  let m := st32 m sp trapret_addr in
  let sp := sp - 20 in
  let m := KString.memset sp 0 20 m in
  let m := st32 m (sp + 16) forkret_addr in
  (tf, sp, m).

(** ** System call stubs *)

(** The numbers of syscall.h, in the order of the stubs of usys.S. *)
Definition usys_numbers : list Z :=
  [1; 2; 3; 4; 5; 16; 21; 6; 7; 15; 17; 18; 8; 19; 20; 9; 10; 11; 12; 13; 14; 22; 23; 24; 25; 26; 27].

(** A stub up to its [int $T_SYSCALL]; what is left of it is [ret]. *)
Definition stub (num : Z) : list instr := [Movli num EAX].

(** The first process's code, up to its first [int $T_SYSCALL]. *)
Definition initcode (argv init : Z) : list instr := [Pushi argv; Pushi init; Pushi 0; Movli 7 EAX].

(** The code below a program's stack that its [main] returns to, up to its
    [int $64]. *)
Definition exit_start : list instr := [Pushl EAX; Movli 2 EAX].

(** * Descriptors *)

Lemma bits_range n v : 0 <= n → 0 <= bits n v < 2 ^ n.
Proof. intros. apply Z.mod_pos_bound. lia. Qed.

Lemma field_high a k r i n : 0 <= a < 2 ^ k → 0 <= k <= i → field (a + 2 ^ k * r) i n = field r (i - k) n.
Proof.
  intros Ha Hk. unfold field. replace (2 ^ i) with (2 ^ k * 2 ^ (i - k)) by (rewrite <- Z.pow_add_r by lia; f_equal; lia).
  rewrite <- Z.div_div by lia. do 2 f_equal. rewrite Z.mul_comm, Z.div_add by lia. rewrite Z.div_small; lia.
Qed.

Lemma field_cross a k r n : 0 <= a < 2 ^ k → 0 <= k <= n →
  field (a + 2 ^ k * r) 0 n = a + 2 ^ k * field r 0 (n - k).
Proof.
  intros Ha Hk. unfold field. rewrite !Z.div_1_r.
  replace (2 ^ n) with (2 ^ k * 2 ^ (n - k)) by (rewrite <- Z.pow_add_r by lia; f_equal; lia).
  assert (0 < 2 ^ k) by lia. assert (0 < 2 ^ (n - k)) by lia.
  rewrite Z.rem_mul_r by lia. rewrite (Z.mul_comm (2 ^ k) r), Z.mod_add, Z.div_add by lia.
  rewrite Z.mod_small, (Z.div_small a) by lia. done.
Qed.

Lemma field_0 r : field r 0 0 = 0.
Proof. unfold field. apply Z.mod_1_r. Qed.

Lemma field_id r n : 0 <= r < 2 ^ n → field r 0 n = r.
Proof. intros. unfold field. rewrite Z.div_1_r. by apply Z.mod_small. Qed.

Lemma land_mask v : Z.land v 0xffff = v mod 2 ^ 16.
Proof. change 0xffff with (Z.ones 16). by apply Z.land_ones. Qed.

(** Reads a field out of a packed descriptor. *)
Ltac fields := repeat match goal with
  | |- context [field (?a + 2 ^ ?k * ?r) ?i ?n] =>
      first
        [ rewrite (field_high a k r i n) by lia; let j := eval vm_compute in (i - k) in change (i - k) with j
        | rewrite (field_cross a k r n) by lia; let j := eval vm_compute in (n - k) in change (n - k) with j ]
  end.

Definition gate_of (istrap : bool) (sel off d : Z) : Z := pack_gate (SETGATE istrap sel off d).

Lemma u32_split off : Z.land (u32 off) 0xffff + 2 ^ 16 * Z.shiftr (u32 off) 16 = u32 off.
Proof. rewrite land_mask, Z.shiftr_div_pow2 by lia. rewrite Z.add_comm. symmetry. apply Z.div_mod. lia. Qed.

Lemma shiftr_u32_range off n : 0 <= n <= 32 → 0 <= Z.shiftr (u32 off) n < 2 ^ (32 - n).
Proof.
  intros. pose proof (u32_range off) as Hr. rewrite Z.shiftr_div_pow2 by lia. unfold is_u32 in Hr. split.
  - apply Z.div_pos; lia.
  - apply Z.div_lt_upper_bound; [lia|]. rewrite <- Z.pow_add_r by lia. replace (n + (32 - n)) with 32 by lia. lia.
Qed.

Lemma bits_id n v : 0 <= v < 2 ^ n → bits n v = v.
Proof. apply Z.mod_small. Qed.

(** What the processor reads in a gate that [SETGATE] filled. *)
Lemma gate_read istrap sel off d : 0 <= sel < 2 ^ 16 → 0 <= d < 4 →
  hw_offset (gate_of istrap sel off d) = u32 off ∧ hw_selector (gate_of istrap sel off d) = sel ∧
  hw_present (gate_of istrap sel off d) = true ∧ hw_dpl (gate_of istrap sel off d) = d ∧
  hw_type (gate_of istrap sel off d) = (if istrap then STS_TG32 else STS_IG32).
Proof.
  intros Hs Hd. pose proof (shiftr_u32_range off 16).
  unfold hw_offset, hw_selector, hw_present, hw_dpl, hw_type, gate_of, pack_gate, SETGATE.
  cbn [off_15_0 gate_cs gate_args gate_rsv1 gate_type gate_s gate_dpl gate_p off_31_16].
  rewrite (bits_id 2), (bits_id 16 sel), (bits_id 4), (bits_id 16 (Z.shiftr _ _)), (bits_id 16 (Z.land _ _)).
  2: { rewrite land_mask. apply Z.mod_pos_bound. lia. }
  2-5: destruct istrap; unfold STS_TG32, STS_IG32; lia.
  assert (0 <= Z.land (u32 off) 0xffff < 2 ^ 16) by (rewrite land_mask; apply Z.mod_pos_bound; lia).
  pose proof (u32_split off) as E. set (lo := Z.land _ _) in *. set (hi := Z.shiftr _ _) in *. clearbody lo hi.
  destruct istrap; unfold STS_TG32, STS_IG32; split_and!; fields; rewrite ?field_0, ?field_id by lia; first [done | lia].
Qed.

Definition seg_of (type base lim dpl : Z) : Z := pack_seg (SEG type base lim dpl).

Lemma land_byte v : Z.land v 0xff = v mod 2 ^ 8.
Proof. change 0xff with (Z.ones 8). by apply Z.land_ones. Qed.

Lemma div_div_pow v i j : 0 <= i → 0 <= j → v / 2 ^ i / 2 ^ j = v / 2 ^ (i + j).
Proof. intros. rewrite Z.pow_add_r by lia. apply Z.div_div; lia. Qed.

(** What the processor reads in a descriptor made with [SEG]. *)
Lemma seg_read type base lim dpl : 0 <= type < 16 → 0 <= dpl < 4 → 0 <= lim < 2 ^ 32 →
  hw_base (seg_of type base lim dpl) = u32 base ∧
  hw_limit (seg_of type base lim dpl) = lim / 2 ^ 12 * 2 ^ 12 + 4095 ∧
  hw_present (seg_of type base lim dpl) = true ∧ hw_dpl (seg_of type base lim dpl) = dpl ∧
  hw_type (seg_of type base lim dpl) = 16 + type.
Proof.
  intros Ht Hd Hl. pose proof (u32_range base) as Hb. unfold is_u32 in Hb.
  unfold hw_base, hw_limit, hw_present, hw_dpl, hw_type, seg_of, pack_seg, SEG.
  cbn [lim_15_0 base_15_0 base_23_16 seg_type seg_s seg_dpl seg_p lim_19_16 seg_avl seg_rsv1 seg_db seg_g base_31_24].
  rewrite !land_mask, land_byte, !Z.shiftr_div_pow2 by lia. unfold bits. rewrite !Z.mod_mod by lia. rewrite (u32_id lim) by done.
  set (b := u32 base) in *. clearbody b.
  assert (0 <= lim / 2 ^ 28 < 2 ^ 4) by (split; [apply Z.div_pos | apply Z.div_lt_upper_bound]; lia).
  assert (0 <= b / 2 ^ 24 < 2 ^ 8) by (split; [apply Z.div_pos | apply Z.div_lt_upper_bound]; lia).
  rewrite (Z.mod_small type), (Z.mod_small dpl), (Z.mod_small (lim / 2 ^ 28)), (Z.mod_small (b / 2 ^ 24)) by lia.
  assert (lim / 2 ^ 12 = (lim / 2 ^ 12) mod 2 ^ 16 + 2 ^ 16 * (lim / 2 ^ 28)) as El.
  { rewrite (Z.add_comm _ (2 ^ 16 * _)). replace (lim / 2 ^ 28) with (lim / 2 ^ 12 / 2 ^ 16) by (rewrite div_div_pow by lia; done).
    apply Z.div_mod. lia. }
  assert (b = b mod 2 ^ 16 + 2 ^ 16 * ((b / 2 ^ 16) mod 2 ^ 8 + 2 ^ 8 * (b / 2 ^ 24))) as Eb.
  { rewrite (Z.add_comm ((b / 2 ^ 16) mod _)). replace (b / 2 ^ 24) with (b / 2 ^ 16 / 2 ^ 8) by (rewrite div_div_pow by lia; done).
    rewrite <- Z.div_mod by lia. rewrite Z.add_comm. apply Z.div_mod. lia. }
  pose proof (Z.mod_pos_bound b (2 ^ 16)). pose proof (Z.mod_pos_bound (b / 2 ^ 16) (2 ^ 8)).
  pose proof (Z.mod_pos_bound (lim / 2 ^ 12) (2 ^ 16)).
  set (b0 := b mod _) in *. set (b1 := (b / 2 ^ 16) mod _) in *. set (b2 := b / 2 ^ 24) in *.
  set (l0 := (lim / 2 ^ 12) mod _) in *. set (l1 := lim / 2 ^ 28) in *. clearbody b0 b1 b2 l0 l1.
  split_and!; fields; rewrite ?field_0, ?field_id by lia; first [done | lia | change (1 + 2 ^ 1 * 0 =? 1) with true; cbv iota; lia].
Qed.

Lemma tvinit_lookup vectors idt i : 0 <= i < 256 →
  tvinit vectors idt i = SETGATE (i =? T_SYSCALL) 8 (vectors i) (if i =? T_SYSCALL then DPL_USER else 0).
Proof.
  intros Hi. unfold tvinit. destruct (Z.eqb_spec i T_SYSCALL) as [->|Hn].
  { by rewrite fn_lookup_insert. }
  rewrite fn_lookup_insert_ne by done. unfold tvinit_loop.
  assert (∀ l g, foldl (λ idt i, <[Z.of_nat i := SETGATE false (Z.shiftl SEG_KCODE 3) (vectors (Z.of_nat i)) 0]> idt) g l i =
    if decide (Z.to_nat i ∈ l) then SETGATE false 8 (vectors i) 0 else g i) as H.
  { intros l. induction l as [|k l IH] using rev_ind; intros g; [done|]. rewrite foldl_snoc.
    destruct (decide (Z.of_nat k = i)) as [<-|Hk].
    - rewrite fn_lookup_insert, decide_True; [done|]. rewrite Nat2Z.id. set_solver.
    - rewrite fn_lookup_insert_ne, IH by done. apply decide_ext. rewrite elem_of_app, list_elem_of_singleton. split; [auto | intros [?|?]; [done | lia]]. }
  rewrite H, decide_True; [done|]. apply elem_of_seq. lia.
Qed.

(** * The stack *)

(** The words of [l] pushed below [e]. *)
Fixpoint stk (e : Z) (l : list Z) (m : mem) : mem :=
  match l with
  | [] => m
  | v :: l' => stk (e - 4) l' (st32 m (e - 4) v)
  end.

Lemma stk_app l l' : ∀ e m, stk e (l ++ l') m = stk (e - 4 * Z.of_nat (length l)) l' (stk e l m).
Proof.
  induction l as [|w l IH]; intros e m; cbn [stk app length]; [f_equal; lia|]. rewrite IH. f_equal. lia.
Qed.

Lemma stk_snoc l v : ∀ e m, stk e (l ++ [v]) m = st32 (stk e l m) (e - 4 * Z.of_nat (length l) - 4) v.
Proof.
  induction l as [|w l IH]; intros e m; cbn [stk app length]; [f_equal; lia|]. rewrite IH. f_equal. lia.
Qed.

Lemma stk_above l : ∀ e m a, e <= a → stk e l m a = m a.
Proof.
  induction l as [|w l IH]; intros e m a Ha; cbn [stk]; [done|]. rewrite IH by lia. apply st32_other. lia.
Qed.

Lemma stk_below l : ∀ e m a, a < e - 4 * Z.of_nat (length l) → stk e l m a = m a.
Proof.
  induction l as [|w l IH]; intros e m a Ha; cbn [stk length] in *; [done|]. rewrite IH by lia. apply st32_other. lia.
Qed.

Lemma stk_lookup l : ∀ e m k w, l !! k = Some w →
  ld32 (stk e l m) (e - 4 * Z.of_nat k - 4) = u32 w ∧ ld16 (stk e l m) (e - 4 * Z.of_nat k - 4) = u16 w.
Proof.
  induction l as [|v l IH]; intros e m [|k] w Hk; try done; cbn [stk] in *.
  - injection Hk as ->. replace (e - 4 * Z.of_nat 0 - 4) with (e - 4) by lia. unfold ld32, ld16.
    rewrite !stk_above by lia. split; [apply ld32_st32_eq | apply ld16_st32_lo].
  - replace (e - 4 * Z.of_nat (S k) - 4) with (e - 4 - 4 * Z.of_nat k - 4) by lia. by apply IH.
Qed.

(** The stack of [x] holds the words of [l] below [e], on the memory [m]. *)
Definition on_stack (x : x86) (e : Z) (l : list Z) (m : mem) : Prop :=
  R x ESP = e - 4 * Z.of_nat (length l) ∧ ram x = stk e l m.

Lemma push_on v x e l m : on_stack x e l m → 4 * Z.of_nat (S (length l)) <= e < 2 ^ 32 →
  on_stack (push v x) e (l ++ [v]) m.
Proof.
  intros [Hs Hr] He. unfold on_stack, push, store, set_reg. cbn [R ram reg_num Nat.eqb].
  rewrite Hs, length_app, u32_id by (unfold is_u32; lia). cbn [length]. split; [lia|]. rewrite Hr, stk_snoc. done.
Qed.

Lemma pushes_on ws : ∀ x e l m, on_stack x e l m → 4 * Z.of_nat (length (l ++ ws)) <= e < 2 ^ 32 →
  on_stack (pushes ws x) e (l ++ ws) m.
Proof.
  induction ws as [|w ws IH]; intros x e l m H He; cbn [pushes foldl]; [by rewrite app_nil_r|].
  rewrite length_app in He. cbn [length] in He. rewrite cons_middle, app_assoc. apply IH.
  - apply push_on; [done | lia].
  - rewrite !length_app. cbn [length]. lia.
Qed.

Lemma set_on r v x e l m : on_stack x e l m → r ≠ ESP → on_stack (set_reg r v x) e l m.
Proof. intros [Hs Hr] Hn. split; [|done]. by destruct r. Qed.

Lemma R_pushes ws r : r ≠ ESP → ∀ x, R (pushes ws x) r = R x r.
Proof.
  intros Hn. induction ws as [|w ws IH]; intros x; cbn [pushes foldl]; [done|]. etrans; [apply IH|]. by destruct r.
Qed.

Lemma R_set_ne r r' v x : r ≠ r' → R (set_reg r v x) r' = R x r'.
Proof. by destruct r, r'. Qed.

Lemma R_set r v x : R (set_reg r v x) r = v.
Proof. by destruct r. Qed.

(** * Trap entry *)

Lemma exec_app c c' x : exec (c ++ c') x = exec c' (exec c x).
Proof. apply foldl_app. Qed.

Lemma exec_cons i c x : exec (i :: c) x = exec c (step i x).
Proof. done. Qed.

(** The user registers a frame holds. *)
Definition tf_regs (t : trapframe) (r : reg) : Z :=
  match r with
  | EDI => edi t | ESI => esi t | EBP => ebp t | ESP => esp t | EBX => ebx t | EDX => edx t | ECX => ecx t
  | EAX => eax t | GS => gs t | FS => fsreg t | ES => es t | DS => ds t | CS => cs t | SS => ss t
  | EIP => eip t | EFLAGS => eflags t
  end.

(** Registers of their widths. *)
Definition regs_ok (x : x86) : Prop :=
  ∀ r, 0 <= R x r < if is_segment r then 2 ^ 16 else 2 ^ 32.

Lemma vector_on x1 i ec e l m : is_Some ec ↔ has_err i = true →
  on_stack x1 e (l ++ option_list ec) m → 4 * Z.of_nat (length l + 2) <= e < 2 ^ 32 →
  on_stack (exec (vector i) x1) e (l ++ [default 0 ec; i]) m.
Proof.
  intros Hec Hs He. unfold vector. fold (has_err i). destruct (has_err i), ec as [c|]; cbn [negb app].
  - change (on_stack (push i x1) e (l ++ [c; i]) m). rewrite cons_middle, app_assoc. apply push_on; [done|].
    rewrite length_app. cbn. lia.
  - by destruct (proj2 Hec eq_refl).
  - by specialize (proj1 Hec (ex_intro _ c eq_refl)).
  - change (on_stack (pushes [0; i] x1) e (l ++ [0; i]) m). cbn [option_list] in Hs. rewrite app_nil_r in Hs.
    apply pushes_on; [done|]. rewrite length_app. cbn. lia.
Qed.

Lemma R_vector x1 i r : r ≠ ESP → R (exec (vector i) x1) r = R x1 r.
Proof. intros Hn. unfold vector. by destruct (negb _), r. Qed.

Definition frame_regs (y : x86) (oesp : Z) : list Z :=
  [R y DS; R y ES; R y FS; R y GS; R y EAX; R y ECX; R y EDX; R y EBX; oesp; R y EBP; R y ESI; R y EDI].

Lemma movw_lo a v : u16 (a / 2 ^ 16 * 2 ^ 16 + u16 v) = u16 v.
Proof. unfold u16. rewrite Z.add_comm, Z.mod_add by lia. apply Z.mod_mod. lia. Qed.

Lemma build_frame_on y e l m : on_stack y e l m → 4 * Z.of_nat (length l + 12) <= e < 2 ^ 32 →
  let x2 := exec build_frame y in
  on_stack x2 e (l ++ frame_regs y (e - 4 * Z.of_nat (length l + 4))) m ∧
  R x2 DS = 16 ∧ R x2 ES = 16 ∧ R x2 FS = 24 ∧ R x2 GS = 24 ∧ (∀ r, r ∈ [CS; SS; EIP; EFLAGS] → R x2 r = R y r).
Proof.
  intros Hs He. set (y1 := pushes [R y DS; R y ES; R y FS; R y GS] y).
  assert (on_stack y1 e (l ++ [R y DS; R y ES; R y FS; R y GS]) m) as H1.
  { apply pushes_on; [done|]. rewrite length_app. cbn. lia. }
  assert (R y1 ESP = e - 4 * Z.of_nat (length l + 4)) as E1.
  { rewrite (proj1 H1), length_app. cbn. lia. }
  set (y2 := pushes [R y1 EAX; R y1 ECX; R y1 EDX; R y1 EBX; R y1 ESP; R y1 EBP; R y1 ESI; R y1 EDI] y1).
  assert (on_stack y2 e (l ++ frame_regs y (R y1 ESP)) m) as H2.
  { change (frame_regs y (R y1 ESP)) with ([R y DS; R y ES; R y FS; R y GS] ++ [R y1 EAX; R y1 ECX; R y1 EDX; R y1 EBX; R y1 ESP; R y1 EBP; R y1 ESI; R y1 EDI]).
    rewrite app_assoc. apply pushes_on; [done|]. rewrite !length_app. cbn. lia. }
  rewrite E1 in H2. cbn zeta.
  assert (∀ r, r ∈ [CS; SS; EIP; EFLAGS] → r ≠ ESP ∧ R y2 r = R y r) as HR.
  { intros r Hr. assert (r ≠ ESP) by set_solver. split; [done|]. unfold y2, y1. by rewrite !R_pushes. }
  assert (exec build_frame y = exec [Movwi (Z.shiftl SEG_KDATA 3) EAX; Movw EAX DS; Movw EAX ES;
    Movwi (Z.shiftl SEG_KCPU 3) EAX; Movw EAX FS; Movw EAX GS] y2) as ->.
  { unfold build_frame. by rewrite (exec_cons (Pushl DS)), (exec_cons (Pushl ES)), (exec_cons (Pushl FS)), (exec_cons (Pushl GS)), (exec_cons Pushal). }
  clearbody y2. cbn [exec foldl step]. split; [by repeat apply set_on|].
  split_and!; try (repeat first [rewrite R_set | rewrite R_set_ne by done]; by rewrite movw_lo).
  intros r Hr. destruct (HR r Hr) as [_ <-]. rewrite !R_set_ne by set_solver. done.
Qed.

(** Removes the wrap-around of addresses that do not leave the stack. *)
Ltac nowrap := repeat match goal with
  | |- context [u32 ?e] =>
      lazymatch e with context [u32 _] => fail | _ => rewrite (u32_id e) by (unfold is_u32; lia) end
  end.

(** Membership in, and distinctness of, closed lists of registers. *)
Ltac elem := first [done | by apply (bool_decide_unpack _)].

(** The place of a register in the frame, in words. *)
Definition tf_word (r : reg) : nat :=
  match r with
  | ESP => 17 | GS => 8 | FS => 9 | ES => 10 | DS => 11 | EIP => 14 | CS => 15 | EFLAGS => 16 | SS => 18
  | _ => reg_num r
  end.

(** The words pushed on every trap. *)
Definition frame_words (x : x86) (i er oesp : Z) : list Z :=
  [R x EFLAGS; R x CS; R x EIP] ++ [er; i] ++ frame_regs x oesp.

Lemma frame_tf x i er oesp e m : regs_ok x → 0 <= i < 2 ^ 32 → 0 <= er < 2 ^ 32 →
  let t := read_tf (stk e (frame_words x i er oesp) m) (e - 68) in
  (∀ r, r ∉ [ESP; SS] → tf_regs t r = R x r) ∧ trapno t = i ∧ err t = er.
Proof.
  intros Hx Hi He t. set (l := frame_words x i er oesp) in t.
  assert (∀ j w, l !! (16 - j)%nat = Some w → (j <= 16)%nat →
    ld32 (stk e l m) (e - 68 + 4 * Z.of_nat j) = u32 w ∧ ld16 (stk e l m) (e - 68 + 4 * Z.of_nat j) = u16 w) as H.
  { intros j w Hj Hl. replace (e - 68 + _) with (e - 4 * Z.of_nat (16 - j) - 4) by lia. by apply stk_lookup. }
  assert (∀ r, R x r = if is_segment r then u16 (R x r) else u32 (R x r)) as Hw.
  { intros r. pose proof (Hx r) as Hr. unfold u16, u32. by destruct (is_segment r); rewrite Z.mod_small. }
  assert (ld32 (stk e l m) (e - 68) = u32 (R x EDI)) as H0.
  { replace (e - 68) with (e - 68 + 4 * Z.of_nat 0) by lia. by apply H; [|lia]. }
  split_and!.
  - intros r Hr. rewrite Hw. destruct r; try (exfalso; apply Hr; elem); cbn [is_segment reg_num Nat.leb andb]; first [exact H0 |
      match goal with |- _ = _ (R x ?r) => let j := eval compute in (tf_word r) in by apply (H j); [|lia] end].
  - rewrite <- (u32_id i) by done. by apply (H 12%nat); [|lia].
  - rewrite <- (u32_id er) by done. by apply (H 13%nat); [|lia].
Qed.

(** The frame of a trap from user mode, with the stack pointer and segment. *)
Lemma user_frame_tf x i er oesp e m : regs_ok x → 0 <= i < 2 ^ 32 → 0 <= er < 2 ^ 32 →
  let t := read_tf (stk e ([R x SS; R x ESP] ++ frame_words x i er oesp) m) (e - 76) in
  (∀ r, tf_regs t r = R x r) ∧ trapno t = i ∧ err t = er.
Proof.
  intros Hx Hi He. cbn zeta.
  rewrite stk_app. cbn [length]. replace (e - 4 * Z.of_nat 2) with (e - 8) by lia. set (m' := stk e _ m).
  replace (e - 76) with (e - 8 - 68) by lia.
  destruct (frame_tf x i er oesp (e - 8) m' Hx Hi He) as (F1 & F2 & F3). split; [|done].
  intros r. destruct (decide (r ∈ [ESP; SS])) as [Hr|Hr]; [|by apply F1].
  pose proof (Hx r) as Hxr. unfold read_tf. destruct r; try (exfalso; revert Hr; elem); cbn [tf_regs esp ss].
  - rewrite (ld32_ext m') by (intros; apply stk_above; lia). replace (e - 8 - 68 + 68) with (e - 4 * Z.of_nat 1 - 4) by lia.
    unfold m'. rewrite (proj1 (stk_lookup [R x SS; R x ESP] e m 1 _ eq_refl)). by apply u32_id.
  - unfold ld16. rewrite !stk_above by lia. fold (ld16 m' (e - 8 - 68 + 72)).
    replace (e - 8 - 68 + 72) with (e - 4 * Z.of_nat 0 - 4) by lia.
    unfold m'. rewrite (proj2 (stk_lookup [R x SS; R x ESP] e m 0 _ eq_refl)). by apply Z.mod_small.
Qed.

(** The entry code on top of the words [hw] the processor pushed. *)
Lemma frame_on x x1 i ec e hw m : is_Some ec ↔ has_err i = true →
  on_stack x1 e (hw ++ option_list ec) m → 4 * Z.of_nat (length hw + 14) <= e < 2 ^ 32 →
  (∀ r, r ∉ [ESP; CS; SS; EIP; EFLAGS] → R x1 r = R x r) →
  let x2 := exec (vector i ++ build_frame) x1 in
  on_stack x2 e (hw ++ [default 0 ec; i] ++ frame_regs x (e - 4 * Z.of_nat (length hw + 6))) m ∧
  R x2 DS = 16 ∧ R x2 ES = 16 ∧ R x2 FS = 24 ∧ R x2 GS = 24 ∧
  (∀ r, r ∈ [CS; SS; EIP; EFLAGS] → R x2 r = R x1 r).
Proof.
  intros Hec Hs He Hx. rewrite exec_app. cbn zeta.
  assert (on_stack (exec (vector i) x1) e (hw ++ [default 0 ec; i]) m) as H2 by (apply vector_on; [done..|lia]).
  assert (∀ r, r ≠ ESP → R (exec (vector i) x1) r = R x1 r) as Hy by (intros; by apply R_vector).
  revert H2 Hy. generalize (exec (vector i) x1). intros y H2 Hy.
  destruct (build_frame_on y e _ _ H2) as (H3 & E1 & E2 & E3 & E4 & E5); [rewrite length_app; cbn [length]; lia|].
  revert H3 E1 E2 E3 E4 E5. generalize (exec build_frame y). intros x2 H3 E1 E2 E3 E4 E5.
  split; [|refine (conj E1 (conj E2 (conj E3 (conj E4 _))))].
  - assert (frame_regs y (e - 4 * Z.of_nat (length (hw ++ [default 0 ec; i]) + 4)) =
      frame_regs x (e - 4 * Z.of_nat (length hw + 6))) as E.
    { unfold frame_regs. rewrite length_app, <- Nat.add_assoc, !Hy by done. by rewrite !Hx by (by apply (bool_decide_unpack _)). }
    by rewrite E, <- app_assoc in H3.
  - intros r Hr. rewrite E5 by done. apply Hy. set_solver.
Qed.

(** ** Delivery with the kernel's tables *)

Section Kernel.
Variables (vectors : Z → Z) (idt0 : Z → gatedesc) (cpu_addr : Z) (gdt0 : Z → segdesc) (esp0 ss0 : Z).

Definition kidt (i : Z) : Z := pack_gate (tvinit vectors idt0 i).
Definition kgdt (s : Z) : Z := pack_seg (seginit cpu_addr gdt0 s).

Lemma kidt_read i : 0 <= i < 256 →
  hw_offset (kidt i) = u32 (vectors i) ∧ hw_selector (kidt i) = 8 ∧ hw_present (kidt i) = true ∧
  hw_dpl (kidt i) = (if i =? T_SYSCALL then DPL_USER else 0) ∧
  hw_type (kidt i) = (if i =? T_SYSCALL then STS_TG32 else STS_IG32).
Proof.
  intros Hi. unfold kidt. rewrite tvinit_lookup by done. apply gate_read; [lia|]. destruct (i =? _); unfold DPL_USER; lia.
Qed.

Lemma kgdt_code : hw_present (kgdt 1) = true ∧ hw_dpl (kgdt 1) = 0.
Proof. split; vm_compute; reflexivity. Qed.

(** The flags the handler runs with: interrupts stay on in system calls only. *)
Definition fl_entry (i fl : Z) : Z := Z.ldiff fl (if i =? T_SYSCALL then 0x34100 else 0x34300).

Lemma deliver_eq i ec x : 0 <= i < 256 →
  deliver kgdt kidt esp0 ss0 i ec x =
  Some (set_reg EFLAGS (fl_entry i (R x EFLAGS)) (set_reg EIP (u32 (vectors i)) (set_reg CS 8
    (if 0 <? Z.land (R x CS) 3
     then pushes ([R x SS; R x ESP; R x EFLAGS; R x CS; R x EIP] ++ option_list ec) (set_reg SS ss0 (set_reg ESP esp0 x))
     else pushes ([R x EFLAGS; R x CS; R x EIP] ++ option_list ec) x)))).
Proof.
  intros Hi. destruct (kidt_read i Hi) as (Ho & Hs & Hp & _ & Ht), kgdt_code as [Hp' Hd].
  unfold deliver. rewrite Ho, Hs, Hp, Ht. change (8 / 8) with 1. rewrite Hp', Hd. cbn [andb negb].
  unfold fl_entry, fl_clear. by destruct (i =? T_SYSCALL).
Qed.

Definition user_words (x : x86) (i er : Z) : list Z :=
  [R x SS; R x ESP] ++ frame_words x i er (esp0 - 44).

(** What the handler of a trap from user mode finds. *)
Lemma entry_user i ec x : Z.land (R x CS) 3 = 3 → 0 <= i < 256 → is_Some ec ↔ has_err i = true →
  76 <= esp0 < 2 ^ 32 →
  ∃ x1, deliver kgdt kidt esp0 ss0 i ec x = Some x1 ∧ R x1 EIP = u32 (vectors i) ∧
    let x2 := exec (vector i ++ build_frame) x1 in
    on_stack x2 esp0 (user_words x i (default 0 ec)) (ram x) ∧
    R x2 DS = 16 ∧ R x2 ES = 16 ∧ R x2 FS = 24 ∧ R x2 GS = 24 ∧ R x2 CS = 8 ∧ R x2 SS = ss0 ∧
    R x2 EFLAGS = fl_entry i (R x EFLAGS).
Proof.
  intros Hu Hi Hec He. eexists. split; [by apply deliver_eq|]. split; [by rewrite R_set_ne, R_set by done|]. rewrite Hu. cbn [Z.ltb Z.compare].
  match goal with |- context [exec _ ?x] => set (x1 := x) end.
  destruct (frame_on x x1 i ec esp0 [R x SS; R x ESP; R x EFLAGS; R x CS; R x EIP] (ram x)) as (H & E1 & E2 & E3 & E4 & E5).
  - done.
  - repeat (apply set_on; [|done]). apply (pushes_on _ _ _ []).
    + apply set_on; [|done]. split; [|done]. cbn. lia.
    + rewrite app_nil_l, length_app. destruct ec; cbn; lia.
  - cbn. lia.
  - intros r Hr. unfold x1. rewrite !R_set_ne by set_solver. rewrite R_pushes by set_solver. by rewrite !R_set_ne by set_solver.
  - split; [unfold user_words, frame_words; replace (esp0 - 44) with (esp0 - 4 * Z.of_nat 11) by lia; exact H|]. refine (conj E1 (conj E2 (conj E3 (conj E4 _)))). rewrite !E5 by set_solver. unfold x1. split_and!.
    + by rewrite !R_set_ne, R_set by done.
    + rewrite !R_set_ne by done. by rewrite R_pushes, R_set by done.
    + by rewrite R_set.
Qed.

(** ** Leaving the kernel *)

(** A call of the C function [f] comes back to its caller. *)
Definition returns (f : x86 → x86) (x : x86) : Prop :=
  let y := push (R x EIP) x in R (f y) ESP = u32 (R y ESP + 4) ∧ R (f y) CS = R y CS.

Lemma u32_add a b : u32 (u32 a + b) = u32 (a + b).
Proof. unfold u32. apply Zplus_mod_idemp_l. Qed.

Lemma u32_sub a b : u32 (u32 a - b) = u32 (a - b).
Proof. unfold u32. apply Zminus_mod_idemp_l. Qed.

Lemma called_esp f x : returns f x → R (step (Call f) x) ESP = u32 (R x ESP).
Proof.
  intros [H _]. cbn [step]. rewrite H. cbn. rewrite u32_add. f_equal. lia.
Qed.

(** The offset of the word popped into [r]. *)
Fixpoint pos (r : reg) (rs : list reg) : Z :=
  match rs with
  | [] => 0
  | q :: rs' => if (reg_num q =? reg_num r)%nat then 0 else 4 + pos r rs'
  end.

Lemma pops_spec rs : ∀ x, NoDup rs → ESP ∉ rs → 0 <= R x ESP → R x ESP + 4 * Z.of_nat (length rs) < 2 ^ 32 →
  R (pops rs x) ESP = R x ESP + 4 * Z.of_nat (length rs) ∧ ram (pops rs x) = ram x ∧
  (∀ r, r ∈ rs → R (pops rs x) r = load r (ram x) (R x ESP + pos r rs)) ∧
  (∀ r, r ∉ rs → r ≠ ESP → R (pops rs x) r = R x r).
Proof.
  induction rs as [|q rs IH]; intros x Hn He Hlo Hhi; cbn [length] in *.
  { cbn [pops foldl]. split_and!; [lia | done | intros r Hr; by apply not_elem_of_nil in Hr | done]. }
  change (pops (q :: rs) x) with (pops rs (pop q x)).
  apply NoDup_cons in Hn as [Hq Hn]. apply not_elem_of_cons in He as [Hq' He].
  assert (R (pop q x) ESP = R x ESP + 4) as E.
  { transitivity (u32 (R x ESP + 4)); [by destruct q | apply u32_id; unfold is_u32; lia]. }
  assert (∀ r, r ≠ q → r ≠ ESP → R (pop q x) r = R x r) as Hne by (intros r ??; by destruct q, r).
  assert (R (pop q x) q = load q (ram x) (R x ESP)) as Hld by (by destruct q).
  assert (ram (pop q x) = ram x) as Hm by done.
  destruct (IH (pop q x)) as (H1 & H2 & H3 & H4); [done | done | lia | lia |].
  split_and!; [rewrite H1; lia | by rewrite H2 | |].
  - intros r Hr. cbn [pos]. destruct (decide (r = q)) as [->|Hrq].
    + rewrite H4, Hld, Nat.eqb_refl by done. f_equal. lia.
    + apply elem_of_cons in Hr as [?|Hr]; [done|]. rewrite (H3 r Hr), Hm, E.
      replace (reg_num q =? reg_num r)%nat with false by (by destruct q, r). f_equal. lia.
  - intros r Hr Hr'. apply not_elem_of_cons in Hr as [??]. rewrite H4 by done. by apply Hne.
Qed.

(** [addl $n, %esp] *)
Lemma skip_spec n x : is_u32 (R x ESP + n) →
  let x' := step (Addl n ESP) x in
  R x' ESP = R x ESP + n ∧ ram x' = ram x ∧ ∀ r, r ≠ ESP → R x' r = R x r.
Proof.
  intros H. cbn zeta. split_and!; [|done|].
  - transitivity (u32 (R x ESP + n)); [done | by apply u32_id].
  - intros r Hr. by destruct r.
Qed.

(** The tail of [trapret], up to the choice of [iret]. *)
Lemma pop_frame y a : R y ESP = a - 4 → 8 <= a → a + 76 <= 2 ^ 32 → Z.land (R y CS) 3 = 0 →
  let t := read_tf (ram y) a in
  ∃ z, exec [Addl 4 ESP; Popal; Popl GS; Popl FS; Popl ES; Popl DS; Addl 8 ESP; Iret] y =
    (if 0 <? Z.land (cs t) 3 then set_reg SS (ss t) (set_reg ESP (esp t) z) else z) ∧
    (∀ r, r ∉ [ESP; SS] → R z r = tf_regs t r) ∧ R z ESP = a + 68 ∧ R z SS = R y SS.
Proof.
  intros He Hlo Hhi Hk t.
  change (exec _ y) with (iret (step (Addl 8 ESP) (pops [EBX; EDX; ECX; EAX; GS; FS; ES; DS]
    (step (Addl 4 ESP) (pops [EDI; ESI; EBP] (step (Addl 4 ESP) y)))))).
  destruct (skip_spec 4 y) as (E1 & M1 & R1); [unfold is_u32; lia|].
  revert E1 M1 R1. generalize (step (Addl 4 ESP) y). intros x1 E1 M1 R1.
  destruct (pops_spec [EDI; ESI; EBP] x1) as (E2 & M2 & L2 & R2); [elem.. | cbn; lia | cbn; lia |].
  revert E2 M2 L2 R2. generalize (pops [EDI; ESI; EBP] x1). intros x2 E2 M2 L2 R2. cbn [length] in E2.
  destruct (skip_spec 4 x2) as (E3 & M3 & R3); [unfold is_u32; lia|].
  revert E3 M3 R3. generalize (step (Addl 4 ESP) x2). intros x3 E3 M3 R3.
  destruct (pops_spec [EBX; EDX; ECX; EAX; GS; FS; ES; DS] x3) as (E4 & M4 & L4 & R4); [elem.. | lia | cbn [length]; lia |].
  revert E4 M4 L4 R4. generalize (pops [EBX; EDX; ECX; EAX; GS; FS; ES; DS] x3). intros x4 E4 M4 L4 R4. cbn [length] in E4.
  destruct (skip_spec 8 x4) as (E5 & M5 & R5); [unfold is_u32; lia|].
  revert E5 M5 R5. generalize (step (Addl 8 ESP) x4). intros x5 E5 M5 R5.
  unfold iret. destruct (pops_spec [EIP; CS; EFLAGS] x5) as (E6 & M6 & L6 & R6); [elem.. | lia | cbn [length]; lia |].
  revert E6 M6 L6 R6. generalize (pops [EIP; CS; EFLAGS] x5). intros x6 E6 M6 L6 R6. cbn [length] in E6.
  assert (R x5 CS = R y CS) as Hc by (rewrite R5, R4, R3, R2, R1 by elem; done).
  assert (ram x5 = ram y) as M by congruence. assert (ram x3 = ram y) as M' by congruence.
  exists x6. split_and!.
  - assert (R x6 CS = cs t) as ->.
    { rewrite L6 by elem. cbn [pos reg_num Nat.eqb]. rewrite M. unfold t, read_tf. cbn [cs]. unfold load. f_equal. lia. }
    rewrite Hc, Hk, M6, M. nowrap. unfold t, read_tf. cbn [ss esp].
    replace (R x6 ESP) with (a + 68) by lia. replace (a + 68 + 4) with (a + 72) by lia. done.
  - intros r Hr. destruct r; try (exfalso; apply Hr; elem).
    all: try rewrite R6 by elem; try rewrite R5 by done; try (rewrite R4 by elem; rewrite R3 by done).
    all: unfold t, read_tf; cbn [tf_regs edi esi ebp ebx edx ecx eax gs fsreg es ds eip cs eflags].
    all: first [rewrite L6 by elem | rewrite L4 by elem | rewrite L2 by elem]; cbn [pos reg_num Nat.eqb].
    all: unfold load; rewrite ?M1, ?M', ?M; cbn [is_segment reg_num Nat.leb andb]; f_equal; lia.
  - lia.
  - by rewrite R6, R5, R4, R3, R2, R1 by elem.
Qed.

(** [trapret] loads the registers of the frame [do_signal] leaves. *)
Lemma trapret_frame do_signal x a : R x ESP = a → 8 <= a → a + 76 <= 2 ^ 32 → Z.land (R x CS) 3 = 0 →
  let xs := push (R x ESP) x in
  returns do_signal xs →
  let y := step (Call do_signal) xs in
  let t := read_tf (ram y) a in
  ∃ z, exec (trapret do_signal) x = (if 0 <? Z.land (cs t) 3 then set_reg SS (ss t) (set_reg ESP (esp t) z) else z) ∧
    (∀ r, r ∉ [ESP; SS] → R z r = tf_regs t r) ∧ R z ESP = a + 68 ∧ R z SS = R y SS.
Proof.
  intros Ha Hlo Hhi Hk. cbn zeta. intros Hret. unfold trapret. rewrite (exec_cons (Pushl ESP)), (exec_cons (Call do_signal)).
  change (step (Pushl ESP) x) with (push (R x ESP) x).
  assert (R (step (Call do_signal) (push (R x ESP) x)) ESP = a - 4) as Hy.
  { rewrite called_esp by done. change (R (push (R x ESP) x) ESP) with (u32 (R x ESP - 4)). rewrite u32_u32, Ha.
    apply u32_id. unfold is_u32. lia. }
  assert (Z.land (R (step (Call do_signal) (push (R x ESP) x)) CS) 3 = 0) as Hc by (rewrite <- Hk; f_equal; apply Hret).
  revert Hy Hc. generalize (step (Call do_signal) (push (R x ESP) x)). intros y Hy Hc. by apply pop_frame.
Qed.

Lemma trapret_regs do_signal x a : R x ESP = a → 8 <= a → a + 76 <= 2 ^ 32 → Z.land (R x CS) 3 = 0 →
  let xs := push (R x ESP) x in
  returns do_signal xs →
  let t := read_tf (ram (step (Call do_signal) xs)) a in
  user_mode t = true → ∀ r, R (exec (trapret do_signal) x) r = tf_regs t r.
Proof.
  intros Ha Hlo Hhi Hk. cbn zeta. intros Hret Hu r.
  destruct (trapret_frame do_signal x a) as (z & E & Hz & _); [done..|].
  apply Z.eqb_eq in Hu. rewrite E, Hu. cbn [Z.ltb Z.compare DPL_USER].
  destruct (decide (r = SS)) as [->|H1]; [by rewrite R_set|]. rewrite R_set_ne by done.
  destruct (decide (r = ESP)) as [->|H2]; [by rewrite R_set|]. rewrite R_set_ne by done. apply Hz.
  rewrite !not_elem_of_cons. split_and!; [done | done | apply not_elem_of_nil].
Qed.

(** Back from [trap], with its argument taken off the stack. *)
Lemma after_trap trap xt a : returns trap xt → R xt ESP = a - 4 → 4 <= a < 2 ^ 32 → R xt CS = 8 →
  R (step (Addl 4 ESP) (step (Call trap) xt)) ESP = a ∧ R (step (Addl 4 ESP) (step (Call trap) xt)) CS = 8.
Proof.
  intros Hret Esp Ha Ec. split.
  - destruct (skip_spec 4 (step (Call trap) xt)) as (-> & _ & _).
    all: rewrite called_esp, Esp, u32_id by (done || unfold is_u32; lia); unfold is_u32; lia.
  - etrans; [|exact Ec]. apply Hret.
Qed.

Lemma read_tf_ext m m' a : (∀ b, a <= b < a + 76 → m' b = m b) → read_tf m' a = read_tf m a.
Proof. intros H. unfold read_tf, ld32, ld16. rewrite !H by lia. done. Qed.

(** C13. With the descriptor tables [seginit] and [tvinit] set up, every
    exception or interrupt [i] taken in user mode enters at [vectors[i]] and
    reaches [trap] with kernel segments and a pointer to a [struct trapframe]
    that holds every register of the interrupted program, the vector in
    [trapno] and the error code, or 0, in [err]; interrupts stay enabled in
    system calls only.  Once [trap] and [do_signal] have returned, the program
    goes on with exactly the registers they left in the frame. *)
Theorem trap_entry_exit i ec x trap do_signal :
  regs_ok x → Z.land (R x CS) 3 = 3 → 0 <= i < 256 → is_Some ec ↔ has_err i = true →
  0 <= default 0 ec < 2 ^ 32 → 84 <= esp0 < 2 ^ 32 →
  ∃ x1, deliver kgdt kidt esp0 ss0 i ec x = Some x1 ∧ R x1 EIP = u32 (vectors i) ∧
    let xt := exec (vector i ++ build_frame ++ [Pushl ESP]) x1 in
    let a := ld32 (ram xt) (R xt ESP) in
    let t := read_tf (ram xt) a in
    a = esp0 - 76 ∧ (∀ r, tf_regs t r = R x r) ∧ trapno t = i ∧ err t = default 0 ec ∧
    R xt CS = 8 ∧ R xt DS = 16 ∧ R xt ES = 16 ∧ R xt FS = 24 ∧ R xt GS = 24 ∧ R xt SS = ss0 ∧
    R xt EFLAGS = fl_entry i (R x EFLAGS) ∧
    (returns trap xt →
     let xs := exec [Addl 4 ESP; Pushl ESP] (step (Call trap) xt) in
     returns do_signal xs →
     let t' := read_tf (ram (step (Call do_signal) xs)) a in
     user_mode t' = true →
     ∀ r, R (exec (vector i ++ alltraps trap do_signal) x1) r = tf_regs t' r).
Proof.
  intros Hx Hu Hi Hec Her He.
  destruct (entry_user i ec x) as (x1 & Hd & Hip & Hs & E1 & E2 & E3 & E4 & E5 & E6 & E7); [done..|lia|].
  exists x1. split; [done|]. split; [done|]. unfold alltraps. rewrite !(app_assoc (vector i) build_frame), !(exec_app (vector i ++ build_frame)).
  revert Hs E1 E2 E3 E4 E5 E6 E7. generalize (exec (vector i ++ build_frame) x1). intros x2 Hs E1 E2 E3 E4 E5 E6 E7.
  rewrite (exec_app [Pushl ESP; Call trap; Addl 4 ESP]), !(exec_cons (Pushl ESP)), (exec_cons (Call trap)), (exec_cons (Addl 4 ESP)).
  assert (R x2 ESP = esp0 - 76) as Esp by (rewrite (proj1 Hs); cbn; lia).
  assert (on_stack (step (Pushl ESP) x2) esp0 (user_words x i (default 0 ec) ++ [esp0 - 76]) (ram x)) as Ht.
  { rewrite <- Esp. apply push_on; [done|]. cbn. lia. }
  assert (∀ r, r ≠ ESP → R (step (Pushl ESP) x2) r = R x2 r) as Hr by (intros r ?; by destruct r).
  revert Ht Hr. generalize (step (Pushl ESP) x2). intros xt Ht Hr. change (exec [] xt) with xt.
  assert (R xt ESP = esp0 - 80) as Esp' by (rewrite (proj1 Ht); cbn; lia).
  assert (ld32 (ram xt) (R xt ESP) = esp0 - 76) as Ea.
  { rewrite Esp', (proj2 Ht). replace (esp0 - 80) with (esp0 - 4 * Z.of_nat 19 - 4) by lia.
    rewrite (proj1 (stk_lookup (user_words x i (default 0 ec) ++ [esp0 - 76]) _ _ 19 (esp0 - 76) eq_refl)).
    apply u32_id. unfold is_u32. lia. }
  cbn zeta. rewrite Ea, !Hr, E1, E2, E3, E4, E5, E6, E7 by done.
  destruct (user_frame_tf x i (default 0 ec) (esp0 - 44) esp0 (ram x)) as (F1 & F2 & F3); [done | lia | done |].
  rewrite (read_tf_ext (stk esp0 (user_words x i (default 0 ec)) (ram x)) (ram xt)); [|].
  2: { intros b Hb. rewrite (proj2 Ht), stk_snoc. apply st32_other. cbn. lia. }
  refine (conj eq_refl (conj F1 (conj F2 (conj F3 _)))). do 7 (split; [done|]).
  intros Hret Hret' Hu' r. rewrite (exec_cons (Addl 4 ESP)).
  destruct (after_trap trap xt (esp0 - 76)) as [Es Ec]; [done | lia | lia | by rewrite Hr |].
  revert Hret' Hu' Es Ec. generalize (step (Addl 4 ESP) (step (Call trap) xt)). intros z Hret' Hu' Es Ec.
  change (exec [] z) with z. apply trapret_regs; [done | lia | lia | by rewrite Ec | done | done].
Qed.

(** A trap from the kernel stays on the kernel's stack. *)
Lemma entry_kernel i ec x : Z.land (R x CS) 3 = 0 → 0 <= i < 256 → is_Some ec ↔ has_err i = true →
  68 <= R x ESP < 2 ^ 32 →
  ∃ x1, deliver kgdt kidt esp0 ss0 i ec x = Some x1 ∧ R x1 EIP = u32 (vectors i) ∧
    let x2 := exec (vector i ++ build_frame) x1 in
    on_stack x2 (R x ESP) (frame_words x i (default 0 ec) (R x ESP - 36)) (ram x) ∧ R x2 CS = 8 ∧ R x2 SS = R x SS.
Proof.
  intros Hu Hi Hec He. eexists. split; [by apply deliver_eq|]. split; [by rewrite R_set_ne, R_set by done|].
  rewrite Hu. cbn [Z.ltb Z.compare].
  match goal with |- context [exec _ ?x] => set (x1 := x) end.
  destruct (frame_on x x1 i ec (R x ESP) [R x EFLAGS; R x CS; R x EIP] (ram x)) as (H & _ & _ & _ & _ & E).
  - done.
  - repeat (apply set_on; [|done]). apply (pushes_on _ _ _ []).
    + split; [|done]. cbn. lia.
    + rewrite app_nil_l, length_app. destruct ec; cbn; lia.
  - cbn. lia.
  - intros r Hr. unfold x1. rewrite !R_set_ne by set_solver. by rewrite R_pushes by set_solver.
  - split; [unfold frame_words; replace (R x ESP - 36) with (R x ESP - 4 * Z.of_nat 9) by lia; exact H|].
    rewrite !E by set_solver. unfold x1. split.
    + by rewrite !R_set_ne, R_set by done.
    + rewrite !R_set_ne by done. by rewrite R_pushes by done.
Qed.

(** An interrupt of the kernel itself goes back to the interrupted code with
    its stack pointer, and with the registers that are left in the frame. *)
Theorem kernel_trap_resumes i ec x trap do_signal :
  regs_ok x → Z.land (R x CS) 3 = 0 → 0 <= i < 256 → is_Some ec ↔ has_err i = true →
  0 <= default 0 ec < 2 ^ 32 → 76 <= R x ESP → R x ESP + 8 <= 2 ^ 32 →
  ∃ x1, deliver kgdt kidt esp0 ss0 i ec x = Some x1 ∧
    let xt := exec (vector i ++ build_frame ++ [Pushl ESP]) x1 in
    let a := R x ESP - 68 in
    let t := read_tf (ram xt) a in
    (∀ r, r ∉ [ESP; SS] → tf_regs t r = R x r) ∧ trapno t = i ∧ err t = default 0 ec ∧
    (returns trap xt →
     let xs := exec [Addl 4 ESP; Pushl ESP] (step (Call trap) xt) in
     returns do_signal xs →
     let t' := read_tf (ram (step (Call do_signal) xs)) a in
     Z.land (cs t') 3 = 0 →
     let z := exec (vector i ++ alltraps trap do_signal) x1 in
     R z ESP = R x ESP ∧ ∀ r, r ∉ [ESP; SS] → R z r = tf_regs t' r).
Proof.
  intros Hx Hu Hi Hec Her He He'.
  destruct (entry_kernel i ec x) as (x1 & Hd & _ & Hs & E5 & _); [done..|lia|].
  exists x1. split; [done|]. unfold alltraps. rewrite !(app_assoc (vector i) build_frame), !(exec_app (vector i ++ build_frame)).
  revert Hs E5. generalize (exec (vector i ++ build_frame) x1). intros x2 Hs E5.
  rewrite (exec_app [Pushl ESP; Call trap; Addl 4 ESP]), !(exec_cons (Pushl ESP)), (exec_cons (Call trap)), (exec_cons (Addl 4 ESP)).
  assert (R x2 ESP = R x ESP - 68) as Esp by (rewrite (proj1 Hs); cbn; lia).
  assert (on_stack (step (Pushl ESP) x2) (R x ESP) (frame_words x i (default 0 ec) (R x ESP - 36) ++ [R x ESP - 68]) (ram x)) as Ht.
  { rewrite <- Esp. apply push_on; [done|]. cbn. lia. }
  assert (R (step (Pushl ESP) x2) CS = R x2 CS) as Hc by done.
  revert Ht Hc. generalize (step (Pushl ESP) x2). intros xt Ht Hc. change (exec [] xt) with xt.
  assert (R xt ESP = R x ESP - 72) as Esp' by (rewrite (proj1 Ht); cbn; lia). cbn zeta.
  destruct (frame_tf x i (default 0 ec) (R x ESP - 36) (R x ESP) (ram x)) as (F1 & F2 & F3); [done | lia | done |].
  rewrite (read_tf_ext (stk (R x ESP) (frame_words x i (default 0 ec) (R x ESP - 36)) (ram x)) (ram xt)); [|].
  2: { intros b Hb. rewrite (proj2 Ht), stk_snoc. apply st32_other. cbn. lia. }
  refine (conj F1 (conj F2 (conj F3 _))). clear F1 F2 F3.
  intros Hret Hret' Hu'. destruct (after_trap trap xt (R x ESP - 68)) as [Es Ec]; [done | lia | lia | by rewrite Hc |].
  rewrite (exec_cons (Addl 4 ESP)). change (exec [] ?z) with z.
  revert Hret' Hu' Es Ec. generalize (step (Addl 4 ESP) (step (Call trap) xt)). intros z Hret' Hu' Es Ec.
  destruct (trapret_frame do_signal z (R x ESP - 68)) as (w & -> & Hw & Ew & _); [done | lia | lia | by rewrite Ec | done |].
  change (exec [Pushl ESP] z) with (push (R z ESP) z) in *. rewrite Hu'. cbn [Z.ltb Z.compare]. split; [lia | exact Hw].
Qed.

(** Software interrupts of a user program: only the system call gate may be
    used, any other vector is a general protection fault. *)
Lemma user_int n x : 0 <= n < 256 → Z.land (R x CS) 3 = 3 →
  int kgdt kidt esp0 ss0 n x =
  if n =? T_SYSCALL then deliver kgdt kidt esp0 ss0 T_SYSCALL None x
  else deliver kgdt kidt esp0 ss0 13 (Some (n * 8 + 2)) x.
Proof.
  intros Hn Hu. destruct (kidt_read n Hn) as (_ & _ & _ & Hd & _). unfold int. rewrite Hd, Hu.
  by destruct (Z.eqb_spec n T_SYSCALL) as [->|].
Qed.

(** A stub of usys.S reaches [trap] with its number in [eax] and the stack of
    its caller, on which [argint] finds the arguments above the return
    address. *)
Theorem stub_frame num x : num ∈ usys_numbers → regs_ok x → Z.land (R x CS) 3 = 3 → 84 <= esp0 < 2 ^ 32 →
  ∃ x1, int kgdt kidt esp0 ss0 T_SYSCALL (exec (stub num) x) = Some x1 ∧
    let xt := exec (vector T_SYSCALL ++ build_frame) x1 in
    let t := read_tf (ram xt) (R xt ESP) in
    trapno t = T_SYSCALL ∧ eax t = num ∧ esp t = R x ESP ∧ user_mode t = true ∧
    ∀ a, esp0 <= a → ram xt a = ram x a.
Proof.
  intros Hnum Hx Hu He. assert (0 <= num < 2 ^ 32) as Hn.
  { assert (Forall (λ n, 0 <= n < 2 ^ 32) usys_numbers) as H by (unfold usys_numbers; repeat constructor; lia).
    rewrite Forall_forall in H. by apply H. }
  set (x' := exec (stub num) x).
  assert (regs_ok x') as Hx'.
  { intros r. specialize (Hx r). destruct r; try exact Hx. exact Hn. }
  destruct (entry_user T_SYSCALL None x') as (x1 & Hd & _ & Hs & _); [done | done | split; [by intros [] | done] | lia |].
  exists x1. rewrite user_int by done. split; [exact Hd|]. cbn zeta.
  assert (ram x' = ram x ∧ R x' EAX = num ∧ R x' ESP = R x ESP ∧ R x' CS = R x CS) as (M & E1 & E2 & E3) by done.
  clearbody x'. revert Hs. generalize (exec (vector T_SYSCALL ++ build_frame) x1). intros xt Hs.
  destruct (user_frame_tf x' T_SYSCALL 0 (esp0 - 44) esp0 (ram x')) as (F1 & F2 & _); [done | unfold T_SYSCALL; lia | lia |].
  replace (R xt ESP) with (esp0 - 76) by (rewrite (proj1 Hs); cbn; lia). rewrite (proj2 Hs).
  unfold user_words. cbn [default]. revert F1 F2. generalize (read_tf (stk esp0 ([R x' SS; R x' ESP] ++
    frame_words x' T_SYSCALL 0 (esp0 - 44)) (ram x')) (esp0 - 76)). intros t F1 F2.
  split; [exact F2|]. split; [rewrite <- E1; exact (F1 EAX)|]. split; [rewrite <- E2; exact (F1 ESP)|]. split.
  - unfold user_mode. apply Z.eqb_eq. pose proof (F1 CS) as F. cbn [tf_regs] in F. by rewrite F, E3.
  - intros a Ha. rewrite <- M. by apply stk_above.
Qed.
End Kernel.

(** * Context switch *)

(** A call of [swtch(old, new)]: the return address and the arguments are on
    the stack. *)
Definition swtch_call (x : x86) (ret old new : Z) : Prop :=
  16 <= R x ESP ∧ R x ESP + 12 <= 2 ^ 32 ∧ ld32 (ram x) (R x ESP) = ret ∧
  ld32 (ram x) (R x ESP + 4) = old ∧ ld32 (ram x) (R x ESP + 8) = new ∧
  (old + 4 <= R x ESP - 16 ∨ R x ESP + 4 <= old) ∧ 0 <= new ∧ new + 20 < 2 ^ 32.

(** The memory after the registers and the stack pointer are saved. *)
Definition swtch_mem (x : x86) (old : Z) : mem :=
  st32 (stk (R x ESP) [R x EBP; R x EBX; R x ESI; R x EDI] (ram x)) old (R x ESP - 16).

Lemma swtch_spec x ret old new : swtch_call x ret old new →
  let x' := exec swtch x in
  ram x' = swtch_mem x old ∧ R x' ESP = new + 20 ∧
  R x' EDI = ld32 (ram x') new ∧ R x' ESI = ld32 (ram x') (new + 4) ∧ R x' EBX = ld32 (ram x') (new + 8) ∧
  R x' EBP = ld32 (ram x') (new + 12) ∧ R x' EIP = ld32 (ram x') (new + 16) ∧ R x' CS = R x CS.
Proof.
  intros (H1 & H2 & _ & Ho & Hn & Hd & Hn0 & Hn1). cbn zeta. unfold swtch.
  rewrite !exec_cons. change (exec [] ?z) with z.
  set (x0 := step (Load 8 ESP EDX) (step (Load 4 ESP EAX) x)).
  assert (R x0 EAX = old) as Ea.
  { transitivity (ld32 (ram x) (u32 (R x ESP + 4))); [done|]. by rewrite u32_id by (unfold is_u32; lia). }
  assert (R x0 EDX = new) as Ed.
  { transitivity (ld32 (ram x) (u32 (R x ESP + 8))); [done|]. by rewrite u32_id by (unfold is_u32; lia). }
  assert (∀ r, r ∉ [EAX; EDX] → R x0 r = R x r) as Hr by (intros r Hr; destruct r; try done; set_solver).
  assert (ram x0 = ram x) as M0 by done. clearbody x0.
  set (x4 := step (Pushl EDI) _).
  assert (on_stack x4 (R x ESP) [R x EBP; R x EBX; R x ESI; R x EDI] (ram x)) as H4.
  { rewrite <- (Hr EBP), <- (Hr EBX), <- (Hr ESI), <- (Hr EDI) by elem.
    change x4 with (pushes [R x0 EBP; R x0 EBX; R x0 ESI; R x0 EDI] x0). apply (pushes_on _ _ _ []).
    - split; [|done]. rewrite Hr by elem. cbn. lia.
    - cbn. lia. }
  assert (R x4 EAX = old ∧ R x4 EDX = new ∧ R x4 CS = R x CS) as (Ea4 & Ed4 & Ec4).
  { rewrite <- Ea, <- Ed, <- (Hr CS) by elem. done. }
  clearbody x4. set (x6 := step (Movl EDX ESP) _).
  assert (ram x6 = swtch_mem x old) as M6.
  { change (ram x6) with (st32 (ram x4) (R x4 EAX) (R x4 ESP)). rewrite Ea4, (proj1 H4), (proj2 H4). done. }
  assert (R x6 ESP = new) as E6 by exact Ed4. assert (R x6 CS = R x CS) as C6 by exact Ec4. clearbody x6.
  change (step Ret _) with (pops [EDI; ESI; EBX; EBP; EIP] x6).
  destruct (pops_spec [EDI; ESI; EBX; EBP; EIP] x6) as (E & M & L & N); [elem | elem | lia | cbn [length]; lia |].
  rewrite M, M6, E, E6, !L, E6, M6, N, C6 by elem. cbn [pos reg_num Nat.eqb]. unfold load. cbn [is_segment reg_num Nat.leb andb].
  split_and!; try done; f_equal; lia.
Qed.

(** The context a switch leaves on the old stack, and where it is recorded. *)
Lemma swtch_saves x ret old new : regs_ok x → swtch_call x ret old new →
  ld32 (swtch_mem x old) old = R x ESP - 16 ∧
  read_context (swtch_mem x old) (R x ESP - 16) = mkContext (R x EDI) (R x ESI) (R x EBX) (R x EBP) ret.
Proof.
  intros Hx (H1 & H2 & Hr & _ & _ & Hd & _). unfold swtch_mem. split.
  { rewrite ld32_st32_eq. apply u32_id. unfold is_u32. lia. }
  set (l := [R x EBP; _; _; _]). set (e := R x ESP) in *.
  assert (∀ k r, l !! k = Some (R x r) → is_segment r = false →
    ld32 (st32 (stk e l (ram x)) old (e - 16)) (e - 4 * Z.of_nat k - 4) = R x r) as H.
  { intros k r Hk Hs. pose proof (lookup_lt_Some _ _ _ Hk) as Hl. cbn in Hl. rewrite ld32_st32_ne by lia.
    rewrite (proj1 (stk_lookup _ _ _ _ _ Hk)). specialize (Hx r). rewrite Hs in Hx. by apply u32_id. }
  unfold read_context. f_equal.
  - replace (e - 16) with (e - 4 * Z.of_nat 3 - 4) at 2 by lia. by apply H.
  - replace (e - 16 + 4) with (e - 4 * Z.of_nat 2 - 4) by lia. by apply H.
  - replace (e - 16 + 8) with (e - 4 * Z.of_nat 1 - 4) by lia. by apply H.
  - replace (e - 16 + 12) with (e - 4 * Z.of_nat 0 - 4) by lia. by apply H.
  - rewrite ld32_st32_ne by lia. rewrite (ld32_ext (ram x)); [by replace (e - 16 + 16) with e by lia|].
    intros b Hb. apply stk_above. lia.
Qed.

Lemma read_context_ext m m' a : (∀ b, a <= b < a + 20 → m' b = m b) → read_context m' a = read_context m a.
Proof. intros H. unfold read_context. rewrite !(ld32_ext m m') by (intros; apply H; lia). done. Qed.

(** C17. A kernel thread that gives up the processor with [swtch] is resumed by
    a later [swtch] to the context pointer it left, as long as nobody has
    written to its saved context: it returns from its call with its
    callee-saved registers and its stack pointer as they were. *)
Theorem swtch_resumes x ret old new y ret' old' :
  regs_ok x → swtch_call x ret old new →
  swtch_call y ret' old' (ld32 (ram (exec swtch x)) old) →
  let c := R x ESP - 16 in
  (∀ b, c <= b < c + 20 → ram y b = ram (exec swtch x) b) →
  (R y ESP <= c ∨ c + 20 <= R y ESP - 16) → (old' + 4 <= c ∨ c + 20 <= old') →
  let z := exec swtch y in
  (∀ r, r ∈ [EDI; ESI; EBX; EBP] → R z r = R x r) ∧ R z EIP = ret ∧ R z ESP = R x ESP + 4.
Proof.
  intros Hx Hc Hy. destruct (swtch_spec x ret old new Hc) as (Mx & _).
  destruct (swtch_saves x ret old new Hx Hc) as [Ho Hs]. rewrite Mx, Ho in Hy. rewrite Mx.
  cbn zeta. remember (R x ESP - 16) as c eqn:Ec. intros Hm Hd Hd'.
  destruct (swtch_spec y _ _ _ Hy) as (My & E1 & E2 & E3 & E4 & E5 & E6 & _).
  revert My E1 E2 E3 E4 E5 E6. generalize (exec swtch y). intros z My E1 E2 E3 E4 E5 E6. cbn zeta.
  assert (read_context (ram z) c = read_context (swtch_mem x old) c) as E.
  { apply read_context_ext. intros b Hb. rewrite My, <- Hm by done. unfold swtch_mem.
    rewrite st32_other by lia. destruct Hd; [apply stk_above | apply stk_below; cbn [length]]; lia. }
  rewrite Hs in E. clear My Hm Hs. split_and!.
  - intros r Hr. repeat (apply elem_of_cons in Hr as [->|Hr]); [..|by apply not_elem_of_nil in Hr].
    + rewrite E2. exact (f_equal ctx_edi E).
    + rewrite E3. exact (f_equal ctx_esi E).
    + rewrite E4. exact (f_equal ctx_ebx E).
    + rewrite E5. exact (f_equal ctx_ebp E).
  - rewrite E6. exact (f_equal ctx_eip E).
  - rewrite E1. lia.
Qed.

Lemma allocproc_stack_spec k tr fr m : is_u32 tr → is_u32 fr →
  let tf := k + KSTACKSIZE - 76 in
  let '(tf', c, m') := allocproc_stack k tr fr m in
  tf' = tf ∧ c = tf - 24 ∧ ld32 m' (tf - 4) = tr ∧ read_context m' c = mkContext 0 0 0 0 fr.
Proof.
  intros Ht Hf tf. unfold allocproc_stack. fold tf. split; [done|]. split; [lia|].
  set (m1 := KString.memset _ _ _ _).
  assert (∀ b, tf - 24 <= b < tf - 4 → m1 b = 0) as H0.
  { intros b Hb. unfold m1. rewrite memset_spec. addr. }
  assert (ld32 m1 (tf - 4) = tr) as H1.
  { rewrite (ld32_ext (st32 m (tf - 4) tr)).
    - rewrite ld32_st32_eq. by apply u32_id.
    - intros b Hb. unfold m1. rewrite memset_spec. addr. }
  split.
  { rewrite ld32_st32_ne by lia. done. }
  assert (∀ a, tf - 24 <= a → a + 4 <= tf - 4 → ld32 m1 a = 0) as H2 by (intros a ??; unfold ld32; by rewrite !H0 by lia).
  unfold read_context. f_equal; [rewrite ld32_st32_ne by lia; apply H2; lia .. | rewrite ld32_st32_eq; by apply u32_id].
Qed.

(** C28. A process made by [allocproc] starts on its first [swtch]: [swtch]
    goes to [forkret] on the new kernel stack, [forkret] returns to [trapret],
    and the process enters user mode with the registers of its trap frame, as
    [do_signal] leaves it. *)
Theorem first_switch_enters_user k tr fr m x ret old forkret do_signal :
  is_u32 tr → is_u32 fr → 0 <= k → k + KSTACKSIZE < 2 ^ 32 →
  let '(tf, c, m') := allocproc_stack k tr fr m in
  swtch_call x ret old c → Z.land (R x CS) 3 = 0 →
  (∀ b, c <= b < tf → ram x b = m' b) →
  (R x ESP <= c ∨ tf <= R x ESP - 16) → (old + 4 <= c ∨ tf <= old) →
  let y := exec swtch x in
  R y EIP = fr ∧ ld32 (ram y) (R y ESP) = tr ∧
  (R (forkret y) ESP = u32 (R y ESP + 4) → R (forkret y) CS = R y CS →
   let xs := push (R (forkret y) ESP) (forkret y) in
   returns do_signal xs →
   let t := read_tf (ram (step (Call do_signal) xs)) tf in
   user_mode t = true → ∀ r, R (exec (trapret do_signal) (forkret y)) r = tf_regs t r).
Proof.
  intros Ht Hf Hk Hk'. unfold KSTACKSIZE in *. pose proof (allocproc_stack_spec k tr fr m Ht Hf) as Hs.
  destruct (allocproc_stack k tr fr m) as [[tf c] m']. unfold KSTACKSIZE in Hs. destruct Hs as (-> & -> & Hr & Hc).
  intros Hx Hcs Hm Hd Hd'. destruct (swtch_spec x _ _ _ Hx) as (M & E & _ & _ & _ & _ & Eip & Ecs).
  revert M E Eip Ecs. generalize (exec swtch x). intros y M E Eip Ecs. cbn zeta.
  set (tf := k + 4096 - 76) in *.
  assert (∀ b, tf - 24 <= b < tf → ram y b = m' b) as Hy.
  { intros b Hb. rewrite M, <- Hm by done. unfold swtch_mem. rewrite st32_other by lia.
    destruct Hd; [apply stk_above | apply stk_below; cbn [length]]; lia. }
  split; [|split].
  - rewrite Eip, (ld32_ext m') by (intros; apply Hy; lia). exact (f_equal ctx_eip Hc).
  - rewrite E, (ld32_ext m') by (intros; apply Hy; lia). rewrite <- Hr. f_equal. lia.
  - intros Hsp Hcs'. apply trapret_regs; [|lia | lia | by rewrite Hcs', Ecs].
    rewrite Hsp, E, u32_id by (unfold is_u32; lia). lia.
Qed.

(** The first process asks for [exec(init, argv)]. *)
Lemma initcode_args argv init x : 16 <= R x ESP < 2 ^ 32 → is_u32 argv → is_u32 init →
  let x' := exec (initcode argv init) x in
  R x' EAX = 7 ∧ ld32 (ram x') (R x' ESP + 4) = init ∧ ld32 (ram x') (R x' ESP + 8) = argv.
Proof.
  intros Hx Ha Hi. assert (on_stack (pushes [argv; init; 0] x) (R x ESP) [argv; init; 0] (ram x)) as [E M].
  { apply (pushes_on _ _ _ []); [split; [cbn; lia | done] | cbn; lia]. }
  cbn zeta. change (exec (initcode argv init) x) with (set_reg EAX 7 (pushes [argv; init; 0] x)).
  split; [done|]. rewrite R_set_ne by done. change (ram (set_reg EAX 7 ?y)) with (ram y). rewrite E, M. cbn [length].
  split.
  - replace (R x ESP - 4 * Z.of_nat 3 + 4) with (R x ESP - 4 * Z.of_nat 1 - 4) by lia.
    rewrite (proj1 (stk_lookup [argv; init; 0] _ _ 1 init eq_refl)). by apply u32_id.
  - replace (R x ESP - 4 * Z.of_nat 3 + 8) with (R x ESP - 4 * Z.of_nat 0 - 4) by lia.
    rewrite (proj1 (stk_lookup [argv; init; 0] _ _ 0 argv eq_refl)). by apply u32_id.
Qed.

(** The code [main] returns to pushes the return value where a system call stub
    has its return address: the status [sys_exit] fetches, the word above the
    stack pointer, is the [argc] that [exec] put there. *)
Theorem exit_stub_passes_argc x : 8 <= R x ESP → R x ESP + 4 <= 2 ^ 32 →
  let x' := exec exit_start x in
  R x' EAX = 2 ∧ ld32 (ram x') (R x' ESP) = u32 (R x EAX) ∧
  ld32 (ram x') (R x' ESP + 4) = ld32 (ram x) (R x ESP).
Proof.
  intros H1 H2. cbn zeta. change (exec exit_start x) with (set_reg EAX 2 (push (R x EAX) x)). split; [done|].
  rewrite R_set_ne by done. change (ram (set_reg EAX 2 ?y)) with (ram y).
  change (R (push (R x EAX) x) ESP) with (u32 (R x ESP - 4)).
  change (ram (push (R x EAX) x)) with (st32 (ram x) (u32 (R x ESP - 4)) (R x EAX)). nowrap. split.
  - apply ld32_st32_eq.
  - rewrite ld32_st32_ne by lia. f_equal. lia.
Qed.

(** ** Examples *)

(** A user program in its system call, on a kernel whose [trap] returns 7 in
    the frame's [eax]. *)
Definition demo_user : x86 :=
  mkX86 (λ r, match r with
              | CS => 0x23 | SS | DS | ES | FS | GS => 0x2b | ESP => 0x2fe0 | EIP => 0x40 | EFLAGS => 0x202 | EAX => 5
              | r => Z.of_nat (reg_num r)
              end) (λ _, 0).
Definition demo_ret (x : x86) : x86 := set_reg ESP (u32 (R x ESP + 4)) x.
Definition demo_trap (x : x86) : x86 := demo_ret (store (ld32 (ram x) (u32 (R x ESP + 4)) + 28) 7 x).
Definition demo_vectors (i : Z) : Z := 0x80106000 + 16 * i.
Definition demo_entered : option x86 :=
  deliver (kgdt 0x80112000 (λ _, SEG 0 0 0 0)) (kidt demo_vectors (λ _, SETGATE false 0 0 0)) 0x8dfff000 16
    T_SYSCALL None demo_user.

Lemma demo_regs_ok : regs_ok demo_user.
Proof. intros r. destruct r; cbn; lia. Qed.

Lemma trap_entry_exit_witness :
  let x1 := default demo_user demo_entered in
  let z := exec (vector T_SYSCALL ++ alltraps demo_trap demo_ret) x1 in
  R x1 EIP = 0x80106400 ∧ R z EAX = 7 ∧ R z ESP = 0x2fe0 ∧ R z CS = 0x23 ∧ R z EIP = 0x40.
Proof.
  destruct (trap_entry_exit demo_vectors (λ _, SETGATE false 0 0 0) 0x80112000 (λ _, SEG 0 0 0 0) 0x8dfff000 16
    T_SYSCALL None demo_user demo_trap demo_ret) as (x1 & Hd & Hip & H).
  - apply demo_regs_ok.
  - reflexivity.
  - unfold T_SYSCALL. lia.
  - split; [by intros [] | done].
  - cbn. lia.
  - lia.
  - cbn zeta. unfold demo_entered in *. rewrite Hd. cbn [default]. 
    assert (x1 = default demo_user demo_entered) as -> by (unfold demo_entered; by rewrite Hd).
    destruct H as (Ha & _ & _ & _ & _ & _ & _ & _ & _ & _ & _ & H). rewrite Ha in H. clear Hd Ha.
    split; [exact Hip|]. cbn zeta in H.
    match type of H with ?P → ?Q → ?S → _ =>
      assert P as H1 by (split; vm_compute; reflexivity);
      assert Q as H2 by (split; vm_compute; reflexivity);
      assert S as H3 by (vm_compute; reflexivity) end.
    specialize (H H1 H2 H3). rewrite !H. vm_compute. split_and!; reflexivity.
Defined.

(** A thread with its stack at 0x2000 that switches to the scheduler, whose
    stack is at 0x3000, and is switched back to. *)
Definition demo_thread : x86 :=
  mkX86 (λ r, match r with ESP => 0x2000 | CS => 8 | EDI => 11 | ESI => 12 | EBX => 13 | EBP => 14 | _ => 0 end)
    (st32 (st32 (st32 (λ _, 0) 0x2000 0x80104444) 0x2004 0x5000) 0x2008 0x3000).
Definition demo_scheduler : x86 :=
  mkX86 (λ r, match r with ESP => 0x3100 | CS => 8 | _ => 0 end)
    (st32 (st32 (st32 (ram (exec swtch demo_thread)) 0x3100 0x80105555) 0x3104 0x5004) 0x3108 0x1ff0).

Lemma demo_thread_regs : regs_ok demo_thread.
Proof. intros r. destruct r; cbn; lia. Qed.

Lemma swtch_resumes_witness :
  let z := exec swtch demo_scheduler in
  (∀ r, r ∈ [EDI; ESI; EBX; EBP] → R z r = R demo_thread r) ∧ R z EIP = 0x80104444 ∧ R z ESP = 0x2004.
Proof.
  apply (swtch_resumes demo_thread 0x80104444 0x5000 0x3000 demo_scheduler 0x80105555 0x5004).
  - apply demo_thread_regs.
  - unfold swtch_call. vm_compute. intuition congruence.
  - unfold swtch_call. vm_compute. intuition congruence.
  - intros b Hb. change (R demo_thread ESP) with 0x2000 in Hb. unfold demo_scheduler at 1. cbn [ram].
    rewrite !st32_other by lia. reflexivity.
  - right. vm_compute. congruence.
  - right. vm_compute. congruence.
Defined.

(** The scheduler's first switch to a new process with kernel stack 0x7000 and
    the trap frame of [demo_user]. *)
Definition demo_first : x86 :=
  let '(tf, c, m) := allocproc_stack 0x7000 0x80106abc 0x80104abc (λ _, 0) in
  mkX86 (λ r, match r with ESP => 0x3100 | CS => 8 | _ => 0 end)
    (st32 (st32 (st32 (st32 (st32 m (tf + 60) 0x23) (tf + 28) 9) 0x3100 0x80105555) 0x3104 0x5004) 0x3108 c).

Lemma first_switch_enters_user_witness :
  let y := exec swtch demo_first in
  R y EIP = 0x80104abc ∧ R (exec (trapret demo_ret) (demo_ret y)) EAX = 9.
Proof.
  pose proof (first_switch_enters_user 0x7000 0x80106abc 0x80104abc (λ _, 0) demo_first 0x80105555 0x5004 demo_ret demo_ret) as H.
  do 2 (specialize (H ltac:(unfold is_u32; lia))). specialize (H ltac:(lia) ltac:(unfold KSTACKSIZE; lia)).
  unfold allocproc_stack in H. cbv beta iota zeta in H.
  assert (∀ b, 0x7000 + KSTACKSIZE - 76 - 4 - 20 <= b < 0x7000 + KSTACKSIZE - 76 → ram demo_first b =
    snd (allocproc_stack 0x7000 0x80106abc 0x80104abc (λ _, 0)) b) as Hm.
  { intros b Hb. unfold demo_first, allocproc_stack. cbn [ram snd]. unfold KSTACKSIZE in *.
    do 5 rewrite st32_other by lia. reflexivity. }
  match type of H with ?P → ?Q → _ → ?S → ?T → _ =>
    assert P as H1 by (unfold swtch_call; vm_compute; intuition congruence);
    assert Q as H2 by reflexivity;
    assert S as H3 by (left; vm_compute; congruence);
    assert T as H4 by (left; vm_compute; congruence) end.
  destruct (H H1 H2 Hm H3 H4) as (E & _ & F). clear H H1 H2 Hm H3 H4.
  split; [exact E|].
  match type of F with ?P → ?Q → ?S → ?T → _ =>
    assert P as H1 by (vm_compute; reflexivity); assert Q as H2 by (vm_compute; reflexivity);
    assert S as H3 by (split; vm_compute; reflexivity); assert T as H4 by (vm_compute; reflexivity) end.
  rewrite (F H1 H2 H3 H4 EAX). vm_compute. reflexivity.
Defined.
