(* ===== verification/Irq.v ===== *)
(** * Interrupt controllers, clocks and the serial port
    (picirq.c, ioapic.c, lapic.c, timer.c, uart.c)

    The devices are not part of the kernel.  What the code does to them is a
    history of port and memory-mapped accesses, and the value an access reads
    is a parameter, [env], applied to the history so far: any deterministic
    device.  The theorems read the state of a device off the history the way
    its data sheet says ([pic_of], [ioapic_of], [lapic_of], [serial_of],
    [pit_of]).

    [irqst] has the variables of the files next to the history.  Loops that
    wait for a device take a bound on their turns.  The messages of [cprintf]
    are not modelled, nor is [microdelay], which is empty. *)

From S2P Require Import Prelude CString Proc Trap.
#[local] Open Scope Z_scope.

Definition IO_PIC1 : Z := 0x20.
Definition IO_PIC2 : Z := 0xA0.
Definition IRQ_SLAVE : Z := 2.
Definition IOAPIC : Z := 0xFEC00000.
Definition REG_ID : Z := 0.
Definition REG_VER : Z := 1.
Definition REG_TABLE : Z := 0x10.
Definition INT_DISABLED : Z := 0x10000.
Definition IO_TIMER1 : Z := 0x40.
Definition TIMER_FREQ : Z := 1193182.
Definition TIMER_DIV (x : Z) : Z := (TIMER_FREQ + x / 2) / x.
Definition TIMER_MODE : Z := IO_TIMER1 + 3.
Definition TIMER_SEL0 : Z := 0x00.
Definition TIMER_RATEGEN : Z := 0x04.
Definition TIMER_16BIT : Z := 0x30.
Definition COM1 : Z := 0x3f8.
Definition CMOS_PORT : Z := 0x70.
Definition CMOS_RETURN : Z := 0x71.
Definition IRQ_ERROR : Z := 19.

(** The registers of the local APIC, as indices of [lapic]. *)
Definition ID : Z := 0x20 / 4.
Definition VER : Z := 0x30 / 4.
Definition TPR : Z := 0x80 / 4.
Definition EOI : Z := 0xB0 / 4.
Definition SVR : Z := 0xF0 / 4.
Definition ENABLE : Z := 0x100.
Definition ESR : Z := 0x280 / 4.
Definition ICRLO : Z := 0x300 / 4.
Definition INIT : Z := 0x500.
Definition STARTUP : Z := 0x600.
Definition DELIVS : Z := 0x1000.
Definition ASSERT : Z := 0x4000.
Definition LEVEL : Z := 0x8000.
Definition BCAST : Z := 0x80000.
Definition ICRHI : Z := 0x310 / 4.
Definition TIMER : Z := 0x320 / 4.
Definition X1 : Z := 0xB.
Definition PERIODIC : Z := 0x20000.
Definition PCINT : Z := 0x340 / 4.
Definition LINT0 : Z := 0x350 / 4.
Definition LINT1 : Z := 0x360 / 4.
Definition ERROR : Z := 0x370 / 4.
Definition MASKED : Z := 0x10000.
Definition TICR : Z := 0x380 / 4.
Definition TDCR : Z := 0x3E0 / 4.

Definition CMOS_STATA : Z := 0x0a.
Definition CMOS_STATB : Z := 0x0b.
Definition CMOS_UIP : Z := Z.shiftl 1 7.
Definition SECS : Z := 0x00.
Definition MINS : Z := 0x02.
Definition HOURS : Z := 0x04.
Definition DAY : Z := 0x07.
Definition MONTH : Z := 0x08.
Definition YEAR : Z := 0x09.

(** ** State *)

Inductive access :=
  | Out (port v : Z)
  | In (port : Z)
  | Wr (a v : Z)
  | Rd (a : Z).

(** [wrv] is the warm reset vector, [uart] says if there is a serial port. *)
Record irqst := mkIrqst {
  hist : list access;
  irqmask : Z;
  ismp : bool;
  lapic : Z;
  uart : bool;
  wrv : Z * Z;
}.

Definition set_hist x (s : irqst) := mkIrqst x (irqmask s) (ismp s) (lapic s) (uart s) (wrv s).
Definition set_irqmask x (s : irqst) := mkIrqst (hist s) x (ismp s) (lapic s) (uart s) (wrv s).
Definition set_uart x (s : irqst) := mkIrqst (hist s) (irqmask s) (ismp s) (lapic s) x (wrv s).
Definition set_wrv x (s : irqst) := mkIrqst (hist s) (irqmask s) (ismp s) (lapic s) (uart s) x.

Section Code.
Variable env : list access → access → Z.

Definition outb (port v : Z) : M irqst unit := modify (λ s, set_hist (hist s ++ [Out port (u8 v)]) s).
Definition write (a v : Z) : M irqst unit := modify (λ s, set_hist (hist s ++ [Wr a (u32 v)]) s).
Definition inb (port : Z) : M irqst Z :=
  s ← get; put (set_hist (hist s ++ [In port]) s);; mret (u8 (env (hist s) (In port))).
Definition read (a : Z) : M irqst Z :=
  s ← get; put (set_hist (hist s ++ [Rd a]) s);; mret (u32 (env (hist s) (Rd a))).

(** ** picirq.c *)

Definition picsetmask (mask : Z) : M irqst unit :=
  modify (set_irqmask mask);;
  outb (IO_PIC1 + 1) mask;;
  outb (IO_PIC2 + 1) (Z.shiftr mask 8).

(** The mask is kept in 16 bits. *)
Definition picenable (irq : Z) : M irqst unit :=
  m ← gets irqmask;
  picsetmask (u16 (Z.land m (Z.lnot (Z.shiftl 1 irq)))).

Definition picinit : M irqst unit :=
  outb (IO_PIC1 + 1) 0xFF;;
  outb (IO_PIC2 + 1) 0xFF;;
  outb IO_PIC1 0x11;;
  outb (IO_PIC1 + 1) T_IRQ0;;
  outb (IO_PIC1 + 1) (Z.shiftl 1 IRQ_SLAVE);;
  outb (IO_PIC1 + 1) 0x3;;
  outb IO_PIC2 0x11;;
  outb (IO_PIC2 + 1) (T_IRQ0 + 8);;
  outb (IO_PIC2 + 1) IRQ_SLAVE;;
  outb (IO_PIC2 + 1) 0x3;;
  outb IO_PIC1 0x68;;
  outb IO_PIC1 0x0a;;
  outb IO_PIC2 0x68;;
  outb IO_PIC2 0x0a;;
  m ← gets irqmask;
  if negb (m =? 0xFFFF) then picsetmask m else mret tt.

(** ** ioapic.c *)

(** [reg] and [data] of [struct ioapic]. *)
Definition ioapicread (reg : Z) : M irqst Z :=
  write IOAPIC reg;;
  read (IOAPIC + 16).

Definition ioapicwrite (reg data : Z) : M irqst unit :=
  write IOAPIC reg;;
  write (IOAPIC + 16) data.

Fixpoint ioapicinit_loop (i : Z) (k : nat) : M irqst unit :=
  match k with
  | O => mret tt
  | S k' =>
      ioapicwrite (REG_TABLE + 2 * i) (Z.lor INT_DISABLED (T_IRQ0 + i));;
      ioapicwrite (REG_TABLE + 2 * i + 1) 0;;
      ioapicinit_loop (i + 1) k'
  end.

(** [maxintr] is at most 255, which bounds the loop. *)
Definition ioapicinit : M irqst unit :=
  mp ← gets ismp;
  if negb mp then mret tt else
  v ← ioapicread REG_VER;
  let maxintr := Z.land (Z.shiftr v 16) 0xFF in
  ioapicread REG_ID;;
  ioapicinit_loop 0 (Z.to_nat maxintr + 1).

Definition ioapicenable (irq cpunum : Z) : M irqst unit :=
  mp ← gets ismp;
  if negb mp then mret tt else
  ioapicwrite (REG_TABLE + 2 * irq) (T_IRQ0 + irq);;
  ioapicwrite (REG_TABLE + 2 * irq + 1) (Z.shiftl cpunum 24).

(** ** timer.c *)

Definition timerinit : M irqst unit :=
  outb TIMER_MODE (Z.lor (Z.lor TIMER_SEL0 TIMER_RATEGEN) TIMER_16BIT);;
  outb IO_TIMER1 (TIMER_DIV 100 mod 256);;
  outb IO_TIMER1 (TIMER_DIV 100 / 256);;
  picenable IRQ_TIMER.

(** ** lapic.c *)

Definition lapicw (index value : Z) : M irqst unit :=
  l ← gets lapic;
  write (l + 4 * index) value;;
  read (l + 4 * ID);;
  mret tt.

Definition lapicr (index : Z) : M irqst Z :=
  l ← gets lapic;
  read (l + 4 * index).

(** [while(lapic[ICRLO] & DELIVS)] *)
Fixpoint wait_delivery (fuel : nat) : M irqst unit :=
  v ← lapicr ICRLO;
  if Z.land v DELIVS =? 0 then mret tt else
  match fuel with
  | O => out_of_fuel
  | S fuel' => wait_delivery fuel'
  end.

Definition lapicinit (fuel : nat) : M irqst unit :=
  l ← gets lapic;
  if l =? 0 then mret tt else
  lapicw SVR (Z.lor ENABLE (T_IRQ0 + IRQ_SPURIOUS));;
  lapicw TDCR X1;;
  lapicw TIMER (Z.lor PERIODIC (T_IRQ0 + IRQ_TIMER));;
  lapicw TICR 10000000;;
  lapicw LINT0 MASKED;;
  lapicw LINT1 MASKED;;
  v ← lapicr VER;
  (if 4 <=? Z.land (Z.shiftr v 16) 0xFF then lapicw PCINT MASKED else mret tt);;
  lapicw ERROR (T_IRQ0 + IRQ_ERROR);;
  lapicw ESR 0;;
  lapicw ESR 0;;
  lapicw EOI 0;;
  lapicw ICRHI 0;;
  lapicw ICRLO (Z.lor (Z.lor BCAST INIT) LEVEL);;
  wait_delivery fuel;;
  lapicw TPR 0.

(** The warning of a call with interrupts enabled is not modelled. *)
Definition cpunum : M irqst Z :=
  l ← gets lapic;
  if negb (l =? 0) then v ← lapicr ID; mret (Z.shiftr v 24) else mret 0.

Definition lapiceoi : M irqst unit :=
  l ← gets lapic;
  if negb (l =? 0) then lapicw EOI 0 else mret tt.

Fixpoint startup_ipis (k : nat) (apicid addr : Z) : M irqst unit :=
  match k with
  | O => mret tt
  | S k' =>
      lapicw ICRHI (Z.shiftl apicid 24);;
      lapicw ICRLO (Z.lor STARTUP (Z.shiftr addr 12));;
      startup_ipis k' apicid addr
  end.

Definition lapicstartap (apicid addr : Z) : M irqst unit :=
  outb CMOS_PORT 0xF;;
  outb (CMOS_PORT + 1) 0x0A;;
  modify (set_wrv (0, u16 (Z.shiftr addr 4)));;
  lapicw ICRHI (Z.shiftl apicid 24);;
  lapicw ICRLO (Z.lor (Z.lor INIT LEVEL) ASSERT);;
  lapicw ICRLO (Z.lor INIT LEVEL);;
  startup_ipis 2 apicid addr.

(** ** The real-time clock *)

Record rtcdate := mkDate {
  second : Z;
  minute : Z;
  hour : Z;
  day : Z;
  month : Z;
  year : Z;
}.

Definition cmos_read (reg : Z) : M irqst Z :=
  outb CMOS_PORT reg;;
  inb CMOS_RETURN.

Definition fill_rtcdate : M irqst rtcdate :=
  s ← cmos_read SECS;
  m ← cmos_read MINS;
  h ← cmos_read HOURS;
  d ← cmos_read DAY;
  mo ← cmos_read MONTH;
  y ← cmos_read YEAR;
  mret (mkDate s m h d mo y).

(** [memcmp(&t1, &t2, sizeof(t1)) == 0] *)
Definition date_eqb (a b : rtcdate) : bool :=
  (second a =? second b) && (minute a =? minute b) && (hour a =? hour b) && (day a =? day b) &&
  (month a =? month b) && (year a =? year b).

Fixpoint cmostime_loop (fuel : nat) : M irqst rtcdate :=
  t1 ← fill_rtcdate;
  st ← cmos_read CMOS_STATA;
  let again := match fuel with O => out_of_fuel | S fuel' => cmostime_loop fuel' end in
  if negb (Z.land st CMOS_UIP =? 0) then again else
  t2 ← fill_rtcdate;
  if date_eqb t1 t2 then mret t1 else again.

Definition CONV (x : Z) : Z := Z.shiftr x 4 * 10 + Z.land x 0xf.

Definition cmostime (fuel : nat) : M irqst rtcdate :=
  sb ← cmos_read CMOS_STATB;
  let bcd := Z.land sb (Z.shiftl 1 2) =? 0 in
  t1 ← cmostime_loop fuel;
  let t1 := if bcd : bool
            then mkDate (CONV (second t1)) (CONV (minute t1)) (CONV (hour t1)) (CONV (day t1)) (CONV (month t1)) (CONV (year t1))
            else t1 in
  mret (mkDate (second t1) (minute t1) (hour t1) (day t1) (month t1) (u32 (year t1 + 2000))).

(** ** uart.c *)

(** [for(i = 0; i < 128 && !(inb(COM1+5) & 0x20); i++)] *)
Fixpoint uart_wait (k : nat) : M irqst unit :=
  match k with
  | O => mret tt
  | S k' => v ← inb (COM1 + 5); if Z.land v 0x20 =? 0 then uart_wait k' else mret tt
  end.

Definition uartputc (c : Z) : M irqst unit :=
  u ← gets uart;
  if negb u then mret tt else
  uart_wait 128;;
  outb (COM1 + 0) c.

(** The greeting is the string xv6... and a newline. *)
Definition uartinit : M irqst unit :=
  outb (COM1 + 2) 0;;
  outb (COM1 + 3) 0x80;;
  outb (COM1 + 0) (115200 / 9600);;
  outb (COM1 + 1) 0;;
  outb (COM1 + 3) 0x03;;
  outb (COM1 + 4) 0;;
  outb (COM1 + 1) 0x01;;
  v ← inb (COM1 + 5);
  if v =? 0xFF then mret tt else
  modify (set_uart true);;
  inb (COM1 + 2);;
  inb (COM1 + 0);;
  picenable IRQ_COM1;;
  ioapicenable IRQ_COM1 0;;
  iter_each [120; 118; 54; 46; 46; 46; 10] uartputc.

(** -1 when there is no character. *)
Definition uartgetc : M irqst Z :=
  u ← gets uart;
  if negb u then mret (-1) else
  v ← inb (COM1 + 5);
  if Z.land v 0x01 =? 0 then mret (-1) else
  inb (COM1 + 0).
End Code.

(** * What the accesses do to the devices *)

(** An 8259A: the initialisation words it still expects, the vector of its
    first line, and the mask. *)
Inductive icw := ICW2 | ICW3 | ICW4.
Record pic := mkPic {
  pending_icw : list icw;
  vbase : Z;
  pmask : Z;
}.

Definition pic_command (v : Z) (p : pic) : pic :=
  if Z.testbit v 4
  then mkPic ([ICW2] ++ (if Z.testbit v 1 then [] else [ICW3]) ++ (if Z.testbit v 0 then [ICW4] else [])) (vbase p) 0
  else p.
Definition pic_data (v : Z) (p : pic) : pic :=
  match pending_icw p with
  | ICW2 :: l => mkPic l (Z.land v 0xf8) (pmask p)
  | _ :: l => mkPic l (vbase p) (pmask p)
  | [] => mkPic [] (vbase p) v
  end.
Definition pic_step (base : Z) (p : pic) (a : access) : pic :=
  match a with
  | Out port v => if port =? base then pic_command v p else if port =? base + 1 then pic_data v p else p
  | _ => p
  end.
Definition pic_of (base : Z) (p : pic) (h : list access) : pic := foldl (pic_step base) p h.

(** The I/O APIC: a register index, and the registers behind the data window. *)
Record ioapic := mkIoapic {
  io_sel : Z;
  io_reg : Z → Z;
}.
Definition ioapic_step (d : ioapic) (a : access) : ioapic :=
  match a with
  | Wr b v => if b =? IOAPIC then mkIoapic v (io_reg d)
              else if b =? IOAPIC + 16 then mkIoapic (io_sel d) (<[io_sel d := v]> (io_reg d)) else d
  | _ => d
  end.
Definition ioapic_of (d : ioapic) (h : list access) : ioapic := foldl ioapic_step d h.

Lemma pic_of_snoc base p h a : pic_of base p (h ++ [a]) = pic_step base (pic_of base p h) a.
Proof. apply foldl_snoc. Qed.

Lemma ioapic_of_snoc d h a : ioapic_of d (h ++ [a]) = ioapic_step (ioapic_of d h) a.
Proof. apply foldl_snoc. Qed.

(** ** Routing *)

Section Routing.
Variable env : list access → access → Z.
Variables (m0 s0 : pic) (d0 : ioapic) (ver : Z).

Definition master (s : irqst) : pic := pic_of IO_PIC1 m0 (hist s).
Definition slave (s : irqst) : pic := pic_of IO_PIC2 s0 (hist s).
Definition apic (s : irqst) : ioapic := ioapic_of d0 (hist s).

(** The version register of the I/O APIC. *)
Hypothesis env_ver : ∀ h, io_sel (ioapic_of d0 h) = REG_VER → env h (Rd (IOAPIC + 16)) = ver.

(** The devices after a run of port writes from [s]. *)
Ltac devices := unfold apic, master, slave; cbn [hist set_hist set_irqmask]; rewrite ?pic_of_snoc, ?ioapic_of_snoc.

Lemma picsetmask_spec m s : pending_icw (master s) = [] → pending_icw (slave s) = [] →
  ∃ s', picsetmask m s = Done tt s' ∧ irqmask s' = m ∧ ismp s' = ismp s ∧ apic s' = apic s ∧
    master s' = mkPic [] (vbase (master s)) (u8 m) ∧ slave s' = mkPic [] (vbase (slave s)) (u8 (Z.shiftr m 8)).
Proof.
  intros Hm Hs. eexists. split; [reflexivity|]. do 2 (split; [reflexivity|]). revert Hm Hs.
  devices. generalize (pic_of IO_PIC1 m0 (hist s)), (pic_of IO_PIC2 s0 (hist s)). intros [l1 b1 k1] [l2 b2 k2] H1 H2.
  cbn [pending_icw] in *. subst. done.
Qed.

Lemma picinit_spec s : irqmask s ≠ 0xFFFF →
  ∃ s', picinit s = Done tt s' ∧ irqmask s' = irqmask s ∧ ismp s' = ismp s ∧ apic s' = apic s ∧
    master s' = mkPic [] 32 (u8 (irqmask s)) ∧ slave s' = mkPic [] 40 (u8 (Z.shiftr (irqmask s) 8)).
Proof.
  intros Hm. unfold picinit. do 14 mgo. mgo.
  match goal with |- context [(?x =? 65535)%Z] => change x with (irqmask s) end.
  apply Z.eqb_neq in Hm. rewrite Hm. cbn [negb].
  match goal with |- context [picsetmask _ ?x] => set (s1 := x) end.
  assert (master s1 = mkPic [] 32 0 ∧ slave s1 = mkPic [] 40 0 ∧ apic s1 = apic s ∧ ismp s1 = ismp s) as (E1 & E2 & E3 & E4).
  { unfold s1. devices. done. }
  clearbody s1.
  destruct (picsetmask_spec (irqmask s) s1) as (s' & -> & H1 & H2 & H3 & H4 & H5); [by rewrite E1 | by rewrite E2|].
  exists s'. rewrite E1 in H4. rewrite E2 in H5. cbn [vbase] in *. split_and!; congruence.
Qed.

Lemma lor_u32 a b : 0 <= a < 2 ^ 32 → 0 <= b < 2 ^ 32 → is_u32 (Z.lor a b).
Proof.
  intros Ha Hb. unfold is_u32. split; [apply Z.lor_nonneg; lia|].
  assert (Z.lor a b = Z.land (Z.lor a b) (Z.ones 32)) as ->; [|rewrite Z.land_ones by lia; apply Z.mod_pos_bound; lia].
  rewrite Z.land_lor_distr_l, !Z.land_ones, !Z.mod_small by lia. done.
Qed.

Lemma ioapicwrite_spec reg data s :
  ∃ s', ioapicwrite reg data s = Done tt s' ∧ irqmask s' = irqmask s ∧ ismp s' = ismp s ∧
    master s' = master s ∧ slave s' = slave s ∧ io_reg (apic s') = <[u32 reg := u32 data]> (io_reg (apic s)).
Proof.
  eexists. split; [reflexivity|]. do 2 (split; [reflexivity|]). devices. done.
Qed.

Lemma ioapicread_spec reg s :
  ∃ v s', ioapicread env reg s = Done v s' ∧ irqmask s' = irqmask s ∧ ismp s' = ismp s ∧
    master s' = master s ∧ slave s' = slave s ∧ io_reg (apic s') = io_reg (apic s) ∧
    (reg = REG_VER → v = u32 ver).
Proof.
  do 2 eexists. split; [reflexivity|]. do 2 (split; [reflexivity|]). devices. split_and!; try done.
  intros ->. f_equal. apply env_ver. by rewrite ioapic_of_snoc.
Qed.

(** The number of the last redirection entry. *)
Definition maxintr : Z := Z.land (Z.shiftr (u32 ver) 16) 0xFF.

Lemma ioapicinit_loop_spec k : ∀ i s, 0 <= i → i + Z.of_nat k <= 256 →
  ∃ s', ioapicinit_loop i k s = Done tt s' ∧ irqmask s' = irqmask s ∧ ismp s' = ismp s ∧
    master s' = master s ∧ slave s' = slave s ∧
    ∀ j, io_reg (apic s') j = if decide (REG_TABLE + 2 * i <= j < REG_TABLE + 2 * (i + Z.of_nat k))
      then (if Z.even j then Z.lor INT_DISABLED (T_IRQ0 + (j - REG_TABLE) / 2) else 0) else io_reg (apic s) j.
Proof.
  induction k as [|k IH]; intros i s Hi Hk.
  { eexists. split; [reflexivity|]. split_and!; try done. intros j. rewrite decide_False by lia. done. }
  cbn [ioapicinit_loop].
  destruct (ioapicwrite_spec (REG_TABLE + 2 * i) (Z.lor INT_DISABLED (T_IRQ0 + i)) s) as (s1 & E1 & A1 & B1 & C1 & D1 & F1).
  rewrite (bind_Done _ _ _ _ _ E1).
  destruct (ioapicwrite_spec (REG_TABLE + 2 * i + 1) 0 s1) as (s2 & E2 & A2 & B2 & C2 & D2 & F2).
  rewrite (bind_Done _ _ _ _ _ E2).
  destruct (IH (i + 1) s2) as (s' & E & A & B & C & D & F); [lia | lia |].
  exists s'. split; [done|]. split_and!; try congruence. intros j. rewrite F, F2, F1.
  unfold REG_TABLE in *. rewrite (u32_id (16 + 2 * i)), (u32_id (16 + 2 * i + 1)) by (unfold is_u32; lia).
  assert (u32 (Z.lor INT_DISABLED (T_IRQ0 + i)) = Z.lor INT_DISABLED (T_IRQ0 + i)) as ->.
  { apply u32_id. apply lor_u32; unfold INT_DISABLED, T_IRQ0; lia. }
  destruct (decide (16 + 2 * (i + 1) <= j < _)) as [H1|H1].
  { rewrite decide_True by lia. done. }
  destruct (decide (j = 16 + 2 * i + 1)) as [->|Hj1].
  { rewrite fn_lookup_insert, decide_True by lia. by replace (Z.even _) with false by (rewrite Z.add_1_r, Z.even_succ, <- Z.negb_even, Z.even_add, Z.even_mul; done). }
  rewrite fn_lookup_insert_ne by done.
  destruct (decide (j = 16 + 2 * i)) as [->|Hj0].
  { rewrite fn_lookup_insert, decide_True by lia. replace (Z.even _) with true by (by rewrite Z.even_add, Z.even_mul).
    do 2 f_equal. replace (16 + 2 * i - 16) with (i * 2) by lia. by rewrite Z.div_mul. }
  rewrite fn_lookup_insert_ne by done. rewrite decide_False by lia. done.
Qed.

Lemma ioapicinit_spec s : ismp s = true →
  ∃ s', ioapicinit env s = Done tt s' ∧ irqmask s' = irqmask s ∧ ismp s' = true ∧
    master s' = master s ∧ slave s' = slave s ∧
    ∀ i, 0 <= i <= maxintr → io_reg (apic s') (REG_TABLE + 2 * i) = Z.lor INT_DISABLED (T_IRQ0 + i) ∧
      io_reg (apic s') (REG_TABLE + 2 * i + 1) = 0.
Proof.
  intros Hmp. unfold ioapicinit. mgo. rewrite Hmp. cbn [negb].
  destruct (ioapicread_spec REG_VER s) as (v & s1 & E1 & A1 & B1 & C1 & D1 & _ & V). rewrite (bind_Done _ _ _ _ _ E1).
  destruct (ioapicread_spec REG_ID s1) as (w & s2 & E2 & A2 & B2 & C2 & D2 & _). cbn zeta. rewrite (bind_Done _ _ _ _ _ E2).
  rewrite (V eq_refl). fold maxintr.
  assert (0 <= maxintr < 256) as Hmax.
  { unfold maxintr. change 0xFF with (Z.ones 8). rewrite Z.land_ones by lia. apply Z.mod_pos_bound. lia. }
  destruct (ioapicinit_loop_spec (Z.to_nat maxintr + 1) 0 s2) as (s' & -> & A & B & C & D & F); [lia | lia |].
  exists s'. split; [done|]. split_and!; try congruence. intros i Hi. rewrite !F. unfold REG_TABLE in *. split.
  - rewrite decide_True by lia. replace (Z.even _) with true by (by rewrite Z.even_add, Z.even_mul).
    do 2 f_equal. replace (16 + 2 * i - 16) with (i * 2) by lia. by rewrite Z.div_mul.
  - rewrite decide_True by lia. by replace (Z.even _) with false by (rewrite Z.add_1_r, Z.even_succ, <- Z.negb_even, Z.even_add, Z.even_mul; done).
Qed.

(** The processor line [i] was last routed to. *)
Definition cpu_of (l : list (Z * Z)) (i : Z) : option Z :=
  foldl (λ c p, if p.1 =? i then Some p.2 else c) None l.
Definition enabled (l : list (Z * Z)) (i : Z) : bool := bool_decide (is_Some (cpu_of l i)).

Lemma cpu_of_snoc l q c i : cpu_of (l ++ [(q, c)]) i = if q =? i then Some c else cpu_of l i.
Proof. unfold cpu_of. by rewrite foldl_snoc. Qed.

(** The controllers after the lines of [l] have been enabled. *)
Record routed (l : list (Z * Z)) (s : irqst) : Prop := {
  rt_mask : 0 <= irqmask s < 2 ^ 16;
  rt_bits : ∀ k, 0 <= k < 16 → Z.testbit (irqmask s) k = negb ((k =? IRQ_SLAVE) || enabled l k);
  rt_master : master s = mkPic [] 32 (u8 (irqmask s));
  rt_slave : slave s = mkPic [] 40 (u8 (Z.shiftr (irqmask s) 8));
  rt_apic : ismp s = true → ∀ i, 0 <= i <= maxintr →
    io_reg (apic s) (REG_TABLE + 2 * i) = (if enabled l i then T_IRQ0 + i else Z.lor INT_DISABLED (T_IRQ0 + i)) ∧
    io_reg (apic s) (REG_TABLE + 2 * i + 1) = default 0 ((λ c, Z.shiftl c 24) <$> cpu_of l i);
}.

(** What the drivers do for their line: [picenable] and [ioapicenable]. *)
Definition enable (p : Z * Z) : M irqst unit := picenable p.1;; ioapicenable p.1 p.2.

Lemma mask_bits m q k : 0 <= q → 0 <= k < 16 →
  Z.testbit (u16 (Z.land m (Z.lnot (Z.shiftl 1 q)))) k = Z.testbit m k && negb (q =? k).
Proof.
  intros Hq Hk. unfold u16. rewrite Z.mod_pow2_bits_low by lia. rewrite Z.land_spec, Z.lnot_spec by lia.
  by rewrite Z.shiftl_1_l, Z.pow2_bits_eqb by lia.
Qed.

Lemma ioapicenable_spec q c s : 0 <= q < 16 → 0 <= c < 256 →
  ∃ s', ioapicenable q c s = Done tt s' ∧ irqmask s' = irqmask s ∧ ismp s' = ismp s ∧
    master s' = master s ∧ slave s' = slave s ∧
    (ismp s = true → ∀ j, io_reg (apic s') j =
      if j =? REG_TABLE + 2 * q + 1 then Z.shiftl c 24 else
      if j =? REG_TABLE + 2 * q then T_IRQ0 + q else io_reg (apic s) j).
Proof.
  intros Hq Hc. unfold ioapicenable. mgo. destruct (ismp s) eqn:Hmp; cbn [negb]; [|by exists s].
  destruct (ioapicwrite_spec (REG_TABLE + 2 * q) (T_IRQ0 + q) s) as (s1 & E1 & A1 & B1 & C1 & D1 & F1).
  rewrite (bind_Done _ _ _ _ _ E1).
  destruct (ioapicwrite_spec (REG_TABLE + 2 * q + 1) (Z.shiftl c 24) s1) as (s2 & E2 & A2 & B2 & C2 & D2 & F2).
  exists s2. split; [done|]. split_and!; try congruence. intros _ j. rewrite F2, F1.
  rewrite Z.shiftl_mul_pow2 by lia. unfold REG_TABLE, T_IRQ0. rewrite !u32_id by (unfold is_u32; lia).
  destruct (Z.eqb_spec j (16 + 2 * q + 1)) as [->|H1]; [by rewrite fn_lookup_insert|]. rewrite fn_lookup_insert_ne by done.
  destruct (Z.eqb_spec j (16 + 2 * q)) as [->|H2]; [by rewrite fn_lookup_insert|]. by rewrite fn_lookup_insert_ne by done.
Qed.

Lemma enabled_snoc l q c k : enabled (l ++ [(q, c)]) k = (q =? k) || enabled l k.
Proof.
  unfold enabled. rewrite cpu_of_snoc. destruct (q =? k); [|done]. by rewrite bool_decide_true by done.
Qed.

Lemma enable_spec l q c s : routed l s → 0 <= q < 16 → 0 <= c < 256 →
  ∃ s', enable (q, c) s = Done tt s' ∧ ismp s' = ismp s ∧ routed (l ++ [(q, c)]) s'.
Proof.
  intros [Hm Hb Hma Hsl Hap] Hq Hc. unfold enable. cbn [fst snd].
  destruct (picsetmask_spec (u16 (Z.land (irqmask s) (Z.lnot (Z.shiftl 1 q)))) s) as (s1 & E1 & A1 & B1 & C1 & D1 & F1);
    [by rewrite Hma | by rewrite Hsl |].
  rewrite (bind_Done _ _ _ _ _ (E1 : picenable q s = _)).
  destruct (ioapicenable_spec q c s1 Hq Hc) as (s' & E & A & B & C & D & F).
  exists s'. split; [done|]. split; [congruence|]. rewrite A1 in A. rewrite Hma in D1. rewrite Hsl in F1. cbn [vbase] in *. split.
  - rewrite A. apply Z.mod_pos_bound. lia.
  - intros k Hk. rewrite A, mask_bits, Hb, enabled_snoc by lia.
    by destruct (k =? IRQ_SLAVE), (enabled l k), (q =? k).
  - by rewrite C, D1, A.
  - by rewrite D, F1, A.
  - intros Hmp i Hi. destruct (Hap ltac:(congruence) i Hi) as [R1 R2]. rewrite !F, enabled_snoc, cpu_of_snoc, C1 by congruence.
    unfold REG_TABLE in *. split.
    + rewrite (proj2 (Z.eqb_neq _ (16 + 2 * q + 1))) by lia. rewrite R1.
      destruct (Z.eqb_spec q i) as [->|Hn]; [by rewrite Z.eqb_refl|]. by rewrite (proj2 (Z.eqb_neq _ (16 + 2 * q))) by lia.
    + destruct (Z.eqb_spec q i) as [->|Hn]; [by rewrite Z.eqb_refl|].
      rewrite (proj2 (Z.eqb_neq _ (16 + 2 * q + 1))), (proj2 (Z.eqb_neq _ (16 + 2 * q))) by lia. done.
Qed.

Lemma enable_all_spec ls : ∀ l s, routed l s → Forall (λ p, 0 <= p.1 < 16 ∧ 0 <= p.2 < 256) ls →
  ∃ s', iter_each ls enable s = Done tt s' ∧ ismp s' = ismp s ∧ routed (l ++ ls) s'.
Proof.
  induction ls as [|[q c] ls IH]; intros l s Hr Hls; cbn [iter_each].
  { exists s. by rewrite app_nil_r. }
  apply Forall_cons in Hls as [[Hq Hc] Hls]. destruct (enable_spec l q c s Hr Hq Hc) as (s1 & E & Hmp & Hr1).
  rewrite (bind_Done _ _ _ _ _ E). destruct (IH _ _ Hr1 Hls) as (s' & E' & Hmp' & Hr').
  exists s'. rewrite <- app_assoc in Hr'. split; [done|]. split; [congruence | done].
Qed.

Lemma initial_mask k : 0 <= k < 16 → Z.testbit 0xFFFB k = negb ((k =? IRQ_SLAVE) || enabled [] k).
Proof.
  intros Hk. rewrite <- (Z2Nat.id k) by lia. assert (Z.to_nat k < 16)%nat as Hn by lia. revert Hn.
  generalize (Z.to_nat k). intros n Hn. do 16 (destruct n as [|n]; [reflexivity|]). lia.
Qed.

(** The state of line [k] of the cascaded 8259As. *)
Definition line_vector (s : irqst) (k : Z) : Z :=
  if k <? 8 then vbase (master s) + k else vbase (slave s) + (k - 8).
Definition line_masked (s : irqst) (k : Z) : bool :=
  if k <? 8 then Z.testbit (pmask (master s)) k else Z.testbit (pmask (slave s)) (k - 8).

(** C30. After [picinit] and [ioapicinit], and once drivers have enabled the
    lines of [ls] with [picenable] and [ioapicenable], line [k] of the 8259As
    raises vector [T_IRQ0 + k], the one [trap] expects, and is unmasked exactly
    when it was enabled or is the cascade; on a multiprocessor entry [i] of the
    I/O APIC raises vector [T_IRQ0 + i] at the processor it was last routed to
    when it was enabled, and is disabled otherwise. *)
Theorem interrupts_routed s ls : irqmask s = 0xFFFB → Forall (λ p, 0 <= p.1 < 16 ∧ 0 <= p.2 < 256) ls →
  ∃ s', (picinit;; ioapicinit env;; iter_each ls enable) s = Done tt s' ∧
    (∀ k, 0 <= k < 16 → line_vector s' k = T_IRQ0 + k ∧ line_masked s' k = negb ((k =? IRQ_SLAVE) || enabled ls k)) ∧
    (ismp s = true → ∀ i, 0 <= i <= maxintr →
       io_reg (apic s') (REG_TABLE + 2 * i) = (if enabled ls i then T_IRQ0 + i else Z.lor INT_DISABLED (T_IRQ0 + i)) ∧
       io_reg (apic s') (REG_TABLE + 2 * i + 1) = default 0 ((λ c, Z.shiftl c 24) <$> cpu_of ls i)).
Proof.
  intros Hm Hls. destruct (picinit_spec s) as (s1 & E1 & A1 & B1 & C1 & D1 & F1); [by rewrite Hm|].
  rewrite (bind_Done _ _ _ _ _ E1).
  assert (∃ s2, ioapicinit env s1 = Done tt s2 ∧ ismp s2 = ismp s ∧ routed [] s2) as (s2 & E2 & B2 & Hr).
  { rewrite Hm in *. destruct (ismp s) eqn:Hmp.
    - destruct (ioapicinit_spec s1 B1) as (s2 & E & A & B & C & D & F). exists s2. split; [done|]. split; [done|].
      rewrite A1 in A. split; rewrite ?A, ?C, ?D; [lia | | done | done | intros _; exact F].
      intros k Hk. by apply initial_mask.
    - exists s1. unfold ioapicinit. mgo. rewrite B1. split; [done|]. split; [done|].
      split; rewrite ?A1; [lia | | done | done | congruence]. intros k Hk. by apply initial_mask. }
  rewrite (bind_Done _ _ _ _ _ E2). destruct (enable_all_spec ls [] s2 Hr Hls) as (s' & -> & B' & [Hm' Hb Hma Hsl Hap]).
  exists s'. split; [done|]. split; [|intros Hmp; apply Hap; congruence].
  intros k Hk. unfold line_vector, line_masked. rewrite Hma, Hsl. cbn [vbase pmask]. unfold u8, T_IRQ0.
  destruct (Z.ltb_spec k 8); (split; [lia|]); rewrite Z.mod_pow2_bits_low by lia.
  - by apply Hb.
  - rewrite Z.shiftr_spec by lia. replace (k - 8 + 8) with k by lia. by apply Hb.
Qed.
End Routing.

Definition demo_env (h : list access) (a : access) : Z := match a with Rd _ => 0x170011 | _ => 0 end.
Definition demo_start (mp : bool) : irqst := mkIrqst [] 0xFFFB mp 0 false (0, 0).

Lemma interrupts_routed_witness :
  ∃ s', (picinit;; ioapicinit demo_env;; iter_each [(1, 0); (4, 0); (14, 1)] enable) (demo_start true) = Done tt s' ∧
    line_masked (mkPic [] 0 0) (mkPic [] 0 0) s' 14 = false ∧ line_masked (mkPic [] 0 0) (mkPic [] 0 0) s' 3 = true ∧
    io_reg (apic (mkIoapic 0 (λ _, 0)) s') (REG_TABLE + 2 * 14 + 1) = Z.shiftl 1 24.
Proof.
  destruct (interrupts_routed demo_env (mkPic [] 0 0) (mkPic [] 0 0) (mkIoapic 0 (λ _, 0)) 0x170011 (λ _ _, eq_refl)
    (demo_start true) [(1, 0); (4, 0); (14, 1)]) as (s' & E & H1 & H2).
  - reflexivity.
  - repeat constructor; cbn; lia.
  - exists s'. split; [exact E|]. split; [|split].
    + by rewrite (proj2 (H1 14 ltac:(lia))).
    + by rewrite (proj2 (H1 3 ltac:(lia))).
    + by rewrite (proj2 (H2 eq_refl 14 ltac:(vm_compute; split; congruence))).
Defined.

(** ** The clock *)

Section Clock.
Variable env : list access → access → Z.

(** The registers of the chip as time goes by, where time is the number of
    accesses made: the register selected last is the one that is read. *)
Variable clock : nat → Z → Z.
Hypothesis env_clock : ∀ h r, env (h ++ [Out CMOS_PORT (u8 r)]) (In CMOS_RETURN) = clock (length h) (u8 r).

Definition time (s : irqst) : nat := length (hist s).
Definition reading (n : nat) (r : Z) : Z := u8 (clock n r).
Definition snapshot (n : nat) : rtcdate :=
  mkDate (reading n SECS) (reading (n + 2) MINS) (reading (n + 4) HOURS) (reading (n + 6) DAY)
    (reading (n + 8) MONTH) (reading (n + 10) YEAR).
Definition updating (n : nat) : bool := negb (Z.land (reading n CMOS_STATA) CMOS_UIP =? 0).

Lemma cmos_read_spec r s : u8 r = r → ∃ s', cmos_read env r s = Done (reading (time s) r) s' ∧ time s' = (time s + 2)%nat.
Proof.
  intros Hr. eexists. split.
  - unfold cmos_read. mgo. unfold inb. do 2 mgo. unfold mret, M_ret. f_equal. cbn [hist set_hist].
    rewrite env_clock, Hr. done.
  - unfold time. cbn [hist set_hist]. rewrite !length_app. cbn. lia.
Qed.

Lemma fill_spec s : ∃ s', fill_rtcdate env s = Done (snapshot (time s)) s' ∧ time s' = (time s + 12)%nat.
Proof.
  unfold fill_rtcdate.
  destruct (cmos_read_spec SECS s) as (s1 & E1 & T1); [done|]. rewrite (bind_Done _ _ _ _ _ E1).
  destruct (cmos_read_spec MINS s1) as (s2 & E2 & T2); [done|]. rewrite (bind_Done _ _ _ _ _ E2).
  destruct (cmos_read_spec HOURS s2) as (s3 & E3 & T3); [done|]. rewrite (bind_Done _ _ _ _ _ E3).
  destruct (cmos_read_spec DAY s3) as (s4 & E4 & T4); [done|]. rewrite (bind_Done _ _ _ _ _ E4).
  destruct (cmos_read_spec MONTH s4) as (s5 & E5 & T5); [done|]. rewrite (bind_Done _ _ _ _ _ E5).
  destruct (cmos_read_spec YEAR s5) as (s6 & E6 & T6); [done|]. rewrite (bind_Done _ _ _ _ _ E6).
  exists s6. split; [|lia]. unfold mret, M_ret, snapshot. f_equal. f_equal; f_equal; lia.
Qed.

Lemma date_eqb_spec a b : date_eqb a b = true ↔ a = b.
Proof.
  unfold date_eqb. rewrite !andb_true_iff, !Z.eqb_eq. destruct a, b; cbn. split; [intuition congruence | by intros [= -> -> -> -> -> ->]].
Qed.

(** The same date read twice, with no update in progress in between. *)
Definition consistent (n : nat) : Prop := snapshot n = snapshot (n + 14) ∧ updating (n + 12) = false.

(** The clock stands still, and is not being updated, for 52 accesses. *)
Definition quiet (n : nat) : Prop :=
  ∀ k, (n <= k < n + 52)%nat → (∀ r, reading k r = reading n r) ∧ updating k = false.

Lemma quiet_consistent n k : quiet n → (n <= k < n + 26)%nat → consistent k.
Proof.
  intros H Hk. split; [|apply H; lia]. unfold snapshot.
  assert (∀ j r, (k <= j < k + 26)%nat → reading j r = reading n r) as E by (intros j r Hj; apply H; lia).
  f_equal; (etrans; [apply E; lia | symmetry; apply E; lia]).
Qed.

Lemma cmostime_loop_spec n : quiet n → ∀ fuel s, (time s < n + 26)%nat → (n <= time s + 14 * fuel)%nat →
  ∃ k s', cmostime_loop env fuel s = Done (snapshot k) s' ∧ (time s <= k)%nat ∧ consistent k.
Proof.
  intros Hq. induction fuel as [|fuel IH]; intros s Hlt Hle; cbn [cmostime_loop].
  all: destruct (fill_spec s) as (s1 & E1 & T1); rewrite (bind_Done _ _ _ _ _ E1).
  all: destruct (cmos_read_spec CMOS_STATA s1) as (s2 & E2 & T2); [done|]; rewrite (bind_Done _ _ _ _ _ E2); cbn zeta.
  all: rewrite T1; fold (updating (time s + 12)).
  all: destruct (fill_spec s2) as (s3 & E3 & T3); rewrite T2, T1 in E3; replace (time s + 12 + 2)%nat with (time s + 14)%nat in E3 by lia.
  - assert (consistent (time s)) as Hc by (apply (quiet_consistent n); [done | lia]). destruct Hc as [Hc Hu].
    rewrite Hu, (bind_Done _ _ _ _ _ E3), (proj2 (date_eqb_spec _ _) Hc). by exists (time s), s3.
  - destruct (updating (time s + 12)) eqn:Hu.
    { destruct (decide (n <= time s)%nat) as [Hn|Hn].
      { destruct (quiet_consistent n (time s) Hq) as [_ Hu']; [lia | congruence]. }
      destruct (IH s2) as (k & s' & E & Hk & Hc); [lia | lia |]. exists k, s'. split; [done|]. split; [lia | done]. }
    rewrite (bind_Done _ _ _ _ _ E3). destruct (date_eqb _ _) eqn:Hd.
    { exists (time s), s3. split; [done|]. split; [lia|]. split; [by apply date_eqb_spec | done]. }
    destruct (decide (n <= time s)%nat) as [Hn|Hn].
    { destruct (quiet_consistent n (time s) Hq) as [Hc _]; [lia|]. apply date_eqb_spec in Hc. congruence. }
    destruct (IH s3) as (k & s' & E & Hk & Hc); [lia | lia |]. exists k, s'. split; [done|]. split; [lia | done].
Qed.

(** Binary coded decimal, of two digits. *)
Definition bcd (n : Z) : Z := n / 10 * 16 + n mod 10.

Lemma CONV_bcd n : 0 <= n < 100 → CONV (bcd n) = n.
Proof.
  intros Hn. unfold CONV, bcd. rewrite Z.shiftr_div_pow2 by lia. change 0xf with (Z.ones 4). rewrite Z.land_ones by lia.
  change (2 ^ 4) with 16. pose proof (Z.mod_pos_bound n 10). rewrite Z.div_add_l by lia.
  rewrite (Z.add_comm (n / 10 * 16) (n mod 10)), Z.mod_add by lia.
  rewrite (Z.mod_small (n mod 10)), (Z.div_small (n mod 10)) by lia. pose proof (Z.div_mod n 10). lia.
Qed.

(** The registers hold the date [t] at time [k], as plain numbers or in BCD. *)
Definition shows (binary : bool) (k : nat) (t : rtcdate) : Prop :=
  let e := λ n, if binary then n else bcd n in
  snapshot k = mkDate (e (second t)) (e (minute t)) (e (hour t)) (e (day t)) (e (month t)) (e (year t)).
Definition date_ok (t : rtcdate) : Prop :=
  0 <= second t < 60 ∧ 0 <= minute t < 60 ∧ 0 <= hour t < 24 ∧ 1 <= day t < 32 ∧ 1 <= month t < 13 ∧ 0 <= year t < 100.

(** Bit 2 of status register B, as [cmostime] reads it first. *)
Definition binary_mode (s : irqst) : bool := negb (Z.land (reading (time s) CMOS_STATB) 4 =? 0).

(** C34. [cmostime] returns once the clock has stood still long enough, within
    one turn of its loop per 14 accesses until then.  The registers it has used
    were read twice with the same values and with no update in between; when
    they hold a date, in BCD or, if the chip says so, in binary, that date is
    returned, in the century 2000. *)
Theorem cmostime_correct n fuel s : quiet n → (time s + 2 < n + 26)%nat → (n <= time s + 2 + 14 * fuel)%nat →
  ∃ d s' k, cmostime env fuel s = Done d s' ∧ (time s + 2 <= k)%nat ∧ consistent k ∧
    ∀ t, shows (binary_mode s) k t → date_ok t →
      d = mkDate (second t) (minute t) (hour t) (day t) (month t) (2000 + year t).
Proof.
  intros Hq H1 H2. unfold cmostime.
  destruct (cmos_read_spec CMOS_STATB s) as (s1 & E1 & T1); [done|]. rewrite (bind_Done _ _ _ _ _ E1). cbn zeta.
  destruct (cmostime_loop_spec n Hq fuel s1) as (k & s2 & E2 & Hk & Hc); [lia | lia |]. rewrite (bind_Done _ _ _ _ _ E2).
  do 2 eexists. exists k. split; [reflexivity|]. split; [lia|]. split; [done|].
  intros t. unfold shows, binary_mode. change (Z.shiftl 1 2) with 4. destruct (Z.land (reading (time s) CMOS_STATB) 4 =? 0); cbn [negb]; cbn zeta;
    intros -> (?&?&?&?&?&?); cbn [second minute hour day month year]; rewrite ?CONV_bcd, u32_id by (unfold is_u32; lia); f_equal; lia.
Qed.
End Clock.

(** A clock that is being updated for a while and then shows a date. *)
Definition demo_clock (n : nat) (r : Z) : Z :=
  if decide (n < 20)%nat then (if r =? CMOS_STATA then 0x80 else Z.of_nat n)
  else if r =? SECS then 0x58 else if r =? MINS then 0x59 else if r =? HOURS then 0x23 else if r =? DAY then 0x17
  else if r =? MONTH then 0x05 else if r =? YEAR then 0x16 else 0.
Definition clock_env (clock : nat → Z → Z) (h : list access) (a : access) : Z :=
  match last h with Some (Out _ r) => clock (length h - 1)%nat r | _ => 0 end.

Lemma clock_env_ok clock h r : clock_env clock (h ++ [Out CMOS_PORT (u8 r)]) (In CMOS_RETURN) = clock (length h) (u8 r).
Proof. unfold clock_env. rewrite last_snoc, length_app. cbn [length]. f_equal. lia. Qed.

Lemma demo_quiet : quiet demo_clock 20.
Proof.
  intros k Hk. assert (∀ j, (20 <= j)%nat → ∀ r, reading demo_clock j r = reading demo_clock 20 r) as H.
  { intros j Hj r. unfold reading, demo_clock. by rewrite !decide_False by lia. }
  split; [apply H; lia|]. unfold updating. by rewrite H by lia.
Qed.

Lemma cmostime_correct_witness :
  ∃ d s', cmostime (clock_env demo_clock) 2 (demo_start false) = Done d s' ∧ d = mkDate 58 59 23 17 5 2016.
Proof.
  destruct (cmostime_correct (clock_env demo_clock) demo_clock (clock_env_ok demo_clock) 20 2 (demo_start false) demo_quiet)
    as (d & s' & k & E & _ & _ & H).
  - cbn. lia.
  - cbn. lia.
  - exists d, s'. split; [exact E|]. vm_compute in E. injection E as <- _. reflexivity.
Defined.

(** A clock in binary mode. *)
Example cmostime_binary :
  ∃ s', cmostime (clock_env (λ _ r, if r =? CMOS_STATB then 6 else if r =? CMOS_STATA then 0 else 12)) 0 (demo_start false)
    = Done (mkDate 12 12 12 12 12 2012) s'.
Proof. eexists. vm_compute. reflexivity. Qed.

(** ** The timer, the local APIC and the serial port *)

(** The reload value of counter 0 gives 100 interrupts a second. *)
Theorem timerinit_100hz s :
  ∃ lo hi s', timerinit s = Done tt s' ∧
    hist s' = hist s ++ [Out TIMER_MODE 0x34; Out IO_TIMER1 lo; Out IO_TIMER1 hi] ++
      [Out (IO_PIC1 + 1) (u8 (irqmask s')); Out (IO_PIC2 + 1) (u8 (Z.shiftr (irqmask s') 8))] ∧
    Z.testbit (irqmask s') IRQ_TIMER = false ∧ Z.abs (TIMER_FREQ - 100 * (lo + 256 * hi)) <= 50.
Proof.
  do 3 eexists. split; [reflexivity|]. split; [cbn [hist set_hist set_irqmask irqmask]; rewrite <- !app_assoc; reflexivity|].
  split; [|vm_compute; congruence]. cbn [irqmask set_hist set_irqmask]. rewrite mask_bits by (unfold IRQ_TIMER; lia).
  apply andb_false_r.
Qed.

(** The registers of the local APIC at [base]. *)
Definition lapic_step (base : Z) (r : Z → Z) (a : access) : Z → Z :=
  match a with
  | Wr b v => if (base <=? b) && (b <? base + 4096) then <[(b - base) / 4 := v]> r else r
  | _ => r
  end.
Definition lapic_of (base : Z) (r : Z → Z) (h : list access) : Z → Z := foldl (lapic_step base) r h.

Section Lapic.
Variable env : list access → access → Z.
Variables (base : Z) (r0 : Z → Z).
Definition lreg (s : irqst) : Z → Z := lapic_of base r0 (hist s).

Lemma lapicw_spec i v s : lapic s = base → 0 <= i < 1024 →
  ∃ s', lapicw env i v s = Done tt s' ∧ lapic s' = base ∧ lreg s' = <[i := u32 v]> (lreg s).
Proof.
  intros Hb Hi. eexists. split; [reflexivity|]. split; [done|].
  unfold lreg, lapic_of. cbn [hist set_hist]. rewrite !foldl_snoc. cbn [lapic_step]. rewrite Hb.
  replace ((base <=? base + 4 * i) && (base + 4 * i <? base + 4096)) with true by (symmetry; apply andb_true_iff; lia).
  do 2 f_equal. replace (base + 4 * i - base) with (i * 4) by lia. by rewrite Z.div_mul.
Qed.

Lemma lapicr_spec i s : lapic s = base →
  ∃ s', lapicr env i s = Done (u32 (env (hist s) (Rd (base + 4 * i)))) s' ∧ lapic s' = base ∧ lreg s' = lreg s ∧
    hist s' = hist s ++ [Rd (base + 4 * i)].
Proof.
  intros Hb. eexists. unfold lapicr. mgo. rewrite Hb. split; [reflexivity|]. split; [done|].
  split; [|done]. unfold lreg, lapic_of. cbn [hist set_hist]. by rewrite foldl_snoc.
Qed.

(** The interprocessor interrupt is delivered by the time of [n] readings. *)
Definition delivers (n : nat) : Prop :=
  ∀ h, Z.land (u32 (env (h ++ replicate n (Rd (base + 4 * ICRLO))) (Rd (base + 4 * ICRLO)))) DELIVS = 0.

Lemma wait_delivery_spec n : ∀ s, lapic s = base →
  (Z.land (u32 (env (hist s ++ replicate n (Rd (base + 4 * ICRLO))) (Rd (base + 4 * ICRLO)))) DELIVS = 0) →
  ∃ s', wait_delivery env n s = Done tt s' ∧ lapic s' = base ∧ lreg s' = lreg s.
Proof.
  induction n as [|n IH]; intros s Hb Hd; cbn [wait_delivery].
  all: destruct (lapicr_spec ICRLO s Hb) as (s1 & E & Hb1 & Hr1 & Hh); rewrite (bind_Done _ _ _ _ _ E).
  - rewrite app_nil_r in Hd. rewrite Hd. by exists s1.
  - destruct (_ =? 0); [by exists s1|]. destruct (IH s1 Hb1) as (s' & E' & Hb' & Hr').
    { rewrite Hh, <- app_assoc. exact Hd. }
    exists s'. split; [done|]. split; [done | congruence].
Qed.

(** The conditional write for the performance counter, with what it keeps. *)
Lemma pcint_spec (c : bool) s : lapic s = base →
  ∃ s', (if c then lapicw env PCINT MASKED else mret tt) s = Done tt s' ∧ lapic s' = base ∧
    ∀ i, i ≠ PCINT → lreg s' i = lreg s i.
Proof.
  intros Hb. destruct c; [|by exists s]. destruct (lapicw_spec PCINT MASKED s Hb) as (s' & E & Hb' & Hr); [vm_compute; split; congruence|].
  exists s'. split; [done|]. split; [done|]. intros i Hi. by rewrite Hr, fn_lookup_insert_ne by congruence.
Qed.

(** Runs the next [lapicw] of the goal. *)
Ltac lw := match goal with
  | Hb : lapic ?s = base |- context [(lapicw env ?i ?v ≫= _) ?s] =>
      let E := fresh "E" in destruct (lapicw_spec i v s Hb) as (? & E & ? & ?); [vm_compute; split; congruence|];
      rewrite (bind_Done _ _ _ _ _ E); clear E
  end.

(** [lapicinit] leaves the local APIC enabled, with the timer periodic on its
    vector, the errors on theirs, the other lines masked, and no priority that
    blocks interrupts. *)
Theorem lapicinit_programs n s : lapic s = base → base ≠ 0 → delivers n →
  ∃ s', lapicinit env n s = Done tt s' ∧
    lreg s' SVR = 0x100 + (T_IRQ0 + IRQ_SPURIOUS) ∧ lreg s' TIMER = PERIODIC + (T_IRQ0 + IRQ_TIMER) ∧
    lreg s' TICR = 10000000 ∧ lreg s' LINT0 = MASKED ∧ lreg s' LINT1 = MASKED ∧
    lreg s' ERROR = T_IRQ0 + IRQ_ERROR ∧ lreg s' TPR = 0.
Proof.
  intros Hb Hn Hd. unfold lapicinit. mgo. rewrite Hb, (proj2 (Z.eqb_neq _ _) Hn). do 6 lw.
  match goal with Hb : lapic ?s = base |- context [(lapicr env VER ≫= _) ?s] =>
    destruct (lapicr_spec VER s Hb) as (s1 & E1 & Hb1 & Hr1 & _) end.
  rewrite (bind_Done _ _ _ _ _ E1).
  match goal with |- context [((if ?c then _ else _) ≫= _) s1] => destruct (pcint_spec c s1 Hb1) as (s2 & E2 & Hb2 & Hr2) end.
  rewrite (bind_Done _ _ _ _ _ E2). do 6 lw.
  match goal with Hb : lapic ?s = base |- context [(wait_delivery env n ≫= _) ?s] =>
    destruct (wait_delivery_spec n s Hb (Hd _)) as (s3 & E3 & Hb3 & Hr3) end.
  rewrite (bind_Done _ _ _ _ _ E3). destruct (lapicw_spec TPR 0 s3 Hb3) as (s4 & -> & _ & Hr4); [vm_compute; split; congruence|].
  exists s4. split; [done|].
  split_and!; repeat first [
    match goal with H : lreg ?x = _ |- context [lreg ?x] => rewrite H end
    | rewrite fn_lookup_insert | rewrite fn_lookup_insert_ne by (vm_compute; congruence)
    | rewrite Hr2 by (vm_compute; congruence) ]; reflexivity.
Qed.
End Lapic.

(** The serial port has the divisor behind its first two registers while bit 7
    of the line control register is set. *)
Record serial_port := mkSerial {
  lcr : Z;
  divisor : Z * Z;
  ier : Z;
  sent : list Z;
}.
Definition serial_step (d : serial_port) (a : access) : serial_port :=
  match a with
  | Out port v =>
      let dlab := Z.testbit (lcr d) 7 in
      if port =? COM1 + 3 then mkSerial v (divisor d) (ier d) (sent d)
      else if port =? COM1 then
        if dlab then mkSerial (lcr d) (v, (divisor d).2) (ier d) (sent d)
        else mkSerial (lcr d) (divisor d) (ier d) (sent d ++ [v])
      else if port =? COM1 + 1 then
        if dlab then mkSerial (lcr d) ((divisor d).1, v) (ier d) (sent d)
        else mkSerial (lcr d) (divisor d) v (sent d)
      else d
  | _ => d
  end.
Definition serial_of (d : serial_port) (h : list access) : serial_port := foldl serial_step d h.

Section Serial.
Variable env : list access → access → Z.
Variable d0 : serial_port.
Definition port (s : irqst) : serial_port := serial_of d0 (hist s).

Lemma uart_wait_spec k : ∀ s, ∃ s', uart_wait env k s = Done tt s' ∧ uart s' = uart s ∧ port s' = port s.
Proof.
  induction k as [|k IH]; intros s; cbn [uart_wait]; [by exists s|]. mgo.
  match goal with |- context [(if _ then _ else _) ?x] => set (s1 := x) end.
  assert (port s1 = port s) as E by (unfold port, serial_of; cbn [hist set_hist s1]; by rewrite foldl_snoc).
  destruct (_ =? 0); [|by exists s1]. destruct (IH s1) as (s' & -> & H1 & H2). exists s'. split; [done|]. split; [done | congruence].
Qed.

(** [uartputc] sends its character, whatever the line status says, and does
    nothing when there is no port. *)
Theorem uartputc_sends c s : Z.testbit (lcr (port s)) 7 = false →
  ∃ s', uartputc env c s = Done tt s' ∧ uart s' = uart s ∧ lcr (port s') = lcr (port s) ∧
    sent (port s') = sent (port s) ++ (if uart s then [u8 c] else []).
Proof.
  intros Hl. unfold uartputc. mgo. destruct (uart s) eqn:Hu; cbn [negb].
  - destruct (uart_wait_spec 128 s) as (s1 & E & H1 & H2). rewrite (bind_Done _ _ _ _ _ E).
    eexists. split; [reflexivity|]. split; [cbn [uart set_hist]; congruence|].
    unfold port, serial_of in *. cbn [hist set_hist]. rewrite foldl_snoc, H2.
    revert Hl. generalize (foldl serial_step d0 (hist s)). intros [l dv i sn] Hl. cbn [lcr] in Hl.
    unfold serial_step. cbn [lcr divisor ier sent]. rewrite Hl. done.
  - exists s. split; [done|]. rewrite app_nil_r. done.
Qed.
End Serial.
