(* ===== verification/Utils.v ===== *)
(** * User programs (printf.c, cat.c, wc.c, echo.c, ls.c, rm.c, mkdir.c, ln.c,
    kill.c, policy.c, zombie.c, init.c, stat of ulib.c)

    A program is a sequence of system calls.  Its state is the history of the
    calls it has made; the answer to a call is a parameter, [env], applied to
    the history so far: any system whose answers depend on what was asked.
    [exit] ends the program.  Loops until the end of a file take a bound on
    their turns, and the theorems give one that suffices.

    A string is the list of its characters without the final NUL.  [argv] has
    the program's name first. *)

From S2P Require Import Prelude Console.
#[local] Open Scope Z_scope.

Inductive call :=
  | Open (path : list Z) (mode : Z)
  | Close (fd : Z)
  | Read (fd n : Z)
  | Write (fd : Z) (data : list Z)
  | Fstat (fd : Z)
  | Dup (fd : Z)
  | Mknod (path : list Z) (major minor : Z)
  | Unlink (path : list Z)
  | Mkdir (path : list Z)
  | Link (old new : list Z)
  | Kill (pid : Z)
  | Schedp (id : Z)
  | Sleep (n : Z)
  | Fork
  | Exec (path : list Z) (argv : list (list Z))
  | Wait.

(** The result of a call and the bytes it stored. *)
Record reply := mkReply {
  ret : Z;
  data : list Z;
}.

Inductive result (A : Type) :=
  | Ret (a : A) (h : list call)
  | Exited (status : Z) (h : list call)
  | Running (h : list call).
Arguments Ret {A} a h.
Arguments Exited {A} status h.
Arguments Running {A} h.

(** A program fragment: from a history to its result; [Running] when the bound
    of a loop is reached. *)
Definition U (A : Type) : Type := list call → result A.

#[export] Instance U_ret : MRet U := λ A a h, Ret a h.
#[export] Instance U_bind : MBind U := λ A B k m h,
  match m h with
  | Ret a h' => k a h'
  | Exited st h' => Exited st h'
  | Running h' => Running h'
  end.

Definition exit {A} (status : Z) : U A := λ h, Exited status h.
Definition running {A} : U A := λ h, Running h.

Definition str (s : string) : list Z := (λ a, Z.of_N (Ascii.N_of_ascii a)) <$> String.list_ascii_of_string s.
Definition nl : list Z := [10].

Fixpoint each {A} (l : list A) (body : A → U unit) : U unit :=
  match l with
  | [] => mret tt
  | x :: l' => body x;; each l' body
  end.

Section Programs.
Variable env : list call → call → reply.

Definition sys (c : call) : U reply := λ h, Ret (env h c) (h ++ [c]).
Definition sys_ (c : call) : U Z := r ← sys c; mret (ret r).

(** ** printf.c *)

Definition putc (fd c : Z) : U unit := sys (Write fd [u8 c]);; mret tt.

(** ["0123456789ABCDEF"[d]] *)
Definition udigit (d : Z) : Z := if d <? 10 then 48 + d else 65 + (d - 10).

(** The characters of [buf], in the order they are printed. *)
Definition uprintint_chars (xx base : Z) (sgn : bool) : list Z :=
  let neg := sgn && (xx <? 0) in
  let x := u32 (if neg then - xx else xx) in
  (if neg then [45] else []) ++ reverse (udigit <$> digits_loop 32 x base).

Definition printint (fd xx base : Z) (sgn : bool) : U unit := each (uprintint_chars xx base sgn) (putc fd).

(** [state] is true after a percent sign. *)
Fixpoint printf_loop (fd : Z) (fmt : list Z) (args : list carg) (state : bool) : U unit :=
  match fmt with
  | [] => mret tt
  | c :: fmt' =>
      let c := Z.land c 0xff in
      if negb state then
        if c =? 37 then printf_loop fd fmt' args true
        else putc fd c;; printf_loop fd fmt' args false
      else if c =? 100 then printint fd (s32 (arg_int args)) 10 true;; printf_loop fd fmt' (tail args) false
      else if (c =? 120) || (c =? 112) then printint fd (s32 (arg_int args)) 16 false;; printf_loop fd fmt' (tail args) false
      else if c =? 115 then each (arg_str args) (putc fd);; printf_loop fd fmt' (tail args) false
      else if c =? 99 then putc fd (arg_int args);; printf_loop fd fmt' (tail args) false
      else if c =? 37 then putc fd c;; printf_loop fd fmt' args false
      else putc fd 37;; putc fd c;; printf_loop fd fmt' args false
  end.

Definition printf (fd : Z) (fmt : list Z) (args : list carg) : U unit := printf_loop fd fmt args false.

(** ** cat.c *)

(** [while((n = read(fd, buf, sizeof(buf))) > 0) write(1, buf, n);] and the
    last [n]. *)
Fixpoint cat_loop (fuel : nat) (fd : Z) : U Z :=
  r ← sys (Read fd 512);
  if 0 <? ret r then
    sys (Write 1 (take (Z.to_nat (ret r)) (data r)));;
    match fuel with O => running | S fuel' => cat_loop fuel' fd end
  else mret (ret r).

Definition cat (fuel : nat) (fd : Z) : U unit :=
  n ← cat_loop fuel fd;
  if n <? 0 then printf 1 (str "cat: read error" ++ nl) [];; exit 0 else mret tt.

Definition cat_file (fuel : nat) (path : list Z) : U unit :=
  fd ← sys_ (Open path 0);
  if fd <? 0 then printf 1 (str "cat: cannot open %s" ++ nl) [AStr (Some path)];; exit 0 else
  cat fuel fd;;
  sys (Close fd);;
  mret tt.

Definition cat_main (fuel : nat) (argv : list (list Z)) : U unit :=
  if (length argv <=? 1)%nat then cat fuel 0;; exit 0 else
  each (tail argv) (cat_file fuel);;
  exit 0.

(** ** wc.c *)

(** The local variables of [wc]. *)
Record counts := mkCounts {
  wl : Z;
  ww : Z;
  wcc : Z;
  inword : bool;
}.

(** [strchr] on a space, carriage return, tab, newline and vertical tab. *)
Definition wc_space (c : Z) : bool := existsb (Z.eqb c) [32; 13; 9; 10; 11].

Definition wc_char (v : counts) (c : Z) : counts :=
  let cc := s32 (wcc v + 1) in
  let l := if c =? 10 then s32 (wl v + 1) else wl v in
  if wc_space c then mkCounts l (ww v) cc false
  else if negb (inword v) then mkCounts l (s32 (ww v + 1)) cc true
  else mkCounts l (ww v) cc (inword v).

Fixpoint wc_loop (fuel : nat) (fd : Z) (v : counts) : U (Z * counts) :=
  r ← sys (Read fd 512);
  if 0 <? ret r then
    let v := foldl wc_char v (take (Z.to_nat (ret r)) (data r)) in
    match fuel with O => running | S fuel' => wc_loop fuel' fd v end
  else mret (ret r, v).

Definition wc (fuel : nat) (fd : Z) (name : list Z) : U unit :=
  '(n, v) ← wc_loop fuel fd (mkCounts 0 0 0 false);
  (if n <? 0 then printf 1 (str "wc: read error" ++ nl) [];; exit 0 else mret tt);;
  printf 1 (str "%d %d %d %s" ++ nl) [AInt (wl v); AInt (ww v); AInt (wcc v); AStr (Some name)].

Definition wc_file (fuel : nat) (path : list Z) : U unit :=
  fd ← sys_ (Open path 0);
  if fd <? 0 then printf 1 (str "wc: cannot open %s" ++ nl) [AStr (Some path)];; exit 0 else
  wc fuel fd path;;
  sys (Close fd);;
  mret tt.

Definition wc_main (fuel : nat) (argv : list (list Z)) : U unit :=
  if (length argv <=? 1)%nat then wc fuel 0 [];; exit 0 else
  each (tail argv) (wc_file fuel);;
  exit 0.

(** ** echo.c *)

Fixpoint echo_args (l : list (list Z)) : U unit :=
  match l with
  | [] => mret tt
  | a :: l' =>
      printf 1 (str "%s%s") [AStr (Some a); AStr (Some (match l' with [] => nl | _ => [32] end))];;
      echo_args l'
  end.

Definition echo_main (argv : list (list Z)) : U unit := echo_args (tail argv);; exit 0.

(** ** rm.c, mkdir.c, ln.c, kill.c, policy.c, zombie.c *)

Fixpoint rm_args (l : list (list Z)) : U unit :=
  match l with
  | [] => mret tt
  | a :: l' =>
      r ← sys_ (Unlink a);
      if r <? 0 then printf 2 (str "rm: %s failed to delete" ++ nl) [AStr (Some a)] else rm_args l'
  end.

Definition rm_main (argv : list (list Z)) : U unit :=
  (if (length argv <? 2)%nat then printf 2 (str "Usage: rm files..." ++ nl) [];; exit 0 else mret tt);;
  rm_args (tail argv);;
  exit 0.

Fixpoint mkdir_args (l : list (list Z)) : U unit :=
  match l with
  | [] => mret tt
  | a :: l' =>
      r ← sys_ (Mkdir a);
      if r <? 0 then printf 2 (str "mkdir: %s failed to create" ++ nl) [AStr (Some a)] else mkdir_args l'
  end.

Definition mkdir_main (argv : list (list Z)) : U unit :=
  (if (length argv <? 2)%nat then printf 2 (str "Usage: mkdir files..." ++ nl) [];; exit 0 else mret tt);;
  mkdir_args (tail argv);;
  exit 0.

Definition ln_main (argv : list (list Z)) : U unit :=
  match argv with
  | [_; old; new] =>
      r ← sys_ (Link old new);
      (if r <? 0 then printf 2 (str "link %s %s: failed" ++ nl) [AStr (Some old); AStr (Some new)] else mret tt);;
      exit 0
  | _ => printf 2 (str "Usage: ln old new" ++ nl) [];; exit 0
  end.

(** [atoi] of ulib.c *)
Fixpoint atoi (n : Z) (s : list Z) : Z :=
  match s with
  | c :: s' => if (48 <=? c) && (c <=? 57) then atoi (s32 (n * 10 + c - 48)) s' else n
  | [] => n
  end.

Definition kill_main (argv : list (list Z)) : U unit :=
  (if (length argv <? 2)%nat then printf 2 (str "usage: kill pid..." ++ nl) [];; exit 0 else mret tt);;
  each (tail argv) (λ a, sys (Kill (atoi 0 a));; mret tt);;
  exit 0.

Definition policy_main (argv : list (list Z)) : U unit :=
  match argv with
  | [_; a] =>
      printf 1 (str "Policy selected: %d") [AInt (atoi 0 a)];;
      sys (Schedp (atoi 0 a));;
      exit 0
  | _ => printf 2 (str "usage: policy id..." ++ nl) [];; exit 0
  end.

Definition zombie_main : U unit :=
  pid ← sys_ Fork;
  (if 0 <? pid then sys (Sleep 5);; mret tt else mret tt);;
  exit 0.

(** ** ls.c *)

Definition DIRSIZ : nat := 14.
Definition T_DIR : Z := 1.
Definition T_FILE : Z := 2.

(** The characters before a NUL. *)
Fixpoint c_str (l : list Z) : list Z :=
  match l with
  | c :: l' => if c =? 0 then [] else c :: c_str l'
  | [] => []
  end.

(** [for(p=path+strlen(path); p >= path && *p != '/'; p--) ; p++;] as an index *)
Fixpoint last_elem (path : list Z) (p : nat) : nat :=
  if bool_decide (path !! p = Some 47) then S p else
  match p with O => O | S p' => last_elem path p' end.

Definition fmtname (path : list Z) : list Z :=
  let p := drop (last_elem path (length path)) path in
  if (DIRSIZ <=? length p)%nat then p else p ++ replicate (DIRSIZ - length p) 32.

(** The fields of [struct stat]. *)
Definition st_type (st : list Z) : Z := s16 (get16 st 0).
Definition st_ino (st : list Z) : Z := get32 st 8.
Definition st_size (st : list Z) : Z := get32 st 16.

(** [stat] of ulib.c *)
Definition stat (path : list Z) : U (Z * list Z) :=
  fd ← sys_ (Open path 0);
  if fd <? 0 then mret (-1, []) else
  r ← sys (Fstat fd);
  sys (Close fd);;
  mret (ret r, data r).

Definition ls_line (path : list Z) (st : list Z) : U unit :=
  printf 1 (str "%s %d %d %d" ++ nl)
    [AStr (Some (fmtname path)); AInt (st_type st); AInt (st_ino st); AInt (st_size st)].

(** [while(read(fd, &de, sizeof(de)) == sizeof(de))] *)
Fixpoint ls_entries (fuel : nat) (fd : Z) (path : list Z) : U unit :=
  r ← sys (Read fd 16);
  if ret r =? 16 then
    let de := data r in
    (if get16 de 0 =? 0 then mret tt else
     let buf := path ++ [47] ++ c_str (take DIRSIZ (drop 2 de)) in
     '(q, st) ← stat buf;
     if q <? 0 then printf 1 (str "ls: cannot stat %s" ++ nl) [AStr (Some buf)]
     else ls_line buf st);;
    match fuel with O => running | S fuel' => ls_entries fuel' fd path end
  else mret tt.

Definition ls (fuel : nat) (path : list Z) : U unit :=
  fd ← sys_ (Open path 0);
  if fd <? 0 then printf 2 (str "ls: cannot open %s" ++ nl) [AStr (Some path)] else
  r ← sys (Fstat fd);
  if ret r <? 0 then
    printf 2 (str "ls: cannot stat %s" ++ nl) [AStr (Some path)];;
    sys (Close fd);;
    mret tt
  else
  let st := data r in
  (if st_type st =? T_FILE then ls_line path st
   else if st_type st =? T_DIR then
     if (512 <? length path + 1 + DIRSIZ + 1)%nat then printf 1 (str "ls: path too long" ++ nl) []
     else ls_entries fuel fd path
   else mret tt);;
  sys (Close fd);;
  mret tt.

Definition ls_main (fuel : nat) (argv : list (list Z)) : U unit :=
  if (length argv <? 2)%nat then ls fuel (str ".");; exit 0 else
  each (tail argv) (ls fuel);;
  exit 0.

(** ** init.c *)

(** [while((wpid=wait(0)) >= 0 && wpid != pid)] *)
Fixpoint init_wait (fuel : nat) (pid : Z) : U unit :=
  wpid ← sys_ Wait;
  if (0 <=? wpid) && negb (wpid =? pid) then
    printf 1 (str "zombie!" ++ nl) [];;
    match fuel with O => running | S fuel' => init_wait fuel' pid end
  else mret tt.

(** [n] turns of the endless loop.  [exec] has an answer only when it fails: a
    child whose [exec] succeeds is another program. *)
Fixpoint init_loop (fuel n : nat) : U unit :=
  match n with
  | O => running
  | S n' =>
      printf 1 (str "init: starting sh" ++ nl) [];;
      pid ← sys_ Fork;
      if pid <? 0 then printf 1 (str "init: fork failed" ++ nl) [];; exit 0 else
      if pid =? 0 then
        sys (Exec (str "sh") [str "sh"]);;
        printf 1 (str "init: exec sh failed" ++ nl) [];;
        exit 0
      else
      init_wait fuel pid;;
      init_loop fuel n'
  end.

Definition init_main (fuel n : nat) : U unit :=
  fd ← sys_ (Open (str "console") 2);
  (if fd <? 0 then
     sys (Mknod (str "console") 1 1);;
     sys (Open (str "console") 2);;
     mret tt
   else mret tt);;
  sys (Dup 0);;
  sys (Dup 0);;
  init_loop fuel n.
End Programs.

(** * What the programs do *)

Section Specs.
Variable env : list call → call → reply.

Lemma bind_Ret {A B} (m : U A) (k : A → U B) h a h' : m h = Ret a h' → (m ≫= k) h = k a h'.
Proof. intros E. unfold mbind, U_bind. by rewrite E. Qed.

(** The characters of a conversion, and the arguments left after it. *)
Definition conv (d : Z) (args : list carg) : list Z :=
  if d =? 100 then uprintint_chars (s32 (arg_int args)) 10 true
  else if (d =? 120) || (d =? 112) then uprintint_chars (s32 (arg_int args)) 16 false
  else if d =? 115 then arg_str args
  else if d =? 99 then [arg_int args]
  else if d =? 37 then [37] else [37; d].
Definition rest (d : Z) (args : list carg) : list carg :=
  if existsb (Z.eqb d) [100; 120; 112; 115; 99] then tail args else args.

(** The characters [printf] prints. *)
Fixpoint format (fmt : list Z) (args : list carg) : list Z :=
  match fmt with
  | [] => []
  | c :: fmt' =>
      if c =? 37 then
        match fmt' with
        | [] => []
        | d :: fmt'' => conv d args ++ format fmt'' (rest d args)
        end
      else c :: format fmt' args
  end.

Definition writes (fd : Z) (l : list Z) : list call := (λ c, Write fd [u8 c]) <$> l.

Lemma each_putc fd l : ∀ h, each l (putc env fd) h = Ret tt (h ++ writes fd l).
Proof.
  induction l as [|c l IH]; intros h; cbn [each].
  - by rewrite app_nil_r.
  - rewrite (bind_Ret _ _ _ tt (h ++ [Write fd [u8 c]])) by done. rewrite IH, <- app_assoc. done.
Qed.

Definition is_byte (c : Z) : Prop := 0 <= c < 256.

Lemma printf_loop_spec fd fmt : Forall is_byte fmt → ∀ args h,
  printf_loop env fd fmt args false h = Ret tt (h ++ writes fd (format fmt args)) ∧
  printf_loop env fd fmt args true h = Ret tt (h ++ writes fd
    match fmt with [] => [] | d :: fmt' => conv d args ++ format fmt' (rest d args) end).
Proof.
  induction 1 as [|c fmt Hc Hf IH]; intros args h; cbn [printf_loop format].
  { rewrite app_nil_r. done. }
  replace (Z.land c 0xff) with c by (change 0xff with (Z.ones 8); rewrite Z.land_ones by lia; symmetry; by apply Z.mod_small).
  split; cbn [negb].
  - destruct (c =? 37); [apply IH|]. rewrite (bind_Ret _ _ _ tt (h ++ [Write fd [u8 c]])) by done.
    rewrite (proj1 (IH _ _)), <- app_assoc. done.
  - unfold writes at 1, conv, rest. rewrite fmap_app, app_assoc. cbn [existsb].
    destruct (c =? 100); [|destruct (c =? 120); [|destruct (c =? 112); [|destruct (c =? 115); [|destruct (c =? 99); [|destruct (Z.eqb_spec c 37)]]]]];
      cbn [orb]; unfold printint.
    1-4: rewrite (bind_Ret _ _ _ _ _ (each_putc _ _ _)); apply IH.
    1: rewrite (bind_Ret _ _ _ tt (h ++ [Write fd [u8 (arg_int args)]])) by done; apply IH.
    1: subst; rewrite (bind_Ret _ _ _ tt (h ++ [Write fd [37]])) by done; apply IH.
    rewrite (bind_Ret _ _ _ tt (h ++ [Write fd [37]])) by done.
    rewrite (bind_Ret _ _ _ tt ((h ++ [Write fd [37]]) ++ [Write fd [u8 c]])) by done.
    rewrite (proj1 (IH _ _)). by rewrite <- !app_assoc.
Qed.

(** [printf] writes the characters of the formatted text one by one. *)
Theorem printf_writes fd fmt args h : Forall is_byte fmt →
  printf env fd fmt args h = Ret tt (h ++ writes fd (format fmt args)).
Proof. intros Hf. apply printf_loop_spec, Hf. Qed.

(** ** Reading to the end of a file *)

Definition is_read (fd : Z) (c : call) : bool := match c with Read fd' _ => fd' =? fd | _ => false end.
Definition reads (fd : Z) (h : list call) : nat := length (filter (is_read fd) h).

(** From the history [h0] on, reading [fd] gives the pieces of [ls], and then
    [last]: 0 at the end of the file, or an error. *)
Definition delivers (fd : Z) (h0 : list call) (ls : list (list Z)) (last : Z) : Prop :=
  ∀ h n k, reads fd h = (reads fd h0 + k)%nat →
    env h (Read fd n) = match ls !! k with Some c => mkReply (Z.of_nat (length c)) c | None => mkReply last [] end.

Lemma reads_app fd h h' : reads fd (h ++ h') = (reads fd h + reads fd h')%nat.
Proof. unfold reads. by rewrite filter_app, length_app. Qed.

Lemma delivers_tail fd h c ls last h' : delivers fd h (c :: ls) last → reads fd h' = 1%nat →
  delivers fd (h ++ h') ls last.
Proof.
  intros H Hr h1 n k Hk. rewrite reads_app, Hr in Hk. rewrite (H h1 n (S k)) by lia. done.
Qed.

Definition nonempty (ls : list (list Z)) : Prop := Forall (λ c, c ≠ []) ls.

Lemma read_piece fd h c ls last n : delivers fd h (c :: ls) last → c ≠ [] →
  let r := env h (Read fd n) in (0 <? ret r) = true ∧ take (Z.to_nat (ret r)) (data r) = c.
Proof.
  intros H Hc. rewrite (H h n 0%nat) by lia. cbn [lookup list_lookup ret data]. split.
  - destruct c; [done|]. cbn [length]. apply Z.ltb_lt. lia.
  - rewrite Nat2Z.id. by apply take_ge.
Qed.

Lemma read_last fd h last n : delivers fd h [] last → env h (Read fd n) = mkReply last [].
Proof. intros H. by rewrite (H h n 0%nat) by lia. Qed.

(** ** cat *)

Definition cat_calls (fd : Z) (c : list Z) : list call := [Read fd 512; Write 1 c].

Lemma cat_loop_spec fd last : last <= 0 → ∀ ls fuel h, (length ls <= fuel)%nat → nonempty ls → delivers fd h ls last →
  cat_loop env fuel fd h = Ret last (h ++ (ls ≫= cat_calls fd) ++ [Read fd 512]).
Proof.
  intros Hlast ls. induction ls as [|c ls IH]; intros fuel h Hfuel Hne Hd.
  - destruct fuel; cbn [cat_loop]; rewrite (bind_Ret _ _ _ (mkReply last []) (h ++ [Read fd 512]));
      try (unfold sys; by rewrite (read_last _ _ _ _ Hd)).
    all: cbn [ret]; rewrite (proj2 (Z.ltb_ge 0 last)) by done; done.
  - apply Forall_cons in Hne as [Hc Hne]. destruct fuel as [|fuel]; [cbn in Hfuel; lia|]. cbn [cat_loop].
    rewrite (bind_Ret _ _ _ (env h (Read fd 512)) (h ++ [Read fd 512])) by done.
    destruct (read_piece fd h c ls last 512 Hd Hc) as [E1 E2]. rewrite E1, E2.
    rewrite (bind_Ret _ _ _ (env (h ++ [Read fd 512]) (Write 1 c)) ((h ++ [Read fd 512]) ++ [Write 1 c])) by done.
    rewrite IH; [|cbn in Hfuel; lia | done |].
    + rewrite <- !app_assoc. done.
    + rewrite <- app_assoc. apply (delivers_tail _ _ _ _ _ _ Hd). unfold reads. cbn. by rewrite Z.eqb_refl.
Qed.

(** What the calls write to [fd]. *)
Definition written (fd : Z) (h : list call) : list Z :=
  h ≫= λ c, match c with Write fd' l => if fd' =? fd then l else [] | _ => [] end.

(** [cat] of a file that can be read to its end writes exactly its bytes, and
    needs one turn of its loop for each piece it reads. *)
Theorem cat_copies fuel fd h ls : (length ls <= fuel)%nat → nonempty ls → delivers fd h ls 0 →
  ∃ h', cat env fuel fd h = Ret tt (h ++ h') ∧ written 1 h' = concat ls.
Proof.
  intros Hf Hne Hd. eexists. split.
  - unfold cat. rewrite (bind_Ret _ _ _ _ _ (cat_loop_spec fd 0 ltac:(lia) ls fuel h Hf Hne Hd)). done.
  - clear. unfold written. rewrite bind_app. cbn. rewrite app_nil_r.
    induction ls as [|c ls IH]; [done|]. cbn. by rewrite IH.
Qed.

(** ** wc *)

(** Blank, tab, newline, vertical tab and carriage return. *)
Definition white (c : Z) : Prop := c = 32 ∨ c = 9 ∨ c = 10 ∨ c = 11 ∨ c = 13.
#[local] Instance white_dec c : Decision (white c).
Proof. unfold white. apply _. Defined.

Lemma wc_space_white c : wc_space c = bool_decide (white c).
Proof.
  unfold wc_space. destruct (bool_decide_reflect (white c)) as [H|H].
  - unfold white in H. by destruct H as [->|[->|[->|[->| ->]]]].
  - unfold white in H. cbn. rewrite !(proj2 (Z.eqb_neq _ _)) by tauto. done.
Qed.

(** The words of a text: what lies between its white space. *)
Fixpoint fields (t : list Z) : list (list Z) :=
  match t with
  | [] => [[]]
  | c :: t' =>
      if bool_decide (white c) then [] :: fields t'
      else match fields t' with f :: fs => (c :: f) :: fs | [] => [[c]] end
  end.
Definition words (t : list Z) : list (list Z) := filter (λ f, f ≠ []) (fields t).
Definition lines (t : list Z) : nat := length (filter (λ c, c = 10) t).

Lemma fields_cons t : ∃ f fs, fields t = f :: fs.
Proof. destruct t as [|c t]; cbn [fields]; [by eexists _, _|]. destruct (bool_decide (white c)), (fields t); by eexists _, _. Qed.

(** Words that start in [t], when it follows a text that ends in a word. *)
Definition new_words (inw : bool) (t : list Z) : nat :=
  length (filter (λ f, f ≠ []) (if inw then tail (fields t) else fields t)).

Lemma new_words_cons inw c t : new_words inw (c :: t) =
  if wc_space c then new_words false t else if inw then new_words true t else S (new_words true t).
Proof.
  unfold new_words. cbn [fields]. rewrite wc_space_white. destruct (bool_decide (white c)).
  - destruct inw; cbn [tail]; [done|]. by rewrite filter_cons_False by auto.
  - destruct (fields_cons t) as (f & fs & ->). destruct inw; cbn [tail]; [done|]. by rewrite filter_cons_True by done.
Qed.

Lemma new_words_length inw t : (new_words inw t <= length t)%nat.
Proof.
  revert inw. induction t as [|c t IH]; intros inw; [by destruct inw|]. rewrite new_words_cons. cbn [length].
  pose proof (IH false). pose proof (IH true). destruct (wc_space c), inw; lia.
Qed.

Lemma wc_chars_spec t : ∀ l w c inw, 0 <= l → 0 <= w → 0 <= c →
  l + Z.of_nat (length t) < 2 ^ 31 → w + Z.of_nat (length t) < 2 ^ 31 → c + Z.of_nat (length t) < 2 ^ 31 →
  ∃ inw', foldl wc_char (mkCounts l w c inw) t =
    mkCounts (l + Z.of_nat (lines t)) (w + Z.of_nat (new_words inw t)) (c + Z.of_nat (length t)) inw'.
Proof.
  induction t as [|x t IH]; intros l w c inw Hl Hw Hc Bl Bw Bc; cbn [length] in *.
  { exists inw. replace (new_words inw []) with 0%nat by (by destruct inw). cbn. f_equal; lia. }
  cbn [foldl]. unfold wc_char at 2. cbn [wl ww wcc inword]. rewrite !s32_id by (unfold is_s32; lia).
  rewrite new_words_cons. unfold lines. rewrite filter_cons.
  destruct (wc_space x) eqn:Hsp; [|destruct inw]; cbn [negb].
  all: match goal with |- context [foldl wc_char (mkCounts ?a ?b ?d ?i) _] =>
         destruct (IH a b d i) as [inw' ->]; [destruct (x =? 10); lia | lia | lia | destruct (x =? 10); lia | lia | lia |] end.
  all: exists inw'; f_equal; unfold lines; try lia.
  all: destruct (Z.eqb_spec x 10), (decide (x = 10)); cbn [length]; lia.
Qed.

(** The words have no white space, and together all that is none. *)
Lemma fields_text t : concat (fields t) = filter (λ c, ¬ white c) t ∧ Forall (Forall (λ c, ¬ white c)) (fields t).
Proof.
  induction t as [|c t [IH1 IH2]]; cbn [fields]; [by repeat constructor|].
  destruct (bool_decide_reflect (white c)) as [Hc|Hc].
  - rewrite filter_cons_False by tauto. split; [done|]. by constructor.
  - rewrite filter_cons_True by done. destruct (fields_cons t) as (f & fs & E). rewrite E in *. cbn in *.
    apply Forall_cons in IH2 as [IH2 IH3]. split; [by rewrite IH1|]. constructor; [by constructor | done].
Qed.

Lemma wc_loop_spec fd ls : ∀ fuel h v, (length ls <= fuel)%nat → nonempty ls → delivers fd h ls 0 →
  wc_loop env fuel fd v h = Ret (0, foldl wc_char v (concat ls)) (h ++ replicate (S (length ls)) (Read fd 512)).
Proof.
  induction ls as [|c ls IH]; intros fuel h v Hfuel Hne Hd.
  - destruct fuel; cbn [wc_loop]; rewrite (bind_Ret _ _ _ (mkReply 0 []) (h ++ [Read fd 512]));
      try (unfold sys; by rewrite (read_last _ _ _ _ Hd)); done.
  - apply Forall_cons in Hne as [Hc Hne]. destruct fuel as [|fuel]; [cbn in Hfuel; lia|]. cbn [wc_loop].
    rewrite (bind_Ret _ _ _ (env h (Read fd 512)) (h ++ [Read fd 512])) by done.
    destruct (read_piece fd h c ls 0 512 Hd Hc) as [E1 E2]. rewrite E1, E2. cbn zeta.
    rewrite IH; [|cbn in Hfuel; lia | done |].
    + cbn [concat]. rewrite foldl_app, <- app_assoc. done.
    + apply (delivers_tail _ _ _ _ _ _ Hd). unfold reads. cbn. by rewrite Z.eqb_refl.
Qed.

(** [l] is how [n] is written: decimal digits, the most significant first, with
    no needless zero in front. *)
Definition numeral (l : list Z) (n : Z) : Prop :=
  Forall (λ c, 48 <= c <= 57) l ∧ foldl (λ v c, 10 * v + (c - 48)) 0 l = n ∧ (head l = Some 48 → l = [48]) ∧ l ≠ [].

Lemma numeral_snoc l n d : numeral l n → 0 < n → 0 <= d < 10 → numeral (l ++ [48 + d]) (10 * n + d).
Proof.
  intros (H1 & H2 & H3 & H4) Hn Hd. split_and!.
  - apply Forall_app. split; [done|]. constructor; [lia|done].
  - rewrite foldl_app, H2. cbn. lia.
  - destruct l as [|c l]; [done|]. intros Hc. specialize (H3 Hc). injection H3 as -> ->. cbn in H2. lia.
  - by destruct l.
Qed.

Lemma digits_numeral fuel : ∀ x, (0 < fuel)%nat → 0 <= x < 10 ^ Z.of_nat fuel → numeral (reverse (udigit <$> digits_loop fuel x 10)) x.
Proof.
  induction fuel as [|fuel IH]; intros x Hf Hx; [lia|]. pose proof (Z.mod_pos_bound x 10 ltac:(lia)) as Hm.
  pose proof (Z.div_mod x 10 ltac:(lia)) as Hd. assert (0 <= x / 10) by (apply Z.div_pos; lia).
  cbn [digits_loop fmap list_fmap]. assert (udigit (x mod 10) = 48 + x mod 10) as -> by (unfold udigit; by rewrite (proj2 (Z.ltb_lt _ _)) by lia).
  rewrite reverse_cons. destruct (Z.eqb_spec (x / 10) 0) as [Hz|Hz].
  - cbn. split_and!; [by constructor; [lia|]|cbn; lia| |done]. by intros [= ->].
  - assert (fuel ≠ 0%nat) by (intros ->; cbn in Hx; lia). rewrite Nat2Z.inj_succ, Z.pow_succ_r in Hx by lia.
    replace (numeral _ x) with (numeral (reverse (udigit <$> digits_loop fuel (x / 10) 10) ++ [48 + x mod 10]) (10 * (x / 10) + x mod 10))
      by (f_equal; lia). apply numeral_snoc; [apply IH; lia|lia|lia].
Qed.

(** [printf] prints a number as it is written. *)
Lemma printint_numeral n : 0 <= n < 2 ^ 31 → numeral (uprintint_chars n 10 true) n.
Proof.
  intros Hn. unfold uprintint_chars. rewrite (proj2 (Z.ltb_ge n 0)) by lia. cbn [andb app]. rewrite u32_id by (unfold is_u32; lia).
  apply digits_numeral; [lia|]. change (Z.of_nat 32) with 32. lia.
Qed.

(** C35. [wc] of a file that can be read to its end prints its numbers of lines,
    of words and of bytes, as decimal numerals, as they are defined on the whole
    text: how the text comes in pieces, and where a word is cut by them, makes
    no difference.  It needs one turn of its loop for each piece. *)
Theorem wc_counts fuel fd name h ls : (length ls <= fuel)%nat → nonempty ls → delivers fd h ls 0 →
  let t := concat ls in
  Z.of_nat (length t) < 2 ^ 31 →
  ∃ a b c, numeral a (Z.of_nat (lines t)) ∧ numeral b (Z.of_nat (length (words t))) ∧ numeral c (Z.of_nat (length t)) ∧
    wc env fuel fd name h = Ret tt (h ++ replicate (S (length ls)) (Read fd 512) ++
      writes 1 (a ++ [32] ++ b ++ [32] ++ c ++ [32] ++ name ++ [10])).
Proof.
  intros Hf Hne Hd t Ht. pose proof (length_filter (λ c, c = 10) t) as Hl. pose proof (new_words_length false t) as Hw.
  change (new_words false t) with (length (words t)) in Hw. fold (lines t) in Hl.
  exists (uprintint_chars (Z.of_nat (lines t)) 10 true), (uprintint_chars (Z.of_nat (length (words t))) 10 true), (uprintint_chars (Z.of_nat (length t)) 10 true).
  split_and!; [apply printint_numeral; lia..|].
  unfold wc. rewrite (bind_Ret _ _ _ _ _ (wc_loop_spec fd ls fuel h _ Hf Hne Hd)). fold t. cbn iota.
  rewrite (bind_Ret _ _ _ tt _) by done.
  destruct (wc_chars_spec t 0 0 0 false) as [inw ->]; [lia..|]. cbn [wl ww wcc].
  rewrite printf_writes by (by apply (bool_decide_unpack _)). rewrite <- app_assoc. do 4 f_equal.
  match goal with |- format _ [AInt ?a; AInt ?b; AInt ?c; _] = _ =>
    change (uprintint_chars (s32 a) 10 true ++ [32] ++ uprintint_chars (s32 b) 10 true ++ [32] ++ uprintint_chars (s32 c) 10 true ++
      [32] ++ name ++ [10] = uprintint_chars (Z.of_nat (lines t)) 10 true ++ [32] ++ uprintint_chars (Z.of_nat (length (words t))) 10 true ++ [32] ++
      uprintint_chars (Z.of_nat (length t)) 10 true ++ [32] ++ name ++ [10]) end.
  change (new_words false t) with (length (words t)). rewrite !s32_id by (unfold is_s32; lia). done.
Qed.

(** ** echo, rm and ls *)

Fixpoint join (l : list (list Z)) : list Z :=
  match l with
  | [] => []
  | [a] => a ++ [10]
  | a :: l' => a ++ [32] ++ join l'
  end.

(** [echo] prints its arguments with spaces between them and a newline. *)
Theorem echo_prints name args h :
  echo_main env (name :: args) h = Exited 0 (h ++ writes 1 (join args)).
Proof.
  unfold echo_main. cbn [tail].
  assert (∀ l h, echo_args env l h = Ret tt (h ++ writes 1 (join l))) as H.
  { clear. intros l. induction l as [|a l IH]; intros h; cbn [echo_args]; [by rewrite app_nil_r|].
    erewrite bind_Ret by (apply printf_writes; by apply (bool_decide_unpack _)).
    match goal with |- context [format _ [_; AStr (Some ?x)]] => change (format (str "%s%s") [AStr (Some a); AStr (Some x)]) with (a ++ x ++ []) end.
    rewrite app_nil_r, IH, <- app_assoc. unfold writes. rewrite <- fmap_app. destruct l as [|b l]; cbn [join].
    - by rewrite app_nil_r.
    - by rewrite <- app_assoc. }
  rewrite (bind_Ret _ _ _ _ _ (H _ _)). done.
Qed.

(** [rm] removes its files in order, up to the first that cannot be removed. *)
Theorem rm_until_failure l h :
  ∃ done rest, l = done ++ rest ∧
    rm_args env l h = Ret tt (h ++ (Unlink <$> done) ++
      match rest with [] => [] | a :: _ => Unlink a :: writes 2 (str "rm: " ++ a ++ str " failed to delete" ++ nl) end) ∧
    (∀ k a, done !! k = Some a → 0 <= ret (env (h ++ (Unlink <$> take k done)) (Unlink a))) ∧
    (∀ a, head rest = Some a → ret (env (h ++ (Unlink <$> done)) (Unlink a)) < 0).
Proof.
  revert h. induction l as [|a l IH]; intros h; cbn [rm_args].
  { exists [], []. split_and!; [done | by rewrite app_nil_r | intros k a Hk; by rewrite lookup_nil in Hk | done]. }
  rewrite (bind_Ret _ _ _ (ret (env h (Unlink a))) (h ++ [Unlink a])) by done.
  destruct (Z.ltb_spec (ret (env h (Unlink a))) 0) as [Hr|Hr].
  - exists [], (a :: l). split; [done|]. split; [|split; [intros k b Hk; by rewrite lookup_nil in Hk | intros b [= <-]; by rewrite app_nil_r]].
    rewrite printf_writes by (by apply (bool_decide_unpack _)).
    match goal with |- context [format ?f ?x] => change (format f x) with (str "rm: " ++ a ++ str " failed to delete" ++ nl) end.
    by rewrite <- app_assoc.
  - destruct (IH (h ++ [Unlink a])) as (d & rest & -> & E & H1 & H2). exists (a :: d), rest. split; [done|]. split.
    { rewrite E, <- app_assoc. done. }
    split.
    + intros [|k] b Hk; cbn in Hk; [injection Hk as <-; by rewrite app_nil_r|].
      specialize (H1 k b Hk). by rewrite <- app_assoc in H1.
    + intros b Hb. specialize (H2 b Hb). by rewrite <- app_assoc in H2.
Qed.

Lemma last_elem_at path i : path !! i = Some 47 → ∀ p, (i <= p)%nat →
  (∀ j, (i < j <= p)%nat → path !! j ≠ Some 47) → last_elem path p = S i.
Proof.
  intros Hi. induction p as [|p IH]; intros Hip Hj; cbn [last_elem].
  - replace i with 0%nat in * by lia. by rewrite bool_decide_true.
  - destruct (decide (i = S p)) as [->|Hne]; [by rewrite bool_decide_true|].
    rewrite bool_decide_false by (apply Hj; lia). apply IH; [lia|]. intros j ?. apply Hj. lia.
Qed.

Lemma last_elem_none path p : (∀ j, path !! j ≠ Some 47) → last_elem path p = 0%nat.
Proof. intros H. induction p as [|p IH]; cbn [last_elem]; by rewrite bool_decide_false. Qed.

(** [fmtname] is the last element of the path, padded with blanks. *)
Theorem fmtname_pads d name : 47 ∉ name →
  fmtname (d ++ 47 :: name) = name ++ replicate (DIRSIZ - length name) 32 ∧
  fmtname name = name ++ replicate (DIRSIZ - length name) 32.
Proof.
  intros Hn. assert (∀ j, name !! j ≠ Some 47) as Hj by (intros j E; apply Hn; by eapply list_elem_of_lookup_2).
  assert (∀ p, (if (DIRSIZ <=? length p)%nat then p else p ++ replicate (DIRSIZ - length p) 32) =
    p ++ replicate (DIRSIZ - length p) 32) as Hp.
  { intros p. destruct (Nat.leb_spec DIRSIZ (length p)); [|done]. replace (DIRSIZ - length p)%nat with 0%nat by lia. by rewrite app_nil_r. }
  unfold fmtname. rewrite !Hp. split.
  - rewrite (last_elem_at _ (length d)).
    + rewrite cons_middle, app_assoc, drop_app_length' by (rewrite length_app; cbn; lia). done.
    + by apply list_lookup_middle.
    + rewrite length_app. lia.
    + intros j [H1 _]. rewrite lookup_app_r by lia. destruct (j - length d)%nat eqn:E; [lia|]. apply Hj.
  - by rewrite last_elem_none.
Qed.
End Specs.

(** ** Example *)

(** A file read in three pieces, two of which cut a word. *)
Definition demo_pieces : list (list Z) := [[104; 101]; [108; 108; 111; 32; 119]; [120; 10]].
Definition demo_file (h : list call) (c : call) : reply :=
  match c with
  | Read 0 _ => match demo_pieces !! reads 0 h with Some l => mkReply (Z.of_nat (length l)) l | None => mkReply 0 [] end
  | _ => mkReply 0 []
  end.

Lemma wc_counts_witness :
  ∃ a b c, numeral a 1 ∧ numeral b 2 ∧ numeral c 9 ∧
    wc demo_file 3 0 [] [] = Ret tt (replicate 4 (Read 0 512) ++ writes 1 (a ++ [32] ++ b ++ [32] ++ c ++ [32; 10])).
Proof.
  apply (wc_counts demo_file 3 0 [] [] demo_pieces).
  - cbn. lia.
  - repeat constructor; done.
  - intros h n k Hk. cbn in Hk. unfold demo_file. by rewrite Hk.
  - cbn. lia.
Defined.
